(* ===== verification/_CoqProject ===== *)
-Q . S2P
Prelude.v
Text.v
Utf8.v
Codec.v
Model.v
Representation.v
Canonical.v
Calendar.v
Validate.v
Outcome.v
Plan.v
TextCodec.v
LogicalTypes.v
Families.v
Floats.v
JsonText.v
Temporal.v
Convert.v
Gtid.v
Position.v
Reader.v
Snapshot.v
RowSql.v
Target.v
PgRender.v
PgSql.v
PgSqlSpec.v
MyRender.v
MySql.v
MySqlSpec.v
Session.v
ControlRow.v
Contract.v
Checkpoint.v
CheckpointSpec.v
SnapshotSpec.v
MyType.v
MySource.v
MyTypeSpec.v
MyDecode.v
MyDecodeSpec.v
MyBinlog.v
MyBinlogSpec.v
PgCatalog.v
PgCatalogSpec.v
PgType.v
PgTypeSpec.v
PgLoad.v
PgDecode.v
PgSource.v
PgCapture.v
PgCaptureSpec.v
PgLoadSpec.v
MyTarget.v
MyCheckpoint.v
MyServers.v
MyCheckpointSpec.v
MySnapshotSpec.v
Worker.v
AdapterSink.v
PgSink.v
Pipeline.v
MySink.v
