(* ===== verification/Prelude.v ===== *)
(** * Verification of the CDC database synchronisation tool

    The program ([src/crates/*]) captures row changes from MySQL or PostgreSQL,
    turns each source transaction into a portable Change Event, converts its
    values by saved column plans and applies it to a target database, keeping
    one checkpoint row per task in the target itself.  This development models
    that path and proves what makes it correct: a source transaction reaches
    the target exactly once or the task reports a failure that changes nothing.

    ** Files, in dependency order

    - Prelude (this file): the [result] type of fallible code, the notations
      [let? x := e in k] and [e ;? k], machine-width integers, sorting by a key,
      the hint databases and tactics of the development.
    - Text, Utf8: strings as byte sequences and their characters; the standard-library string functions
      the program uses ([split_once], [trim], [parse], [to_ascii_lowercase], ...).
    - Codec: base64url and SHA-256 as type classes with their documented laws;
      RFC 4648 as an instance, a summing digest for witnesses.
    - Model, Representation, Canonical: [change_event/src/model.rs] -- the data
      model, protocol envelopes and raw carriers, canonical form and digests.
    - Calendar: [days_from_civil] and [civil_from_days] of
      [change_event/src/compatibility.rs].
    - Validate: [change_event/src/validate.rs], the acceptance of transactions,
      images and values, against a declarative [Spec].
    - Outcome: [change_event/src/lib.rs] and the error classification of the
      PostgreSQL and MySQL sinks ([*/src/sql.rs]).
    - Plan, TextCodec, Families, Floats, JsonText, Temporal: the checks and
      conversions by which [change_event/src/compatibility.rs] applies a saved
      plan to a value, one file per group of value families; LogicalTypes: the
      declared types and which captured values inhabit them; Convert: the
      dispatcher over the families, the carriers, and the conversion of a whole
      transaction ([convert_transaction_with_plans]).
    - Gtid, Position: GTID sets and source positions, [postgresql_15/src/checkpoint.rs]
      (with the MySQL variants of the cursor code).
    - Reader: [change_event/src/reader.rs] and [json.rs], the JSON Lines machine.
    - Snapshot: [change_event/src/snapshot.rs].
    - Target: executing planned statements, [postgresql_15/src/sql.rs], on a
      server given as the type class [PgServer].  PgRender: how that file writes
      values as parameters, array and composite texts and literals; PgSql: its
      planner [sql_with_plans_for_version]; PgSqlSpec: what planned SQL is.
    - RowSql: what the PostgreSQL and MySQL planners share (key columns, written
      columns, carriers).  MyRender, MySql: [mysql_8_0/src/sql.rs], how values are
      bound for the MySQL driver and the MySQL planner; the crates mysql_5_7 and
      mysql_8_4 hold the same code with another [TARGET_VERSION], a variable
      here; MySqlSpec: what it plans.
    - Session: a database session with transactions and faults, over an
      interface [Driver] that says how the driver's errors read.  ControlRow: the
      control row and what the checkpoint writers of both sinks share.  Contract:
      what every checkpoint writer promises, stated once over a [Dialect].
    - Checkpoint, CheckpointSpec, SnapshotSpec: the PostgreSQL writer
      ([postgresql_15/src/checkpoint.rs]), method by method, and its theorems.
    - MyType, MySource: the source type mapping of the MySQL crates
      ([mysql_5_7/src/type_mapping.rs], [mysql_8_*/src/compatibility.rs]) and the
      source contract ([mysql_source_contract/src/lib.rs]); MyDecode: how the
      values of the binlog client become portable values; MyBinlog: the decoder
      state machine and its stream ([mysql_8_0/src/decoder.rs], [binlog.rs]), with
      the events of the binlog client as data; MyTypeSpec, MyDecodeSpec and
      MyBinlogSpec: their theorems.
    - PgCatalog, PgType: the type catalog of a PostgreSQL source with its digests
      and closures, and the mapping of declared types ([postgresql_15/src/type_mapping.rs]);
      PgLoad: the checked tables, from the rows of the catalog queries
      ([postgresql_15/src/catalog.rs]); PgDecode: from the text of a value to a
      portable value ([postgresql_15/src/types.rs]); PgSource: the source contract
      ([source_contract.rs]); PgCapture: the decoder of pgoutput messages, its stream
      and how it is opened ([decoder.rs], [replication.rs]), with the messages and
      frames of the replication library as data.  PgCatalogSpec, PgTypeSpec,
      PgCaptureSpec and PgLoadSpec: their theorems.
    - MyTarget, MyCheckpoint, MyCheckpointSpec, MySnapshotSpec: the execution of
      planned statements on MySQL ([mysql_8_0/src/sql.rs]) and the MySQL writer
      ([mysql_8_0/src/checkpoint.rs]); MyServers: what MySQL documents of its GTID
      functions, and a server that satisfies it.
    - Worker: the apply loop of [web_ui/src/task_worker.rs] over the interface
      [Sink]/[SinkLaws]; AdapterSink: the macro [sink_adapter!] of that file, which
      makes a writer that keeps the contract such a sink; PgSink, Pipeline and
      MySink: the PostgreSQL and MySQL sinks with their planners, end to end.

    ** How the model is built

    State is explicit.  Pure code is pure functions; fallible code returns
    [result] with the program's error; the checkpoint writers run in the state
    monad [Session.M] over an environment of a database (control table, locks,
    business data) and a finite list of connection faults, one consumed per
    statement, so that a theorem over all fault lists covers a crash or a lost
    acknowledgement at every point.  The worker's loop is a function on the
    writer it holds, the sink it acts on and the values the stop flag will
    show.  Integers are [Z] with the width's bounds written out where the code
    checks or wraps; bytes are [ascii], strings are byte strings.  A panic of
    the source (an index out of bounds) is [None].

    What the sources call but do not contain is a parameter: [serde_json]
    (Reader, Canonical, Plan, JsonText, Convert, Checkpoint), base64 and SHA-256
    (Codec), the printing of floats and instants (PgRender), the SQL servers
    (Target, MyTarget), MySQL's GTID functions and catalog (MyCheckpoint), the
    catalog and the events of the binlog client (MyBinlog), the texts of LSNs and
    the messages of pg_walstream (PgCapture), the serialized evidence of types
    (PgCatalog, PgType, PgSource) and the reopening of a sink (Worker).  Each set of laws has an instance, and each theorem that needs
    one has a witness at that instance.

    ** What the theorems show

    - Exactly once: [Worker.apply_exactly_once] for every sink obeying the laws,
      [Pipeline.pipeline_applies_once] and [MySink.my_pipeline_applies_once] for
      the PostgreSQL and MySQL sinks and their planners, down to the statements
      executed; [CheckpointSpec]
      proves atomicity, completion without faults, idempotent replay, the
      resolution of a lost COMMIT and monotone progress of one call;
      [SnapshotSpec] the atomic initial copy, the single writer per task and
      the monotone history over any interleaving of writers; [MyCheckpointSpec]
      and [MySnapshotSpec] the same of the MySQL writer, from the same contract.
    - Meaning of positions: GTID sets denote sets of transactions, and parsing,
      printing, merging and membership are exact for that meaning; positions
      are ordered, and cursors are read back as written.
    - Acceptance: [Validate.Spec] states in one place what a transaction, an
      image and a value must satisfy; the validators decide exactly that.
    - Values: plans admit exactly what the target type can hold and the
      conversions keep the value (integers, decimals, floats, binary, bit
      strings, text, JSON, spatial values, local times and instants); converting
      a transaction changes nothing but its planned values ([Convert.Spec]).
    - Statements: the planned SQL is one statement per change, addresses the
      row by its full key, binds the values in order, and its text does not
      depend on any value; carriers read back what was sent ([PgSqlSpec.Spec]);
      quoting and array literals read back as what they quote ([PgRender.Spec]).
      The MySQL planner keeps one statement per change on the same terms, and
      nothing but character-set names and SRIDs reaches a placeholder ([MySqlSpec.Spec]).
    - Capture: every transaction the MySQL decoder publishes is the row changes of
      one committed source transaction, in order, under its GTID; the stream
      yields exactly those, validated, and ends only between transactions
      ([MyBinlogSpec.Spec]).  Mapped types are well formed, member lists and
      calendar values survive capture and binding, decoded spatial values inhabit
      their declared type ([MyTypeSpec.Spec], [MyDecodeSpec.Spec]).
    - The PostgreSQL capture: what COMMIT publishes is the rows since its BEGIN, the
      stream delivers what its decoder publishes, in disjoint ascending LSN intervals,
      and reports only positions that were delivered and acknowledged
      ([PgCaptureSpec.Spec]); a catalog that loads is fit for capture, and the evidence
      a stream attaches to text values passes the source contract ([PgLoadSpec.Spec]);
      closures, codecs and mapped types of the type catalog are what its definitions
      say ([PgCatalogSpec.Spec], [PgTypeSpec.Spec]).
    - Transport: the reader accepts exactly complete transactions whatever the
      buffering, and reads back what the writer prints.

    Most loops of the source that are not structural carry no fuel: the reader
    recurses on its input, the apply loop on its remaining retries (three, as
    [MAX_APPLY_RETRIES]), parsers on their text or on the number of bytes left.
    The recursions over the PostgreSQL type catalog carry the number of its
    definitions (one or two more), since each visits an OID at most once on a
    path; [closure_exact], [codec_decides] and [catalog_type_exact] show that it is
    enough.  The recursions the source bounds itself (64 levels of a value, 64
    domains behind a TYPE message, 100 levels of a JSON document) are bounded the
    same way.

    ** Not modelled

    The compatibility planner and its manifests, snapshot capture, the probing of
    target columns, and the web service outside the apply loop.  The intended order
    of extension is: snapshot capture, the worker's run loop, the planner. *)
From stdpp Require Export base list option strings gmap sets sorting.
From Stdlib Require Export ZArith Lia Ascii.
From stdpp Require Export strings list.
Open Scope Z_scope.

#[global] Arguments bool_decide : simpl never.
#[global] Arguments String.append !_ _ / : simpl nomatch.

(** ** Fallible computations

    [Result<A, E>] of the program.  The stdpp monad classes give it the
    [x ← m; k] notation, [mapM] and [fmap]. *)
Inductive result (E A : Type) :=
| Ok (a : A)
| Err (e : E).
Arguments Ok {E A} a.
Arguments Err {E A} e.

#[export] Instance result_ret {E} : MRet (result E) := λ A x, Ok x.
#[export] Instance result_bind {E} : MBind (result E) := λ A B f m,
  match m with Ok a => f a | Err e => Err e end.
#[export] Instance result_fmap {E} : FMap (result E) := λ A B f m,
  match m with Ok a => Ok (f a) | Err e => Err e end.

#[export] Instance result_eq_dec {E A} `{EqDecision E, EqDecision A} :
  EqDecision (result E A).
Proof. solve_decision. Defined.

Declare Scope cdc_scope.
Delimit Scope cdc_scope with cdc.
Open Scope cdc_scope.

Notation "'let?' x ':=' m 'in' k" := (mbind (λ x, k) m)
  (at level 10, x pattern, m at level 100, k at level 200,
   format "'let?'  x  ':='  m  'in' '//' k") : cdc_scope.
Notation "m ';?' k" := (mbind (λ _ : (), k) m)
  (at level 100, k at level 200, right associativity,
   format "m  ';?' '//' k") : cdc_scope.

(** The program's [ensure(condition, message)]. *)
Definition ensure {E} (b : bool) (e : E) : result E () :=
  if b then Ok () else Err e.

(** [option.ok_or(e)], [result.map_err(f)], [result.is_ok()], [result.ok()]. *)
Definition ok_or {E A} (e : E) (o : option A) : result E A :=
  match o with Some a => Ok a | None => Err e end.
Definition map_err {E F A} (f : E → F) (m : result E A) : result F A :=
  match m with Ok a => Ok a | Err e => Err (f e) end.
Definition is_ok {E A} (m : result E A) : bool :=
  match m with Ok _ => true | Err _ => false end.
Definition to_option {E A} (m : result E A) : option A :=
  match m with Ok a => Some a | Err _ => None end.

(** [for x in l { f(x)?; }] *)
Definition each {E A} (f : A → result E ()) : list A → result E () :=
  fix go l := match l with
              | [] => Ok ()
              | x :: l' => f x ;? go l'
              end.

(** A loop that also tests [HashSet::insert] for duplicates: [pre] runs before
    the insertion of [key x], [f] after it succeeded; the set of keys inserted so
    far is threaded through. *)
Definition each_distinct {E A K} `{EqDecision K} (key : A → K) (dup : E)
    (pre f : A → result E ()) : list K → list A → result E () :=
  fix go seen l := match l with
    | [] => Ok ()
    | x :: l' =>
        pre x ;?
        ensure (negb (bool_decide (key x ∈ seen))) dup ;?
        f x ;?
        go (key x :: seen) l'
    end.

Section result_lemmas.
Context {E A B : Type}.
Implicit Types (m : result E A) (f : A → result E B).

Lemma bind_ok m f b :
  (m ≫= f) = Ok b ↔ ∃ a, m = Ok a ∧ f a = Ok b.
Proof. destruct m; cbn; naive_solver. Qed.

Lemma seq_ok {C} (m : result E ()) (k : result E C) b :
  (m ;? k) = Ok b ↔ m = Ok () ∧ k = Ok b.
Proof. destruct m as [[]|]; cbn; naive_solver. Qed.

Lemma seq_err {C} (m : result E ()) (k : result E C) e :
  (m ;? k) = Err e ↔ m = Err e ∨ (m = Ok () ∧ k = Err e).
Proof. destruct m as [[]|]; cbn; naive_solver. Qed.

Lemma bind_err m f e :
  (m ≫= f) = Err e ↔ m = Err e ∨ ∃ a, m = Ok a ∧ f a = Err e.
Proof. destruct m; cbn; naive_solver. Qed.

Lemma fmap_ok m (g : A → B) b : (g <$> m) = Ok b ↔ ∃ a, m = Ok a ∧ g a = b.
Proof. destruct m; cbn; naive_solver. Qed.

Lemma ensure_ok b (e : E) : ensure b e = Ok () ↔ b = true.
Proof. destruct b; naive_solver. Qed.

Lemma ensure_err b (e e' : E) : ensure b e = Err e' ↔ b = false ∧ e = e'.
Proof. destruct b; naive_solver. Qed.

Lemma ok_or_ok (e : E) (o : option A) a : ok_or e o = Ok a ↔ o = Some a.
Proof. destruct o; naive_solver. Qed.

Lemma map_err_ok {F} (g : E → F) m a : map_err g m = Ok a ↔ m = Ok a.
Proof. destruct m; naive_solver. Qed.

Lemma is_ok_true m : is_ok m = true ↔ ∃ a, m = Ok a.
Proof. destruct m; naive_solver. Qed.

Lemma each_ok (g : A → result E ()) l :
  each g l = Ok () ↔ Forall (λ x, g x = Ok ()) l.
Proof.
  induction l as [|x l IH]; cbn; [by split|].
  rewrite Forall_cons, <- IH. destruct (g x) as [[]|]; cbn; naive_solver.
Qed.

Lemma each_cons (g : A → result E ()) x l :
  each g (x :: l) = (g x ;? each g l).
Proof. done. Qed.

Lemma each_distinct_cons `{EqDecision K} (key : A → K) (dup : E) pre g seen x l :
  each_distinct key dup pre g seen (x :: l) =
  (pre x ;? ensure (negb (bool_decide (key x ∈ seen))) dup ;? g x ;?
   each_distinct key dup pre g (key x :: seen) l).
Proof. done. Qed.

Lemma each_distinct_ok `{EqDecision K} (key : A → K) (dup : E) pre g seen l :
  each_distinct key dup pre g seen l = Ok ()
  ↔ NoDup (key <$> l) ∧ (∀ x, x ∈ l → key x ∉ seen)
    ∧ Forall (λ x, pre x = Ok () ∧ g x = Ok ()) l.
Proof.
  revert seen. induction l as [|x l IH]; intros seen.
  { cbn. split; [|done]. intros _. repeat split; [constructor| |constructor].
    intros x Hx. by apply not_elem_of_nil in Hx. }
  rewrite each_distinct_cons, fmap_cons, NoDup_cons, Forall_cons.
  rewrite !seq_ok, ensure_ok, negb_true_iff, bool_decide_eq_false, IH.
  setoid_rewrite elem_of_cons. rewrite list_elem_of_fmap. split.
  - intros (Hp & Hx & Hg & Hnd & Hseen & Hall). split_and!; try done; naive_solver.
  - intros ([Hx Hnd] & Hseen & [Hp Hg] & Hall). split_and!; try done; naive_solver.
Qed.

Lemma each_distinct_nil_ok `{EqDecision K} (key : A → K) (dup : E) pre g l :
  each_distinct key dup pre g [] l = Ok ()
  ↔ NoDup (key <$> l) ∧ Forall (λ x, pre x = Ok () ∧ g x = Ok ()) l.
Proof.
  rewrite each_distinct_ok. split; [naive_solver|]. intros [? ?]. split_and!; try done.
  intros x _. apply not_elem_of_nil.
Qed.
End result_lemmas.

Create HintDb cdc discriminated.
Create Rewrite HintDb cdc.
#[export] Hint Rewrite @seq_ok @bind_ok @fmap_ok @ensure_ok @ok_or_ok @map_err_ok
  @each_ok @each_distinct_nil_ok : cdc.

(** Opens every successful bind in the hypothesis [H]. *)
Ltac ok_inv H :=
  repeat first
    [ rewrite seq_ok in H
    | rewrite bind_ok in H
    | rewrite ensure_ok in H
    | rewrite ok_or_ok in H
    | rewrite map_err_ok in H
    | match type of H with
      | ∃ _ : (), _ => destruct H as [[] H]
      | ∃ _, _ => let a := fresh "a" in destruct H as [a H]
      | _ ∧ _ => let H' := fresh "Hok" in destruct H as [H' H]; ok_inv H'
      | Ok _ = Ok _ => injection H as H
      end ].

Ltac bool_simpl :=
  repeat match goal with
    | H : _ && _ = true |- _ => apply andb_true_iff in H as [? ?]
    | H : negb _ = true |- _ => apply negb_true_iff in H
    | H : (_ <=? _) = true |- _ => apply Z.leb_le in H
    | H : (_ <? _) = true |- _ => apply Z.ltb_lt in H
    | H : (_ =? _) = true |- _ => apply Z.eqb_eq in H
    | H : (_ <=? _) = false |- _ => apply Z.leb_gt in H
    | H : (_ <? _) = false |- _ => apply Z.ltb_ge in H
    | H : (_ =? _) = false |- _ => apply Z.eqb_neq in H
    | H : bool_decide _ = true |- _ => apply bool_decide_eq_true in H
    | H : bool_decide _ = false |- _ => apply bool_decide_eq_false in H
    | H : _ || _ = false |- _ => apply orb_false_iff in H as [? ?]
    end.

(** ** Machine integers: values are [Z] in range, arithmetic wraps or is
    checked exactly where the program's operation does. *)
Definition u8_max : Z := 2 ^ 8 - 1.
Definition u32_max : Z := 2 ^ 32 - 1.
Definition u64_max : Z := 2 ^ 64 - 1.
Definition i32_min : Z := - 2 ^ 31.
Definition i32_max : Z := 2 ^ 31 - 1.
Definition i64_min : Z := - 2 ^ 63.
Definition i64_max : Z := 2 ^ 63 - 1.
Definition i128_min : Z := - 2 ^ 127.
Definition i128_max : Z := 2 ^ 127 - 1.
Definition u128_max : Z := 2 ^ 128 - 1.

Definition in_range (lo hi z : Z) : bool := (lo <=? z) && (z <=? hi).

(** Two's complement wrap-around to [w] bits, unsigned and signed. *)
Definition wrap_u (w z : Z) : Z := z mod 2 ^ w.
Definition wrap_s (w z : Z) : Z := (z + 2 ^ (w - 1)) mod 2 ^ w - 2 ^ (w - 1).

Lemma lor_below w a b : 0 < w → 0 ≤ a < 2 ^ w → 0 ≤ b < 2 ^ w → 0 ≤ Z.lor a b < 2 ^ w.
Proof.
  intros Hw Ha Hb. assert (0 ≤ Z.lor a b) as H0 by (apply Z.lor_nonneg; lia). split; [done|].
  destruct (Z.eq_dec (Z.lor a b) 0) as [->|Hne]; [lia|].
  apply Z.log2_lt_pow2; [lia|]. rewrite Z.log2_lor by lia.
  assert (∀ x, 0 ≤ x < 2 ^ w → Z.log2 x < w) as Hl.
  { intros x Hx. destruct (Z.eq_dec x 0) as [->|]; [done|]. apply Z.log2_lt_pow2; lia. }
  apply Z.max_lub_lt; auto.
Qed.

(** [checked_add] on [u64], [saturating_add], [saturating_sub]. *)
Definition checked_add_u64 (a b : Z) : option Z :=
  if a + b <=? u64_max then Some (a + b) else None.
Definition sat_add_u64 (a b : Z) : Z := Z.min u64_max (a + b).
Definition sat_sub (a b : Z) : Z := Z.max 0 (a - b).

Lemma in_range_spec lo hi z : in_range lo hi z = true ↔ lo ≤ z ≤ hi.
Proof. unfold in_range. rewrite andb_true_iff, !Z.leb_le. done. Qed.

Lemma wrap_s_id w z : 0 < w → - 2 ^ (w - 1) ≤ z < 2 ^ (w - 1) → wrap_s w z = z.
Proof.
  intros Hw Hz. unfold wrap_s.
  assert (2 ^ w = 2 * 2 ^ (w - 1)) as Hp.
  { rewrite <- Z.pow_succ_r by lia. f_equal. lia. }
  rewrite Z.mod_small; lia.
Qed.

#[export] Hint Rewrite in_range_spec : cdc.

(** ** Stable sorting by a key ([Vec::sort_by_key], [Vec::sort_by]) *)
Section sort_by.
Context {A K : Type} (R : relation K) `{!RelDecision R} (key : A → K).

Fixpoint insert_by (x : A) (l : list A) : list A :=
  match l with
  | [] => [x]
  | y :: l' => if decide (R (key x) (key y)) then x :: y :: l' else y :: insert_by x l'
  end.
Definition sort_by (l : list A) : list A := foldr insert_by [] l.

Definition key_le (x y : A) : Prop := R (key x) (key y).

Lemma insert_by_perm x l : insert_by x l ≡ₚ x :: l.
Proof.
  induction l as [|y l IH]; cbn; [done|]. case_decide; [done|].
  rewrite IH. constructor.
Qed.

Lemma sort_by_perm l : sort_by l ≡ₚ l.
Proof. induction l as [|x l IH]; cbn; [done|]. rewrite insert_by_perm. by constructor. Qed.

Lemma insert_by_HdRel x y l :
  HdRel key_le y l → key_le y x → HdRel key_le y (insert_by x l).
Proof. destruct l; cbn; intros H1 H2; [by constructor|]. case_decide; constructor; [done|].
  by inversion H1. Qed.

Lemma insert_by_sorted `{!Total R} x l : Sorted key_le l → Sorted key_le (insert_by x l).
Proof.
  induction 1 as [|y l Hl IH Hy]; cbn; [repeat constructor|].
  case_decide as Hd; [repeat constructor; done|].
  constructor; [done|]. apply insert_by_HdRel; [done|].
  by destruct (total R (key x) (key y)).
Qed.

Lemma sort_by_sorted `{!Total R} l : Sorted key_le (sort_by l).
Proof. induction l; cbn; [constructor|]. by apply insert_by_sorted. Qed.

Lemma sort_by_id l : Sorted key_le l → sort_by l = l.
Proof.
  induction 1 as [|x l _ IH Hx]; [done|].
  change (insert_by x (sort_by l) = x :: l). rewrite IH.
  destruct Hx; cbn; [done|]. by rewrite decide_True.
Qed.

(** Two orders of a list with distinct keys sort to the same list. *)
Lemma sort_by_unique `{!Total R, !Transitive R, !AntiSymm (=) R} l k :
  NoDup (key <$> l) → l ≡ₚ k → sort_by l = sort_by k.
Proof.
  intros Hnd Hp.
  apply (StronglySorted_unique_strong key_le).
  - intros x y Hx Hy Hxy Hyx. rewrite (sort_by_perm l) in Hx. rewrite (sort_by_perm k), <- Hp in Hy.
    assert (key x = key y) as Hk by (by apply (anti_symm R)).
    apply list_elem_of_lookup in Hx as [i Hi], Hy as [j Hj].
    assert (i = j) as ->; [|congruence].
    eapply NoDup_lookup; [exact Hnd|by rewrite list_lookup_fmap, Hi|].
    rewrite list_lookup_fmap, Hj. cbn. by rewrite Hk.
  - apply Sorted_StronglySorted; [|apply sort_by_sorted].
    intros x y z. apply (transitivity (R := R)).
  - apply Sorted_StronglySorted; [|apply sort_by_sorted].
    intros x y z. apply (transitivity (R := R)).
  - rewrite (sort_by_perm l), (sort_by_perm k). done.
Qed.
End sort_by.

(** Sorting respects a relation that keeps the key. *)
Lemma insert_by_Forall2 {A K} (R : relation K) `{!RelDecision R} (key : A → K) (S : relation A) x y l k :
  (∀ a b, S a b → key a = key b) → S x y → Forall2 S l k →
  Forall2 S (insert_by R key x l) (insert_by R key y k).
Proof.
  intros HS Hxy. induction 1 as [|a b l k Hab Hlk IH]; cbn; [by repeat constructor|].
  rewrite (HS _ _ Hxy), (HS _ _ Hab). case_decide; by repeat constructor.
Qed.
Lemma sort_by_Forall2 {A K} (R : relation K) `{!RelDecision R} (key : A → K) (S : relation A) l k :
  (∀ a b, S a b → key a = key b) → Forall2 S l k → Forall2 S (sort_by R key l) (sort_by R key k).
Proof. intros HS. induction 1; cbn; [constructor|]. by apply insert_by_Forall2. Qed.
