(* ===== verification/Text.v ===== *)
(** * Rust strings and number syntax

    The program's [String]/[&str] values are UTF-8 byte sequences; here they
    are [string], whose characters are the bytes.  This file models the
    standard-library operations the sources call on them ([split_once],
    [rsplit_once], [split], [trim], [eq_ignore_ascii_case], [parse::<u64>],
    [from_str_radix], [to_string] of integers, ...) and proves the round trips
    the components share. *)
From S2P Require Import Prelude.

Notation byte := ascii.

(** ** Bytes *)
Definition bval (c : byte) : Z := Z.of_N (N_of_ascii c).
Definition byte_of (z : Z) : byte := ascii_of_N (Z.to_N (z mod 256)).

Lemma bval_range c : 0 ≤ bval c < 256.
Proof. unfold bval. pose proof (N_ascii_bounded c). lia. Qed.

Lemma byte_of_bval c : byte_of (bval c) = c.
Proof.
  unfold byte_of. rewrite Z.mod_small by apply bval_range.
  unfold bval. rewrite N2Z.id. apply ascii_N_embedding.
Qed.

Lemma bval_byte_of z : bval (byte_of z) = z mod 256.
Proof.
  unfold bval, byte_of. rewrite N_ascii_embedding; [|pose proof (Z.mod_pos_bound z 256); lia].
  pose proof (Z.mod_pos_bound z 256). lia.
Qed.

Lemma bval_inj a b : bval a = bval b → a = b.
Proof. intros H. by rewrite <- (byte_of_bval a), H, byte_of_bval. Qed.

Definition is_ascii_digit (c : byte) : bool := in_range 48 57 (bval c).
Definition is_ascii_upper (c : byte) : bool := in_range 65 90 (bval c).
Definition is_ascii_lower (c : byte) : bool := in_range 97 122 (bval c).
Definition is_ascii_alphabetic (c : byte) : bool := is_ascii_upper c || is_ascii_lower c.
Definition is_ascii_alphanumeric (c : byte) : bool := is_ascii_alphabetic c || is_ascii_digit c.
Definition is_ascii_hexdigit (c : byte) : bool :=
  is_ascii_digit c || in_range 65 70 (bval c) || in_range 97 102 (bval c).
Definition is_ascii_byte (c : byte) : bool := bval c <? 128.
Definition to_lower_byte (c : byte) : byte :=
  if is_ascii_upper c then byte_of (bval c + 32) else c.

(** ** Strings as byte sequences *)
Definition sbytes (s : string) : list byte := String.list_ascii_of_string s.
Definition of_bytes (l : list byte) : string := String.string_of_list_ascii l.
Definition slen (s : string) : Z := Z.of_nat (String.length s).
Definition sempty (s : string) : bool := match s with EmptyString => true | _ => false end.
Definition all_bytes (p : byte → bool) (s : string) : bool := forallb p (sbytes s).
Definition contains_byte (c : byte) (s : string) : bool :=
  existsb (λ b, bool_decide (b = c)) (sbytes s).
Definition NUL : byte := "000"%char.
Definition has_nul (s : string) : bool := contains_byte NUL s.
Definition is_ascii (s : string) : bool := all_bytes is_ascii_byte s.
Definition to_lower (s : string) : string := of_bytes (to_lower_byte <$> sbytes s).
Definition eq_ignore_case (a b : string) : bool := bool_decide (to_lower a = to_lower b).

Lemma of_sbytes s : of_bytes (sbytes s) = s.
Proof. apply String.string_of_list_ascii_of_string. Qed.
Lemma sbytes_of l : sbytes (of_bytes l) = l.
Proof. apply String.list_ascii_of_string_of_list_ascii. Qed.
Lemma of_bytes_app l k : of_bytes (l ++ k) = of_bytes l +:+ of_bytes k.
Proof. unfold of_bytes. induction l as [|c l IH]; cbn; [done|by rewrite IH]. Qed.
Lemma slen_bytes s : slen s = Z.of_nat (length (sbytes s)).
Proof. unfold slen. f_equal. induction s as [|c s IH]; [done|]. cbn. by rewrite IH. Qed.
Lemma sempty_spec s : sempty s = true ↔ s = ""%string.
Proof. by destruct s. Qed.
Lemma sbytes_app a b : sbytes (a +:+ b) = sbytes a ++ sbytes b.
Proof.
  induction a as [|c a IH]; [done|].
  change (c :: sbytes (a +:+ b) = c :: sbytes a ++ sbytes b). by rewrite IH.
Qed.
Lemma contains_byte_spec c s : contains_byte c s = true ↔ c ∈ sbytes s.
Proof.
  unfold contains_byte. rewrite existsb_exists, list_elem_of_In.
  split; [intros (b & ? & ?)|intros H; exists c]; bool_simpl; subst; auto.
  split; [done|]. by apply bool_decide_eq_true.
Qed.
Lemma contains_byte_false c s : contains_byte c s = false ↔ c ∉ sbytes s.
Proof. rewrite <- contains_byte_spec. by destruct (contains_byte c s). Qed.
Lemma all_bytes_spec p s : all_bytes p s = true ↔ ∀ c, c ∈ sbytes s → p c = true.
Proof.
  unfold all_bytes. rewrite forallb_forall. by setoid_rewrite list_elem_of_In.
Qed.

(** [strip_prefix] for a single byte, and for a string. *)
Definition strip_byte (c : byte) (s : string) : option string :=
  match s with String b s' => if bool_decide (b = c) then Some s' else None | _ => None end.
Fixpoint strip_prefix (p s : string) : option string :=
  match p with
  | EmptyString => Some s
  | String c p' => match strip_byte c s with Some s' => strip_prefix p' s' | None => None end
  end.
(** [value.strip_prefix('-').unwrap_or(value)] *)
Definition strip_minus (s : string) : string := default s (strip_byte "-" s).

(** [split_once(c)]: before and after the first [c]. *)
Fixpoint split_once (c : byte) (s : string) : option (string * string) :=
  match s with
  | EmptyString => None
  | String b s' =>
      if bool_decide (b = c) then Some (EmptyString, s')
      else match split_once c s' with
           | Some (l, r) => Some (String b l, r)
           | None => None
           end
  end.

(** [rsplit_once(c)]: before and after the last [c]. *)
Fixpoint rsplit_once (c : byte) (s : string) : option (string * string) :=
  match s with
  | EmptyString => None
  | String b s' =>
      match rsplit_once c s' with
      | Some (l, r) => Some (String b l, r)
      | None => if bool_decide (b = c) then Some (EmptyString, s') else None
      end
  end.

(** [split(c)]: always at least one part. *)
Fixpoint split (c : byte) (s : string) : list string :=
  match s with
  | EmptyString => [EmptyString]
  | String b s' =>
      if bool_decide (b = c) then EmptyString :: split c s'
      else match split c s' with
           | p :: ps => String b p :: ps
           | [] => [String b EmptyString]
           end
  end.

Fixpoint join (sep : string) (l : list string) : string :=
  match l with
  | [] => EmptyString
  | [s] => s
  | s :: l' => s +:+ sep +:+ join sep l'
  end.

(** [trim()]: strips the Unicode [White_Space] code points, spelled as their
    UTF-8 encodings of one, two and three bytes. *)
Definition ws1 (a : byte) : bool := in_range 9 13 (bval a) || (bval a =? 32).
Definition ws2 (a b : byte) : bool :=
  (bval a =? 0xC2) && ((bval b =? 0x85) || (bval b =? 0xA0)).
Definition ws3 (a b c : byte) : bool :=
  ((bval a =? 0xE1) && (bval b =? 0x9A) && (bval c =? 0x80)) ||
  ((bval a =? 0xE2) && (bval b =? 0x80) &&
     (in_range 0x80 0x8A (bval c) || (bval c =? 0xA8) || (bval c =? 0xA9) || (bval c =? 0xAF))) ||
  ((bval a =? 0xE2) && (bval b =? 0x81) && (bval c =? 0x9F)) ||
  ((bval a =? 0xE3) && (bval b =? 0x80) && (bval c =? 0x80)).

Fixpoint trim_start_bytes (l : list byte) : list byte :=
  match l with
  | [] => []
  | a :: l1 =>
      if ws1 a then trim_start_bytes l1 else
      match l1 with
      | [] => l
      | b :: l2 =>
          if ws2 a b then trim_start_bytes l2 else
          match l2 with
          | [] => l
          | c :: l3 => if ws3 a b c then trim_start_bytes l3 else l
          end
      end
  end.

Fixpoint trim_end_rev (l : list byte) : list byte :=
  match l with
  | [] => []
  | a :: l1 =>
      if ws1 a then trim_end_rev l1 else
      match l1 with
      | [] => l
      | b :: l2 =>
          if ws2 b a then trim_end_rev l2 else
          match l2 with
          | [] => l
          | c :: l3 => if ws3 c b a then trim_end_rev l3 else l
          end
      end
  end.

Definition trim (s : string) : string :=
  of_bytes (rev (trim_end_rev (rev (trim_start_bytes (sbytes s))))).
(** [value.trim().is_empty()] *)
Definition blank (s : string) : bool := sempty (trim s).
(** [value.trim().is_empty() || value.contains('\0')] *)
Definition blank_or_nul (s : string) : bool := blank s || has_nul s.

(** ** Splitting and joining *)
Lemma contains_byte_cons c b s :
  contains_byte c (String b s) = bool_decide (b = c) || contains_byte c s.
Proof. done. Qed.

Lemma split_once_app c a b :
  contains_byte c a = false → split_once c (a +:+ String c b) = Some (a, b).
Proof.
  induction a as [|d a IH]; cbn; intros H; [by rewrite bool_decide_eq_true_2|].
  apply orb_false_iff in H as [Hd H]. rewrite Hd. by rewrite IH.
Qed.

Lemma split_once_None c s : split_once c s = None ↔ contains_byte c s = false.
Proof.
  induction s as [|d s IH]; [done|]. rewrite contains_byte_cons. cbn.
  destruct (bool_decide (d = c)); cbn; [done|].
  rewrite <- IH. by destruct (split_once c s) as [[]|].
Qed.

Lemma split_once_Some c s a b :
  split_once c s = Some (a, b) → s = a +:+ String c b ∧ contains_byte c a = false.
Proof.
  revert a. induction s as [|d s IH]; intros a; cbn; [done|].
  case_bool_decide as Hd; [by intros [= <- <-]; subst|].
  destruct (split_once c s) as [[l r]|]; [|done]. intros [= <- <-].
  destruct (IH l eq_refl) as [-> Hl]. split; [done|].
  rewrite contains_byte_cons, Hl. by rewrite bool_decide_eq_false_2.
Qed.

Lemma rsplit_once_None c s : contains_byte c s = false → rsplit_once c s = None.
Proof.
  induction s as [|d s IH]; [done|]. rewrite contains_byte_cons, orb_false_iff.
  intros [Hd H]. cbn. by rewrite IH, Hd.
Qed.

Lemma rsplit_once_app c a b :
  contains_byte c b = false → rsplit_once c (a +:+ String c b) = Some (a, b).
Proof.
  intros H. induction a as [|d a IH]; cbn.
  - rewrite rsplit_once_None by done. by rewrite bool_decide_eq_true_2.
  - by rewrite IH.
Qed.

Lemma split_none c s : contains_byte c s = false → split c s = [s].
Proof.
  induction s as [|d s IH]; [done|]. rewrite contains_byte_cons, orb_false_iff.
  intros [Hd H]. cbn. by rewrite Hd, IH.
Qed.

Lemma split_app c a s :
  contains_byte c a = false → split c (a +:+ String c s) = a :: split c s.
Proof.
  induction a as [|d a IH]; cbn; intros H; [by rewrite bool_decide_eq_true_2|].
  apply orb_false_iff in H as [Hd H]. rewrite Hd, IH by done. done.
Qed.

Lemma join_cons2 sep a b l : join sep (a :: b :: l) = a +:+ sep +:+ join sep (b :: l).
Proof. done. Qed.

Lemma split_join c l :
  l ≠ [] → Forall (λ s, contains_byte c s = false) l →
  split c (join (String c "") l) = l.
Proof.
  induction l as [|a [|b l] IH]; [done| |]; intros _ H.
  - apply Forall_cons in H as [H _]. by apply split_none.
  - apply Forall_cons in H as [Ha H]. rewrite join_cons2.
    change (String c "" +:+ ?x) with (String c x). rewrite split_app by done.
    f_equal. by apply IH.
Qed.

(** [filter(|part| !part.is_empty())] after a [split] of joined parts. *)
Definition nonempty_parts (l : list string) : list string :=
  filter (λ s, sempty s = false) l.

Lemma nonempty_parts_all l :
  Forall (λ s, sempty s = false) l → nonempty_parts l = l.
Proof.
  unfold nonempty_parts. induction 1 as [|s l Hs _ IH]; [done|].
  by rewrite filter_cons_True, IH.
Qed.

Lemma nonempty_parts_app l k :
  nonempty_parts (l ++ k) = nonempty_parts l ++ nonempty_parts k.
Proof. apply filter_app. Qed.

Lemma split_join_two c a b :
  split c (a +:+ String c b) = split c a ++ split c b.
Proof.
  induction a as [|d a IH]; cbn.
  - by rewrite bool_decide_eq_true_2.
  - case_bool_decide; cbn; rewrite IH; [done|].
    destruct (split c a) as [|p ps] eqn:Hs; [|done].
    exfalso. clear -Hs. destruct a as [|e a]; cbn in Hs; [done|].
    case_bool_decide; [done|]. by destruct (split c a).
Qed.

(** ** Number syntax *)
Definition digit_val (radix : Z) (c : byte) : option Z :=
  let v :=
    if in_range 48 57 (bval c) then bval c - 48
    else if in_range 97 122 (bval c) then bval c - 87
    else if in_range 65 90 (bval c) then bval c - 55
    else 255 in
  if v <? radix then Some v else None.

Fixpoint digits_from (radix : Z) (s : string) (acc : Z) : option Z :=
  match s with
  | EmptyString => Some acc
  | String c s' => d ← digit_val radix c; digits_from radix s' (acc * radix + d)
  end.

(** At least one digit, nothing but digits. *)
Definition parse_digits (radix : Z) (s : string) : option Z :=
  if sempty s then None else digits_from radix s 0.

(** [uN::from_str_radix] (and [parse::<uN>] at radix 10): an optional [+],
    then digits whose value fits. *)
Definition parse_unsigned (radix max : Z) (s : string) : option Z :=
  v ← parse_digits radix (default s (strip_byte "+" s));
  if v <=? max then Some v else None.

(** [iN::from_str_radix]: an optional [+] or [-]. *)
Definition parse_signed (radix lo hi : Z) (s : string) : option Z :=
  v ← match strip_byte "-" s with
      | Some d => Z.opp <$> parse_digits radix d
      | None => parse_digits radix (default s (strip_byte "+" s))
      end;
  if in_range lo hi v then Some v else None.

Definition parse_u8 := parse_unsigned 10 u8_max.
Definition parse_u16 := parse_unsigned 10 (2 ^ 16 - 1).
Definition parse_u32 := parse_unsigned 10 u32_max.
Definition parse_u64 := parse_unsigned 10 u64_max.
Definition parse_usize := parse_u64.
Definition parse_u128 := parse_unsigned 10 u128_max.
Definition parse_i32 := parse_signed 10 i32_min i32_max.
Definition parse_i64 := parse_signed 10 i64_min i64_max.
Definition parse_i128 := parse_signed 10 i128_min i128_max.
Definition parse_hex_u64 := parse_unsigned 16 u64_max.

(** [to_string()] of an unsigned integer. *)
Definition digit_byte (d : Z) : byte := byte_of (48 + d).
Fixpoint show_from (fuel : nat) (n : Z) (acc : string) : string :=
  match fuel with
  | O => acc
  | S f =>
      let acc' := String (digit_byte (n mod 10)) acc in
      if n / 10 =? 0 then acc' else show_from f (n / 10) acc'
  end.
Definition show_nat (n : Z) : string := show_from (S (Z.to_nat (Z.log2 n))) n "".
(** [to_string()] of a signed integer. *)
Definition show_int (n : Z) : string :=
  if n <? 0 then String "-" (show_nat (- n)) else show_nat n.

#[global] Arguments parse_digits : simpl never.
#[global] Arguments show_nat : simpl never.
#[global] Arguments contains_byte : simpl never.

(** *** Printing then parsing *)
Lemma digit_byte_val d : 0 ≤ d < 10 → bval (digit_byte d) = 48 + d.
Proof. intros ?. unfold digit_byte. rewrite bval_byte_of. apply Z.mod_small. lia. Qed.

Lemma digit_val_digit radix d :
  10 ≤ radix → 0 ≤ d < 10 → digit_val radix (digit_byte d) = Some d.
Proof.
  intros Hr Hd. unfold digit_val. rewrite digit_byte_val by done.
  assert (in_range 48 57 (48 + d) = true) as -> by (apply in_range_spec; lia).
  replace (48 + d - 48) with d by lia.
  assert ((d <? radix) = true) as -> by (apply Z.ltb_lt; lia). done.
Qed.

Lemma digit_byte_is_digit d : 0 ≤ d < 10 → is_ascii_digit (digit_byte d) = true.
Proof.
  intros Hd. unfold is_ascii_digit. rewrite digit_byte_val by done.
  apply in_range_spec. lia.
Qed.

Lemma show_from_parse f n acc :
  0 ≤ n < 10 ^ Z.of_nat f →
  ∃ k, 0 ≤ k ∧
    ∀ a, digits_from 10 (show_from f n acc) a = digits_from 10 acc (a * 10 ^ k + n).
Proof.
  revert n acc. induction f as [|f IH]; intros n acc Hn.
  { exists 0. split; [lia|]. intros a. cbn in *. f_equal. lia. }
  cbn [show_from].
  assert (0 ≤ n mod 10 < 10) as Hm by (apply Z.mod_pos_bound; lia).
  pose proof (Z.div_mod n 10) as Hdm.
  case_match eqn:Hd.
  - exists 1. split; [lia|]. intros a. cbn [digits_from].
    rewrite digit_val_digit by lia. cbn. apply Z.eqb_eq in Hd. f_equal. lia.
  - destruct (IH (n / 10) (String (digit_byte (n mod 10)) acc)) as (k & Hk0 & Hk).
    { rewrite Nat2Z.inj_succ, Z.pow_succ_r in Hn by lia.
      split; [apply Z.div_pos; lia|]. apply Z.div_lt_upper_bound; lia. }
    exists (Z.succ k). split; [lia|]. intros a. rewrite Hk. cbn [digits_from].
    rewrite digit_val_digit, Z.pow_succ_r by lia. cbn. f_equal. lia.
Qed.

Lemma show_from_bytes (P : byte → Prop) f n acc :
  (∀ d, 0 ≤ d < 10 → P (digit_byte d)) → 0 ≤ n →
  Forall P (sbytes acc) → Forall P (sbytes (show_from f n acc)).
Proof.
  intros HP. revert n acc. induction f as [|f IH]; intros n acc Hn Hacc; [done|].
  cbn [show_from].
  assert (Forall P (sbytes (String (digit_byte (n mod 10)) acc))).
  { change (Forall P (digit_byte (n mod 10) :: sbytes acc)). constructor; [|done].
    apply HP, Z.mod_pos_bound. lia. }
  case_match; [done|]. apply IH; [|done]. apply Z.div_pos; lia.
Qed.

Lemma show_from_nonempty f n acc : sempty acc = false → sempty (show_from f n acc) = false.
Proof.
  revert n acc. induction f as [|f IH]; intros n acc H; [done|].
  cbn [show_from]. case_match; [done|]. by apply IH.
Qed.

Lemma show_fuel n : 0 ≤ n → n < 10 ^ Z.of_nat (S (Z.to_nat (Z.log2 n))).
Proof.
  intros Hn. pose proof (Z.log2_nonneg n).
  rewrite Nat2Z.inj_succ, Z2Nat.id by done.
  destruct (decide (n = 0)) as [->|]; [cbn; lia|].
  apply Z.lt_le_trans with (2 ^ Z.succ (Z.log2 n)); [apply Z.log2_spec; lia|].
  apply Z.pow_le_mono_l. lia.
Qed.

Lemma show_nat_nonempty n : sempty (show_nat n) = false.
Proof. unfold show_nat. cbn [show_from]. case_match; [done|]. by apply show_from_nonempty. Qed.

Lemma show_nat_bytes (P : byte → Prop) n :
  (∀ d, 0 ≤ d < 10 → P (digit_byte d)) → 0 ≤ n → Forall P (sbytes (show_nat n)).
Proof. intros. apply show_from_bytes; [done..|constructor]. Qed.

Lemma show_nat_digits n : 0 ≤ n → all_bytes is_ascii_digit (show_nat n) = true.
Proof.
  intros Hn. apply all_bytes_spec, Forall_forall, show_nat_bytes; [|done].
  apply digit_byte_is_digit.
Qed.

Lemma digits_not_byte c s :
  is_ascii_digit c = false → all_bytes is_ascii_digit s = true → contains_byte c s = false.
Proof.
  intros Hc Hs. apply contains_byte_false. intros Hin.
  rewrite all_bytes_spec in Hs. apply Hs in Hin. congruence.
Qed.

Lemma strip_byte_none c s : contains_byte c s = false → strip_byte c s = None.
Proof.
  destruct s as [|d s]; [done|]. rewrite contains_byte_cons. cbn.
  by case_bool_decide.
Qed.

Lemma show_nat_no_byte c n :
  is_ascii_digit c = false → 0 ≤ n → contains_byte c (show_nat n) = false.
Proof. intros. by apply digits_not_byte; [|apply show_nat_digits]. Qed.

Lemma parse_digits_show n : 0 ≤ n → parse_digits 10 (show_nat n) = Some n.
Proof.
  intros Hn. unfold parse_digits. rewrite show_nat_nonempty. unfold show_nat.
  destruct (show_from_parse (S (Z.to_nat (Z.log2 n))) n "") as (k & _ & Hk).
  { split; [done|]. by apply show_fuel. }
  rewrite Hk. cbn. f_equal; lia.
Qed.

Lemma parse_unsigned_show max n :
  0 ≤ n ≤ max → parse_unsigned 10 max (show_nat n) = Some n.
Proof.
  intros Hn. unfold parse_unsigned.
  rewrite strip_byte_none by (apply show_nat_no_byte; [done|lia]). cbn.
  rewrite parse_digits_show by lia. cbn. case_match eqn:H; [done|].
  apply Z.leb_gt in H. lia.
Qed.

Lemma parse_signed_show lo hi n :
  lo ≤ n ≤ hi → parse_signed 10 lo hi (show_int n) = Some n.
Proof.
  intros Hn. unfold parse_signed, show_int.
  destruct (n <? 0) eqn:Hs; [apply Z.ltb_lt in Hs|apply Z.ltb_ge in Hs].
  - cbn. rewrite bool_decide_eq_true_2, parse_digits_show by (done || lia).
    cbn. replace (- - n) with n by lia.
    by rewrite (proj2 (in_range_spec _ _ _)) by lia.
  - rewrite !strip_byte_none by (apply show_nat_no_byte; done || lia).
    cbn. rewrite parse_digits_show by lia. cbn.
    by rewrite (proj2 (in_range_spec _ _ _)) by lia.
Qed.

Lemma show_nat_inj n m : 0 ≤ n → 0 ≤ m → show_nat n = show_nat m → n = m.
Proof.
  intros Hn Hm H. apply parse_digits_show in Hn, Hm. rewrite H in Hn. congruence.
Qed.

(** *** Digit strings always parse *)
Lemma digit_val_ascii c :
  is_ascii_digit c = true → digit_val 10 c = Some (bval c - 48).
Proof.
  unfold is_ascii_digit, digit_val. intros H. rewrite H.
  apply in_range_spec in H. by rewrite (proj2 (Z.ltb_lt _ _)) by lia.
Qed.

Lemma digits_from_ascii s a :
  all_bytes is_ascii_digit s = true → 0 ≤ a →
  ∃ n, digits_from 10 s a = Some n ∧ a * 10 ^ slen s ≤ n < (a + 1) * 10 ^ slen s.
Proof.
  revert a. induction s as [|c s IH]; intros a Hs Ha.
  { exists a. cbn. split; [done|]. unfold slen. cbn. lia. }
  apply andb_true_iff in Hs as [Hc Hs].
  cbn. rewrite digit_val_ascii by done. cbn.
  unfold is_ascii_digit in Hc. apply in_range_spec in Hc.
  destruct (IH (a * 10 + (bval c - 48)) Hs) as (n & -> & Hn); [lia|].
  exists n. split; [done|].
  assert (slen (String c s) = Z.succ (slen s)) as -> by (unfold slen; cbn; lia).
  rewrite Z.pow_succ_r by (unfold slen; lia). nia.
Qed.

Lemma digits_from_digits s a n :
  digits_from 10 s a = Some n → all_bytes is_ascii_digit s = true.
Proof.
  revert a. induction s as [|c s IH]; intros a H; [done|]. cbn in H.
  apply bind_Some in H as (d & Hd & H). apply IH in H.
  change (all_bytes is_ascii_digit (String c s))
    with (is_ascii_digit c && all_bytes is_ascii_digit s).
  rewrite H, andb_true_r.
  unfold digit_val in Hd. unfold is_ascii_digit.
  destruct (in_range 48 57 (bval c)) eqn:E; [done|].
  destruct (in_range 97 122 (bval c)) eqn:E1; [apply in_range_spec in E1|];
  destruct (in_range 65 90 (bval c)) eqn:E2; try apply in_range_spec in E2;
  case_match eqn:E3; try done; apply Z.ltb_lt in E3; lia.
Qed.

Lemma parse_digits_Some s :
  (∃ n, parse_digits 10 s = Some n)
  ↔ sempty s = false ∧ all_bytes is_ascii_digit s = true.
Proof.
  unfold parse_digits. destruct (sempty s); [naive_solver|]. split.
  - intros [n H]. split; [done|]. by eapply digits_from_digits.
  - intros [_ H]. destruct (digits_from_ascii s 0 H) as (n & ? & _); [lia|]. eauto.
Qed.

Lemma parse_digits_nonneg s n : parse_digits 10 s = Some n → 0 ≤ n.
Proof.
  intros H. pose proof (ex_intro _ n H : ∃ n, _) as Hx.
  apply parse_digits_Some in Hx as [He Hd]. unfold parse_digits in H. rewrite He in H.
  destruct (digits_from_ascii s 0 Hd) as (m & Hm & ?); [lia|]. rewrite Hm in H.
  injection H as ->. lia.
Qed.

(** *** The parts of a split *)
Lemma split_parts_clean c s : Forall (λ p, contains_byte c p = false) (split c s).
Proof.
  induction s as [|b s IH]; cbn; [by repeat constructor|].
  case_bool_decide as Hb; [by constructor|].
  destruct (split c s) as [|p ps]; inversion_clear IH; constructor; try done.
  - by rewrite contains_byte_cons, bool_decide_eq_false_2.
  - by rewrite contains_byte_cons, bool_decide_eq_false_2.
Qed.

Lemma split_parts_bytes c d s p :
  contains_byte d s = false → p ∈ split c s → contains_byte d p = false.
Proof.
  revert p. induction s as [|b s IH]; intros p; cbn.
  { intros _ Hp. by apply list_elem_of_singleton in Hp as ->. }
  rewrite contains_byte_cons, orb_false_iff. intros [Hb Hs].
  destruct (bool_decide (b = c)); [intros [->|Hp]%elem_of_cons; [done|by apply IH]|].
  destruct (split c s) as [|q qs] eqn:E.
  - intros ->%list_elem_of_singleton. by rewrite contains_byte_cons, Hb.
  - intros [->|Hp]%elem_of_cons.
    + rewrite contains_byte_cons, Hb. apply IH; [done|]. left.
    + apply IH; [done|]. by right.
Qed.

Lemma split_nonempty c s : split c s ≠ [].
Proof. destruct s; cbn; [done|]. case_bool_decide; [done|]. by destruct (split c s). Qed.

(** *** Lower case *)
Lemma to_lower_byte_idem c : to_lower_byte (to_lower_byte c) = to_lower_byte c.
Proof. by destruct c as [[] [] [] [] [] [] [] []]. Qed.

Lemma to_lower_bytes s : sbytes (to_lower s) = to_lower_byte <$> sbytes s.
Proof. apply sbytes_of. Qed.

Lemma to_lower_idem s : to_lower (to_lower s) = to_lower s.
Proof.
  unfold to_lower at 1. rewrite to_lower_bytes, <- list_fmap_compose.
  unfold to_lower. f_equal. apply list_fmap_ext. intros i c _. apply to_lower_byte_idem.
Qed.

Lemma to_lower_contains c s :
  (∀ b, to_lower_byte b = c → b = c) → contains_byte c s = false →
  contains_byte c (to_lower s) = false.
Proof.
  intros Hc. rewrite !contains_byte_false, to_lower_bytes. intros H [b [Hb Hin]]%list_elem_of_fmap.
  apply H. by rewrite <- (Hc b).
Qed.

Lemma to_lower_all (p : byte → bool) s :
  (∀ b, p (to_lower_byte b) = p b) → all_bytes p (to_lower s) = all_bytes p s.
Proof.
  intros Hp. unfold all_bytes. rewrite to_lower_bytes.
  induction (sbytes s) as [|b l IH]; cbn; [done|]. by rewrite Hp, IH.
Qed.

Lemma to_lower_empty s : sempty (to_lower s) = sempty s.
Proof. by destruct s. Qed.

(** ** Trimming *)

(** The list starts with an encoded white-space character. *)
Definition starts_white (l : list byte) : bool :=
  match l with
  | a :: b :: c :: _ => ws1 a || ws2 a b || ws3 a b c
  | [a; b] => ws1 a || ws2 a b
  | [a] => ws1 a
  | [] => false
  end.

Lemma trim_start_fixed l : starts_white l = false → trim_start_bytes l = l.
Proof.
  destruct l as [|a [|b [|c l]]]; cbn; [done|by intros ->|..].
  - by intros [-> ->]%orb_false_iff.
  - by intros [[-> ->]%orb_false_iff ->]%orb_false_iff.
Qed.

Lemma trim_start_clean l : starts_white (trim_start_bytes l) = false.
Proof.
  remember (length l) as n eqn:Hn. assert (length l ≤ n)%nat as Hle by lia. clear Hn. revert l Hle.
  induction n as [|n IH]; intros l Hle; [by destruct l; [|cbn in Hle; lia]|].
  destruct l as [|a [|b [|c l]]]; cbn [trim_start_bytes]; [done|..].
  - by destruct (ws1 a) eqn:E; [|cbn; rewrite E].
  - destruct (ws1 a) eqn:E1; [apply (IH [b]); cbn in *; lia|].
    destruct (ws2 a b) eqn:E2; [done|]. cbn. by rewrite E1, E2.
  - destruct (ws1 a) eqn:E1; [apply (IH (b :: c :: l)); cbn in *; lia|].
    destruct (ws2 a b) eqn:E2; [apply (IH (c :: l)); cbn in *; lia|].
    destruct (ws3 a b c) eqn:E3; [apply IH; cbn in *; lia|]. cbn. by rewrite E1, E2, E3.
Qed.

(** Only white space trims to nothing, and then the list starts with it. *)
Lemma trim_end_rev_nil l : trim_end_rev l = [] → l = [] ∨ starts_white (rev l) = true.
Proof.
  remember (length l) as n eqn:Hn. assert (length l ≤ n)%nat as Hle by lia. clear Hn. revert l Hle.
  assert (∀ k (w : list byte), starts_white w = true → starts_white (w ++ k) = true) as Happ.
  { intros k [|x [|y [|z w]]]; cbn; [done|..]; intros H; [destruct k as [|? [|? ?]]|destruct k|];
      cbn; rewrite ?orb_true_iff in *; tauto. }
  induction n as [|n IH]; intros l Hle; [by destruct l; [left|cbn in Hle; lia]|].
  assert (∀ k w : list byte, (length k ≤ n)%nat → starts_white w = true → trim_end_rev k = [] →
            starts_white (rev k ++ w) = true) as Hstep.
  { intros k w Hk Hw H. destruct (IH k Hk H) as [->|Hs]; [done|by apply Happ]. }
  destruct l as [|a l1]; [by left|]. cbn [trim_end_rev]. cbn in Hle. intros H. right.
  destruct (ws1 a) eqn:E1.
  { cbn [rev]. apply Hstep; [lia|cbn; by rewrite E1|done]. }
  destruct l1 as [|b l2]; [done|]. cbn in Hle. destruct (ws2 b a) eqn:E2.
  { cbn [rev]. rewrite <- app_assoc. apply Hstep; [lia|cbn; by rewrite E2, orb_true_r|done]. }
  destruct l2 as [|c l3]; [done|]. cbn in Hle. destruct (ws3 c b a) eqn:E3; [|done].
  cbn [rev]. rewrite <- !app_assoc. apply Hstep; [lia|cbn; by rewrite E3, orb_true_r|done].
Qed.

Lemma blank_starts s : s ≠ ""%string → starts_white (sbytes s) = false → blank s = false.
Proof.
  intros Hne Hs. unfold blank, trim. rewrite (trim_start_fixed _ Hs).
  destruct (sempty _) eqn:E; [|done]. exfalso.
  apply sempty_spec in E. apply (f_equal sbytes) in E. rewrite sbytes_of in E.
  assert (trim_end_rev (rev (sbytes s)) = []) as Hnil.
  { rewrite <- (rev_involutive (trim_end_rev _)), E. done. }
  apply trim_end_rev_nil in Hnil as [Hnil|Hw]; [|by rewrite rev_involutive, Hs in Hw].
  apply Hne. rewrite <- (of_sbytes s). rewrite <- (rev_involutive (sbytes s)), Hnil. done.
Qed.

Lemma trim_end_prefix l : ∃ w, l = w ++ trim_end_rev l.
Proof.
  remember (length l) as n eqn:Hn. assert (length l ≤ n)%nat as Hle by lia. clear Hn. revert l Hle.
  induction n as [|n IH]; intros l Hle; [exists []; by destruct l; [|cbn in Hle; lia]|].
  destruct l as [|a [|b [|c l]]]; cbn [trim_end_rev]; [by exists []|..]; cbn in Hle.
  - destruct (ws1 a); [by exists [a]|by exists []].
  - destruct (ws1 a); [destruct (IH [b]) as [w Hw]; [cbn; lia|exists (a :: w); by rewrite Hw at 1]|].
    destruct (ws2 b a); [by exists [a; b]|by exists []].
  - destruct (ws1 a); [destruct (IH (b :: c :: l)) as [w Hw]; [cbn; lia|exists (a :: w); by rewrite Hw at 1]|].
    destruct (ws2 b a); [destruct (IH (c :: l)) as [w Hw]; [cbn; lia|exists (a :: b :: w); by rewrite Hw at 1]|].
    destruct (ws3 c b a); [destruct (IH l) as [w Hw]; [cbn; lia|exists (a :: b :: c :: w); by rewrite Hw at 1]|by exists []].
Qed.

Lemma starts_white_prefix w k : w ≠ [] → starts_white (w ++ k) = false → starts_white w = false.
Proof.
  destruct w as [|a [|b [|c w]]]; cbn; [done|..]; intros _ H; [destruct k as [|? [|? ?]]|destruct k|];
    cbn in *; rewrite ?orb_false_iff in *; tauto.
Qed.

(** A trimmed string does not start with white space. *)
Lemma trim_clean s : starts_white (sbytes (trim s)) = false.
Proof.
  unfold trim. rewrite sbytes_of. pose proof (trim_start_clean (sbytes s)) as H.
  destruct (trim_end_prefix (rev (trim_start_bytes (sbytes s)))) as [w Hw].
  set (t := trim_end_rev _) in *. destruct (decide (rev t = [])) as [->|Hne]; [done|].
  eapply starts_white_prefix; [done|]. rewrite <- rev_app_distr, <- Hw, rev_involutive. exact H.
Qed.

Lemma ws_lower a : ws1 (to_lower_byte a) = ws1 a.
Proof. destruct a as [[] [] [] [] [] [] [] []]; reflexivity. Qed.
Lemma lower_high a z : z < 65 ∨ 122 < z → (bval (to_lower_byte a) =? z) = (bval a =? z).
Proof.
  intros Hz. unfold to_lower_byte. destruct (is_ascii_upper a) eqn:E; [|done].
  unfold is_ascii_upper in E. apply in_range_spec in E. rewrite bval_byte_of, Z.mod_small by lia.
  apply eq_iff_eq_true. rewrite !Z.eqb_eq. lia.
Qed.
Lemma range_lower a lo hi : 122 < lo → in_range lo hi (bval (to_lower_byte a)) = in_range lo hi (bval a).
Proof.
  intros Hz. unfold to_lower_byte. destruct (is_ascii_upper a) eqn:E; [|done].
  unfold is_ascii_upper in E. apply in_range_spec in E. rewrite bval_byte_of, Z.mod_small by lia.
  apply eq_iff_eq_true. rewrite !in_range_spec. lia.
Qed.
Lemma starts_white_lower l : starts_white (to_lower_byte <$> l) = starts_white l.
Proof.
  assert (∀ a b, ws2 (to_lower_byte a) (to_lower_byte b) = ws2 a b) as H2.
  { intros a b. unfold ws2. by rewrite !lower_high by lia. }
  assert (∀ a b c, ws3 (to_lower_byte a) (to_lower_byte b) (to_lower_byte c) = ws3 a b c) as H3.
  { intros a b c. unfold ws3. by rewrite !lower_high, range_lower by lia. }
  destruct l as [|a [|b [|c l]]]; cbn; by rewrite ?ws_lower, ?H2, ?H3.
Qed.

(** A non-empty trimmed string is not blank, in lower case either. *)
Lemma trimmed_not_blank s : trim s ≠ ""%string → blank (to_lower (trim s)) = false.
Proof.
  intros Hne. apply blank_starts.
  - intros H. apply Hne. apply (f_equal sbytes) in H. unfold to_lower in H. rewrite sbytes_of in H.
    destruct (trim s); [done|discriminate].
  - unfold to_lower. rewrite sbytes_of, starts_white_lower. apply trim_clean.
Qed.

Lemma trim_fixed s l c :
  starts_white (sbytes s) = false → sbytes s = l ++ [c] → bval c < 128 → ws1 c = false → trim s = s.
Proof.
  intros Hs Hl Hc Hw. unfold trim. rewrite (trim_start_fixed _ Hs), Hl, rev_app_distr. cbn [rev app].
  assert (trim_end_rev (c :: rev l) = c :: rev l) as ->.
  { cbn [trim_end_rev]. rewrite Hw. destruct (rev l) as [|b [|a r]]; [done|..];
      (assert (ws2 b c = false) as -> by (unfold ws2; apply andb_false_iff; right; apply orb_false_iff;
         rewrite !Z.eqb_neq; lia)); [done|].
    assert (ws3 a b c = false) as ->; [|done].
    unfold ws3. rewrite !orb_false_iff, !andb_false_iff, !orb_false_iff, !Z.eqb_neq.
    assert (in_range 128 138 (bval c) = false) as -> by (apply not_true_iff_false; rewrite in_range_spec; lia).
    split_and!; right; try split_and!; try done; lia. }
  cbn [rev]. rewrite rev_involutive, <- Hl. apply of_sbytes.
Qed.
