(* ===== verification/Utf8.v ===== *)
(** * UTF-8

    A Rust [String] is a valid UTF-8 byte sequence.  This file models
    [String::from_utf8], [str::chars] and [char::len_utf8], and proves that
    decoding and encoding are inverse between valid byte sequences and
    sequences of Unicode scalar values. *)
From S2P Require Import Prelude Text.

(** ** Validity *)
Definition cont (lo hi : Z) (c : byte) : bool := in_range lo hi (bval c).
Fixpoint utf8_valid (l : list byte) : bool :=
  match l with
  | [] => true
  | a :: l1 =>
      let x := bval a in
      if x <? 0x80 then utf8_valid l1 else
      match l1 with
      | [] => false
      | b :: l2 =>
          if in_range 0xC2 0xDF x then cont 0x80 0xBF b && utf8_valid l2 else
          match l2 with
          | [] => false
          | c :: l3 =>
              if in_range 0xE0 0xEF x then
                cont (if x =? 0xE0 then 0xA0 else 0x80) (if x =? 0xED then 0x9F else 0xBF) b
                && cont 0x80 0xBF c && utf8_valid l3
              else
              match l3 with
              | [] => false
              | d :: l4 =>
                  in_range 0xF0 0xF4 x
                  && cont (if x =? 0xF0 then 0x90 else 0x80) (if x =? 0xF4 then 0x8F else 0xBF) b
                  && cont 0x80 0xBF c && cont 0x80 0xBF d && utf8_valid l4
              end
          end
      end
  end.
(** [String::from_utf8] *)
Definition from_utf8 (l : list byte) : option string :=
  if utf8_valid l then Some (of_bytes l) else None.

(** ** Characters *)
(** [char]: a Unicode scalar value. *)
Definition scalar (c : Z) : bool := in_range 0 0xD7FF c || in_range 0xE000 0x10FFFF c.

(** [char::len_utf8] and [char::encode_utf8] *)
Definition len_utf8 (c : Z) : Z :=
  if c <? 0x80 then 1 else if c <? 0x800 then 2 else if c <? 0x10000 then 3 else 4.
Definition char_bytes (c : Z) : list byte :=
  if c <? 0x80 then [byte_of c]
  else if c <? 0x800 then [byte_of (0xC0 + c / 64); byte_of (0x80 + c mod 64)]
  else if c <? 0x10000 then
    [byte_of (0xE0 + c / 4096); byte_of (0x80 + c / 64 mod 64); byte_of (0x80 + c mod 64)]
  else
    [byte_of (0xF0 + c / 262144); byte_of (0x80 + c / 4096 mod 64);
     byte_of (0x80 + c / 64 mod 64); byte_of (0x80 + c mod 64)].

(** [str::chars], on a valid sequence; an invalid one is cut short. *)
Fixpoint chars_bytes (l : list byte) : list Z :=
  match l with
  | [] => []
  | a :: l1 =>
      let x := bval a in
      if x <? 0x80 then x :: chars_bytes l1 else
      match l1 with
      | [] => []
      | b :: l2 =>
          if x <? 0xE0 then (x - 0xC0) * 64 + (bval b - 0x80) :: chars_bytes l2 else
          match l2 with
          | [] => []
          | c :: l3 =>
              if x <? 0xF0 then
                (x - 0xE0) * 4096 + (bval b - 0x80) * 64 + (bval c - 0x80) :: chars_bytes l3
              else
              match l3 with
              | [] => []
              | d :: l4 =>
                  (x - 0xF0) * 262144 + (bval b - 0x80) * 4096 + (bval c - 0x80) * 64
                  + (bval d - 0x80) :: chars_bytes l4
              end
          end
      end
  end.
Definition chars (s : string) : list Z := chars_bytes (sbytes s).

(** [iter().collect::<String>()] of characters. *)
Definition of_chars (cs : list Z) : string := of_bytes (concat (char_bytes <$> cs)).
(** [char::is_whitespace]: the Unicode property [White_Space]. *)
Definition white_space (c : Z) : bool :=
  in_range 9 13 c || (c =? 32) || (c =? 0x85) || (c =? 0xA0) || (c =? 0x1680) || in_range 0x2000 0x200A c
  || (c =? 0x2028) || (c =? 0x2029) || (c =? 0x202F) || (c =? 0x205F) || (c =? 0x3000).
Fixpoint skip_white (cs : list Z) : list Z :=
  match cs with
  | c :: cs' => if white_space c then skip_white cs' else cs
  | [] => []
  end.
(** [split_whitespace()]: the maximal runs of other characters; [word] is the
    run being read, reversed. *)
Fixpoint words_from (word : list Z) (cs : list Z) : list string :=
  match cs with
  | [] => match word with [] => [] | _ => [of_chars (rev word)] end
  | c :: cs' =>
      if white_space c then
        match word with [] => words_from [] cs' | _ => of_chars (rev word) :: words_from [] cs' end
      else words_from (c :: word) cs'
  end.
Definition split_whitespace (s : string) : list string := words_from [] (chars s).
(** Is the string a Rust string? *)
Definition rust_string (s : string) : Prop := utf8_valid (sbytes s) = true.

(** ** Encoding and decoding are inverse *)
Ltac byte_ranges :=
  repeat match goal with
         | c : byte |- _ =>
             lazymatch goal with
             | _ : 0 ≤ bval c < 256 |- _ => fail
             | _ => pose proof (bval_range c)
             end
         end.
Lemma bval_small z : 0 ≤ z < 256 → bval (byte_of z) = z.
Proof. intros. rewrite bval_byte_of. by apply Z.mod_small. Qed.

Ltac scalar_bounds :=
  match goal with
  | H : scalar ?c = true |- _ =>
      unfold scalar in H; apply orb_true_iff in H;
      rewrite !in_range_spec in H
  end.

Lemma leb_t a b : a ≤ b → (a <=? b) = true. Proof. apply Z.leb_le. Qed.
Lemma leb_f a b : b < a → (a <=? b) = false. Proof. apply Z.leb_gt. Qed.
Lemma ltb_t a b : a < b → (a <? b) = true. Proof. apply Z.ltb_lt. Qed.
Lemma ltb_f a b : b ≤ a → (a <? b) = false. Proof. apply Z.ltb_ge. Qed.
Lemma range_t a b z : a ≤ z ≤ b → in_range a b z = true. Proof. apply in_range_spec. Qed.
Lemma range_f a b z : z < a ∨ b < z → in_range a b z = false.
Proof. intros H. apply not_true_iff_false. rewrite in_range_spec. lia. Qed.

(** A scalar is encoded as a valid sequence that decodes to it. *)
Lemma char_step c l :
  scalar c = true →
  utf8_valid (char_bytes c ++ l) = utf8_valid l
  ∧ chars_bytes (char_bytes c ++ l) = c :: chars_bytes l.
Proof.
  intros Hc. scalar_bounds. unfold char_bytes.
  destruct (c <? 0x80) eqn:H1; [|destruct (c <? 0x800) eqn:H2; [|destruct (c <? 0x10000) eqn:H3]];
    bool_simpl; cbn [app utf8_valid chars_bytes];
    rewrite !bval_small by (Z.to_euclidean_division_equations; lia).
  - rewrite ltb_t by lia. done.
  - rewrite ltb_f by (Z.to_euclidean_division_equations; lia).
    rewrite range_t, ltb_t by (Z.to_euclidean_division_equations; lia).
    unfold cont. rewrite bval_small, range_t by (Z.to_euclidean_division_equations; lia).
    split; [done|]. f_equal. Z.to_euclidean_division_equations; lia.
  - rewrite ltb_f by (Z.to_euclidean_division_equations; lia).
    rewrite range_f by (Z.to_euclidean_division_equations; lia).
    rewrite range_t by (Z.to_euclidean_division_equations; lia).
    rewrite (ltb_f _ 0xE0), (ltb_t _ 0xF0) by (Z.to_euclidean_division_equations; lia).
    unfold cont. rewrite !bval_small by (Z.to_euclidean_division_equations; lia).
    rewrite !range_t; [split; [done|]; f_equal; Z.to_euclidean_division_equations; lia|..];
      repeat case_match; bool_simpl; Z.to_euclidean_division_equations; lia.
  - rewrite ltb_f by (Z.to_euclidean_division_equations; lia).
    rewrite !(range_f _ _ (0xF0 + _)) by (Z.to_euclidean_division_equations; lia).
    rewrite (ltb_f _ 0xE0), (ltb_f _ 0xF0) by (Z.to_euclidean_division_equations; lia).
    unfold cont. rewrite !bval_small by (Z.to_euclidean_division_equations; lia).
    rewrite !range_t; [split; [done|]; f_equal; Z.to_euclidean_division_equations; lia|..];
      repeat case_match; bool_simpl; Z.to_euclidean_division_equations; lia.
Qed.

Lemma byte_eq c z : z = bval c → byte_of z = c.
Proof. intros ->. apply byte_of_bval. Qed.

(** A valid sequence starts with the encoding of a scalar. *)
Lemma utf8_inv l :
  utf8_valid l = true →
  l = [] ∨ ∃ c l', scalar c = true ∧ utf8_valid l' = true ∧ l = char_bytes c ++ l'.
Proof.
  destruct l as [|a l1]; [by left|]. intros H. right. cbn in H. byte_ranges.
  destruct (bval a <? 0x80) eqn:H1; bool_simpl.
  { exists (bval a), l1. split_and!; [apply orb_true_iff; left; apply range_t; lia|done|].
    unfold char_bytes. rewrite ltb_t by lia. cbn. by rewrite byte_of_bval. }
  destruct l1 as [|b l2]; [done|]. byte_ranges.
  destruct (in_range 0xC2 0xDF (bval a)) eqn:R2.
  { apply in_range_spec in R2. apply andb_true_iff in H as [Hb%in_range_spec Hl].
    exists ((bval a - 0xC0) * 64 + (bval b - 0x80)), l2.
    split_and!; [apply orb_true_iff; left; apply range_t; lia|done|].
    unfold char_bytes. rewrite ltb_f, ltb_t by lia. cbn. f_equal; [|f_equal]; symmetry; apply byte_eq;
      Z.to_euclidean_division_equations; lia. }
  destruct l2 as [|c l3]; [done|]. byte_ranges.
  destruct (in_range 0xE0 0xEF (bval a)) eqn:R3.
  { apply in_range_spec in R3. rewrite !andb_true_iff in H. destruct H as [[Hb%in_range_spec Hc%in_range_spec] Hl].
    exists ((bval a - 0xE0) * 4096 + (bval b - 0x80) * 64 + (bval c - 0x80)), l3.
    split_and!; [|done|].
    - apply orb_true_iff. rewrite !in_range_spec. repeat case_match; bool_simpl; lia.
    - unfold char_bytes. rewrite ltb_f, ltb_f, ltb_t by (repeat case_match; bool_simpl; lia).
      cbn. repeat f_equal; symmetry; apply byte_eq; repeat case_match; bool_simpl;
        Z.to_euclidean_division_equations; lia. }
  destruct l3 as [|d l4]; [done|]. byte_ranges.
  rewrite !andb_true_iff in H.
  destruct H as [[[[Ha%in_range_spec Hb%in_range_spec] Hc%in_range_spec] Hd%in_range_spec] Hl].
  exists ((bval a - 0xF0) * 262144 + (bval b - 0x80) * 4096 + (bval c - 0x80) * 64 + (bval d - 0x80)), l4.
  split_and!; [|done|].
  - apply orb_true_iff. rewrite !in_range_spec. repeat case_match; bool_simpl; lia.
  - unfold char_bytes. rewrite !ltb_f by (repeat case_match; bool_simpl; lia).
    cbn. repeat f_equal; symmetry; apply byte_eq; repeat case_match; bool_simpl;
      Z.to_euclidean_division_equations; lia.
Qed.

Lemma char_bytes_length c : 0 < Z.of_nat (length (char_bytes c)) ∧ Z.of_nat (length (char_bytes c)) = len_utf8 c.
Proof. unfold char_bytes, len_utf8. repeat case_match; cbn; lia. Qed.

Lemma utf8_ind (P : list byte → Prop) :
  P [] → (∀ c l, scalar c = true → utf8_valid l = true → P l → P (char_bytes c ++ l)) →
  ∀ l, utf8_valid l = true → P l.
Proof.
  intros H0 Hc. assert (∀ n l, (length l < n)%nat → utf8_valid l = true → P l) as H;
    [|intros l; eapply H; constructor].
  induction n as [|n IH]; intros l Hn Hl; [lia|].
  destruct (utf8_inv l Hl) as [->|(c & l' & Hs & Hl' & ->)]; [done|].
  apply Hc; try done. apply IH; [|done]. rewrite length_app in Hn.
  pose proof (char_bytes_length c). lia.
Qed.

Lemma encode_chars l :
  utf8_valid l = true →
  concat (char_bytes <$> chars_bytes l) = l ∧ Forall (λ c, scalar c = true) (chars_bytes l).
Proof.
  revert l. apply utf8_ind; [done|]. intros c l Hc _ [IH1 IH2].
  destruct (char_step c l Hc) as [_ ->]. cbn. by rewrite IH1; auto.
Qed.

Lemma decode_chars cs :
  Forall (λ c, scalar c = true) cs →
  utf8_valid (concat (char_bytes <$> cs)) = true ∧ chars_bytes (concat (char_bytes <$> cs)) = cs.
Proof.
  induction 1 as [|c cs Hc _ [IH1 IH2]]; [done|]. cbn.
  destruct (char_step c (concat (char_bytes <$> cs)) Hc) as [-> ->]. by rewrite IH2.
Qed.

(** The two views of a Rust string: its bytes and its characters. *)
Lemma chars_of_chars cs :
  Forall (λ c, scalar c = true) cs → rust_string (of_chars cs) ∧ chars (of_chars cs) = cs.
Proof. intros H. unfold rust_string, chars, of_chars. rewrite sbytes_of. by apply decode_chars. Qed.

Lemma of_chars_chars s : rust_string s → of_chars (chars s) = s.
Proof. intros H. unfold of_chars, chars. rewrite (proj1 (encode_chars _ H)). apply of_sbytes. Qed.

Lemma chars_scalar s : rust_string s → Forall (λ c, scalar c = true) (chars s).
Proof. intros H. apply (encode_chars _ H). Qed.

Lemma from_utf8_some l s : from_utf8 l = Some s ↔ utf8_valid l = true ∧ s = of_bytes l.
Proof. unfold from_utf8. destruct (utf8_valid l); naive_solver. Qed.
