(* ===== verification/Codec.v ===== *)
(** * Third-party codecs as interfaces

    The crates the program calls for base64url ([base64]) and SHA-256 ([sha2])
    are not part of its sources: they enter the model as type classes whose
    laws are the crates' documented behaviour.  [Rfc4648] instantiates the
    base64 interface by the URL-safe unpadded alphabet of RFC 4648, so that
    witnesses can evaluate the definitions built on it. *)
From S2P Require Import Prelude Text.

(** [base64::engine::general_purpose::URL_SAFE_NO_PAD]. *)
Class Base64 := {
  b64_encode : list byte → string;
  b64_decode : string → option (list byte)
}.
(** Decoding inverts encoding. *)
Class Base64Laws (B : Base64) := {
  b64_roundtrip l : b64_decode (b64_encode l) = Some l
}.
#[export] Hint Rewrite @b64_roundtrip : cdc.

(** [Sha256::digest(bytes)] rendered as lowercase hexadecimal. *)
Class Sha256 := { sha256_hex : list byte → string }.
Class Sha256Laws (S : Sha256) := {
  sha256_len l : slen (sha256_hex l) = 64;
  sha256_digits l : all_bytes is_ascii_hexdigit (sha256_hex l) = true
}.

(** ** RFC 4648, URL-safe alphabet, no padding *)
Module Rfc4648.
Definition sextet_byte (z : Z) : byte :=
  if z <? 26 then byte_of (65 + z)
  else if z <? 52 then byte_of (97 + (z - 26))
  else if z <? 62 then byte_of (48 + (z - 52))
  else if z =? 62 then byte_of 45 else byte_of 95.

Definition byte_sextet (c : byte) : option Z :=
  let v := bval c in
  if in_range 65 90 v then Some (v - 65)
  else if in_range 97 122 v then Some (v - 97 + 26)
  else if in_range 48 57 v then Some (v - 48 + 52)
  else if v =? 45 then Some 62
  else if v =? 95 then Some 63 else None.

Fixpoint encode_bytes (l : list byte) : list byte :=
  match l with
  | a :: b :: c :: l' =>
      sextet_byte (bval a / 4)
      :: sextet_byte (bval a mod 4 * 16 + bval b / 16)
      :: sextet_byte (bval b mod 16 * 4 + bval c / 64)
      :: sextet_byte (bval c mod 64) :: encode_bytes l'
  | [a; b] =>
      [sextet_byte (bval a / 4);
       sextet_byte (bval a mod 4 * 16 + bval b / 16);
       sextet_byte (bval b mod 16 * 4)]
  | [a] => [sextet_byte (bval a / 4); sextet_byte (bval a mod 4 * 16)]
  | [] => []
  end.

Fixpoint decode_bytes (l : list byte) : option (list byte) :=
  match l with
  | w :: x :: y :: z :: l' =>
      s0 ← byte_sextet w; s1 ← byte_sextet x;
      s2 ← byte_sextet y; s3 ← byte_sextet z;
      rest ← decode_bytes l';
      Some (byte_of (s0 * 4 + s1 / 16) :: byte_of (s1 mod 16 * 16 + s2 / 4)
            :: byte_of (s2 mod 4 * 64 + s3) :: rest)
  | [w; x; y] =>
      s0 ← byte_sextet w; s1 ← byte_sextet x; s2 ← byte_sextet y;
      if s2 mod 4 =? 0
      then Some [byte_of (s0 * 4 + s1 / 16); byte_of (s1 mod 16 * 16 + s2 / 4)]
      else None
  | [w; x] =>
      s0 ← byte_sextet w; s1 ← byte_sextet x;
      if s1 mod 16 =? 0 then Some [byte_of (s0 * 4 + s1 / 16)] else None
  | [_] => None
  | [] => Some []
  end.

Lemma sextet_roundtrip z : 0 ≤ z < 64 → byte_sextet (sextet_byte z) = Some z.
Proof.
  intros Hz.
  assert (Forall (λ z, byte_sextet (sextet_byte z) = Some z) (seqZ 0 64)) as H.
  { apply Forall_forall. rewrite <- Forall_forall.
    repeat (constructor; [vm_compute; reflexivity|]). constructor. }
  rewrite Forall_forall in H. apply H, elem_of_seqZ. lia.
Qed.

Lemma byte_of_eq c z : z = bval c → byte_of z = c.
Proof. intros ->. apply byte_of_bval. Qed.

Lemma decode_encode l : decode_bytes (encode_bytes l) = Some l.
Proof.
  assert (∀ n l, (length l < n)%nat → decode_bytes (encode_bytes l) = Some l) as H.
  { clear l. induction n as [|n IH]; intros l Hl; [lia|].
    destruct l as [|a [|b [|c l]]]; [done|..]; cbn [encode_bytes decode_bytes];
      pose proof (bval_range a); try pose proof (bval_range b);
      try pose proof (bval_range c);
      rewrite !sextet_roundtrip by (Z.to_euclidean_division_equations; lia); cbn.
    - rewrite (proj2 (Z.eqb_eq _ _)) by (Z.to_euclidean_division_equations; lia).
      repeat f_equal. apply byte_of_eq. Z.to_euclidean_division_equations; lia.
    - rewrite (proj2 (Z.eqb_eq _ _)) by (Z.to_euclidean_division_equations; lia).
      repeat f_equal; apply byte_of_eq; Z.to_euclidean_division_equations; lia.
    - cbn in Hl. rewrite IH by lia. cbn.
      repeat f_equal; apply byte_of_eq; Z.to_euclidean_division_equations; lia. }
  eapply H. constructor.
Qed.

#[export] Instance base64 : Base64 := {|
  b64_encode l := of_bytes (encode_bytes l);
  b64_decode s := decode_bytes (sbytes s)
|}.
#[export] Instance base64_laws : Base64Laws base64.
Proof. constructor. intros l. cbn. rewrite sbytes_of. apply decode_encode. Qed.
End Rfc4648.

(** A digest function of the right shape, for witnesses: it sums the bytes. *)
Module SumDigest.
Definition hex64 (z : Z) : string :=
  let s := show_nat (z mod 10 ^ 8) in
  String.append (of_bytes (replicate (64 - String.length s) "0"%char)) s.
#[export] Instance sha256 : Sha256 := {|
  sha256_hex l := hex64 (foldr (λ c a, bval c + a) 0 l)
|}.
End SumDigest.
