(* ===== verification/Model.v ===== *)
(** * The ChangeEvent data model ([crates/change_event/src/model.rs])

    Sources, cursors, row changes, column data and the logical values they
    carry, the self-describing protocol envelopes with their integrity checks,
    and the canonical form from which content digests are computed. *)
From S2P Require Import Prelude Text Codec.

(** ** Cursors, sources and builds *)
Record SourceCursor := mkCursor {
  cur_format : string;
  cur_value : string;
  cur_display : string
}.
#[export] Instance SourceCursor_eq_dec : EqDecision SourceCursor.
Proof. solve_decision. Defined.

Record Source := mkSource {
  src_kind : string;
  src_version : string;
  src_id : string
}.
#[export] Instance Source_eq_dec : EqDecision Source.
Proof. solve_decision. Defined.

Record ConnectorIdentity := mkConnector { con_kind : string; con_version : string }.
#[export] Instance ConnectorIdentity_eq_dec : EqDecision ConnectorIdentity.
Proof. solve_decision. Defined.

Record ServerBuildIdentity := mkBuild {
  bld_product : string; bld_distribution : string;
  bld_version : string; bld_build : string
}.
#[export] Instance ServerBuildIdentity_eq_dec : EqDecision ServerBuildIdentity.
Proof. solve_decision. Defined.

Inductive Operation := Insert | Update | Delete.
#[export] Instance Operation_eq_dec : EqDecision Operation.
Proof. solve_decision. Defined.

(** The payload schema versions. *)
Definition FORMAT : string := "cdc.change-event-json.v0.3".
Definition PREVIOUS_FORMAT : string := "cdc.change-event-json.v0.2".
Definition LEGACY_FORMAT : string := "cdc.change-event-json.v0.1".
Definition HISTORICAL_FORMAT : string := "cdc.change-event-json.v0".

(** ** Small enumerations of the value model *)
Inductive TemporalInfinityKind := TI_Date | TI_LocalDatetime | TI_Instant | TI_CalendarInterval.
Inductive BitOrder := MsbFirst | LsbFirst.
Inductive BitPadding := PadNone | PadZero | PadOne.
Inductive SpatialFormat := Wkb | Ewkb.
Inductive SourceRepresentationFormat := FmtText | FmtBinary.
#[export] Instance TemporalInfinityKind_eq_dec : EqDecision TemporalInfinityKind.
Proof. solve_decision. Defined.
#[export] Instance BitOrder_eq_dec : EqDecision BitOrder.
Proof. solve_decision. Defined.
#[export] Instance BitPadding_eq_dec : EqDecision BitPadding.
Proof. solve_decision. Defined.
#[export] Instance SpatialFormat_eq_dec : EqDecision SpatialFormat.
Proof. solve_decision. Defined.
#[export] Instance SourceRepresentationFormat_eq_dec : EqDecision SourceRepresentationFormat.
Proof. solve_decision. Defined.

(** ** Protocol representations *)
Record SourceRepresentationContext := mkContext {
  ctx_connector : ConnectorIdentity;
  ctx_server_build : ServerBuildIdentity;
  ctx_source_type_identity : string;
  ctx_source_type_definition_digest : string;
  ctx_protocol : string;
  ctx_format : SourceRepresentationFormat;
  ctx_type_metadata : gmap string string;
  ctx_source_cursor : SourceCursor
}.
#[export] Instance SourceRepresentationContext_eq_dec : EqDecision SourceRepresentationContext.
Proof. solve_decision. Defined.

Record SourceRepresentationEnvelope := mkEnvelope {
  env_context : SourceRepresentationContext;
  env_encoding : string;
  env_payload_base64url : string;
  env_payload_length : Z;
  env_payload_sha256 : string
}.
#[export] Instance SourceRepresentationEnvelope_eq_dec : EqDecision SourceRepresentationEnvelope.
Proof. solve_decision. Defined.

Record RawValueCarrier := mkCarrier {
  rvc_codec_identity : string;
  rvc_native_type : string;
  rvc_source_definition_digest : string;
  rvc_encoding : string;
  rvc_raw_bytes_base64url : string;
  rvc_canonical_text : option string;
  rvc_source_context : option SourceRepresentationContext;
  rvc_payload_length : option Z;
  rvc_payload_sha256 : option string;
  rvc_reversible : option bool
}.
#[export] Instance RawValueCarrier_eq_dec : EqDecision RawValueCarrier.
Proof. solve_decision. Defined.

(** ** Logical values *)
Record JsonEntry_ (V : Type) := mkJsonEntry { je_key : string; je_value : V }.
Arguments mkJsonEntry {V}. Arguments je_key {V}. Arguments je_value {V}.

Inductive JsonValue :=
| JNull
| JBoolean (b : bool)
| JString (s : string)
| JSignedInteger (s : string)
| JUnsignedInteger (s : string)
| JDoubleBits (s : string)
| JDecimal (unscaled : string) (scale : Z)
| JArray (items : list JsonValue)
| JObject (items : list (JsonEntry_ JsonValue)).
Notation JsonEntry := (JsonEntry_ JsonValue).

Record StructuredField_ (V : Type) := mkField { sf_name : string; sf_value : V }.
Arguments mkField {V}. Arguments sf_name {V}. Arguments sf_value {V}.
Record MapEntry_ (V : Type) := mkMapEntry { me_key : V; me_value : V }.
Arguments mkMapEntry {V}. Arguments me_key {V}. Arguments me_value {V}.

Inductive LogicalValue :=
| VNull
| VBoolean (value : bool)
| VUuid (value : string)
| VInteger (signed : bool) (bits : Z) (value : string)
| VDecimal (unscaled : string) (scale : Z)
| VFloat (bits : Z) (ieee754_hex : string)
| VText (charset bytes_base64url : string) (text : option string)
| VBinary (bytes_base64url : string)
| VBitString (bytes_base64url : string) (bit_length : Z)
    (padding : BitPadding) (bit_order : BitOrder)
| VDate (year month day : Z)
| VLocalTime (hour minute second microsecond : Z)
| VOffsetTime (hour minute second microsecond offset_seconds : Z)
| VLocalDatetime (year month day hour minute second microsecond : Z)
| VDuration (negative : bool) (hours minutes seconds microsecond : Z)
| VCalendarInterval (months days microseconds : Z)
| VInstant (unix_seconds : string) (nanoseconds : Z)
| VYear (value : Z)
| VTemporalInfinity (kind : TemporalInfinityKind) (negative : bool)
| VEnum (label : string)
| VSet (members : list string)
| VSpatial (format : SpatialFormat) (bytes_base64url geometry_type : string)
    (dimensions : Z) (srid : option Z) (crs : option string)
| VArray (elements : list LogicalValue)
| VStruct (fields : list (StructuredField_ LogicalValue))
| VMap (entries : list (MapEntry_ LogicalValue))
| VRange (empty : bool) (lower upper : option LogicalValue)
    (lower_inclusive upper_inclusive : bool)
| VMultiRange (ranges : list LogicalValue)
| VArrayWithMetadata (elements : list LogicalValue) (dimensions : Z)
    (lower_bounds dimension_lengths : list Z)
| VInvalidTemporal (kind raw : string)
| VNetwork (family address : string) (prefix_length : option Z)
| VXml (bytes_base64url : string) (text : option string)
| VDomain (value : LogicalValue)
| VRaw (carrier : RawValueCarrier)
| VJson (value : JsonValue).
Notation StructuredField := (StructuredField_ LogicalValue).
Notation MapEntry := (MapEntry_ LogicalValue).

Inductive Datum :=
| Unavailable
| Unchanged
| DNull
| Value (v : LogicalValue)
| EnvelopeDatum (e : SourceRepresentationEnvelope).

(** ** Rows and transactions *)
Record ColumnDatum := mkColumn {
  col_ordinal : Z;
  col_name : string;
  col_native_type : string;
  col_primary_key_ordinal : option Z;
  col_generated : bool;
  col_collation : option string;
  col_datum : Datum
}.

Record RowChange := mkChange {
  chg_database : option string;
  chg_operation : Operation;
  chg_schema : string;
  chg_table : string;
  chg_source_cursor : SourceCursor;
  chg_source_timestamp : Z;
  chg_schema_basis : string;
  chg_before : option (list ColumnDatum);
  chg_after : option (list ColumnDatum)
}.

Record ChangeTransaction := mkTransaction {
  tx_source : Source;
  tx_id : string;
  tx_begin_cursor : SourceCursor;
  tx_commit_cursor : SourceCursor;
  tx_changes : list RowChange
}.

(** ** Induction over nested values *)
Section json_ind.
Context (P : JsonValue → Prop).
Hypothesis HNull : P JNull.
Hypothesis HBoolean : ∀ b, P (JBoolean b).
Hypothesis HString : ∀ s, P (JString s).
Hypothesis HSigned : ∀ s, P (JSignedInteger s).
Hypothesis HUnsigned : ∀ s, P (JUnsignedInteger s).
Hypothesis HDouble : ∀ s, P (JDoubleBits s).
Hypothesis HDecimal : ∀ u s, P (JDecimal u s).
Hypothesis HArray : ∀ l, Forall P l → P (JArray l).
Hypothesis HObject : ∀ l, Forall (λ e, P (je_value e)) l → P (JObject l).

Fixpoint JsonValue_nested_ind (v : JsonValue) : P v :=
  match v with
  | JNull => HNull
  | JBoolean b => HBoolean b
  | JString s => HString s
  | JSignedInteger s => HSigned s
  | JUnsignedInteger s => HUnsigned s
  | JDoubleBits s => HDouble s
  | JDecimal u s => HDecimal u s
  | JArray l => HArray l
      ((fix go l : Forall P l :=
          match l with
          | [] => Forall_nil_2 _
          | x :: l' => Forall_cons_2 _ _ _ (JsonValue_nested_ind x) (go l')
          end) l)
  | JObject l => HObject l
      ((fix go l : Forall (λ e, P (je_value e)) l :=
          match l with
          | [] => Forall_nil_2 _
          | e :: l' => Forall_cons_2 _ _ _ (JsonValue_nested_ind (je_value e)) (go l')
          end) l)
  end.
End json_ind.

Definition option_all {A} (P : A → Prop) (o : option A) : Prop :=
  match o with Some a => P a | None => True end.

Section value_ind.
Context (P : LogicalValue → Prop).
(** A value without nested logical values. *)
Definition flat (v : LogicalValue) : bool :=
  match v with
  | VArray _ | VStruct _ | VMap _ | VRange _ _ _ _ _ | VMultiRange _
  | VArrayWithMetadata _ _ _ _ | VDomain _ => false
  | _ => true
  end.
Hypothesis HFlat : ∀ v, flat v = true → P v.
Hypothesis HArray : ∀ l, Forall P l → P (VArray l).
Hypothesis HStruct : ∀ l, Forall (λ f, P (sf_value f)) l → P (VStruct l).
Hypothesis HMap : ∀ l, Forall (λ e, P (me_key e) ∧ P (me_value e)) l → P (VMap l).
Hypothesis HRange : ∀ e lo up li ui,
  option_all P lo → option_all P up → P (VRange e lo up li ui).
Hypothesis HMultiRange : ∀ l, Forall P l → P (VMultiRange l).
Hypothesis HArrayMeta : ∀ l d b n, Forall P l → P (VArrayWithMetadata l d b n).
Hypothesis HDomain : ∀ v, P v → P (VDomain v).

Fixpoint LogicalValue_nested_ind (v : LogicalValue) : P v.
Proof.
  pose (go := fix go l : Forall P l :=
          match l with
          | [] => Forall_nil_2 _
          | x :: l' => Forall_cons_2 _ _ _ (LogicalValue_nested_ind x) (go l')
          end).
  destruct v; try (apply HFlat; exact eq_refl).
  - exact (HArray elements (go elements)).
  - refine (HStruct fields _). revert fields. fix gs 1. intros [|f l].
    + constructor.
    + constructor; [apply LogicalValue_nested_ind|apply gs].
  - refine (HMap entries _). revert entries. fix gs 1. intros [|f l].
    + constructor.
    + constructor; [split; apply LogicalValue_nested_ind|apply gs].
  - apply HRange; [destruct lower|destruct upper]; cbn; trivial;
      apply LogicalValue_nested_ind.
  - exact (HMultiRange ranges (go ranges)).
  - exact (HArrayMeta elements _ _ _ (go elements)).
  - apply HDomain, LogicalValue_nested_ind.
Defined.
End value_ind.

#[export] Instance JsonEntry_eq_dec {V} `{EqDecision V} : EqDecision (JsonEntry_ V).
Proof. solve_decision. Defined.
#[export] Instance StructuredField_eq_dec {V} `{EqDecision V} : EqDecision (StructuredField_ V).
Proof. solve_decision. Defined.
#[export] Instance MapEntry_eq_dec {V} `{EqDecision V} : EqDecision (MapEntry_ V).
Proof. solve_decision. Defined.
#[export] Instance JsonValue_eq_dec : EqDecision JsonValue.
Proof.
  unfold EqDecision. fix go 1. intros x y. pose (H := go : EqDecision JsonValue).
  unfold Decision. decide equality; solve_trivial_decision.
Defined.
#[export] Instance LogicalValue_eq_dec : EqDecision LogicalValue.
Proof.
  unfold EqDecision. fix go 1. intros x y. pose (H := go : EqDecision LogicalValue).
  unfold Decision. decide equality; solve_trivial_decision.
Defined.
#[export] Instance Datum_eq_dec : EqDecision Datum.
Proof. solve_decision. Defined.
#[export] Instance ColumnDatum_eq_dec : EqDecision ColumnDatum.
Proof. solve_decision. Defined.
#[export] Instance RowChange_eq_dec : EqDecision RowChange.
Proof. solve_decision. Defined.
#[export] Instance ChangeTransaction_eq_dec : EqDecision ChangeTransaction.
Proof. solve_decision. Defined.
