(* ===== verification/Representation.v ===== *)
(** * Protocol representations and their integrity
      ([crates/change_event/src/model.rs])

    A source value without a portable logical form travels as an envelope (or,
    historically, as a raw carrier) of exact protocol bytes, with the length and
    SHA-256 digest of the payload and the evidence identifying its type.  This
    file models the constructors and validators of both and proves that a
    freshly built representation validates and gives back exactly its payload,
    and that a validated one is consistent with its recorded evidence. *)
From S2P Require Import Prelude Text Codec Model.

Inductive SourceRepresentationError :=
| SR_MissingEvidence (field : string)
| SR_InvalidDigest (field : string)
| SR_InvalidTypeMetadata
| SR_InvalidPayload
| SR_PayloadLengthMismatch
| SR_PayloadDigestMismatch.

Definition SourceRepresentationError_code (e : SourceRepresentationError) : string :=
  match e with
  | SR_MissingEvidence _ => "source_representation.missing_evidence"
  | SR_InvalidDigest _ => "source_representation.invalid_digest"
  | SR_InvalidTypeMetadata => "source_representation.invalid_type_metadata"
  | SR_InvalidPayload => "source_representation.invalid_payload"
  | SR_PayloadLengthMismatch => "source_representation.payload_length_mismatch"
  | SR_PayloadDigestMismatch => "source_representation.payload_digest_mismatch"
  end.

Inductive RawValueCarrierError :=
| RV_MissingEvidence (field : string)
| RV_InvalidBytes
| RV_InvalidEvidence
| RV_SourceDefinitionDigestMismatch
| RV_PayloadLengthMismatch
| RV_PayloadDigestMismatch.

Definition RawValueCarrierError_code (e : RawValueCarrierError) : string :=
  match e with
  | RV_MissingEvidence _ => "raw_value_carrier.missing_evidence"
  | RV_InvalidBytes => "raw_value_carrier.invalid_bytes"
  | RV_InvalidEvidence => "raw_value_carrier.invalid_evidence"
  | RV_SourceDefinitionDigestMismatch =>
      "raw_value_carrier.source_definition_digest_mismatch"
  | RV_PayloadLengthMismatch => "raw_value_carrier.payload_length_mismatch"
  | RV_PayloadDigestMismatch => "raw_value_carrier.payload_digest_mismatch"
  end.

Definition validate_sha256_digest (value : string) : bool :=
  match strip_prefix "sha256:" value with
  | Some hex => (slen hex =? 64) && all_bytes is_ascii_hexdigit hex
  | None => false
  end.

Section representation.
Context `{B64 : Base64, SHA : Sha256}.

Definition digest_bytes (bytes : list byte) : string :=
  "sha256:" +:+ sha256_hex bytes.

(** The (field, value) pairs that must be present and free of NUL. *)
Definition context_evidence (c : SourceRepresentationContext) : list (string * string) :=
  [ ("connector.kind", con_kind (ctx_connector c));
    ("connector.version", con_version (ctx_connector c));
    ("server_build.product", bld_product (ctx_server_build c));
    ("server_build.distribution", bld_distribution (ctx_server_build c));
    ("server_build.version", bld_version (ctx_server_build c));
    ("server_build.build", bld_build (ctx_server_build c));
    ("source_type_identity", ctx_source_type_identity c);
    ("source_type_definition_digest", ctx_source_type_definition_digest c);
    ("protocol", ctx_protocol c);
    ("source_cursor.format", cur_format (ctx_source_cursor c));
    ("source_cursor.value", cur_value (ctx_source_cursor c)) ].

Definition bad_metadata (kv : string * string) : bool :=
  blank kv.1 || has_nul kv.1 || has_nul kv.2.

Definition context_validate (c : SourceRepresentationContext) :
    result SourceRepresentationError () :=
  each (λ fv : string * string,
          ensure (negb (blank_or_nul fv.2)) (SR_MissingEvidence fv.1))
       (context_evidence c) ;?
  ensure (validate_sha256_digest (ctx_source_type_definition_digest c))
    (SR_InvalidDigest "source_type_definition_digest") ;?
  ensure (negb (existsb bad_metadata (map_to_list (ctx_type_metadata c))))
    SR_InvalidTypeMetadata.

Definition envelope_new (context : SourceRepresentationContext) (encoding : string)
    (payload : list byte) : SourceRepresentationEnvelope :=
  {| env_context := context;
     env_encoding := encoding;
     env_payload_base64url := b64_encode payload;
     env_payload_length := Z.of_nat (length payload);
     env_payload_sha256 := digest_bytes payload |}.

Definition raw_bytes_unchecked (e : SourceRepresentationEnvelope) :
    result SourceRepresentationError (list byte) :=
  ok_or SR_InvalidPayload (b64_decode (env_payload_base64url e)).

Definition envelope_validate (e : SourceRepresentationEnvelope) :
    result SourceRepresentationError () :=
  context_validate (env_context e) ;?
  ensure (negb (blank_or_nul (env_encoding e))) (SR_MissingEvidence "encoding") ;?
  (let? payload := raw_bytes_unchecked e in
   ensure (Z.of_nat (length payload) =? env_payload_length e) SR_PayloadLengthMismatch ;?
   ensure (bool_decide (env_payload_sha256 e = digest_bytes payload))
     SR_PayloadDigestMismatch).

Definition envelope_raw_bytes (e : SourceRepresentationEnvelope) :
    result SourceRepresentationError (list byte) :=
  envelope_validate e ;? raw_bytes_unchecked e.

(** [RawValueCarrier::new] *)
Definition carrier_new (codec native digest encoding bytes : string)
    (text : option string) : RawValueCarrier :=
  mkCarrier codec native digest encoding bytes text None None None None.

Definition with_source_context (c : RawValueCarrier)
    (context : SourceRepresentationContext) (reversible : bool) :
    result RawValueCarrierError RawValueCarrier :=
  ensure (bool_decide (rvc_source_definition_digest c
                       = ctx_source_type_definition_digest context))
    RV_SourceDefinitionDigestMismatch ;?
  (let? bytes := ok_or RV_InvalidBytes (b64_decode (rvc_raw_bytes_base64url c)) in
   Ok {| rvc_codec_identity := rvc_codec_identity c;
         rvc_native_type := rvc_native_type c;
         rvc_source_definition_digest := rvc_source_definition_digest c;
         rvc_encoding := rvc_encoding c;
         rvc_raw_bytes_base64url := rvc_raw_bytes_base64url c;
         rvc_canonical_text := rvc_canonical_text c;
         rvc_source_context := Some context;
         rvc_payload_length := Some (Z.of_nat (length bytes));
         rvc_payload_sha256 := Some (digest_bytes bytes);
         rvc_reversible := Some reversible |}).

Definition carrier_evidence (c : RawValueCarrier) : list (string * string) :=
  [ ("codec_identity", rvc_codec_identity c);
    ("native_type", rvc_native_type c);
    ("source_definition_digest", rvc_source_definition_digest c);
    ("encoding", rvc_encoding c) ].

Definition carrier_validate (c : RawValueCarrier) : result RawValueCarrierError () :=
  each (λ fv : string * string,
          ensure (negb (blank_or_nul fv.2)) (RV_MissingEvidence fv.1))
       (carrier_evidence c) ;?
  (let? bytes := ok_or RV_InvalidBytes (b64_decode (rvc_raw_bytes_base64url c)) in
   match rvc_source_context c, rvc_payload_length c, rvc_payload_sha256 c with
   | Some context, Some len, Some digest =>
       map_err (λ _, RV_InvalidEvidence) (context_validate context) ;?
       ensure (bool_decide (rvc_source_definition_digest c
                            = ctx_source_type_definition_digest context))
         RV_SourceDefinitionDigestMismatch ;?
       ensure (Z.of_nat (length bytes) =? len) RV_PayloadLengthMismatch ;?
       ensure (bool_decide (digest = digest_bytes bytes)) RV_PayloadDigestMismatch
   | None, None, None =>
       match rvc_reversible c with
       | None => Ok ()
       | Some _ => Err RV_InvalidEvidence
       end
   | _, _, _ => Err RV_InvalidEvidence
   end) ;?
  ensure (negb (bool_decide (rvc_reversible c = Some true)
                && blank (rvc_codec_identity c))) RV_InvalidEvidence.

Definition carrier_raw_bytes (c : RawValueCarrier) : result RawValueCarrierError (list byte) :=
  carrier_validate c ;? ok_or RV_InvalidBytes (b64_decode (rvc_raw_bytes_base64url c)).

(** ** Integrity of envelopes *)

(** A freshly built envelope validates exactly when its context does and its
    encoding is named, and then it gives back the payload bytes unchanged. *)
Theorem envelope_new_roundtrip {BL : Base64Laws B64} c enc payload :
  context_validate c = Ok () → blank_or_nul enc = false →
  envelope_validate (envelope_new c enc payload) = Ok ()
  ∧ envelope_raw_bytes (envelope_new c enc payload) = Ok payload.
Proof.
  intros Hc He.
  assert (raw_bytes_unchecked (envelope_new c enc payload) = Ok payload) as Hr.
  { unfold raw_bytes_unchecked. cbn. by rewrite b64_roundtrip. }
  assert (envelope_validate (envelope_new c enc payload) = Ok ()) as Hv.
  { unfold envelope_validate. rewrite Hr. cbn [env_context env_encoding envelope_new].
    rewrite Hc, He. cbn. rewrite Z.eqb_refl. by rewrite bool_decide_eq_true_2. }
  split; [done|]. unfold envelope_raw_bytes. by rewrite Hv.
Qed.

Lemma envelope_validate_ok e :
  envelope_validate e = Ok ()
  ↔ context_validate (env_context e) = Ok ()
    ∧ blank_or_nul (env_encoding e) = false
    ∧ ∃ payload, b64_decode (env_payload_base64url e) = Some payload
      ∧ env_payload_length e = Z.of_nat (length payload)
      ∧ env_payload_sha256 e = digest_bytes payload.
Proof.
  unfold envelope_validate, raw_bytes_unchecked.
  rewrite !seq_ok, bind_ok, ensure_ok, negb_true_iff.
  setoid_rewrite ok_or_ok. setoid_rewrite seq_ok. setoid_rewrite ensure_ok.
  setoid_rewrite Z.eqb_eq. setoid_rewrite bool_decide_eq_true.
  split; [intros (?&?&?&?&?&?)|intros (?&?&?&?&?&?)]; eauto 10.
Qed.

(** A carrier enriched with a valid context validates. *)
Lemma with_source_context_valid c context rev c' :
  with_source_context c context rev = Ok c' →
  each (λ fv : string * string,
          ensure (negb (blank_or_nul fv.2)) (RV_MissingEvidence fv.1))
       (carrier_evidence c) = Ok () →
  context_validate context = Ok () →
  carrier_validate c' = Ok ()
  ∧ carrier_raw_bytes c' = ok_or RV_InvalidBytes (b64_decode (rvc_raw_bytes_base64url c)).
Proof.
  unfold with_source_context. intros H Hev Hctx. ok_inv H. subst c'.
  bool_simpl.
  match goal with H : b64_decode _ = Some _ |- _ => rename H into Hdec end.
  assert (carrier_validate (mkCarrier (rvc_codec_identity c) (rvc_native_type c)
    (rvc_source_definition_digest c) (rvc_encoding c) (rvc_raw_bytes_base64url c)
    (rvc_canonical_text c) (Some context) (Some (Z.of_nat (length a)))
    (Some (digest_bytes a)) (Some rev)) = Ok ()) as Hv.
  { unfold carrier_validate. cbn [rvc_source_context rvc_payload_length
      rvc_payload_sha256 rvc_raw_bytes_base64url rvc_reversible rvc_codec_identity
      rvc_source_definition_digest].
    change (carrier_evidence _) with (carrier_evidence c). rewrite Hev, Hdec, Hctx.
    cbn -[digest_bytes]. rewrite Hok, (bool_decide_eq_true_2 (ctx_source_type_definition_digest _ = _)),
      Z.eqb_refl, (bool_decide_eq_true_2 (digest_bytes _ = _)) by done. cbn. destruct (blank (rvc_codec_identity c)) eqn:Hb; [|by rewrite andb_false_r].
    exfalso. apply each_ok in Hev. apply Forall_inv in Hev. cbn in Hev.
    unfold blank_or_nul in Hev. by rewrite Hb in Hev. }
  split; [done|]. unfold carrier_raw_bytes. by rewrite Hv.
Qed.
End representation.

(** ** A concrete envelope *)
Module Example6.
Definition hex64 : string :=
  "0123456789abcdef0123456789abcdef0123456789abcdef0123456789abcdef".

Definition context : SourceRepresentationContext := {|
  ctx_connector := {| con_kind := "postgresql"; con_version := "1.0" |};
  ctx_server_build := {| bld_product := "PostgreSQL"; bld_distribution := "community";
                         bld_version := "15.4"; bld_build := "15.4-1" |};
  ctx_source_type_identity := "pg_catalog.tsvector";
  ctx_source_type_definition_digest := "sha256:" +:+ hex64;
  ctx_protocol := "pgoutput";
  ctx_format := FmtText;
  ctx_source_cursor := mkCursor "postgresql_lsn" "0/1A2B" "0/1A2B";
  ctx_type_metadata := ∅
|}.
End Example6.

Lemma envelope_new_roundtrip_witness :
  let e := envelope_new (B64 := Rfc4648.base64) (SHA := SumDigest.sha256)
             Example6.context "pgoutput-text" (sbytes "'cat':1") in
  envelope_validate (B64 := Rfc4648.base64) (SHA := SumDigest.sha256) e = Ok ()
  ∧ envelope_raw_bytes (B64 := Rfc4648.base64) (SHA := SumDigest.sha256) e
    = Ok (sbytes "'cat':1").
Proof.
  apply (envelope_new_roundtrip (BL := Rfc4648.base64_laws)); vm_compute; reflexivity.
Defined.
