(* ===== verification/Canonical.v ===== *)
(** * Canonical form and content digests ([crates/change_event/src/model.rs])

    Content digests identify a transaction independently of the order in which
    a source happened to list SET members, JSON object entries and map
    entries.  The canonicalisers sort those collections recursively; the
    theorems state that canonicalisation is idempotent and that it identifies
    exactly-reordered values.

    [serde_json::to_vec] of a value is the parameter [value_json]. *)
From S2P Require Import Prelude Text Codec Model.

Fixpoint canonicalize_json_value (v : JsonValue) : JsonValue :=
  match v with
  | JArray items => JArray (canonicalize_json_value <$> items)
  | JObject entries =>
      JObject (sort_by String.le je_key
        ((λ e, mkJsonEntry (je_key e) (canonicalize_json_value (je_value e))) <$> entries))
  | v => v
  end.

Section canonical.
Context `{SHA : Sha256} (value_json : LogicalValue → list byte).

(** The generic [stable_digest]: the hash of the serialised value. *)
Definition value_digest (v : LogicalValue) : string := sha256_hex (value_json v).

Fixpoint canonicalize_logical_value (v : LogicalValue) : LogicalValue :=
  match v with
  | VSet members => VSet (merge_sort String.le members)
  | VArray elements => VArray (canonicalize_logical_value <$> elements)
  | VArrayWithMetadata elements d lb dl =>
      VArrayWithMetadata (canonicalize_logical_value <$> elements) d lb dl
  | VStruct fields =>
      VStruct ((λ f, mkField (sf_name f) (canonicalize_logical_value (sf_value f))) <$> fields)
  | VMap entries =>
      (* the key digest is that of the canonical key: see [stable_digest_canonical] *)
      VMap (sort_by String.le (λ e, value_digest (me_key e))
        ((λ e, mkMapEntry (canonicalize_logical_value (me_key e))
                          (canonicalize_logical_value (me_value e))) <$> entries))
  | VRange empty lower upper li ui =>
      VRange empty (canonicalize_logical_value <$> lower)
        (canonicalize_logical_value <$> upper) li ui
  | VMultiRange ranges => VMultiRange (canonicalize_logical_value <$> ranges)
  | VDomain value => VDomain (canonicalize_logical_value value)
  | VJson value => VJson (canonicalize_json_value value)
  | v => v
  end.

(** [LogicalValue::stable_digest] *)
Definition stable_digest (v : LogicalValue) : string :=
  value_digest (canonicalize_logical_value v).

Definition canonicalize_column (c : ColumnDatum) : ColumnDatum :=
  match col_datum c with
  | Value v =>
      mkColumn (col_ordinal c) (col_name c) (col_native_type c)
        (col_primary_key_ordinal c) (col_generated c) (col_collation c)
        (Value (canonicalize_logical_value v))
  | _ => c
  end.

Definition canonicalize_image (row : list ColumnDatum) : list ColumnDatum :=
  canonicalize_column <$> row.

Definition canonicalize_change (c : RowChange) : RowChange :=
  mkChange (chg_database c) (chg_operation c) (chg_schema c) (chg_table c)
    (chg_source_cursor c) (chg_source_timestamp c) (chg_schema_basis c)
    (canonicalize_image <$> chg_before c)
    (canonicalize_image <$> chg_after c).

Definition canonicalize_transaction (t : ChangeTransaction) : ChangeTransaction :=
  mkTransaction (tx_source t) (tx_id t) (tx_begin_cursor t) (tx_commit_cursor t)
    (canonicalize_change <$> tx_changes t).

(** [ChangeTransaction::content_digest], the serialiser being a parameter. *)
Definition content_digest (transaction_json : ChangeTransaction → list byte)
    (t : ChangeTransaction) : string :=
  sha256_hex (transaction_json (canonicalize_transaction t)).

(** ** Idempotence *)
Lemma merge_sort_id l : Sorted String.le l → merge_sort String.le l = l.
Proof.
  intros Hl. apply (Sorted_unique String.le); [apply Sorted_merge_sort, _|done|].
  apply merge_sort_Permutation.
Qed.

Lemma canonicalize_json_value_idem v :
  canonicalize_json_value (canonicalize_json_value v) = canonicalize_json_value v.
Proof.
  induction v as [| | | | | | |l IH|l IH] using JsonValue_nested_ind; try done; cbn.
  - f_equal. rewrite <- list_fmap_compose. apply list_fmap_ext.
    intros i x Hx. eapply Forall_lookup_1 in IH; done.
  - f_equal. set (g := λ e, mkJsonEntry (je_key e) (canonicalize_json_value (je_value e))).
    assert (g <$> sort_by String.le je_key (g <$> l) = sort_by String.le je_key (g <$> l)) as ->.
    { rewrite <- (list_fmap_id (sort_by _ _ _)) at 2. apply list_fmap_ext.
      intros i x Hx. apply list_elem_of_lookup_2 in Hx. rewrite sort_by_perm in Hx.
      apply list_elem_of_fmap in Hx as (e & -> & He). unfold g. cbn. f_equal.
      rewrite Forall_forall in IH. by apply IH. }
    apply sort_by_id, sort_by_sorted, _.
Qed.

(** Canonicalising twice changes nothing: the content digest is a function of the
    canonical form, at every nesting depth. *)
Lemma canonicalize_logical_value_idem v :
  canonicalize_logical_value (canonicalize_logical_value v) = canonicalize_logical_value v.
Proof.
  assert (∀ l, Forall (λ v, canonicalize_logical_value (canonicalize_logical_value v)
                            = canonicalize_logical_value v) l →
    canonicalize_logical_value <$> (canonicalize_logical_value <$> l)
    = canonicalize_logical_value <$> l) as Hlist.
  { intros l Hl. rewrite <- list_fmap_compose. apply list_fmap_ext.
    intros i x Hx. eapply Forall_lookup_1 in Hl; done. }
  induction v as [v Hf|l IH|l IH|l IH|e lo up li ui Hlo Hup|l IH|l d b n IH|v IH]
    using LogicalValue_nested_ind.
  - destruct v; try done; cbn; f_equal.
    + apply merge_sort_id, Sorted_merge_sort, _.
    + apply canonicalize_json_value_idem.
  - cbn. f_equal. by apply Hlist.
  - cbn. f_equal. rewrite <- list_fmap_compose. apply list_fmap_ext.
    intros i x Hx. cbn. f_equal. eapply Forall_lookup_1 in IH; done.
  - cbn. f_equal.
    set (g := λ e, mkMapEntry _ _).
    assert (g <$> sort_by String.le (λ e, value_digest (me_key e)) (g <$> l)
            = sort_by String.le (λ e, value_digest (me_key e)) (g <$> l)) as ->.
    { rewrite <- (list_fmap_id (sort_by _ _ _)) at 2. apply list_fmap_ext.
      intros i x Hx. apply list_elem_of_lookup_2 in Hx. rewrite sort_by_perm in Hx.
      apply list_elem_of_fmap in Hx as (e & -> & He). unfold g. cbn.
      rewrite Forall_forall in IH. destruct (IH e He). by f_equal. }
    apply sort_by_id, sort_by_sorted, _.
  - cbn. f_equal; [destruct lo|destruct up]; cbn in *; by f_equal.
  - cbn. f_equal. by apply Hlist.
  - cbn. f_equal. by apply Hlist.
  - cbn. by f_equal.
Qed.

(** The source's key digest [entry.key.stable_digest()], taken on keys that are
    already canonical, is the one used above. *)
Lemma stable_digest_canonical v :
  stable_digest (canonicalize_logical_value v) = value_digest (canonicalize_logical_value v).
Proof. unfold stable_digest. by rewrite canonicalize_logical_value_idem. Qed.

(** ** Reordering *)

(** Values that differ only in the order of SET members, of JSON object
    entries with distinct keys, or of map entries with distinct key digests,
    anywhere inside the value. *)
Inductive json_reordered : JsonValue → JsonValue → Prop :=
| jr_refl v : json_reordered v v
| jr_trans u v w : json_reordered u v → json_reordered v w → json_reordered u w
| jr_object l k : NoDup (je_key <$> l) → l ≡ₚ k → json_reordered (JObject l) (JObject k)
| jr_item l v w k : json_reordered v w →
    json_reordered (JArray (l ++ v :: k)) (JArray (l ++ w :: k))
| jr_entry l n v w k : json_reordered v w →
    json_reordered (JObject (l ++ mkJsonEntry n v :: k)) (JObject (l ++ mkJsonEntry n w :: k)).

Inductive value_reordered : LogicalValue → LogicalValue → Prop :=
| vr_refl v : value_reordered v v
| vr_trans u v w : value_reordered u v → value_reordered v w → value_reordered u w
| vr_set l k : l ≡ₚ k → value_reordered (VSet l) (VSet k)
| vr_map l k : NoDup ((λ e, stable_digest (me_key e)) <$> l) → l ≡ₚ k →
    value_reordered (VMap l) (VMap k)
| vr_json v w : json_reordered v w → value_reordered (VJson v) (VJson w)
| vr_element l v w k : value_reordered v w →
    value_reordered (VArray (l ++ v :: k)) (VArray (l ++ w :: k))
| vr_element_meta l v w k d b n : value_reordered v w →
    value_reordered (VArrayWithMetadata (l ++ v :: k) d b n)
                    (VArrayWithMetadata (l ++ w :: k) d b n)
| vr_field l n v w k : value_reordered v w →
    value_reordered (VStruct (l ++ mkField n v :: k)) (VStruct (l ++ mkField n w :: k))
| vr_entry l kv kw v w k : value_reordered kv kw → value_reordered v w →
    value_reordered (VMap (l ++ mkMapEntry kv v :: k)) (VMap (l ++ mkMapEntry kw w :: k))
| vr_lower e v w up li ui : value_reordered v w →
    value_reordered (VRange e (Some v) up li ui) (VRange e (Some w) up li ui)
| vr_upper e lo v w li ui : value_reordered v w →
    value_reordered (VRange e lo (Some v) li ui) (VRange e lo (Some w) li ui)
| vr_range l v w k : value_reordered v w →
    value_reordered (VMultiRange (l ++ v :: k)) (VMultiRange (l ++ w :: k))
| vr_domain v w : value_reordered v w → value_reordered (VDomain v) (VDomain w).

Lemma json_reordered_canonical v w :
  json_reordered v w → canonicalize_json_value v = canonicalize_json_value w.
Proof.
  induction 1 as [|????????|l k Hnd Hp|l v w k _ IH|l n v w k _ IH]; cbn;
    [done|congruence|..].
  - f_equal. apply sort_by_unique; try apply _; [|by apply fmap_Permutation].
    by rewrite <- list_fmap_compose.
  - by rewrite !fmap_app, !fmap_cons, IH.
  - rewrite !fmap_app, !fmap_cons. cbn. by rewrite IH.
Qed.

(** Reordering SET members, JSON object entries or map entries anywhere inside a
    value leaves its canonical form, hence its [stable_digest], unchanged. *)
Theorem value_reordered_canonical v w :
  value_reordered v w →
  canonicalize_logical_value v = canonicalize_logical_value w
  ∧ stable_digest v = stable_digest w.
Proof.
  intros H.
  assert (canonicalize_logical_value v = canonicalize_logical_value w) as E;
    [|unfold stable_digest; by rewrite E].
  induction H; cbn; rewrite ?fmap_app, ?fmap_cons; cbn; try congruence.
  - f_equal. apply (Sorted_unique String.le); try (apply Sorted_merge_sort, _).
    by rewrite !merge_sort_Permutation.
  - f_equal. apply sort_by_unique; try apply _; [|by apply fmap_Permutation].
    by rewrite <- list_fmap_compose.
  - f_equal. by apply json_reordered_canonical.
Qed.

(** Canonicalising a whole transaction is idempotent. *)
Theorem canonicalize_transaction_idem t :
  canonicalize_transaction (canonicalize_transaction t) = canonicalize_transaction t.
Proof.
  destruct t as [src id b c chs]. unfold canonicalize_transaction. cbn. f_equal.
  rewrite <- list_fmap_compose. apply list_fmap_ext. intros _ ch _.
  assert (∀ col, canonicalize_column (canonicalize_column col) = canonicalize_column col) as Hc.
  { intros col. unfold canonicalize_column. destruct (col_datum col) eqn:E; rewrite ?E; try done.
    cbn. by rewrite canonicalize_logical_value_idem. }
  destruct ch as [db op sc tb cur ts basis bef aft]. unfold canonicalize_change. cbn.
  f_equal; [destruct bef as [l|]|destruct aft as [l|]]; cbn; try done; f_equal;
    unfold canonicalize_image; rewrite <- list_fmap_compose; apply list_fmap_ext; intros; apply Hc.
Qed.
End canonical.

Lemma value_reordered_canonical_witness :
  let v := VArray [VSet ["a"; "b"]; VNull] in
  let w := VArray [VSet ["b"; "a"]; VNull] in
  canonicalize_logical_value (SHA := SumDigest.sha256) (λ _, []) v
  = canonicalize_logical_value (SHA := SumDigest.sha256) (λ _, []) w
  ∧ stable_digest (SHA := SumDigest.sha256) (λ _, []) v
    = stable_digest (SHA := SumDigest.sha256) (λ _, []) w.
Proof.
  apply value_reordered_canonical, (vr_element _ []), vr_set. apply Permutation_swap.
Defined.
