(* ===== verification/Calendar.v ===== *)
(** * Civil calendar arithmetic

    [days_from_civil] and [civil_from_days] of
    [crates/change_event/src/compatibility.rs] convert between proleptic
    Gregorian dates and days since 1970-01-01; the calendar check [date] of
    [crates/change_event/src/validate.rs] says which dates are values at all.
    The theorems make the two conversions mutually inverse bijections between
    the valid dates and the integers, and bound every intermediate value for
    the 32-bit years the program passes in, so the 64-bit arithmetic of the
    source never wraps. *)
From S2P Require Import Prelude.

(** Rust's [/] and [%] truncate, [div_euclid]/[rem_euclid] floor for positive
    divisors; every plain [/] below has a nonnegative dividend. *)
Definition is_leap (year : Z) : bool :=
  (year mod 4 =? 0) && (negb (year mod 100 =? 0) || (year mod 400 =? 0)).

Definition days_in_month (year month : Z) : Z :=
  if (month =? 1) || (month =? 3) || (month =? 5) || (month =? 7) || (month =? 8)
     || (month =? 10) || (month =? 12) then 31
  else if (month =? 4) || (month =? 6) || (month =? 9) || (month =? 11) then 30
  else if month =? 2 then (if is_leap year then 29 else 28)
  else 0.

Definition days_from_civil (year month day : Z) : Z :=
  let year := year - (if month <=? 2 then 1 else 0) in
  let era := year / 400 in
  let year_of_era := year - era * 400 in
  let day_of_year :=
    Z.quot (153 * (month + (if 2 <? month then -3 else 9)) + 2) 5 + day - 1 in
  let day_of_era :=
    year_of_era * 365 + Z.quot year_of_era 4 - Z.quot year_of_era 100 + day_of_year in
  era * 146097 + day_of_era - 719468.

Definition civil_from_days (days : Z) : Z * Z * Z :=
  let z := days + 719468 in
  let era := z / 146097 in
  let day_of_era := z - era * 146097 in
  let year_of_era :=
    Z.quot (day_of_era - Z.quot day_of_era 1460 + Z.quot day_of_era 36524
            - Z.quot day_of_era 146096) 365 in
  let year := year_of_era + era * 400 in
  let day_of_year :=
    day_of_era - (365 * year_of_era + Z.quot year_of_era 4 - Z.quot year_of_era 100) in
  let month_part := Z.quot (5 * day_of_year + 2) 153 in
  let day := day_of_year - Z.quot (153 * month_part + 2) 5 + 1 in
  let month := month_part + (if month_part <? 10 then 3 else -9) in
  (year + (if month <=? 2 then 1 else 0), month, day).

Definition valid_date (year month day : Z) : Prop :=
  1 ≤ day ≤ days_in_month year month.

(** ** The year within a 400-year era *)

(** The days of an era before the March-based year [y]. *)
Definition year_start (y : Z) : Z := 365 * y + y / 4 - y / 100.

(** Is the March-based year [y] (of an era) one of 366 days? *)
Definition long_year (y : Z) : bool :=
  ((y + 1) mod 4 =? 0) && (negb ((y + 1) mod 100 =? 0) || (y + 1 =? 400)).

Definition year_len (y : Z) : Z := if long_year y then 366 else 365.

Definition era_year (doe : Z) : Z :=
  (doe - doe / 1460 + doe / 36524 - doe / 146096) / 365.

(** A year number of the era split into centuries, quadrennia and years. *)
Lemma split_year y : 0 ≤ y < 400 →
  ∃ c q r, y = 100 * c + 4 * q + r ∧ 0 ≤ c < 4 ∧ 0 ≤ q < 25 ∧ 0 ≤ r < 4
    ∧ y / 4 = 25 * c + q ∧ y / 100 = c.
Proof.
  intros Hy. exists (y / 100), (y mod 100 / 4), (y mod 4).
  Z.to_euclidean_division_equations. lia.
Qed.

Lemma long_year_split c q r :
  0 ≤ c < 4 → 0 ≤ q < 25 → 0 ≤ r < 4 →
  long_year (100 * c + 4 * q + r) = true → r = 3 ∧ (q ≠ 24 ∨ c = 3).
Proof.
  unfold long_year. intros Hc Hq Hr H. apply andb_true_iff in H as [H4 H].
  apply Z.eqb_eq in H4. apply orb_true_iff in H as [H|H]; bool_simpl;
    Z.to_euclidean_division_equations; lia.
Qed.

Lemma era_year_correct y doy :
  0 ≤ y < 400 → 0 ≤ doy < year_len y → era_year (year_start y + doy) = y.
Proof.
  intros Hy Hd. destruct (split_year y Hy) as (c & q & r & -> & Hc & Hq & Hr & H4 & H100).
  unfold year_start, era_year. rewrite H4, H100.
  assert (doy < 365 ∨ doy = 365 ∧ r = 3 ∧ (q ≠ 24 ∨ c = 3)) as Hdoy.
  { unfold year_len in Hd. destruct (long_year _) eqn:HL; [|lia].
    apply long_year_split in HL; lia. }
  clear H4 H100. assert (c = 0 ∨ c = 1 ∨ c = 2 ∨ c = 3) as Hcs by lia.
  destruct Hcs as [->|[->|[->| ->]]]; Z.to_euclidean_division_equations; lia.
Qed.

Lemma long_year_intro c q :
  0 ≤ c < 4 → 0 ≤ q < 25 → q ≠ 24 ∨ c = 3 → long_year (100 * c + 4 * q + 3) = true.
Proof.
  intros Hc Hq H. unfold long_year. apply andb_true_iff. split.
  - apply Z.eqb_eq. Z.to_euclidean_division_equations; lia.
  - apply orb_true_iff. destruct (decide (q = 24)) as [->|].
    + right. apply Z.eqb_eq. lia.
    + left. apply negb_true_iff, Z.eqb_neq. Z.to_euclidean_division_equations; lia.
Qed.

Lemma year_start_split c q r :
  0 ≤ c < 4 → 0 ≤ q < 25 → 0 ≤ r < 4 →
  year_start (100 * c + 4 * q + r) = 36524 * c + 1461 * q + 365 * r.
Proof. intros. unfold year_start. Z.to_euclidean_division_equations; lia. Qed.

(** Every day of an era lies in exactly one of its 400 years. *)
Lemma era_decompose doe :
  0 ≤ doe < 146097 →
  ∃ y doy, 0 ≤ y < 400 ∧ 0 ≤ doy < year_len y ∧ doe = year_start y + doy.
Proof.
  intros Hd.
  set (c := Z.min 3 (doe / 36524)). set (d1 := doe - 36524 * c).
  assert (0 ≤ c < 4 ∧ 0 ≤ d1 < 36525 ∧ (d1 = 36524 → c = 3)) as (Hc & H1 & H1').
  { subst c d1. Z.to_euclidean_division_equations; lia. }
  set (q := d1 / 1461). set (d2 := d1 - 1461 * q).
  assert (0 ≤ q < 25 ∧ 0 ≤ d2 < 1461 ∧ (d2 = 1460 → q ≠ 24 ∨ c = 3)) as (Hq & H2 & H2').
  { subst q d2. clearbody c d1. Z.to_euclidean_division_equations; lia. }
  set (r := Z.min 3 (d2 / 365)). set (doy := d2 - 365 * r).
  assert (0 ≤ r < 4 ∧ 0 ≤ doy < 366 ∧ (doy = 365 → r = 3 ∧ d2 = 1460)) as (Hr & H3 & H3').
  { subst r doy. clearbody c d1 q d2. Z.to_euclidean_division_equations; lia. }
  exists (100 * c + 4 * q + r), doy. split_and!; try lia.
  - unfold year_len. destruct (decide (doy = 365)) as [E|E]; [|case_match; lia].
    destruct (H3' E) as [-> E2]. rewrite long_year_intro; [lia|done|done|by apply H2'].
  - rewrite year_start_split by done. subst d1 d2 doy. lia.
Qed.

Lemma era_year_inverse doe :
  0 ≤ doe < 146097 →
  0 ≤ era_year doe < 400 ∧ 0 ≤ doe - year_start (era_year doe) < year_len (era_year doe).
Proof.
  intros Hd. destruct (era_decompose doe Hd) as (y & doy & Hy & Hdoy & ->).
  rewrite era_year_correct by done. lia.
Qed.

Lemma year_start_range y : 0 ≤ y < 400 → 0 ≤ year_start y ∧ year_start y + year_len y ≤ 146097.
Proof.
  intros Hy. destruct (split_year y Hy) as (c & q & r & -> & Hc & Hq & Hr & _).
  rewrite year_start_split by done. unfold year_len.
  destruct (long_year _) eqn:HL; [apply long_year_split in HL; [lia|done..]|].
  destruct (decide (r = 3 ∧ (q ≠ 24 ∨ c = 3))) as [[-> H]|H]; [|lia].
  rewrite long_year_intro in HL by done. done.
Qed.

(** ** The month within a March-based year *)
Definition month_start (mp : Z) : Z := (153 * mp + 2) / 5.

Lemma month_of_doy mp doy :
  0 ≤ mp < 12 → month_start mp ≤ doy < month_start (mp + 1) → (5 * doy + 2) / 153 = mp.
Proof.
  unfold month_start. intros Hm Hd.
  Z.to_euclidean_division_equations; lia.
Qed.

Lemma doy_month doy :
  0 ≤ doy < 366 →
  0 ≤ (5 * doy + 2) / 153 < 12
  ∧ month_start ((5 * doy + 2) / 153) ≤ doy < month_start ((5 * doy + 2) / 153 + 1).
Proof. unfold month_start. intros Hd. Z.to_euclidean_division_equations; lia. Qed.

(** Civil month of a March-based month, and back. *)
Definition civil_month (mp : Z) : Z := mp + (if mp <? 10 then 3 else -9).
Definition march_month (m : Z) : Z := m + (if 2 <? m then -3 else 9).

Lemma march_civil_month mp : 0 ≤ mp < 12 → march_month (civil_month mp) = mp.
Proof.
  intros. unfold march_month, civil_month.
  destruct (mp <? 10) eqn:E, (2 <? mp + _) eqn:E'; bool_simpl; lia.
Qed.
Lemma civil_march_month m : 1 ≤ m ≤ 12 → civil_month (march_month m) = m.
Proof.
  intros. unfold march_month, civil_month.
  destruct (2 <? m) eqn:E, (m + _ <? 10) eqn:E'; bool_simpl; lia.
Qed.

Lemma leap_long_year Y : is_leap (Y + 1) = long_year (Y mod 400).
Proof.
  unfold is_leap, long_year. f_equal; [|f_equal; [f_equal|]];
    apply eq_iff_eq_true; rewrite !Z.eqb_eq; Z.to_euclidean_division_equations; lia.
Qed.

(** The days of civil month [m] of civil year [y] are the interval of the
    March-based month, cut at the end of the year. *)
Lemma days_in_month_spec y m :
  1 ≤ m ≤ 12 →
  let Y := y - (if m <=? 2 then 1 else 0) in
  days_in_month y m =
    Z.min (month_start (march_month m + 1)) (year_len (Y mod 400)) - month_start (march_month m).
Proof.
  intros Hm Y.
  assert (m = 1 ∨ m = 2 ∨ m = 3 ∨ m = 4 ∨ m = 5 ∨ m = 6 ∨ m = 7 ∨ m = 8 ∨ m = 9
          ∨ m = 10 ∨ m = 11 ∨ m = 12) as Hcases by lia.
  assert (is_leap y = long_year (Y mod 400) ∨ m ≠ 2) as HL.
  { destruct (decide (m = 2)) as [->|]; [left|by right]. rewrite <- leap_long_year.
    f_equal. subst Y. cbn. lia. }
  unfold year_len. clearbody Y.
  repeat destruct Hcases as [->|Hcases]; try subst m;
    try (destruct HL as [HL|HL]; [|done]);
    unfold days_in_month; cbn -[is_leap long_year Z.modulo]; rewrite ?HL;
    destruct (long_year _); reflexivity.
Qed.

Lemma days_in_month_months y m : 1 ≤ days_in_month y m → 1 ≤ m ≤ 12.
Proof.
  unfold days_in_month. repeat (case_match; bool_simpl;
    try match goal with H : _ || _ = true |- _ =>
      repeat apply orb_true_iff in H as [H|H]; bool_simpl; lia end); try lia.
Qed.

(** ** The conversions in terms of era, year and day of year *)
Lemma days_from_civil_unfold y m d :
  1 ≤ m ≤ 12 → 0 ≤ d →
  let Y := y - (if m <=? 2 then 1 else 0) in
  days_from_civil y m d =
    Y / 400 * 146097 + (year_start (Y mod 400) + (month_start (march_month m) + d - 1)) - 719468.
Proof.
  intros Hm Hd Y. unfold days_from_civil. fold Y.
  assert (Y - Y / 400 * 400 = Y mod 400) as -> by (rewrite Z.mod_eq; lia).
  pose proof (Z.mod_pos_bound Y 400 eq_refl).
  assert (0 ≤ march_month m) by (unfold march_month; destruct (2 <? m) eqn:E; bool_simpl; lia).
  unfold year_start, month_start, march_month in *. rewrite !Z.quot_div_nonneg by lia. lia.
Qed.

Lemma civil_from_days_unfold n :
  let z := n + 719468 in
  let doe := z mod 146097 in
  let yoe := era_year doe in
  let doy := doe - year_start yoe in
  let mp := (5 * doy + 2) / 153 in
  civil_from_days n =
    (yoe + z / 146097 * 400 + (if civil_month mp <=? 2 then 1 else 0),
     civil_month mp, doy - month_start mp + 1).
Proof.
  intros z doe yoe doy mp. unfold civil_from_days. fold z.
  assert (z - z / 146097 * 146097 = doe) as -> by (subst doe; rewrite Z.mod_eq; lia).
  assert (0 ≤ doe < 146097) as Hdoe by (apply Z.mod_pos_bound; lia).
  destruct (era_year_inverse doe Hdoe) as [Hy Hdoy]. fold yoe in Hy, Hdoy. fold doy in Hdoy.
  assert (Z.quot (doe - Z.quot doe 1460 + Z.quot doe 36524 - Z.quot doe 146096) 365 = yoe) as ->.
  { subst yoe. unfold era_year. rewrite !(Z.quot_div_nonneg doe) by lia.
    rewrite Z.quot_div_nonneg; [done| |lia]. Z.to_euclidean_division_equations; lia. }
  assert (365 * yoe + Z.quot yoe 4 - Z.quot yoe 100 = year_start yoe) as ->.
  { unfold year_start. rewrite !Z.quot_div_nonneg by lia. done. }
  fold doy. rewrite (Z.quot_div_nonneg (5 * doy + 2)) by lia. fold mp.
  assert (0 ≤ mp) by (apply Z.div_pos; lia).
  rewrite Z.quot_div_nonneg by lia. done.
Qed.

Lemma civil_month_split m :
  1 ≤ m ≤ 12 → 0 ≤ march_month m < 12 ∧ month_start (march_month m) < month_start (march_month m + 1).
Proof.
  intros. unfold march_month, month_start.
  destruct (2 <? m) eqn:E; bool_simpl; (split; [lia|Z.to_euclidean_division_equations; lia]).
Qed.

Lemma month_start_nonneg mp : 0 ≤ mp → 0 ≤ month_start mp.
Proof. intros. apply Z.div_pos; lia. Qed.

Lemma civil_days_inverse y m d :
  valid_date y m d → civil_from_days (days_from_civil y m d) = (y, m, d).
Proof.
  unfold valid_date. intros Hd.
  assert (1 ≤ m ≤ 12) as Hm by (apply (days_in_month_months y); lia).
  rewrite days_from_civil_unfold by lia. set (Y := y - _).
  rewrite days_in_month_spec in Hd by done. fold Y in Hd. cbn in Hd.
  destruct (civil_month_split m Hm) as [Hmp Hms].
  set (doy := month_start (march_month m) + d - 1).
  pose proof (month_start_nonneg (march_month m)).
  pose proof (Z.mod_pos_bound Y 400 eq_refl) as HY.
  pose proof (year_start_range _ HY) as [Hys Hye].
  assert (0 ≤ doy < year_len (Y mod 400)) as Hdoy by (subst doy; lia).
  assert (month_start (march_month m) ≤ doy < month_start (march_month m + 1)) as Hdm
    by (subst doy; lia).
  set (doe := year_start (Y mod 400) + doy) in *.
  rewrite civil_from_days_unfold.
  replace (Y / 400 * 146097 + doe - 719468 + 719468) with (doe + Y / 400 * 146097) by lia.
  rewrite Z_mod_plus_full, Z_div_plus_full by lia.
  rewrite Z.mod_small, Z.div_small by lia.
  assert (era_year doe = Y mod 400) as -> by (by apply era_year_correct).
  replace (doe - year_start (Y mod 400)) with doy by lia.
  rewrite (month_of_doy (march_month m)) by done.
  rewrite civil_march_month by done. f_equal; [f_equal|].
  - pose proof (Z.div_mod Y 400). subst Y. lia.
  - subst doy. lia.
Qed.

(** Every day number is that of the valid date it converts to. *)
Theorem days_civil_roundtrip n :
  let '(y, m, d) := civil_from_days n in
  valid_date y m d ∧ days_from_civil y m d = n.
Proof.
  rewrite civil_from_days_unfold. set (z := n + 719468).
  set (doe := z mod 146097). set (yoe := era_year doe).
  assert (0 ≤ doe < 146097) as Hdoe by (apply Z.mod_pos_bound; lia).
  destruct (era_year_inverse doe Hdoe) as [Hy Hdoy]. fold yoe in Hy, Hdoy.
  set (doy := doe - year_start yoe) in *.
  assert (year_len yoe ≤ 366) as Hl by (unfold year_len; case_match; lia).
  destruct (doy_month doy) as [Hmp Hms]; [lia|]. set (mp := (5 * doy + 2) / 153) in *.
  assert (1 ≤ civil_month mp ≤ 12) as Hm.
  { unfold civil_month. destruct (mp <? 10) eqn:E; bool_simpl; lia. }
  set (b := if civil_month mp <=? 2 then 1 else 0).
  assert (yoe + z / 146097 * 400 + b - b = yoe + z / 146097 * 400) as HY by lia.
  split.
  - unfold valid_date. rewrite days_in_month_spec by done. fold b. rewrite HY.
    rewrite Z_mod_plus_full, Z.mod_small, march_civil_month by lia. lia.
  - rewrite days_from_civil_unfold by lia. fold b. rewrite HY.
    rewrite Z_mod_plus_full, Z_div_plus_full, Z.mod_small, Z.div_small by lia.
    rewrite march_civil_month by done. pose proof (Z.div_mod z 146097). lia.
Qed.

(** No intermediate value of the source's 64-bit arithmetic leaves its range
    when the year is a 32-bit integer. *)
Lemma days_from_civil_bounds y m d :
  i32_min ≤ y ≤ i32_max → valid_date y m d →
  - 2 ^ 40 < days_from_civil y m d < 2 ^ 40.
Proof.
  unfold i32_min, i32_max, valid_date. intros Hy Hd.
  assert (1 ≤ m ≤ 12) as Hm by (apply (days_in_month_months y); lia).
  assert (days_in_month y m ≤ 31) as Hl.
  { unfold days_in_month. repeat case_match; lia. }
  rewrite days_from_civil_unfold by lia. destruct (civil_month_split m Hm) as [Hmp _].
  set (Y := y - _).
  assert (- 2147483649 ≤ Y ≤ 2147483647) as HY by (subst Y; destruct (m <=? 2); lia).
  pose proof (Z.mod_pos_bound Y 400 eq_refl).
  destruct (year_start_range (Y mod 400)) as [? ?]; [done|].
  assert (0 ≤ year_len (Y mod 400)) by (unfold year_len; case_match; lia).
  assert (0 ≤ month_start (march_month m) ≤ 400) by
    (unfold month_start; Z.to_euclidean_division_equations; lia).
  assert (-5368710 ≤ Y / 400 ≤ 5368710) by (Z.to_euclidean_division_equations; lia).
  lia.
Qed.

(** Every valid date survives the trip through its day number, and the day number
    stays far inside the 64-bit range when the year is a 32-bit integer, so no operation
    of the source wraps. *)
Theorem civil_days_roundtrip y m d :
  i32_min ≤ y ≤ i32_max → valid_date y m d →
  civil_from_days (days_from_civil y m d) = (y, m, d)
  ∧ - 2 ^ 40 < days_from_civil y m d < 2 ^ 40.
Proof.
  intros Hy Hd. split; [by apply civil_days_inverse|by apply days_from_civil_bounds].
Qed.

(** Distinct valid dates have distinct day numbers. *)
Lemma days_from_civil_inj y m d y' m' d' :
  valid_date y m d → valid_date y' m' d' →
  days_from_civil y m d = days_from_civil y' m' d' → (y, m, d) = (y', m', d').
Proof.
  intros H H' E. rewrite <- (civil_days_inverse y m d), E by done.
  by apply civil_days_inverse.
Qed.

Example epoch : days_from_civil 1970 1 1 = 0 ∧ days_from_civil 2000 2 29 = 11016
  ∧ civil_from_days 19782 = (2024, 2, 29).
Proof. vm_compute. done. Qed.

Lemma civil_days_roundtrip_witness :
  civil_from_days (days_from_civil 2024 2 29) = (2024, 2, 29)
  ∧ - 2 ^ 40 < days_from_civil 2024 2 29 < 2 ^ 40.
Proof.
  apply (civil_days_roundtrip 2024 2 29); [|unfold valid_date]; vm_compute; split; discriminate.
Defined.
