(* ===== verification/Validate.v ===== *)
(** * ChangeEvent validation ([crates/change_event/src/validate.rs])

    Every transaction passes [validate] before it is published, stored or
    rendered to SQL.  The definitions follow the source check by check, in its
    order.  Module [Spec] states what a well-formed value, image and transaction
    is, declaratively; the theorems prove that the validators accept exactly
    those. *)
From S2P Require Import Prelude Text Codec Model Representation Calendar.

(** [ChangeEventValidationError(String)]; the two formatted messages keep their
    arguments instead of the rendered text. *)
Inductive ValidationError :=
| VE (message : string)
| VE_column (name native_type : string) (inner : ValidationError)
| VE_representation (e : SourceRepresentationError)
| VE_carrier (e : RawValueCarrierError).

Notation check := (result ValidationError ()).

(** ** Scalars *)
Definition supported_bits (bits : Z) : bool :=
  (bits =? 8) || (bits =? 16) || (bits =? 24) || (bits =? 32) || (bits =? 64).

Definition integer (value : string) (signed : bool) (bits : Z) : check :=
  ensure (supported_bits bits) (VE "invalid integer width") ;?
  let digits := if signed then strip_minus value else value in
  ensure (negb (sempty digits) && all_bytes is_ascii_digit digits)
    (VE "invalid integer syntax") ;?
  let valid :=
    if signed then
      match parse_i128 value with
      | Some v => (- 2 ^ (bits - 1) <=? v) && (v <? 2 ^ (bits - 1))
      | None => false
      end
    else
      match parse_u128 value with
      | Some v => v <? 2 ^ bits
      | None => false
      end in
  ensure valid (VE "integer outside declared range").

Definition float (bits : Z) (value : string) : check :=
  ensure (((bits =? 32) || (bits =? 64)) && (slen value =? bits / 4)
          && all_bytes is_ascii_hexdigit value)
    (VE "invalid floating-point bit pattern").

Definition date (year month day : Z) : check :=
  let leap := (year mod 4 =? 0) && (negb (year mod 100 =? 0) || (year mod 400 =? 0)) in
  let days :=
    if (month =? 1) || (month =? 3) || (month =? 5) || (month =? 7) || (month =? 8)
       || (month =? 10) || (month =? 12) then 31
    else if (month =? 4) || (month =? 6) || (month =? 9) || (month =? 11) then 30
    else if month =? 2 then (if leap then 29 else 28)
    else 0 in
  ensure ((0 <? day) && (day <=? days)) (VE "invalid calendar date").

Definition special_decimal (s : string) : bool :=
  bool_decide (s = "NaN") || bool_decide (s = "Infinity") || bool_decide (s = "-Infinity").

Definition decimal (unscaled : string) (scale : Z) : check :=
  if special_decimal unscaled then
    ensure (scale =? 0) (VE "special decimal values must have scale zero")
  else
    let digits := strip_minus unscaled in
    ensure (negb (sempty digits) && all_bytes is_ascii_digit digits)
      (VE "invalid decimal coefficient").

Definition time (hour minute second microsecond : Z) : bool :=
  ((hour <? 24) || ((hour =? 24) && (minute =? 0) && (second =? 0) && (microsecond =? 0)))
  && (minute <? 60) && (second <? 60) && (microsecond <? 1000000).

Definition uuid_byte (i : nat) (c : byte) : bool :=
  if bool_decide (i ∈ [8; 13; 18; 23]%nat) then bool_decide (c = "-"%char)
  else is_ascii_hexdigit c.
Definition uuid (value : string) : bool :=
  (slen value =? 36)
  && forallb (λ ic : nat * byte, uuid_byte ic.1 ic.2) (imap pair (sbytes value)).

(** [read_u32(&bytes[a..b], little_endian)] on at least four bytes. *)
Definition read_u32 (bytes : list byte) (little_endian : bool) : result ValidationError Z :=
  match bytes with
  | a :: b :: c :: d :: _ =>
      Ok (if little_endian
          then bval a + bval b * 2 ^ 8 + bval c * 2 ^ 16 + bval d * 2 ^ 24
          else bval a * 2 ^ 24 + bval b * 2 ^ 16 + bval c * 2 ^ 8 + bval d)
  | _ => Err (VE "truncated spatial header")
  end.

Definition geometry_name (base_code : Z) : string :=
  if base_code =? 1 then "point" else if base_code =? 2 then "linestring"
  else if base_code =? 3 then "polygon" else if base_code =? 4 then "multipoint"
  else if base_code =? 5 then "multilinestring" else if base_code =? 6 then "multipolygon"
  else if base_code =? 7 then "geometrycollection" else "unknown".

Section validators.
Context `{B64 : Base64, SHA : Sha256}.

Definition bytes (value : string) : check :=
  ensure (match b64_decode value with Some _ => true | None => false end)
    (VE "invalid base64url bytes").

Definition bit_string (encoded : string) (bit_length : Z)
    (padding : BitPadding) (bit_order : BitOrder) : check :=
  let? bytes := ok_or (VE "invalid bit string bytes") (b64_decode encoded) in
  ensure (0 <? bit_length) (VE "bit string length must be positive") ;?
  let expected_bytes := (bit_length + 7) / 8 in
  ensure (Z.of_nat (length bytes) =? expected_bytes)
    (VE "bit string byte length does not match bit length") ;?
  let unused := (8 - bit_length mod 8) mod 8 in
  if unused =? 0 then
    ensure (bool_decide (padding = PadNone))
      (VE "a byte-aligned bit string cannot declare padding")
  else
    ensure (negb (bool_decide (padding = PadNone)))
      (VE "non-byte-aligned bit string needs padding") ;?
    let mask := match bit_order with
                | MsbFirst => Z.shiftl 1 unused - 1
                | LsbFirst => wrap_u 8 (Z.shiftl u8_max (8 - unused))
                end in
    let actual := Z.land (bval (List.last bytes NUL)) mask in
    let expected := if bool_decide (padding = PadOne) then mask else 0 in
    ensure (actual =? expected) (VE "bit string padding bits are invalid").

Definition spatial (format : SpatialFormat) (encoded expected_geometry_type : string)
    (expected_dimensions : Z) (expected_srid : option Z) (crs : option string) : check :=
  ensure (in_range 2 4 expected_dimensions) (VE "spatial dimensions must be 2, 3, or 4") ;?
  ensure (negb (sempty expected_geometry_type) && negb (has_nul expected_geometry_type))
    (VE "spatial geometry type is empty") ;?
  match crs with
  | Some crs => ensure (negb (sempty crs) && negb (has_nul crs)) (VE "invalid spatial CRS")
  | None => Ok ()
  end ;?
  (let? bytes := ok_or (VE "invalid spatial bytes") (b64_decode encoded) in
   ensure (5 <=? Z.of_nat (length bytes)) (VE "spatial value has no complete WKB header") ;?
   (let? little_endian :=
      (let b := bval (List.hd NUL bytes) in
       if b =? 0 then Ok false else if b =? 1 then Ok true
       else Err (VE "invalid spatial byte order")) in
    let? geometry_code := read_u32 (take 4 (drop 1 bytes)) little_endian in
    let has_srid := negb (Z.land geometry_code 0x20000000 =? 0) in
    let has_z := negb (Z.land geometry_code 0x80000000 =? 0) in
    let has_m := negb (Z.land geometry_code 0x40000000 =? 0) in
    let base_code := Z.land geometry_code 0x0fffffff in
    let dimensions := 2 + Z.b2z has_z + Z.b2z has_m in
    let '(base_code, dimensions) :=
      if 1000 <=? base_code then
        let suffix := base_code / 1000 in
        (base_code mod 1000,
         if (suffix =? 1) || (suffix =? 2) then 3 else if suffix =? 3 then 4 else 0)
      else (base_code, dimensions) in
    let geometry_type := geometry_name base_code in
    ensure (negb (bool_decide (geometry_type = "unknown")))
      (VE "unknown spatial geometry type") ;?
    ensure (eq_ignore_case geometry_type expected_geometry_type)
      (VE "spatial geometry type does not match its declaration") ;?
    ensure (dimensions =? expected_dimensions)
      (VE "spatial dimensions do not match its declaration") ;?
    (let? embedded_srid :=
       (if has_srid then
          ensure (9 <=? Z.of_nat (length bytes)) (VE "EWKB SRID header is truncated") ;?
          (let? s := read_u32 (take 4 (drop 5 bytes)) little_endian in Ok (Some (wrap_s 32 s)))
        else Ok None) in
     match format with
     | Ewkb => ensure has_srid (VE "EWKB spatial value is missing its SRID")
     | Wkb => ensure (negb has_srid) (VE "WKB spatial value unexpectedly contains EWKB SRID")
     end ;?
     ensure (bool_decide (format = Wkb) || bool_decide (embedded_srid = expected_srid))
       (VE "spatial SRID does not match its declaration")))).

(** ** Recursive values *)
Fixpoint json_value (value : JsonValue) (depth : Z) : check :=
  ensure (depth <=? 100) (VE "JSON nesting exceeds 100") ;?
  match value with
  | JSignedInteger v => integer v true 64
  | JUnsignedInteger v => integer v false 64
  | JDoubleBits v => float 64 v
  | JDecimal unscaled scale =>
      ensure (scale <=? i32_max) (VE "JSON decimal scale is too large") ;?
      decimal unscaled scale
  | JArray items => each (λ item, json_value item (depth + 1)) items
  | JObject items =>
      each_distinct je_key (VE "duplicate JSON key") (λ _, Ok ())
        (λ item, json_value (je_value item) (depth + 1)) [] items
  | JNull | JBoolean _ | JString _ => Ok ()
  end.

(** [try_fold(1_u64, checked_mul)] *)
Definition checked_product (l : list Z) : option Z :=
  foldl (λ acc n, p ← acc; if p * n <=? u64_max then Some (p * n) else None) (Some 1) l.

Definition lempty {A} (l : list A) : bool := match l with [] => true | _ => false end.

Definition array_shape (elements : list LogicalValue) (dimensions : Z)
    (lower_bounds dimension_lengths : list Z) : check :=
  if dimensions =? 0 then
    ensure (lempty elements && lempty lower_bounds && lempty dimension_lengths)
      (VE "zero-dimensional arrays must be empty")
  else
    ensure ((dimensions =? Z.of_nat (length lower_bounds))
            && (lempty dimension_lengths
                || (dimensions =? Z.of_nat (length dimension_lengths))))
      (VE "array dimensions and lower bounds do not agree") ;?
    if lempty dimension_lengths then Ok ()
    else
      ensure (bool_decide (checked_product dimension_lengths
                           = Some (Z.of_nat (length elements))))
        (VE "array dimension lengths do not match the flattened element count").

Definition is_range (v : LogicalValue) : bool :=
  match v with VRange _ _ _ _ _ => true | _ => false end.
Definition is_none {A} (o : option A) : bool := match o with None => true | _ => false end.

Fixpoint logical_value_at_depth (value : LogicalValue) (depth : Z) : check :=
  ensure (depth <=? 100) (VE "logical value nesting exceeds 100") ;?
  match value with
  | VNull | VBoolean _ => Ok ()
  | VUuid value => ensure (uuid value) (VE "invalid UUID value")
  | VInteger signed bits value => integer value signed bits
  | VDecimal unscaled scale => decimal unscaled scale
  | VFloat bits hex => float bits hex
  | VText charset b _ =>
      ensure (negb (sempty charset)
              && all_bytes (λ b, is_ascii_alphanumeric b || bool_decide (b = "_"%char)) charset)
        (VE "invalid text charset") ;?
      bytes b
  | VBinary b | VXml b _ => bytes b
  | VBitString b len padding order => bit_string b len padding order
  | VDate year month day => date year month day
  | VLocalTime h m s us => ensure (time h m s us) (VE "invalid local time")
  | VOffsetTime h m s us offset =>
      ensure (time h m s us && in_range (-57599) 57599 offset) (VE "invalid offset time")
  | VLocalDatetime year month day h m s us =>
      date year month day ;? ensure (time h m s us) (VE "invalid datetime")
  | VDuration _ _ minutes seconds us =>
      ensure ((minutes <? 60) && (seconds <? 60) && (us <? 1000000)) (VE "invalid duration")
  | VCalendarInterval _ _ _ => Ok ()
  | VInstant seconds ns =>
      integer seconds true 64 ;? ensure (ns <? 1000000000) (VE "invalid instant fraction")
  | VYear _ | VTemporalInfinity _ _ => Ok ()
  | VEnum label => ensure (negb (sempty label) && negb (has_nul label)) (VE "invalid ENUM label")
  | VSet members =>
      each_distinct id (VE "duplicate SET member")
        (λ m, ensure (negb (has_nul m)) (VE "invalid SET member")) (λ _, Ok ()) [] members
  | VSpatial format b gt dims srid crs => spatial format b gt dims srid crs
  | VArray elements => each (λ e, logical_value_at_depth e (depth + 1)) elements
  | VStruct fields =>
      each_distinct sf_name (VE "duplicate structured field name")
        (λ f, ensure (negb (sempty (sf_name f)) && negb (has_nul (sf_name f)))
                (VE "invalid structured field name"))
        (λ f, logical_value_at_depth (sf_value f) (depth + 1)) [] fields
  | VMap entries =>
      each_distinct me_key (VE "duplicate map key") (λ _, Ok ())
        (λ e, logical_value_at_depth (me_key e) (depth + 1) ;?
              logical_value_at_depth (me_value e) (depth + 1)) [] entries
  | VRange empty lower upper _ _ =>
      (if empty then
         ensure (is_none lower && is_none upper) (VE "empty range has bounds")
       else Ok ()) ;?
      match lower with Some v => logical_value_at_depth v (depth + 1) | None => Ok () end ;?
      match upper with Some v => logical_value_at_depth v (depth + 1) | None => Ok () end
  | VMultiRange ranges =>
      each (λ r, ensure (is_range r) (VE "multirange contains a non-range value") ;?
                 logical_value_at_depth r (depth + 1)) ranges
  | VArrayWithMetadata elements dimensions lower_bounds dimension_lengths =>
      array_shape elements dimensions lower_bounds dimension_lengths ;?
      each (λ e, logical_value_at_depth e (depth + 1)) elements
  | VInvalidTemporal kind raw =>
      ensure (negb (blank kind) && negb (sempty raw))
        (VE "invalid temporal value lacks kind or raw spelling")
  | VNetwork family address prefix_length =>
      ensure (negb (blank family) && negb (blank address) && negb (has_nul address))
        (VE "network value is incomplete") ;?
      ensure (match prefix_length with Some p => p <=? 128 | None => true end)
        (VE "network prefix is invalid")
  | VDomain value => logical_value_at_depth value (depth + 1)
  | VRaw carrier =>
      ensure (negb (bool_decide (rvc_reversible carrier = Some false)))
        (VE "nonreversible raw carrier must use a source representation envelope") ;?
      map_err VE_carrier (carrier_validate carrier)
  | VJson value => json_value value 0
  end.

Definition logical_value (value : LogicalValue) : check := logical_value_at_depth value 0.
Definition validate_value := logical_value.

(** ** Row images *)

(** The three [HashSet]s of [image], as the values inserted so far. *)
Record ImageSets := mkImageSets {
  is_names : list string;
  is_ordinals : list Z;
  is_key_ordinals : list Z
}.

(** A primary-key column carries a value and is not generated. *)
Definition image_key (key_ordinals : list Z) (column : ColumnDatum) :
    result ValidationError (list Z) :=
  match col_primary_key_ordinal column with
  | Some key_ordinal =>
      ensure (negb (bool_decide (key_ordinal ∈ key_ordinals)))
        (VE "duplicate primary key ordinal") ;?
      ensure (match col_datum column with Value _ => true | _ => false end)
        (VE "primary key value is absent, unchanged or NULL") ;?
      ensure (negb (col_generated column)) (VE "primary key column is generated") ;?
      Ok (key_ordinal :: key_ordinals)
  | None => Ok key_ordinals
  end.

(** Where an absent value may occur. *)
Definition image_presence (operation : Operation) (is_before : bool) (datum : Datum) : check :=
  match datum with
  | Unavailable =>
      ensure (is_before && negb (bool_decide (operation = Insert)))
        (VE "unavailable value is only valid in a before image")
  | Unchanged =>
      ensure (negb is_before && bool_decide (operation = Update))
        (VE "unchanged value is only valid in an UPDATE after image")
  | _ => Ok ()
  end.

Definition image_value (column : ColumnDatum) : check :=
  match col_datum column with
  | Value v => map_err (VE_column (col_name column) (col_native_type column)) (logical_value v)
  | EnvelopeDatum envelope => map_err VE_representation (envelope_validate envelope)
  | _ => Ok ()
  end.

(** The body of the loop over the columns. *)
Definition image_column (operation : Operation) (is_before : bool)
    (sets : ImageSets) (column : ColumnDatum) : result ValidationError ImageSets :=
  ensure (negb (sempty (col_name column)) && negb (has_nul (col_name column)))
    (VE "invalid column identifier") ;?
  ensure (negb (sempty (col_native_type column))) (VE "native type is empty") ;?
  ensure (negb (bool_decide (col_name column ∈ is_names sets))
          && negb (bool_decide (col_ordinal column ∈ is_ordinals sets)))
    (VE "duplicate column in image") ;?
  (let? key_ordinals := image_key (is_key_ordinals sets) column in
   image_presence operation is_before (col_datum column) ;?
   image_value column ;?
   Ok (mkImageSets (col_name column :: is_names sets)
                   (col_ordinal column :: is_ordinals sets) key_ordinals)).

Fixpoint image_columns (operation : Operation) (is_before : bool)
    (sets : ImageSets) (row : list ColumnDatum) : result ValidationError ImageSets :=
  match row with
  | [] => Ok sets
  | column :: row' =>
      let? sets' := image_column operation is_before sets column in
      image_columns operation is_before sets' row'
  end.

Definition image (row : list ColumnDatum) (operation : Operation) (is_before : bool) : check :=
  ensure (negb (lempty row)) (VE "row image is empty") ;?
  (let? sets := image_columns operation is_before (mkImageSets [] [] []) row in
   ensure (forallb (λ i, bool_decide (Z.of_nat i ∈ is_key_ordinals sets))
             (seq 0 (length (is_key_ordinals sets))))
     (VE "primary key ordinals are not contiguous")).

(** ** Transactions *)
Definition cursor (value : SourceCursor) : check :=
  ensure (negb (sempty (cur_format value)) && negb (sempty (cur_value value)))
    (VE "source cursor is incomplete").

Definition is_some {A} (o : option A) : bool := negb (is_none o).

Definition valid_shape (change : RowChange) : bool :=
  match chg_operation change with
  | Insert => is_none (chg_before change) && is_some (chg_after change)
  | Update => is_some (chg_before change) && is_some (chg_after change)
  | Delete => is_some (chg_before change) && is_none (chg_after change)
  end.

(** [before.iter().chain(after.iter()).flatten()] *)
Definition change_columns (change : RowChange) : list ColumnDatum :=
  default [] (chg_before change) ++ default [] (chg_after change).

(** The column definition, without its datum. *)
Definition col_definition (c : ColumnDatum) :=
  (col_ordinal c, col_name c, col_native_type c, col_primary_key_ordinal c,
   col_generated c, col_collation c).

Definition validate_change (change : RowChange) : check :=
  ensure (negb (sempty (chg_schema change)) && negb (sempty (chg_table change))
          && negb (has_nul (chg_schema change)) && negb (has_nul (chg_table change)))
    (VE "invalid table identifier") ;?
  ensure (negb (sempty (chg_schema_basis change))) (VE "schema basis is missing") ;?
  cursor (chg_source_cursor change) ;?
  ensure (valid_shape change) (VE "operation has inconsistent before/after images") ;?
  match chg_before change with
  | Some row => image row (chg_operation change) true
  | None => Ok ()
  end ;?
  match chg_after change with
  | Some row => image row (chg_operation change) false
  | None => Ok ()
  end ;?
  each (λ column,
          match col_datum column with
          | EnvelopeDatum envelope =>
              ensure (bool_decide (ctx_source_cursor (env_context envelope)
                                   = chg_source_cursor change))
                (VE "source representation cursor differs from its Change Event cursor")
          | _ => Ok ()
          end) (change_columns change) ;?
  match chg_before change, chg_after change with
  | Some before, Some after =>
      ensure ((Z.of_nat (length before) =? Z.of_nat (length after))
              && forallb (λ ba : ColumnDatum * ColumnDatum,
                            bool_decide (col_definition ba.1 = col_definition ba.2))
                   (zip before after))
        (VE "UPDATE before/after column definitions differ")
  | _, _ => Ok ()
  end.

(** The newtype [ValidatedTransaction]: only [validate] builds one. *)
Record ValidatedTransaction := mkValidated { vt_transaction : ChangeTransaction }.

Definition validate (transaction : ChangeTransaction) :
    result ValidationError ValidatedTransaction :=
  ensure (negb (blank (tx_id transaction))) (VE "transaction id is empty") ;?
  ensure (negb (sempty (src_kind (tx_source transaction)))
          && negb (sempty (src_version (tx_source transaction)))
          && negb (sempty (src_id (tx_source transaction))))
    (VE "source identity is incomplete") ;?
  cursor (tx_begin_cursor transaction) ;?
  cursor (tx_commit_cursor transaction) ;?
  ensure (negb (lempty (tx_changes transaction))) (VE "transaction has no changes") ;?
  each validate_change (tx_changes transaction) ;?
  Ok (mkValidated transaction).
End validators.

(** ** What validation promises *)
Module Spec.
(** The number a digit string denotes. *)
Definition digits_value (s : string) : Z :=
  foldl (λ a c, 10 * a + (bval c - 48)) 0 (sbytes s).
Definition is_digits (s : string) : Prop :=
  s ≠ ""%string ∧ ∀ c, c ∈ sbytes s → is_ascii_digit c = true.

Inductive denotes (signed : bool) : string → Z → Prop :=
| denotes_nonneg s : is_digits s → denotes signed s (digits_value s)
| denotes_neg s : signed = true → is_digits s →
    denotes signed (String "-" s) (- digits_value s).

Definition int_range (signed : bool) (bits v : Z) : Prop :=
  if signed then - 2 ^ (bits - 1) ≤ v < 2 ^ (bits - 1) else 0 ≤ v < 2 ^ bits.

Lemma digits_from_value s a n :
  digits_from 10 s a = Some n → n = foldl (λ a c, 10 * a + (bval c - 48)) a (sbytes s).
Proof.
  revert a. induction s as [|c s IH]; intros a H; [cbn in *; congruence|].
  pose proof (digits_from_digits _ _ _ H) as Hd. apply andb_true_iff in Hd as [Hc Hd].
  cbn in H. rewrite digit_val_ascii in H by done. cbn in H.
  change (sbytes (String c s)) with (c :: sbytes s). cbn [foldl].
  rewrite (IH _ H). f_equal. lia.
Qed.

Lemma is_digits_spec s :
  is_digits s ↔ sempty s = false ∧ all_bytes is_ascii_digit s = true.
Proof.
  unfold is_digits. rewrite all_bytes_spec. destruct s; cbn; naive_solver.
Qed.

Lemma parse_digits_value s : is_digits s → parse_digits 10 s = Some (digits_value s).
Proof.
  intros H. apply is_digits_spec in H. pose proof H as [He _].
  apply parse_digits_Some in H as [n Hn]. rewrite Hn. f_equal.
  unfold parse_digits in Hn. rewrite He in Hn. by apply digits_from_value in Hn.
Qed.

Lemma digits_no_sign s c :
  is_digits s → is_ascii_digit c = false → strip_byte c s = None.
Proof.
  intros H Hc. apply is_digits_spec in H as [_ H].
  by apply strip_byte_none, digits_not_byte.
Qed.

Lemma digits_value_nonneg s : is_digits s → 0 ≤ digits_value s.
Proof. intros H. eapply parse_digits_nonneg, parse_digits_value, H. Qed.

Lemma supported_bits_spec bits :
  supported_bits bits = true ↔ bits ∈ [8; 16; 24; 32; 64].
Proof.
  unfold supported_bits. rewrite !orb_true_iff, !Z.eqb_eq, !elem_of_cons.
  rewrite elem_of_nil. tauto.
Qed.

Lemma parse_u128_digits s :
  is_digits s →
  parse_u128 s = if digits_value s <=? u128_max then Some (digits_value s) else None.
Proof.
  intros H. unfold parse_u128, parse_unsigned.
  rewrite digits_no_sign by done. cbn. by rewrite parse_digits_value.
Qed.

Lemma parse_i128_digits s :
  is_digits s →
  parse_i128 s = if in_range i128_min i128_max (digits_value s)
                 then Some (digits_value s) else None.
Proof.
  intros H. unfold parse_i128, parse_signed.
  rewrite !digits_no_sign by done. cbn. by rewrite parse_digits_value.
Qed.

Lemma parse_i128_neg s :
  is_digits s →
  parse_i128 (String "-" s) = if in_range i128_min i128_max (- digits_value s)
                              then Some (- digits_value s) else None.
Proof.
  intros H. unfold parse_i128, parse_signed. cbn.
  rewrite bool_decide_eq_true_2, parse_digits_value by done. done.
Qed.

Lemma bits_bounds bits :
  bits ∈ [8; 16; 24; 32; 64] → 2 ^ (bits - 1) ≤ 2 ^ 63 ∧ 0 < 2 ^ (bits - 1) ∧ 2 ^ bits ≤ 2 ^ 64.
Proof.
  intros H. repeat (apply elem_of_cons in H as [->|H]; [vm_compute; intuition congruence|]).
  by apply elem_of_nil in H.
Qed.

Lemma signed_check bits v :
  (- 2 ^ (bits - 1) <=? v) && (v <? 2 ^ (bits - 1)) = true ↔ int_range true bits v.
Proof. rewrite andb_true_iff, Z.leb_le, Z.ltb_lt. done. Qed.

Lemma integer_neg s bits :
  is_digits s →
  integer (String "-" s) true bits = Ok ()
  ↔ bits ∈ [8; 16; 24; 32; 64] ∧ int_range true bits (- digits_value s).
Proof.
  intros H. unfold integer. rewrite !seq_ok, !ensure_ok, supported_bits_spec.
  assert (strip_minus (String "-" s) = s) as ->.
  { unfold strip_minus. cbn. by rewrite bool_decide_eq_true_2. }
  apply is_digits_spec in H as Hs. rewrite (proj1 Hs), (proj2 Hs), parse_i128_neg by done.
  assert (bits ∈ [8; 16; 24; 32; 64] → int_range true bits (- digits_value s) →
          in_range i128_min i128_max (- digits_value s) = true) as Hr.
  { intros Hb Hi. apply in_range_spec. pose proof (bits_bounds _ Hb).
    unfold int_range in Hi. unfold i128_min, i128_max. lia. }
  split.
  - intros (Hb & _ & Hv). split; [done|].
    destruct (in_range i128_min _ _); [|done]. by apply signed_check.
  - intros [Hb Hi]. rewrite Hr by done. split_and!; try done. by apply signed_check.
Qed.

Lemma integer_nonneg s signed bits :
  is_digits s →
  integer s signed bits = Ok ()
  ↔ bits ∈ [8; 16; 24; 32; 64] ∧ int_range signed bits (digits_value s).
Proof.
  intros H. unfold integer. rewrite !seq_ok, !ensure_ok, supported_bits_spec.
  pose proof (digits_value_nonneg s H) as H0.
  assert ((if signed then strip_minus s else s) = s) as ->.
  { destruct signed; [|done]. unfold strip_minus. by rewrite digits_no_sign. }
  apply is_digits_spec in H as Hs. rewrite (proj1 Hs), (proj2 Hs).
  rewrite parse_i128_digits, parse_u128_digits by done.
  assert (bits ∈ [8; 16; 24; 32; 64] → int_range signed bits (digits_value s) →
          in_range i128_min i128_max (digits_value s) = true
          ∧ (digits_value s <=? u128_max) = true) as Hr.
  { intros Hb Hi. rewrite in_range_spec, Z.leb_le. pose proof (bits_bounds _ Hb).
    unfold int_range in Hi. unfold i128_min, i128_max, u128_max. destruct signed; lia. }
  split.
  - intros (Hb & _ & Hv). split; [done|]. unfold int_range.
    destruct signed.
    + destruct (in_range _ _ _); [by apply signed_check|done].
    + destruct (_ <=? u128_max); [|done]. apply Z.ltb_lt in Hv. lia.
  - intros [Hb Hi]. destruct (Hr Hb Hi) as [-> ->]. split_and!; try done.
    destruct signed; [by apply signed_check|]. apply Z.ltb_lt. apply Hi.
Qed.

(** The integer validator accepts exactly the decimal numerals of a
    supported width: an optional minus sign (only when signed), at least one
    digit and nothing else, and a value in the declared two's-complement or
    unsigned range. *)
Theorem integer_accepts (s : string) (signed : bool) (bits : Z) :
  integer s signed bits = Ok ()
  ↔ bits ∈ [8; 16; 24; 32; 64] ∧ ∃ v, denotes signed s v ∧ int_range signed bits v.
Proof.
  split.
  - intros H. assert (is_digits (if signed then strip_minus s else s)) as Hd.
    { unfold integer in H. apply seq_ok in H as [_ H]. apply seq_ok in H as [H _].
      apply ensure_ok in H. bool_simpl. by apply is_digits_spec. }
    destruct signed; [|apply integer_nonneg in H as [? ?]; [|done];
                       eauto using denotes_nonneg].
    unfold strip_minus in Hd. destruct (strip_byte "-" s) as [d|] eqn:Es; cbn in Hd.
    + destruct s as [|c s]; [done|]. cbn in Es. case_bool_decide; [|done]. simplify_eq.
      apply integer_neg in H as [? ?]; [|done]. eauto using denotes_neg.
    + apply integer_nonneg in H as [? ?]; [|done]. eauto using denotes_nonneg.
  - intros [Hb (v & Hv & Hi)]. destruct Hv as [s Hs|s -> Hs].
    + by apply integer_nonneg.
    + by apply integer_neg.
Qed.

(** The validator's calendar check is [valid_date]. *)
Lemma date_accepts (y m d : Z) : date y m d = Ok () ↔ valid_date y m d.
Proof.
  unfold date, valid_date, days_in_month, is_leap.
  rewrite ensure_ok, andb_true_iff, Z.ltb_lt, Z.leb_le. lia.
Qed.

Section images.
Context `{B64 : Base64, SHA : Sha256}.

(** *** Values: a value at depth [k] below [v] *)
Definition children (v : LogicalValue) : list LogicalValue :=
  match v with
  | VArray l | VMultiRange l | VArrayWithMetadata l _ _ _ => l
  | VStruct fields => sf_value <$> fields
  | VMap entries => concat ((λ e, [me_key e; me_value e]) <$> entries)
  | VRange _ lower upper _ _ => option_list lower ++ option_list upper
  | VDomain v => [v]
  | _ => []
  end.

Inductive below : Z → LogicalValue → LogicalValue → Prop :=
| below_here v : below 0 v v
| below_child k u w v : u ∈ children v → below k w u → below (k + 1) w v.

Definition spec_time (h m s us : Z) : Prop :=
  (h < 24 ∨ h = 24 ∧ m = 0 ∧ s = 0 ∧ us = 0) ∧ m < 60 ∧ s < 60 ∧ us < 1000000.

Definition no_nul (s : string) : Prop := NUL ∉ sbytes s.
Definition identifier (s : string) : Prop := s ≠ ""%string ∧ no_nul s.

(** What each constructor requires of its own payload, its nested values
    aside. *)
Definition local_ok (v : LogicalValue) : Prop :=
  match v with
  | VInteger signed bits s =>
      bits ∈ [8; 16; 24; 32; 64] ∧ ∃ z, denotes signed s z ∧ int_range signed bits z
  | VDate y m d => valid_date y m d
  | VLocalTime h m s us => spec_time h m s us
  | VOffsetTime h m s us offset => spec_time h m s us ∧ -57600 < offset < 57600
  | VLocalDatetime y mo d h m s us => valid_date y mo d ∧ spec_time h m s us
  | VDuration _ _ m s us => m < 60 ∧ s < 60 ∧ us < 1000000
  | VEnum label => identifier label
  | VSet members => NoDup members ∧ Forall no_nul members
  | VStruct fields => NoDup (sf_name <$> fields) ∧ Forall (λ f, identifier (sf_name f)) fields
  | VMap entries => NoDup (me_key <$> entries)
  | VRange empty lower upper _ _ => empty = true → lower = None ∧ upper = None
  | VMultiRange ranges => Forall (λ r, is_range r = true) ranges
  | VArrayWithMetadata elements dimensions lower_bounds dimension_lengths =>
      array_shape elements dimensions lower_bounds dimension_lengths = Ok ()
  | VArray _ | VDomain _ => True
  | v => logical_value_at_depth v 0 = Ok ()
  end.

Lemma time_spec h m s us : time h m s us = true ↔ spec_time h m s us.
Proof.
  unfold time, spec_time.
  rewrite !andb_true_iff, orb_true_iff, !andb_true_iff, !Z.ltb_lt, !Z.eqb_eq. tauto.
Qed.

Lemma no_nul_spec s : has_nul s = false ↔ no_nul s.
Proof. apply contains_byte_false. Qed.

Lemma identifier_spec s : negb (sempty s) && negb (has_nul s) = true ↔ identifier s.
Proof.
  rewrite andb_true_iff, !negb_true_iff, no_nul_spec. unfold identifier.
  destruct s; cbn; intuition congruence.
Qed.

Lemma flat_spec v d :
  flat v = true → logical_value_at_depth v d = Ok () ↔ d ≤ 100 ∧ local_ok v.
Proof.
  intros Hf. assert (0 ≤ 100) as H0 by lia.
  destruct v; try discriminate Hf; cbn [logical_value_at_depth local_ok];
    rewrite ?seq_ok, ?ensure_ok, ?Z.leb_le; try tauto.
  - by rewrite integer_accepts.
  - by rewrite date_accepts.
  - by rewrite time_spec.
  - rewrite andb_true_iff, in_range_spec, time_spec. intuition lia.
  - by rewrite date_accepts, time_spec.
  - rewrite !andb_true_iff, !Z.ltb_lt. tauto.
  - by rewrite identifier_spec.
  - rewrite each_distinct_nil_ok, list_fmap_id, !Forall_forall.
    setoid_rewrite ensure_ok. setoid_rewrite negb_true_iff.
    setoid_rewrite no_nul_spec. naive_solver.
Qed.

(** One level of the recursion: the value itself, then its children. *)
Lemma value_step v d :
  logical_value_at_depth v d = Ok ()
  ↔ d ≤ 100 ∧ local_ok v
    ∧ Forall (λ c, logical_value_at_depth c (d + 1) = Ok ()) (children v).
Proof.
  destruct (flat v) eqn:Hf.
  { rewrite flat_spec by done.
    assert (children v = []) as -> by (by destruct v). rewrite Forall_nil. tauto. }
  destruct v; try discriminate Hf; cbn [logical_value_at_depth local_ok children];
    rewrite ?seq_ok, ?ensure_ok, ?Z.leb_le, ?each_ok.
  - tauto.
  - rewrite each_distinct_nil_ok, Forall_fmap, Forall_and. cbn beta.
    setoid_rewrite ensure_ok. setoid_rewrite identifier_spec. tauto.
  - rewrite each_distinct_nil_ok, Forall_concat, Forall_fmap. cbn beta.
unfold compose. setoid_rewrite seq_ok. setoid_rewrite Forall_cons. setoid_rewrite Forall_singleton.
    rewrite !Forall_forall. naive_solver.
  - rewrite Forall_app. destruct empty, lower, upper; cbn;
      rewrite ?Forall_singleton, ?Forall_nil; naive_solver.
  - setoid_rewrite seq_ok. setoid_rewrite ensure_ok. rewrite Forall_and. tauto.
  - tauto.
  - rewrite Forall_singleton. tauto.
Qed.

Lemma children_ind (P : LogicalValue → Prop) :
  (∀ v, Forall P (children v) → P v) → ∀ v, P v.
Proof.
  intros HP. induction v as [v Hf|l IH|l IH|l IH|e lo up li ui IHl IHu|l IH|l d b n IH|v IH]
    using LogicalValue_nested_ind; apply HP; cbn [children]; try done.
  - assert (children v = []) as -> by (by destruct v). constructor.
  - by rewrite Forall_fmap.
  - rewrite Forall_concat, Forall_fmap. eapply Forall_impl; [exact IH|].
    intros e [? ?]. cbn. by repeat constructor.
  - rewrite Forall_app. destruct lo, up; cbn in *; split; by repeat constructor.
  - by constructor.
Qed.

Lemma below_step (P : Z → LogicalValue → Prop) v :
  (∀ k u, below k u v → P k u)
  ↔ P 0 v ∧ Forall (λ c, ∀ k u, below k u c → P (k + 1) u) (children v).
Proof.
  split.
  - intros H. split; [apply H; constructor|]. apply Forall_forall.
    intros c Hc k u Hb. apply H. by econstructor.
  - intros [H0 H] k u Hb. destruct Hb as [|k u w v Hu Hb]; [done|].
    rewrite Forall_forall in H. by eapply H.
Qed.

Lemma value_below v d :
  logical_value_at_depth v d = Ok ()
  ↔ ∀ k u, below k u v → d + k ≤ 100 ∧ local_ok u.
Proof.
  revert d. induction v as [v IH] using children_ind. intros d.
  rewrite value_step, (below_step (λ k u, d + k ≤ 100 ∧ local_ok u)).
  rewrite Z.add_0_r. rewrite <- (and_assoc (d ≤ 100)).
  do 2 apply and_iff_compat_l.
  rewrite !Forall_forall in *. apply forall_proper. intros c.
  split; intros H Hc.
  - intros k u Hb. replace (d + (k + 1)) with (d + 1 + k) by lia.
    by eapply (IH c Hc); [apply H|].
  - apply (IH c Hc). intros k u Hb. replace (d + 1 + k) with (d + (k + 1)) by lia.
    by apply H.
Qed.

(** The recursive validator accepts a logical value exactly when every
    value occurring in it is nested at most 100 levels deep and satisfies its
    own constructor's conditions (numerals in range, calendar dates, distinct
    field names, map keys and set members, range and array shape, ...). *)
Theorem logical_value_accepts (v : LogicalValue) :
  logical_value v = Ok () ↔ ∀ k u, below k u v → k ≤ 100 ∧ local_ok u.
Proof. unfold logical_value. rewrite value_below. by setoid_rewrite Z.add_0_l. Qed.

(** *** Row images *)
Definition datum_ok (c : ColumnDatum) : Prop :=
  match col_datum c with
  | Value v => logical_value v = Ok ()
  | EnvelopeDatum e => envelope_validate e = Ok ()
  | _ => True
  end.

Definition presence_ok (operation : Operation) (is_before : bool) (d : Datum) : Prop :=
  match d with
  | Unavailable => is_before = true ∧ operation ≠ Insert
  | Unchanged => is_before = false ∧ operation = Update
  | _ => True
  end.

Definition key_ok (c : ColumnDatum) : Prop :=
  is_Some (col_primary_key_ordinal c) →
  col_generated c = false ∧ ∃ v, col_datum c = Value v.

Definition column_ok (operation : Operation) (is_before : bool) (c : ColumnDatum) : Prop :=
  identifier (col_name c) ∧ col_native_type c ≠ ""%string ∧ key_ok c
  ∧ presence_ok operation is_before (col_datum c) ∧ datum_ok c.

Definition key_ordinals (row : list ColumnDatum) : list Z :=
  omap col_primary_key_ordinal row.

Definition image_ok (operation : Operation) (is_before : bool) (row : list ColumnDatum) : Prop :=
  row ≠ [] ∧ Forall (column_ok operation is_before) row
  ∧ NoDup (col_name <$> row) ∧ NoDup (col_ordinal <$> row)
  ∧ key_ordinals row ≡ₚ seqZ 0 (Z.of_nat (length (key_ordinals row))).

Lemma image_key_ok keys c keys' :
  image_key keys c = Ok keys'
  ↔ key_ok c ∧ (∀ k, col_primary_key_ordinal c = Some k → k ∉ keys)
    ∧ keys' = option_list (col_primary_key_ordinal c) ++ keys.
Proof.
  unfold image_key, key_ok. destruct (col_primary_key_ordinal c) as [k|]; cbn.
  - rewrite !seq_ok, !ensure_ok, !negb_true_iff, bool_decide_eq_false.
    destruct (col_datum c); split; try naive_solver.
    all: intros (Hk & _); destruct (Hk ltac:(eauto)) as [_ [? ?]]; done.
  - split; [intros [= <-]; split_and!; try done; by intros []|naive_solver].
Qed.

Lemma image_presence_ok op b d :
  image_presence op b d = Ok () ↔ presence_ok op b d.
Proof.
  destruct d; cbn; rewrite ?ensure_ok, ?andb_true_iff, ?negb_true_iff,
    ?bool_decide_eq_false, ?bool_decide_eq_true; done.
Qed.

Lemma image_value_ok c : image_value c = Ok () ↔ datum_ok c.
Proof. unfold image_value, datum_ok. destruct (col_datum c); by rewrite ?map_err_ok. Qed.

Lemma image_column_ok op b sets c sets' :
  image_column op b sets c = Ok sets'
  ↔ column_ok op b c ∧ col_name c ∉ is_names sets ∧ col_ordinal c ∉ is_ordinals sets
    ∧ (∀ k, col_primary_key_ordinal c = Some k → k ∉ is_key_ordinals sets)
    ∧ sets' = mkImageSets (col_name c :: is_names sets) (col_ordinal c :: is_ordinals sets)
                (option_list (col_primary_key_ordinal c) ++ is_key_ordinals sets).
Proof.
  unfold image_column, column_ok.
  rewrite !seq_ok, bind_ok, !ensure_ok, identifier_spec, andb_true_iff, !negb_true_iff.
  rewrite !bool_decide_eq_false.
  assert (sempty (col_native_type c) = false ↔ col_native_type c ≠ ""%string) as ->.
  { by destruct (col_native_type c). }
  setoid_rewrite seq_ok. setoid_rewrite seq_ok. setoid_rewrite image_key_ok.
  setoid_rewrite image_presence_ok. setoid_rewrite image_value_ok.
  split.
  - intros (? & ? & [? ?] & keys & (? & ? & ->) & ? & ? & [= <-]). tauto.
  - intros ((? & ? & ? & ? & ?) & ? & ? & ? & ->). split_and!; eauto 10.
Qed.

(** The keys [l] may be inserted one after the other into the set [seen]. *)
Definition fresh {A} (l seen : list A) : Prop := NoDup l ∧ ∀ x, x ∈ l → x ∉ seen.

Lemma fresh_nil {A} (seen : list A) : fresh [] seen.
Proof. split; [constructor|]. intros x Hx. by apply elem_of_nil in Hx. Qed.

Lemma fresh_cons {A} (x : A) l seen :
  fresh (x :: l) seen ↔ x ∉ seen ∧ fresh l (x :: seen).
Proof.
  unfold fresh. setoid_rewrite NoDup_cons. setoid_rewrite elem_of_cons. naive_solver.
Qed.

Lemma fresh_option {A} (o : option A) l seen :
  fresh (option_list o ++ l) seen
  ↔ (∀ x, o = Some x → x ∉ seen) ∧ fresh l (option_list o ++ seen).
Proof. destruct o; cbn; [rewrite fresh_cons|]; naive_solver. Qed.

Lemma image_columns_ok op b row sets sets' :
  image_columns op b sets row = Ok sets'
  ↔ Forall (column_ok op b) row
    ∧ fresh (col_name <$> row) (is_names sets)
    ∧ fresh (col_ordinal <$> row) (is_ordinals sets)
    ∧ fresh (key_ordinals row) (is_key_ordinals sets)
    ∧ sets' = mkImageSets (reverse (col_name <$> row) ++ is_names sets)
                (reverse (col_ordinal <$> row) ++ is_ordinals sets)
                (reverse (key_ordinals row) ++ is_key_ordinals sets).
Proof.
  revert sets. induction row as [|c row IH]; intros [ns os ks].
  { cbn. split; [intros [= <-]; split_and!; auto using Forall_nil_2, fresh_nil|naive_solver]. }
  assert (key_ordinals (c :: row)
          = option_list (col_primary_key_ordinal c) ++ key_ordinals row) as Hk.
  { unfold key_ordinals. cbn. by destruct (col_primary_key_ordinal c). }
  assert (reverse (option_list (col_primary_key_ordinal c))
          = option_list (col_primary_key_ordinal c)) as Hr.
  { by destruct (col_primary_key_ordinal c). }
  rewrite Hk, !fmap_cons, Forall_cons, fresh_option.
  rewrite (fresh_cons (col_name c)), (fresh_cons (col_ordinal c)).
  rewrite reverse_app, !reverse_cons, Hr, <- !(assoc_L (++)).
  cbn [image_columns is_names is_ordinals is_key_ordinals app].
  rewrite bind_ok. setoid_rewrite image_column_ok. setoid_rewrite IH. split.
  - intros (sets1 & (? & ? & ? & ? & ->) & Hrow). cbn in Hrow. tauto.
  - intros ((? & ?) & (? & ?) & (? & ?) & (? & ?) & ?).
    eexists. split; [split_and!; [..|reflexivity]; done|]. done.
Qed.

(** A duplicate-free list that covers [0 .. n-1] for its own length [n] is a
    permutation of it. *)
Lemma contiguous_perm (l : list Z) :
  NoDup l →
  (∀ i, i ∈ seq 0 (length l) → Z.of_nat i ∈ l) ↔ l ≡ₚ seqZ 0 (Z.of_nat (length l)).
Proof.
  intros Hl. split.
  - intros H. symmetry. apply submseteq_length_Permutation.
    + apply NoDup_submseteq; [apply NoDup_seqZ|]. intros z Hz.
      apply elem_of_seqZ in Hz. replace z with (Z.of_nat (Z.to_nat z)) by lia.
      apply H, elem_of_seq. lia.
    + rewrite length_seqZ. lia.
  - intros H i Hi. apply elem_of_seq in Hi. rewrite H, elem_of_seqZ. lia.
Qed.

Lemma image_ok_spec op b row : image row op b = Ok () ↔ image_ok op b row.
Proof.
  unfold image, image_ok. rewrite seq_ok, bind_ok, ensure_ok, negb_true_iff.
  setoid_rewrite image_columns_ok. cbn [is_names is_ordinals is_key_ordinals].
  assert (lempty row = false ↔ row ≠ []) as -> by (destruct row; cbn; naive_solver).
  assert (∀ A (l : list A), fresh l [] ↔ NoDup l) as Hf.
  { intros A l. unfold fresh. setoid_rewrite elem_of_nil. naive_solver. }
  setoid_rewrite Hf. apply and_iff_compat_l. split.
  - intros (sets & (? & ? & ? & Hk & ->) & Hc). split_and!; try done.
    apply ensure_ok in Hc. cbn in Hc. rewrite app_nil_r, length_reverse, forallb_forall in Hc.
    apply contiguous_perm; [done|]. intros i Hi. apply list_elem_of_In, Hc in Hi.
    apply bool_decide_eq_true in Hi. by rewrite elem_of_reverse in Hi.
  - intros (? & ? & ? & Hk). eexists. split; [split_and!; [..|reflexivity]|].
    all: try done.
    { rewrite Hk. apply NoDup_seqZ. }
    cbn. rewrite app_nil_r, length_reverse, ensure_ok. apply forallb_forall.
    intros i Hi. apply bool_decide_eq_true, elem_of_reverse.
    rewrite Hk, elem_of_seqZ. apply in_seq in Hi. lia.
Qed.

(** A row image is accepted exactly when it is not empty, its column names
    and ordinals are distinct, every column is well-formed for its position
    (identifier, native type, presence rule of the operation, value), every key
    column carries a value and is not generated, and the primary-key ordinals
    are a permutation of [0, ..., k-1]. *)
Theorem image_accepts (row : list ColumnDatum) (operation : Operation) (is_before : bool) :
  image row operation is_before = Ok () ↔ image_ok operation is_before row.
Proof. apply image_ok_spec. Qed.

(** *** Transactions *)
Definition cursor_ok (c : SourceCursor) : Prop :=
  cur_format c ≠ ""%string ∧ cur_value c ≠ ""%string.

(** The images of each operation. *)
Inductive shape_ok : Operation → option (list ColumnDatum) → option (list ColumnDatum) → Prop :=
| shape_insert a : image_ok Insert false a → shape_ok Insert None (Some a)
| shape_delete b : image_ok Delete true b → shape_ok Delete (Some b) None
| shape_update b a :
    image_ok Update true b → image_ok Update false a →
    col_definition <$> b = col_definition <$> a →
    shape_ok Update (Some b) (Some a).

Definition change_ok (c : RowChange) : Prop :=
  identifier (chg_schema c) ∧ identifier (chg_table c)
  ∧ chg_schema_basis c ≠ ""%string ∧ cursor_ok (chg_source_cursor c)
  ∧ shape_ok (chg_operation c) (chg_before c) (chg_after c)
  ∧ ∀ column e, column ∈ change_columns c → col_datum column = EnvelopeDatum e →
      ctx_source_cursor (env_context e) = chg_source_cursor c.

Definition transaction_ok (t : ChangeTransaction) : Prop :=
  blank (tx_id t) = false
  ∧ (src_kind (tx_source t) ≠ "" ∧ src_version (tx_source t) ≠ ""
     ∧ src_id (tx_source t) ≠ "")%string
  ∧ cursor_ok (tx_begin_cursor t) ∧ cursor_ok (tx_commit_cursor t)
  ∧ tx_changes t ≠ [] ∧ Forall change_ok (tx_changes t).

Lemma nonempty_spec s : negb (sempty s) = true ↔ s ≠ ""%string.
Proof. by destruct s. Qed.

Lemma cursor_spec c : cursor c = Ok () ↔ cursor_ok c.
Proof. unfold cursor, cursor_ok. by rewrite ensure_ok, andb_true_iff, !nonempty_spec. Qed.

Lemma same_definitions (b a : list ColumnDatum) :
  (Z.of_nat (length b) =? Z.of_nat (length a))
    && forallb (λ ba : ColumnDatum * ColumnDatum,
                  bool_decide (col_definition ba.1 = col_definition ba.2)) (zip b a) = true
  ↔ col_definition <$> b = col_definition <$> a.
Proof.
  rewrite andb_true_iff, Z.eqb_eq. revert a.
  induction b as [|x b IH]; intros [|y a]; [done|split; [intros [? _]|]; done..|].
  cbn [length zip zip_with forallb fst snd fmap list_fmap].
  rewrite andb_true_iff, bool_decide_eq_true.
  specialize (IH a). split.
  - intros (Hl & Hxy & Hz). f_equal; [done|]. apply IH. split; [lia|done].
  - intros H. assert (col_definition x = col_definition y) by 
      by (by apply (f_equal head) in H as [=]; unfold col_definition; congruence).
    assert (col_definition <$> b = col_definition <$> a) as H2
      by exact (f_equal tail H).
    apply IH in H2 as [Hl Hz]. split_and!; [lia|done..].
Qed.

Lemma shape_spec c :
  (valid_shape c = true
   ∧ match chg_before c with
     | Some row => image row (chg_operation c) true | None => Ok () end = Ok ()
   ∧ match chg_after c with
     | Some row => image row (chg_operation c) false | None => Ok () end = Ok ()
   ∧ match chg_before c, chg_after c with
     | Some before, Some after =>
         ensure ((Z.of_nat (length before) =? Z.of_nat (length after))
                 && forallb (λ ba : ColumnDatum * ColumnDatum,
                               bool_decide (col_definition ba.1 = col_definition ba.2))
                      (zip before after))
           (VE "UPDATE before/after column definitions differ")
     | _, _ => Ok ()
     end = Ok ())
  ↔ shape_ok (chg_operation c) (chg_before c) (chg_after c).
Proof.
  unfold valid_shape.
  destruct (chg_operation c), (chg_before c) as [b|], (chg_after c) as [a|]; cbn;
    rewrite ?ensure_ok, ?same_definitions, ?image_ok_spec; split;
    try (by intros []); try (intros Hs; inversion Hs; subst; naive_solver);
    intros (? & ? & ? & ?); try discriminate; by constructor.
Qed.

Lemma validate_change_ok c : validate_change c = Ok () ↔ change_ok c.
Proof.
  unfold validate_change, change_ok. rewrite !seq_ok, !ensure_ok, cursor_spec.
  rewrite !andb_true_iff, !nonempty_spec, <- shape_spec, each_ok, Forall_forall.
  rewrite <- !identifier_spec, !andb_true_iff, !nonempty_spec.
  assert ((∀ x, x ∈ change_columns c →
             match col_datum x with
             | EnvelopeDatum envelope =>
                 ensure (bool_decide (ctx_source_cursor (env_context envelope)
                                      = chg_source_cursor c))
                   (VE "source representation cursor differs from its Change Event cursor")
             | _ => Ok ()
             end = Ok ())
          ↔ ∀ column e, column ∈ change_columns c → col_datum column = EnvelopeDatum e →
              ctx_source_cursor (env_context e) = chg_source_cursor c) as ->; [|tauto].
  apply forall_proper. intros x. destruct (col_datum x); split; try naive_solver.
  - intros H e' Hx [= <-]. specialize (H Hx).
    by apply ensure_ok, bool_decide_eq_true in H.
  - intros H Hx. apply ensure_ok, bool_decide_eq_true. by apply H.
Qed.

Lemma validate_spec (t : ChangeTransaction) (v : ValidatedTransaction) :
  validate t = Ok v ↔ v = mkValidated t ∧ transaction_ok t.
Proof.
  unfold validate, transaction_ok.
  rewrite !seq_ok, !ensure_ok, !cursor_spec, !andb_true_iff, !nonempty_spec, each_ok.
  rewrite !negb_true_iff.
  assert (lempty (tx_changes t) = false ↔ tx_changes t ≠ []) as ->
    by (destruct (tx_changes t); cbn; naive_solver).
  assert (Forall (λ x, validate_change x = Ok ()) (tx_changes t)
          ↔ Forall change_ok (tx_changes t)) as ->
    by (apply Forall_proper; [intros x; apply validate_change_ok|done]).
  split; [intros (? & ? & ? & ? & ? & ? & [= <-])|intros (-> & ? & ? & ? & ? & ? & ?)];
    split_and!; tauto.
Qed.

(** C23: [validate] accepts exactly the well-formed transactions, and what it
    returns is the transaction it was given: no validator repairs, reorders or
    drops anything. *)
Theorem validate_accepts (t : ChangeTransaction) (v : ValidatedTransaction) :
  validate t = Ok v ↔ v = mkValidated t ∧ transaction_ok t.
Proof. apply validate_spec. Qed.
End images.
End Spec.
