(* ===== verification/Outcome.v ===== *)
(** * Failure taxonomy and apply-error classification

    The runtime categories of [crates/change_event/src/lib.rs], the failure
    enumerations of [compatibility.rs], and the functions that turn an
    [io::Error] of the PostgreSQL or MySQL sink into a category
    ([crates/postgresql_15/src/sql.rs], [crates/mysql_8_0/src/sql.rs]).  The
    category decides whether the worker may replay a transaction. *)
From S2P Require Import Prelude Text.

(** ** [std::io::Error] as the sinks build it

    The cause is what [get_ref] and [downcast_ref] can observe. *)
Inductive IoErrorKind :=
| KOther | KInterrupted | KTimedOut | KConnectionReset | KConnectionAborted
| KBrokenPipe | KUnexpectedEof | KInvalidData.
#[export] Instance IoErrorKind_eq_dec : EqDecision IoErrorKind.
Proof. solve_decision. Defined.

(** [sqlx::Error]: a database error with its optional SQLSTATE, or any other
    driver failure. *)
Inductive SqlxError :=
| SqlxDatabase (code : option string)
| SqlxDriver (message : string).
#[export] Instance SqlxError_eq_dec : EqDecision SqlxError.
Proof. solve_decision. Defined.

(** [mysql_driver::Error] through what the sink asks of it: the answer of
    [is_connectivity_error()] and the code of a [MySqlError]. *)
Record MysqlError := mkMysqlError {
  my_connectivity : bool;
  my_server_code : option Z
}.
#[export] Instance MysqlError_eq_dec : EqDecision MysqlError.
Proof. solve_decision. Defined.

Inductive IoCause :=
| Message (text : string)
| CommitUnknownCause (text : string)
| CapabilityFailure (code : string)
| Sqlx (e : SqlxError)
| Mysql (e : MysqlError)
| NoCause.
#[export] Instance IoCause_eq_dec : EqDecision IoCause.
Proof. solve_decision. Defined.

Record IoError := mkIoError { io_kind : IoErrorKind; io_cause : IoCause }.
#[export] Instance IoError_eq_dec : EqDecision IoError.
Proof. solve_decision. Defined.

(** [io::Error::other(message)] *)
Definition other (message : string) : IoError := mkIoError KOther (Message message).
Definition other_cause (cause : IoCause) : IoError := mkIoError KOther cause.

Notation io := (result IoError).

(** [capability_failure(message)], and with a code, of the sinks. *)
Definition capability_failure : IoError :=
  other_cause (CapabilityFailure "target_capability.unspecified").
Definition refuse {A} : io A := Err capability_failure.
Definition supported {A} (o : option A) : io A := ok_or capability_failure o.
Definition capability_code {A} (code : string) : io A :=
  Err (other_cause (CapabilityFailure ("target_capability." +:+ code))).
(** [io::Error::new(ErrorKind::InvalidData, error)] *)
Definition invalid_data : IoError := mkIoError KInvalidData (Message "invalid data").

(** What a refusing guard means. *)
Lemma supported_ok {A} (o : option A) a : supported o = Ok a ↔ o = Some a.
Proof. apply ok_or_ok. Qed.
Lemma refuse_if {A} (b : bool) (m : io A) x : (if b then refuse else m) = Ok x ↔ b = false ∧ m = Ok x.
Proof. destruct b; naive_solver. Qed.
Lemma guarded {A} (b : bool) code (m : io A) a :
  (if b then capability_code code else m) = Ok a ↔ b = false ∧ m = Ok a.
Proof. destruct b; naive_solver. Qed.

(** ** Categories *)
Inductive CommitResolution := Applied | NotApplied | Unprovable.
#[export] Instance CommitResolution_eq_dec : EqDecision CommitResolution.
Proof. solve_decision. Defined.

Inductive FailureClass :=
| FC_ChangeEventValidation | FC_SourceContract | FC_InvalidInput | FC_TargetCapability
| FC_MissingConfirmation | FC_StaleInput | FC_TransientTarget | FC_CommitUnknown.
Inductive FailurePhase :=
| FP_InputValidation | FP_SourceContract | FP_CapabilityQualification | FP_PlanConstruction
| FP_Conversion | FP_Locator | FP_Apply | FP_Commit.
Inductive RetryClassification := NotRetryable | Retryable | RC_CommitUnknown.
#[export] Instance FailureClass_eq_dec : EqDecision FailureClass.
Proof. solve_decision. Defined.
#[export] Instance FailurePhase_eq_dec : EqDecision FailurePhase.
Proof. solve_decision. Defined.
#[export] Instance RetryClassification_eq_dec : EqDecision RetryClassification.
Proof. solve_decision. Defined.

Inductive TargetApplyErrorKind :=
| Conversion | Capability | Constraint | Sql | Connection | LockTimeout
| CommitUnknown | CheckpointConflict.
#[export] Instance TargetApplyErrorKind_eq_dec : EqDecision TargetApplyErrorKind.
Proof. solve_decision. Defined.

Definition is_retryable (k : TargetApplyErrorKind) : bool :=
  match k with Connection | LockTimeout => true | _ => false end.

Definition retry_classification (k : TargetApplyErrorKind) : RetryClassification :=
  match k with
  | Connection | LockTimeout => Retryable
  | CommitUnknown => RC_CommitUnknown
  | Conversion | Capability | Constraint | Sql | CheckpointConflict => NotRetryable
  end.

Definition failure_class (k : TargetApplyErrorKind) : FailureClass :=
  match k with
  | Connection | LockTimeout => FC_TransientTarget
  | CommitUnknown => FC_CommitUnknown
  | Conversion | Capability => FC_TargetCapability
  | Constraint | Sql | CheckpointConflict => FC_InvalidInput
  end.

Definition phase (k : TargetApplyErrorKind) : FailurePhase :=
  match k with
  | Conversion => FP_Conversion
  | Capability => FP_CapabilityQualification
  | Constraint | Sql | CheckpointConflict => FP_Apply
  | Connection | LockTimeout => FP_Apply
  | CommitUnknown => FP_Commit
  end.

Definition stable_code (k : TargetApplyErrorKind) : string :=
  match k with
  | Conversion => "target_apply.conversion_failed"
  | Capability => "target_apply.capability_failed"
  | Constraint => "target_apply.constraint_failed"
  | Sql => "target_apply.sql_error"
  | Connection => "target_apply.connection_failed"
  | LockTimeout => "target_apply.lock_timeout"
  | CommitUnknown => "target_apply.commit_unknown"
  | CheckpointConflict => "target_apply.checkpoint_conflict"
  end.

(** ** Classification *)
Definition commit_outcome_unknown (error : IoError) : bool :=
  match io_cause error with CommitUnknownCause _ => true | _ => false end.

(** The last [match error.kind()] of both sinks. *)
Definition classify_kind (kind : IoErrorKind) : TargetApplyErrorKind :=
  match kind with
  | KTimedOut | KConnectionReset | KConnectionAborted | KBrokenPipe | KUnexpectedEof => Connection
  | _ => Sql
  end.

Module Postgres.
Definition starts_with (p s : string) : bool :=
  match strip_prefix p s with Some _ => true | None => false end.

Definition classify_apply_error (error : IoError) : TargetApplyErrorKind :=
  if commit_outcome_unknown error then CommitUnknown else
  match io_cause error with
  | CapabilityFailure _ => Capability
  | Sqlx (SqlxDatabase code) =>
      if bool_decide (code ∈ [Some "40001"; Some "40P01"; Some "55P03"])%string then LockTimeout
      else if match code with Some c => starts_with "23" c | None => false end then Constraint
      else Sql
  | Sqlx (SqlxDriver _) => Connection
  | _ => classify_kind (io_kind error)
  end.

Definition commit_error (error : SqlxError) : IoError :=
  match error with
  | SqlxDatabase _ => other_cause (Sqlx error)
  | SqlxDriver message => other_cause (CommitUnknownCause message)
  end.
End Postgres.

Module MySql.
Definition classify_apply_error (error : IoError) : TargetApplyErrorKind :=
  if commit_outcome_unknown error then CommitUnknown else
  match io_cause error with
  | CapabilityFailure _ => Capability
  | Mysql cause =>
      if my_connectivity cause then Connection else
      match my_server_code cause with
      | Some code =>
          if bool_decide (code ∈ [1205; 1213]) then LockTimeout
          else if bool_decide (code ∈ [1022; 1062; 1216; 1217; 1451; 1452; 1048]) then Constraint
          else Sql
      | None => Sql
      end
  | _ => classify_kind (io_kind error)
  end.

(** [error.to_string()] is the driver's rendering. *)
Definition unknown_commit (to_string : MysqlError → string) (error : MysqlError) : IoError :=
  other_cause (CommitUnknownCause (to_string error)).
End MySql.

(** The four views of a category agree: replayable kinds are exactly those
    classified [Retryable] and of class [TransientTarget], they concern the apply
    phase only, a lost commit is the only kind of the commit phase, and no two
    kinds share a stable code. *)
Theorem category_views_agree (k j : TargetApplyErrorKind) :
  (is_retryable k = true ↔ retry_classification k = Retryable)
  ∧ (is_retryable k = true ↔ failure_class k = FC_TransientTarget)
  ∧ (is_retryable k = true → phase k = FP_Apply)
  ∧ (retry_classification k = RC_CommitUnknown ↔ phase k = FP_Commit)
  ∧ (failure_class k = FC_CommitUnknown ↔ phase k = FP_Commit)
  ∧ (stable_code k = stable_code j → k = j).
Proof. by destruct k; split_and!; try done; destruct j. Qed.

(** A COMMIT whose acknowledgement is lost is never classified as
    replayable, by either sink: a PostgreSQL commit error is [CommitUnknown]
    unless the server itself answered with an error (which rolls the transaction
    back), and every MySQL commit error is [CommitUnknown]. *)
Theorem lost_commit_not_retried (e : SqlxError) (render : MysqlError → string) (m : MysqlError) :
  (∀ text, e = SqlxDriver text →
     Postgres.classify_apply_error (Postgres.commit_error e) = CommitUnknown)
  ∧ (is_retryable (Postgres.classify_apply_error (Postgres.commit_error e)) = true →
     ∃ code, e = SqlxDatabase (Some code) ∧ code ∈ ["40001"; "40P01"; "55P03"]%string)
  ∧ MySql.classify_apply_error (MySql.unknown_commit render m) = CommitUnknown
  ∧ is_retryable CommitUnknown = false.
Proof.
  split_and!; [by intros text -> | | done | done].
  destruct e as [code|text]; cbn; [|done].
  unfold Postgres.classify_apply_error. cbn.
  case_bool_decide as Hc; [|by destruct code; cbn; try case_match].
  intros _. rewrite !elem_of_cons, elem_of_nil in Hc.
  destruct code as [code|]; [|naive_solver].
  exists code. split; [done|]. rewrite !elem_of_cons. naive_solver.
Qed.
