(* ===== verification/Plan.v ===== *)
(** * Column conversion plans and the values they admit
    ([crates/change_event/src/compatibility.rs])

    A plan fixes the target representation of a field once; these functions
    apply it to every captured value: integer and decimal range checks, binary
    and bit-string shapes, and the rewriting of binary and bit-string values to
    the target's padding and bit order.  A plan's parameters are string maps, as
    in the code; a missing or malformed parameter is an error of its own. *)
From S2P Require Import Prelude Text Codec Model Outcome Validate.

(** ** Plans *)
Record DefinitionReference := mkDefinition { df_lineage_id : string; df_schema_fingerprint : string }.
Record RuleReference := mkRule { rl_id : string; rl_version : string }.
Record TargetRepresentation := mkTarget { tr_native_type : string; tr_parameters : gmap string string }.
Inductive QualificationLevel := Exact | RangeChecked | ExplicitConversion | Unsupported.
#[export] Instance QualificationLevel_eq_dec : EqDecision QualificationLevel.
Proof. solve_decision. Defined.
Inductive RiskLevel := RiskNone | RiskLow | RiskMedium | RiskHigh | RiskCritical.
Record LossAssessment := mkLoss {
  ls_value : bool; ls_comparison : bool; ls_ordering : bool; ls_constraints : bool;
  ls_explanation : string
}.
Record ConversionExample := mkExample { ce_source : string; ce_target : string }.
Inductive LocatorImpact := Preserved | NotUsed | ValueOnly | Blocked.
Inductive PlanConfirmationState := NotRequired | ConfirmationRequired | Confirmed.
Inductive FailurePolicy := Reject | RetryTransaction | ResolveCommitUnknown.

Record ColumnConversionPlan := mkPlan {
  pl_format : string;
  pl_route_id : string;
  pl_configuration_revision : string;
  pl_source_field : DefinitionReference;
  pl_target_field : DefinitionReference;
  pl_source_connector : ConnectorIdentity;
  pl_sink_connector : ConnectorIdentity;
  pl_source_build : option ServerBuildIdentity;
  pl_target_build : option ServerBuildIdentity;
  pl_source_mapping_id : string;
  pl_source_mapping_version : string;
  pl_target : TargetRepresentation;
  pl_rule : RuleReference;
  pl_rule_digest : string;
  pl_capability_code : string;
  pl_capability_manifest_digest : string;
  pl_target_probe_digest : option string;
  pl_qualification : QualificationLevel;
  pl_risk : RiskLevel;
  pl_risk_code : option string;
  pl_loss : LossAssessment;
  pl_examples : list ConversionExample;
  pl_locator_impact : LocatorImpact;
  pl_confirmation : PlanConfirmationState;
  pl_parameters : gmap string string;
  pl_failure_policy : FailurePolicy;
  pl_input_digest : string;
  pl_plan_digest : string
}.

(** [PlanDigestInput]: every field but the confirmation and the digest itself. *)
Record PlanDigestInput := mkDigestInput {
  pd_identity : string * string * string;
  pd_fields : DefinitionReference * DefinitionReference;
  pd_connectors : ConnectorIdentity * ConnectorIdentity;
  pd_builds : option ServerBuildIdentity * option ServerBuildIdentity;
  pd_mapping : string * string;
  pd_target : TargetRepresentation;
  pd_rule : RuleReference * string;
  pd_capability : string * string * option string;
  pd_qualification : QualificationLevel;
  pd_risk : RiskLevel * option string;
  pd_loss : LossAssessment;
  pd_examples : list ConversionExample;
  pd_locator_impact : LocatorImpact;
  pd_parameters : gmap string string;
  pd_failure_policy : FailurePolicy;
  pd_input_digest : string
}.
Definition digest_input (p : ColumnConversionPlan) : PlanDigestInput :=
  mkDigestInput (pl_format p, pl_route_id p, pl_configuration_revision p)
    (pl_source_field p, pl_target_field p) (pl_source_connector p, pl_sink_connector p)
    (pl_source_build p, pl_target_build p) (pl_source_mapping_id p, pl_source_mapping_version p)
    (pl_target p) (pl_rule p, pl_rule_digest p)
    (pl_capability_code p, pl_capability_manifest_digest p, pl_target_probe_digest p)
    (pl_qualification p) (pl_risk p, pl_risk_code p) (pl_loss p) (pl_examples p)
    (pl_locator_impact p) (pl_parameters p) (pl_failure_policy p) (pl_input_digest p).

(** [serde_json::to_vec] of the digest input is a parameter. *)
Definition computed_digest `{SHA : Sha256} (input_json : PlanDigestInput → list byte)
    (p : ColumnConversionPlan) : string := sha256_hex (input_json (digest_input p)).
Definition verify_digest `{SHA : Sha256} (input_json : PlanDigestInput → list byte)
    (p : ColumnConversionPlan) : bool :=
  bool_decide (pl_plan_digest p = computed_digest input_json p).

(** [TargetCapabilityFailure], without its free text and the fields that no
    function of this file sets. *)
Record TargetCapabilityFailure := mkFailure {
  tf_class : FailureClass;
  tf_code : string;
  tf_route_id : option string;
  tf_source_field_lineage : option string;
  tf_target_field_lineage : option string;
  tf_source_definition_fingerprint : option string;
  tf_target_definition_fingerprint : option string;
  tf_target_server_build : option ServerBuildIdentity;
  tf_capability_identity : option string;
  tf_conversion_rule : option RuleReference;
  tf_plan_digest : option string;
  tf_qualification : option QualificationLevel;
  tf_risk_code : option string;
  tf_phase : FailurePhase;
  tf_retry : RetryClassification
}.

Definition plan_failure (plan : ColumnConversionPlan) (code : string) : TargetCapabilityFailure :=
  mkFailure FC_TargetCapability code (Some (pl_route_id plan))
    (Some (df_lineage_id (pl_source_field plan))) (Some (df_lineage_id (pl_target_field plan)))
    (Some (df_schema_fingerprint (pl_source_field plan)))
    (Some (df_schema_fingerprint (pl_target_field plan)))
    (pl_target_build plan) (Some (pl_capability_code plan)) (Some (pl_rule plan))
    (Some (pl_plan_digest plan)) (Some (pl_qualification plan)) (pl_risk_code plan)
    FP_Conversion NotRetryable.

Notation planned := (result TargetCapabilityFailure).

(** [plan.target.parameters.get(name)], and the lookup that prefers the plan's own
    parameters. *)
Definition target_parameter (plan : ColumnConversionPlan) (name : string) : option string :=
  tr_parameters (pl_target plan) !! name.
Definition plan_parameter (plan : ColumnConversionPlan) (name : string) : option string :=
  match pl_parameters plan !! name with
  | Some v => Some v
  | None => target_parameter plan name
  end.

Definition reject {A} (plan : ColumnConversionPlan) (code : string) : planned A :=
  Err (plan_failure plan ("target_capability." +:+ code)).
Definition required {A} (plan : ColumnConversionPlan) (code : string) (o : option A) : planned A :=
  ok_or (plan_failure plan ("target_capability." +:+ code)) o.

(** ** Integers *)
Definition parse_bool (s : string) : option bool :=
  if bool_decide (s = "true"%string) then Some true
  else if bool_decide (s = "false"%string) then Some false else None.

(** [matches!(bits, 8 | 16 | 24 | 32 | 64)] *)
Definition integer_width (bits : Z) : bool :=
  (bits =? 8) || (bits =? 16) || (bits =? 24) || (bits =? 32) || (bits =? 64).

Definition target_bounds (signed : bool) (bits : Z) : Z * Z :=
  if signed then let magnitude := Z.shiftl 1 (bits - 1) in (- magnitude, magnitude - 1)
  else (0, Z.shiftl 1 bits - 1).

Definition validate_integer_plan_value (plan : ColumnConversionPlan) (value : LogicalValue) : planned () :=
  match value with
  | VInteger signed bits value =>
      let? target_signed := required plan "integer_range_missing"
        (target_parameter plan "target_signed" ≫= parse_bool) in
      let? target_bits := required plan "integer_range_missing"
        (target_parameter plan "target_bits" ≫= parse_u8) in
      if negb (integer_width target_bits) then reject plan "integer_range_invalid" else
      let? saved_minimum := required plan "integer_range_missing"
        (target_parameter plan "target_min" ≫= parse_i128) in
      let? saved_maximum := required plan "integer_range_missing"
        (target_parameter plan "target_max" ≫= parse_i128) in
      let? source_signed := required plan "integer_range_missing"
        (target_parameter plan "source_signed" ≫= parse_bool) in
      let? source_bits := required plan "integer_range_missing"
        (target_parameter plan "source_bits" ≫= parse_u8) in
      if negb (integer_width source_bits) || negb (Bool.eqb signed source_signed)
         || negb (bits =? source_bits)
      then reject plan "integer_source_shape_mismatch" else
      let? parsed :=
        (if signed then required plan "integer_invalid" (parse_i128 value)
         else if is_some (strip_byte "-" value) then reject plan "integer_overflow"
         else required plan "integer_invalid" (parse_i128 value)) in
      let '(minimum, maximum) := target_bounds target_signed target_bits in
      if negb (saved_minimum =? minimum) || negb (saved_maximum =? maximum)
      then reject plan "integer_range_invalid"
      else if (parsed <? minimum) || (maximum <? parsed) then reject plan "integer_overflow"
      else Ok ()
  | _ => reject plan "integer_type_mismatch"
  end.

(** ** Decimals *)
Definition decimal_scale_ok (scale : Z) : bool := in_range (-1000) 1000 scale.

(** [i32::try_from(precision).checked_sub(scale)], at least zero. *)
Definition expected_integer_digits (precision scale : Z) : option Z :=
  if precision <=? i32_max then
    if in_range i32_min i32_max (precision - scale) then Some (Z.max 0 (precision - scale)) else None
  else None.

(** [strip_prefix(['-', '+'])], then at least one digit and nothing else. *)
Definition strip_sign (s : string) : string :=
  match strip_byte "-" s with Some d => d | None => default s (strip_byte "+" s) end.
Definition decimal_digits (value : string) : option (list byte) :=
  let digits := strip_sign value in
  if negb (sempty digits) && all_bytes is_ascii_digit digits then Some (sbytes digits) else None.

Definition ZERO : byte := "048".
(** [iter().skip_while(|digit| **digit == b'0').count()] *)
Fixpoint significant (l : list byte) : list byte :=
  match l with
  | b :: l' => if bool_decide (b = ZERO) then significant l' else l
  | [] => []
  end.

Definition special_name (unscaled : string) : bool :=
  bool_decide (unscaled ∈ ["NaN"; "Infinity"; "-Infinity"]%string).

Definition validate_decimal_special_value (plan : ColumnConversionPlan) (value : LogicalValue) : planned bool :=
  match value with
  | VDecimal unscaled scale =>
      if negb (special_name unscaled) then Ok false else
      if bool_decide (unscaled = "NaN"%string) && negb (scale =? 0)
      then reject plan "decimal_invalid"
      else
        if match target_parameter plan "decimal_special_values" with
           | Some values => existsb (λ v, bool_decide (trim v = unscaled)) (split "," values)
           | None => false
           end
        then Ok true
        else reject plan "decimal_special_value_unsupported"
  | _ => Ok false
  end.

(** The digits a scale reduction by [discarded] cuts off, zero-padded on the left. *)
Definition discarded_digits (digits : list byte) (discarded : nat) : list byte :=
  let padded := replicate (Nat.max (length digits) discarded - length digits) ZERO ++ digits in
  drop (length padded - discarded) padded.

(** The digits left of the decimal point. *)
Definition integer_digits (digits : list byte) (scale : Z) : Z :=
  if 0 <=? scale then
    Z.of_nat (length (significant (take (length digits - Z.to_nat scale) digits)))
  else
    let n := Z.of_nat (length (significant digits)) in
    if n =? 0 then 0 else sat_add_u64 n (- scale).

Definition validate_decimal_plan_value (plan : ColumnConversionPlan) (value : LogicalValue) : planned () :=
  match value with
  | VDecimal unscaled scale =>
      let? source_precision := required plan "decimal_range_missing"
        (target_parameter plan "source_precision" ≫= parse_usize) in
      let? source_scale := required plan "decimal_range_missing"
        (target_parameter plan "source_scale" ≫= parse_i32) in
      if (source_precision =? 0) || negb (decimal_scale_ok source_scale)
      then reject plan "decimal_range_invalid" else
      let is_nan := bool_decide (unscaled = "NaN"%string) in
      if negb (scale =? source_scale) && negb ((source_scale <? 0) && (scale =? 0)) && negb is_nan
      then reject plan "decimal_scale_mismatch" else
      let? target_precision := required plan "decimal_range_missing"
        (target_parameter plan "target_precision" ≫= parse_usize) in
      let? target_scale := required plan "decimal_range_missing"
        (target_parameter plan "target_scale" ≫= parse_i32) in
      let? target_integer_digits := required plan "decimal_range_missing"
        (target_parameter plan "target_integer_digits" ≫= parse_usize) in
      if (target_precision =? 0) || negb (decimal_scale_ok target_scale)
         || negb (bool_decide (expected_integer_digits target_precision target_scale
                               = Some target_integer_digits))
      then reject plan "decimal_range_invalid" else
      let? special := validate_decimal_special_value plan value in
      if (special : bool) then Ok () else
      let? digits := required plan "decimal_invalid" (decimal_digits unscaled) in
      if (target_scale <? scale) && negb (in_range i32_min i32_max (scale - target_scale))
      then reject plan "decimal_scale_mismatch"
      else if (target_scale <? scale)
         && negb (forallb (λ b, bool_decide (b = ZERO))
                    (discarded_digits digits (Z.to_nat (scale - target_scale))))
      then reject plan "decimal_rounding_required"
      else if target_integer_digits <? integer_digits digits scale
      then reject plan "decimal_overflow"
      else Ok ()
  | _ => reject plan "decimal_type_mismatch"
  end.

(** ** Binary values *)

(** [plan_parameter(plan, name).filter(|value| *value != "unbounded")] *)
Definition bounded_parameter (plan : ColumnConversionPlan) (name : string) : option string :=
  match plan_parameter plan name with
  | Some v => if bool_decide (v = "unbounded"%string) then None else Some v
  | None => None
  end.

Section values.
Context `{B64 : Base64}.

Definition validate_binary_plan_value (plan : ColumnConversionPlan) (value : LogicalValue) : planned () :=
  match value with
  | VBinary bytes_base64url =>
      if negb (bool_decide (plan_parameter plan "binary_encoding" = Some "raw_bytes"%string))
      then reject plan "binary_encoding_invalid" else
      let? bytes := required plan "binary_format_invalid" (b64_decode bytes_base64url) in
      let n := Z.of_nat (length bytes) in
      let? target_length :=
        match bounded_parameter plan "target_length" with
        | Some v => let? l := required plan "binary_length_invalid" (parse_usize v) in Ok (Some l)
        | None => Ok None
        end in
      if match target_length with
         | Some l =>
             let fixed := bool_decide (plan_parameter plan "target_fixed" = Some "true"%string) in
             (l <? n)
             || (fixed && (n <? l)
                 && bool_decide (plan_parameter plan "target_padding" = Some "none"%string))
         | None => false
         end
      then reject plan "binary_length_out_of_range" else
      match bounded_parameter plan "source_length" ≫= parse_usize with
      | Some l =>
          let source_fixed := bool_decide (plan_parameter plan "source_fixed" = Some "true"%string) in
          if (l <? n) || (source_fixed && negb (n =? l))
          then reject plan "binary_source_length_invalid" else Ok ()
      | None => Ok ()
      end
  | _ => reject plan "binary_type_mismatch"
  end.

(** [Vec::resize]: longer vectors are cut, shorter ones padded. *)
Definition resize (l : list byte) (n : nat) (pad : byte) : list byte :=
  take n l ++ replicate (n - length l) pad.

Definition convert_binary_value (plan : ColumnConversionPlan) (value : LogicalValue) : planned LogicalValue :=
  match value with
  | VBinary bytes_base64url =>
      let? bytes := required plan "binary_format_invalid" (b64_decode bytes_base64url) in
      let? bytes :=
        (if bool_decide (plan_parameter plan "target_fixed" = Some "true"%string) then
           match bounded_parameter plan "target_length" with
           | Some length =>
               let? length := required plan "binary_length_invalid" (parse_usize length) in
               let? pad :=
                 match plan_parameter plan "target_padding" with
                 | Some "zero"%string => Ok "000"%char
                 | Some "one"%string => Ok "255"%char
                 | _ => reject plan "binary_padding_invalid"
                 end in
               if length <? Z.of_nat (List.length bytes)
               then reject plan "binary_length_out_of_range"
               else Ok (resize bytes (Z.to_nat length) pad)
           | None => Ok bytes
           end
         else Ok bytes) in
      Ok (VBinary (b64_encode bytes))
  | _ => reject plan "binary_type_mismatch"
  end.

(** ** Bit strings *)
Definition parse_bit_order (o : option string) : option BitOrder :=
  match o with
  | Some "msb_first"%string => Some MsbFirst
  | Some "lsb_first"%string => Some LsbFirst
  | _ => None
  end.
Definition parse_padding (o : option string) : option BitPadding :=
  match o with
  | Some "none"%string => Some PadNone
  | Some "zero"%string => Some PadZero
  | Some "one"%string => Some PadOne
  | _ => None
  end.

(** The bits of the last byte that the bit length leaves over. *)
Definition unused_bits (bit_length : Z) : Z := (8 - bit_length mod 8) mod 8.
Definition padding_mask (order : BitOrder) (unused : Z) : Z :=
  match order with
  | MsbFirst => Z.shiftl 1 unused - 1
  | LsbFirst => wrap_u 8 (Z.shiftl u8_max (8 - unused))
  end.

Definition validate_bit_string_plan_value (plan : ColumnConversionPlan) (value : LogicalValue) : planned () :=
  match value with
  | VBitString bytes_base64url bit_length padding bit_order =>
      let? expected_length := required plan "bit_string_length_missing"
        (match plan_parameter plan "source_bit_length" with
         | Some v => Some v
         | None => plan_parameter plan "target_bit_length"
         end) in
      let? expected_length := required plan "bit_string_length_invalid" (parse_u64 expected_length) in
      if negb (bit_length =? expected_length) then reject plan "bit_string_length_mismatch" else
      if match plan_parameter plan "source_bit_length" ≫= parse_u64 with
         | Some l => negb (bit_length =? l)
         | None => false
         end
      then reject plan "bit_string_source_length_mismatch" else
      let? expected_order := required plan "bit_order_missing"
        (parse_bit_order (plan_parameter plan "source_bit_order")) in
      if negb (bool_decide (bit_order = expected_order))
      then reject plan "source_bit_order_mismatch" else
      let? expected_padding := required plan "bit_padding_missing"
        (parse_padding (plan_parameter plan "source_padding")) in
      if negb (bool_decide (padding = expected_padding))
      then reject plan "bit_padding_mismatch" else
      let? raw := required plan "bit_string_format_invalid" (b64_decode bytes_base64url) in
      if negb (Z.of_nat (length raw) =? (expected_length + 7) / 8)
      then reject plan "bit_string_length_invalid" else
      let unused := unused_bits expected_length in
      if unused =? 0 then
        if negb (bool_decide (expected_padding = PadNone))
        then reject plan "bit_padding_invalid" else Ok ()
      else
        let mask := padding_mask expected_order unused in
        let actual := Z.land (bval (List.last raw NUL)) mask in
        let expected := if bool_decide (expected_padding = PadOne) then mask else 0 in
        if negb (actual =? expected) then reject plan "bit_padding_invalid" else Ok ()
  | _ => reject plan "bit_string_type_mismatch"
  end.

Definition bit_mask (order : BitOrder) (position : nat) : Z :=
  match order with
  | MsbFirst => Z.shiftl 1 (7 - Z.of_nat position mod 8)
  | LsbFirst => Z.shiftl 1 (Z.of_nat position mod 8)
  end.

(** [target[i] |= mask] and [*target.last_mut() |= mask]. *)
Definition or_byte (mask : Z) (b : byte) : byte := byte_of (Z.lor (bval b) mask).
Fixpoint or_last (mask : Z) (l : list byte) : list byte :=
  match l with
  | [] => []
  | [b] => [or_byte mask b]
  | b :: l' => b :: or_last mask l'
  end.

(** One position of the copying loop; [None] is an index out of bounds. *)
Definition copy_bit (source : list byte) (source_order target_order : BitOrder)
    (target : list byte) (position : nat) : option (list byte) :=
  b ← source !! (position / 8)%nat;
  Some (if Z.land (bval b) (bit_mask source_order position) =? 0 then target
        else alter (or_byte (bit_mask target_order position)) (position / 8)%nat target).

Definition copy_bits (source : list byte) (source_order target_order : BitOrder) (bit_length : nat) :
    option (list byte) :=
  foldl (λ acc position, target ← acc; copy_bit source source_order target_order target position)
    (Some (replicate (length source) NUL)) (seq 0 bit_length).

(** [None]: the panic of an index out of bounds. *)
Definition convert_bit_string_value (plan : ColumnConversionPlan) (value : LogicalValue) :
    option (planned LogicalValue) :=
  match value with
  | VBitString bytes_base64url bit_length _ source_order =>
      match parse_bit_order (plan_parameter plan "target_bit_order") with
      | None => Some (reject plan "bit_order_missing")
      | Some target_order =>
          match parse_padding (plan_parameter plan "target_padding") with
          | None => Some (reject plan "bit_padding_missing")
          | Some target_padding =>
              match b64_decode bytes_base64url with
              | None => Some (reject plan "bit_string_format_invalid")
              | Some source =>
                  target ← copy_bits source source_order target_order (Z.to_nat bit_length);
                  let unused := unused_bits bit_length in
                  Some (
                    if (0 <? unused) && bool_decide (target_padding = PadOne) then
                      match target with
                      | [] => reject plan "bit_string_length_invalid"
                      | _ => Ok (VBitString (b64_encode (or_last (padding_mask target_order unused) target))
                                   bit_length target_padding target_order)
                      end
                    else Ok (VBitString (b64_encode target) bit_length target_padding target_order))
              end
          end
      end
  | _ => Some (reject plan "bit_string_type_mismatch")
  end.
End values.

(** ** What admission means *)
Module Spec.
Import Validate.Spec.

Definition show_bool (b : bool) : string := if b then "true" else "false".

(** The parameters of a consistent integer plan, as the planner writes them. *)
Record integer_plan (plan : ColumnConversionPlan) (ss : bool) (sb : Z) (ts : bool) (tb : Z) : Prop := {
  ip_target_signed : target_parameter plan "target_signed" = Some (show_bool ts);
  ip_target_bits : target_parameter plan "target_bits" = Some (show_nat tb);
  ip_target_min : target_parameter plan "target_min" = Some (show_int (target_bounds ts tb).1);
  ip_target_max : target_parameter plan "target_max" = Some (show_int (target_bounds ts tb).2);
  ip_source_signed : target_parameter plan "source_signed" = Some (show_bool ss);
  ip_source_bits : target_parameter plan "source_bits" = Some (show_nat sb);
  ip_widths : sb ∈ [8; 16; 24; 32; 64] ∧ tb ∈ [8; 16; 24; 32; 64]
}.

Lemma integer_width_spec bits : integer_width bits = true ↔ bits ∈ [8; 16; 24; 32; 64].
Proof.
  unfold integer_width. rewrite !orb_true_iff, !Z.eqb_eq, !elem_of_cons, elem_of_nil. tauto.
Qed.

Lemma width_range bits : bits ∈ [8; 16; 24; 32; 64] → 8 ≤ bits ≤ 64.
Proof. rewrite !elem_of_cons, elem_of_nil. lia. Qed.

Lemma parse_bool_show b : parse_bool (show_bool b) = Some b.
Proof. by destruct b. Qed.

Lemma target_bounds_spec ts tb n :
  8 ≤ tb ≤ 64 →
  (n <? (target_bounds ts tb).1) || ((target_bounds ts tb).2 <? n) = false ↔ int_range ts tb n.
Proof.
  intros Hb. rewrite orb_false_iff, !Z.ltb_ge. unfold target_bounds, int_range.
  destruct ts; cbn [fst snd]; rewrite Z.shiftl_mul_pow2, Z.mul_1_l by lia; lia.
Qed.

Lemma target_bounds_i128 ts tb :
  8 ≤ tb ≤ 64 → i128_min ≤ (target_bounds ts tb).1 ≤ i128_max ∧ i128_min ≤ (target_bounds ts tb).2 ≤ i128_max.
Proof.
  intros Hb. unfold target_bounds, i128_min, i128_max.
  assert (0 < 2 ^ (tb - 1) ≤ 2 ^ 63 ∧ 0 < 2 ^ tb ≤ 2 ^ 64) as [[??] [??]].
  { split; split; first [apply Z.pow_pos_nonneg|apply Z.pow_le_mono_r]; lia. }
  destruct ts; cbn [fst snd]; rewrite Z.shiftl_mul_pow2, Z.mul_1_l by lia; lia.
Qed.

Lemma int_range_i128 signed bits n : 8 ≤ bits ≤ 64 → int_range signed bits n → in_range i128_min i128_max n = true.
Proof.
  intros Hb Hr. apply in_range_spec. apply (target_bounds_spec signed bits n Hb) in Hr.
  apply orb_false_iff in Hr as [H1%Z.ltb_ge H2%Z.ltb_ge].
  pose proof (target_bounds_i128 signed bits Hb). lia.
Qed.

(** A validated integer of the source shape is parsed to the number it denotes. *)
Lemma denotes_parse signed s n :
  denotes signed s n → in_range i128_min i128_max n = true →
  parse_i128 s = Some n ∧ (signed = false → strip_byte "-" s = None).
Proof.
  intros [s' Hd|s' -> Hd] Hr.
  - split; [by rewrite parse_i128_digits, Hr|]. intros _. by apply digits_no_sign.
  - split; [by rewrite parse_i128_neg, Hr|done].
Qed.

#[export] Instance int_range_dec signed bits n : Decision (int_range signed bits n).
Proof. destruct signed; unfold int_range; apply _. Defined.

(** C25: An integer plan admits exactly the values of the target type: for a
    consistent plan and a captured integer of the planned source shape, the
    check passes iff the number lies in the range of the target width and
    signedness, and otherwise reports an overflow. *)
Theorem integer_plan_decides (plan : ColumnConversionPlan) (ss : bool) (sb : Z) (ts : bool) (tb : Z)
    (s : string) (n : Z) :
  integer_plan plan ss sb ts tb → denotes ss s n → int_range ss sb n →
  validate_integer_plan_value plan (VInteger ss sb s)
  = if decide (int_range ts tb n) then Ok () else reject plan "integer_overflow".
Proof.
  intros [H1 H2 H3 H4 H5 H6 [Hsb Htb]] Hd Hr. pose proof (width_range _ Hsb). pose proof (width_range _ Htb).
  destruct (target_bounds_i128 ts tb) as [Hmin Hmax]; [lia|].
  destruct (denotes_parse ss s n Hd) as [Hp Hneg]; [by apply (int_range_i128 ss sb)|].
  unfold validate_integer_plan_value. rewrite H1, H2, H3, H4, H5, H6. cbn [mbind option_bind].
  rewrite !parse_bool_show. unfold parse_u8. rewrite !parse_unsigned_show by (unfold u8_max; lia).
  change (parse_i128 (show_int ?z)) with (parse_signed 10 i128_min i128_max (show_int z)).
  rewrite !parse_signed_show by lia. cbn [required ok_or mbind result_bind].
  rewrite (proj2 (integer_width_spec tb)), (proj2 (integer_width_spec sb)) by done.
  rewrite Bool.eqb_reflx, Z.eqb_refl. cbn [negb orb].
  assert ((if ss then required plan "integer_invalid" (parse_i128 s)
           else if is_some (strip_byte "-" s) then reject plan "integer_overflow"
           else required plan "integer_invalid" (parse_i128 s)) = Ok n) as ->.
  { rewrite Hp. destruct ss; [done|]. by rewrite Hneg. }
  cbn [mbind result_bind]. pose proof (target_bounds_spec ts tb n ltac:(lia)) as Hb.
  destruct (target_bounds ts tb) as [lo hi]. cbn [fst snd] in *. rewrite !Z.eqb_refl. cbn [negb orb].
  destruct (_ || _); destruct (decide _) as [Hd'|Hd']; try done.
  - exfalso. by apply Hb in Hd'.
  - exfalso. by apply Hd', Hb.
Qed.

(** ** Decimals *)

(** The number of a digit list; [digits_value] is that of a string. *)
Definition value_of (l : list byte) : Z := foldl (λ a c, 10 * a + (bval c - 48)) 0 l.
Definition all_digits (l : list byte) : Prop := Forall (λ c, is_ascii_digit c = true) l.

Lemma digit_range c : is_ascii_digit c = true → 0 ≤ bval c - 48 ≤ 9.
Proof. unfold is_ascii_digit. rewrite in_range_spec. lia. Qed.

Lemma value_from a l : foldl (λ a c, 10 * a + (bval c - 48)) a l = a * 10 ^ Z.of_nat (length l) + value_of l.
Proof.
  unfold value_of. revert a. induction l as [|c l IH]; intros a; cbn [foldl length]; [lia|].
  rewrite IH, (IH (10 * 0 + _)), Nat2Z.inj_succ, Z.pow_succ_r by lia. lia.
Qed.

Lemma value_app a b : value_of (a ++ b) = value_of a * 10 ^ Z.of_nat (length b) + value_of b.
Proof. unfold value_of at 1. rewrite foldl_app. apply value_from. Qed.

Lemma value_cons c l : value_of (c :: l) = (bval c - 48) * 10 ^ Z.of_nat (length l) + value_of l.
Proof. change (c :: l) with ([c] ++ l). by rewrite value_app. Qed.

Lemma value_bounds l : all_digits l → 0 ≤ value_of l < 10 ^ Z.of_nat (length l).
Proof.
  induction 1 as [|c l Hc _ IH]; [cbn; lia|]. rewrite value_cons. cbn [length].
  rewrite Nat2Z.inj_succ, Z.pow_succ_r by lia. apply digit_range in Hc. nia.
Qed.

Lemma value_zeros n l : value_of (replicate n ZERO ++ l) = value_of l.
Proof.
  rewrite value_app. replace (value_of (replicate n ZERO)) with 0; [lia|].
  induction n as [|n IH]; [done|]. cbn [replicate]. rewrite value_cons, <- IH.
  change (bval ZERO) with 48. lia.
Qed.

Lemma zero_digit c : is_ascii_digit c = true → bval c = 48 → c = ZERO.
Proof. intros _ H. apply bval_inj. by rewrite H. Qed.

Lemma value_zero_iff l : all_digits l → (value_of l = 0 ↔ Forall (λ c, c = ZERO) l).
Proof.
  intros Hl. induction Hl as [|c l Hc Hl IH]; [done|]. rewrite value_cons, Forall_cons, <- IH.
  pose proof (value_bounds l Hl). pose proof (digit_range c Hc).
  assert (0 < 10 ^ Z.of_nat (length l)) by (apply Z.pow_pos_nonneg; lia). split.
  - intros Hz. assert (bval c - 48 = 0) by nia. split; [|nia]. apply zero_digit; [done|lia].
  - intros [-> ->]. change (bval ZERO) with 48. lia.
Qed.

Lemma significant_value l : value_of (significant l) = value_of l.
Proof.
  induction l as [|c l IH]; [done|]. cbn [significant]. case_bool_decide as H; [|done].
  rewrite IH, value_cons, H. change (bval ZERO) with 48. lia.
Qed.

(** The number of significant digits is the decimal length of the number. *)
Lemma significant_length l k :
  all_digits l → 0 ≤ k → (Z.of_nat (length (significant l)) ≤ k ↔ value_of l < 10 ^ k).
Proof.
  intros Hl Hk. rewrite <- (significant_value l).
  assert (all_digits (significant l) ∧ (significant l = [] ∨ ∃ c r, significant l = c :: r ∧ c ≠ ZERO)) as [Hs Hc].
  { clear Hk. induction Hl as [|c l Hc Hl IH]; [split; [constructor|by left]|]. cbn.
    case_bool_decide; [done|]. split; [by constructor|]. right. by exists c, l. }
  destruct (value_bounds _ Hs) as [H0 H1]. split; intros H.
  - eapply Z.lt_le_trans; [done|]. apply Z.pow_le_mono_r; lia.
  - destruct Hc as [->|(c & r & E & Hne)]; [cbn; lia|]. rewrite E in *. apply Forall_cons in Hs as [Hc Hr].
    pose proof (value_bounds r Hr). pose proof (digit_range c Hc). rewrite value_cons in *. cbn [length] in *.
    destruct (Z.le_gt_cases (Z.of_nat (S (length r))) k) as [?|Hgt]; [done|exfalso].
    assert (bval c ≠ 48) by (intros ?; by apply Hne, zero_digit).
    assert (10 ^ k ≤ 10 ^ Z.of_nat (length r)) by (apply Z.pow_le_mono_r; lia). nia.
Qed.

Lemma digits_app l l' : all_digits (l ++ l') ↔ all_digits l ∧ all_digits l'.
Proof. apply Forall_app. Qed.

Lemma value_take l n :
  all_digits l → value_of (take (length l - n) l) = value_of l / 10 ^ Z.of_nat n.
Proof.
  intros Hl. assert (0 < 10 ^ Z.of_nat n) by (apply Z.pow_pos_nonneg; lia).
  destruct (decide (n ≤ length l)%nat) as [Hn|Hn].
  - rewrite <- (take_drop (length l - n) l) in Hl at 1. apply digits_app in Hl as [H1 H2].
    rewrite <- (take_drop (length l - n) l) at 3. rewrite value_app.
    replace (length (drop (length l - n) l)) with n by (rewrite length_drop; lia).
    pose proof (value_bounds _ H2) as Hb. rewrite length_drop in Hb.
    replace (length l - (length l - n))%nat with n in Hb by lia.
    rewrite Z.add_comm, Z.div_add, Z.div_small by lia. lia.
  - replace (length l - n)%nat with 0%nat by lia. cbn. pose proof (value_bounds l Hl) as Hb.
    rewrite Z.div_small; [done|]. split; [lia|]. eapply Z.lt_le_trans; [apply Hb|].
    apply Z.pow_le_mono_r; lia.
Qed.

Lemma replicate_digits n : all_digits (replicate n ZERO).
Proof. apply Forall_replicate. done. Qed.

(** The cut-off digits are all zero iff the reduction is exact. *)
Lemma discarded_exact l n :
  all_digits l →
  (forallb (λ b, bool_decide (b = ZERO)) (discarded_digits l n) = true
   ↔ value_of l mod 10 ^ Z.of_nat n = 0).
Proof.
  intros Hl. unfold discarded_digits. set (p := replicate _ ZERO ++ l).
  assert (all_digits p) as Hp by (apply digits_app; split; [apply replicate_digits|done]).
  assert (n ≤ length p)%nat as Hlen by (unfold p; rewrite length_app, length_replicate; lia).
  assert (value_of p = value_of l) as <- by apply value_zeros.
  rewrite <- (take_drop (length p - n) p) in Hp. apply digits_app in Hp as [_ Hd].
  rewrite <- (take_drop (length p - n) p) at 3. rewrite value_app.
  replace (length (drop (length p - n) p)) with n by (rewrite length_drop; lia).
  pose proof (value_bounds _ Hd) as Hb. rewrite length_drop in Hb.
  replace (length p - (length p - n))%nat with n in Hb by lia.
  rewrite Z.add_comm, Z_mod_plus_full, Z.mod_small by done. rewrite (value_zero_iff _ Hd), forallb_forall.
  rewrite Forall_forall. setoid_rewrite <- list_elem_of_In. setoid_rewrite bool_decide_eq_true. done.
Qed.

(** The count of integer digits compared with a width. *)
Lemma integer_digits_fit l s k :
  all_digits l → 0 ≤ k < u64_max →
  (k <? integer_digits l s = false ↔ value_of l * 10 ^ Z.max 0 (- s) < 10 ^ k * 10 ^ Z.max 0 s).
Proof.
  intros Hl Hk. rewrite Z.ltb_ge. unfold integer_digits. destruct (Z.leb_spec 0 s) as [Hs|Hs].
  - rewrite (Z.max_l 0 (- s)), (Z.max_r 0 s), Z.pow_0_r, Z.mul_1_r by lia.
    assert (0 < 10 ^ s) by (apply Z.pow_pos_nonneg; lia).
    rewrite significant_length; [|by apply Forall_take|lia].
    rewrite value_take, Z2Nat.id by done. split; intros H1.
    + assert (value_of l / 10 ^ s + 1 ≤ 10 ^ k) by lia.
      pose proof (Z.div_mod (value_of l) (10 ^ s) ltac:(lia)).
      pose proof (Z.mod_pos_bound (value_of l) (10 ^ s) ltac:(lia)). nia.
    + apply Z.div_lt_upper_bound; lia.
  - rewrite (Z.max_r 0 (- s)), (Z.max_l 0 s), Z.pow_0_r, Z.mul_1_r by lia.
    assert (0 < 10 ^ (- s)) by (apply Z.pow_pos_nonneg; lia).
    assert (0 < 10 ^ k) by (apply Z.pow_pos_nonneg; lia).
    destruct (Z.eqb_spec (Z.of_nat (length (significant l))) 0) as [Hz|Hz].
    + split; [intros _|lia].
      destruct (significant_length l 0 Hl ltac:(lia)) as [H1 _]. specialize (H1 ltac:(lia)).
      pose proof (value_bounds l Hl). assert (value_of l = 0) as -> by lia. lia.
    + unfold sat_add_u64. destruct (Z.le_gt_cases (- s) k) as [Hle|Hgt].
      * rewrite Z.min_le_iff. replace k with ((k + s) + - s) at 3 by lia.
        rewrite Z.pow_add_r, <- Z.mul_lt_mono_pos_r, <- significant_length by (done || lia).
        split; [intros [?|?]; lia|lia].
      * split; [intros [?|?]%Z.min_le_iff; lia|]. intros H1. exfalso.
        destruct (significant_length l 0 Hl ltac:(lia)) as [_ H2].
        assert (10 ^ k < 10 ^ (- s)) by (apply Z.pow_lt_mono_r; lia).
        pose proof (value_bounds l Hl). assert (value_of l < 10 ^ 0) as Hlow by (cbn; nia). apply H2 in Hlow. lia.
Qed.

(** The parameters of a consistent decimal plan. *)
Record decimal_plan (plan : ColumnConversionPlan) (ss tp ts : Z) : Prop := {
  dp_source_precision : ∃ sp, 0 < sp ≤ u64_max ∧ target_parameter plan "source_precision" = Some (show_nat sp);
  dp_source_scale : target_parameter plan "source_scale" = Some (show_int ss);
  dp_target_precision : target_parameter plan "target_precision" = Some (show_nat tp);
  dp_target_scale : target_parameter plan "target_scale" = Some (show_int ts);
  dp_integer_digits : target_parameter plan "target_integer_digits" = Some (show_nat (Z.max 0 (tp - ts)));
  dp_ranges : -1000 ≤ ss ≤ 1000 ∧ 0 < tp ≤ 2 ^ 30 ∧ -1000 ≤ ts ≤ 1000
}.

(** [c · 10^-s = m · 10^-t] *)
Definition rescaled (c s m t : Z) : Prop := c * 10 ^ Z.max 0 (t - s) = m * 10 ^ Z.max 0 (s - t).

Lemma rescaled_exists c s t : (∃ m, rescaled c s m t) ↔ c mod 10 ^ Z.max 0 (s - t) = 0.
Proof.
  unfold rescaled. assert (0 < 10 ^ Z.max 0 (s - t)) as Hp by (apply Z.pow_pos_nonneg; lia).
  destruct (Z.le_gt_cases s t).
  - rewrite (Z.max_l 0 (s - t)), Z.pow_0_r, Z.mod_1_r by lia. split; [done|]. intros _.
    eexists. by rewrite Z.mul_1_r.
  - rewrite (Z.max_l 0 (t - s)), Z.pow_0_r, Z.mul_1_r by lia. rewrite Z.mod_divide by lia. done.
Qed.

(** The integer-digit test bounds the rescaled coefficient by the precision. *)
Lemma rescaled_bound c s m t p :
  0 ≤ c → 0 ≤ p - t → 0 ≤ p → rescaled c s m t →
  (c * 10 ^ Z.max 0 (- s) < 10 ^ (p - t) * 10 ^ Z.max 0 s ↔ m < 10 ^ p).
Proof.
  unfold rescaled. intros Hc Hpt Hp Hm.
  assert (∀ a, 0 ≤ a → 0 < 10 ^ a) as Hpos by (intros; apply Z.pow_pos_nonneg; lia).
  (* multiply both sides up to one common power *)
  assert (c * 10 ^ Z.max 0 (- s) < 10 ^ (p - t) * 10 ^ Z.max 0 s ↔
          c * 10 ^ Z.max 0 (- s) * (10 ^ Z.max 0 (t - s) * 10 ^ Z.max 0 (- t))
          < 10 ^ (p - t) * 10 ^ Z.max 0 s * (10 ^ Z.max 0 (t - s) * 10 ^ Z.max 0 (- t))) as ->.
  { apply Z.mul_lt_mono_pos_r. pose proof (Hpos (Z.max 0 (t - s))). pose proof (Hpos (Z.max 0 (- t))). lia. }
  replace (c * 10 ^ Z.max 0 (- s) * (10 ^ Z.max 0 (t - s) * 10 ^ Z.max 0 (- t)))
    with (m * (10 ^ Z.max 0 (s - t) * 10 ^ Z.max 0 (- s) * 10 ^ Z.max 0 (- t))).
  2:{ transitivity (c * 10 ^ Z.max 0 (t - s) * (10 ^ Z.max 0 (- s) * 10 ^ Z.max 0 (- t))); [rewrite Hm|]; lia. }
  replace (10 ^ (p - t) * 10 ^ Z.max 0 s * (10 ^ Z.max 0 (t - s) * 10 ^ Z.max 0 (- t)))
    with (10 ^ p * (10 ^ Z.max 0 (s - t) * 10 ^ Z.max 0 (- s) * 10 ^ Z.max 0 (- t)))
    by (rewrite <- !Z.pow_add_r by lia; f_equal; lia).
  symmetry. apply Z.mul_lt_mono_pos_r. rewrite <- !Z.pow_add_r by lia. apply Hpos. lia.
Qed.

Lemma strip_sign_digits unscaled :
  is_digits (strip_minus unscaled) →
  decimal_digits unscaled = Some (sbytes (strip_minus unscaled)) ∧ special_name unscaled = false.
Proof.
  intros Hd. pose proof Hd as [He Ha]%is_digits_spec. split.
  - assert (strip_sign unscaled = strip_minus unscaled) as Heq.
    { unfold strip_sign, strip_minus in *. destruct (strip_byte "-" unscaled) as [d|]; [done|].
      cbn [default] in *. by rewrite digits_no_sign. }
    unfold decimal_digits. by rewrite Heq, He, Ha.
  - unfold special_name. apply bool_decide_eq_false.
    rewrite !elem_of_cons, elem_of_nil. intros [->|[->|[->|[]]]]; vm_compute in Ha; done.
Qed.

Lemma digits_all s : is_digits s → all_digits (sbytes s).
Proof. intros [_ H]. apply Forall_forall. exact H. Qed.

Section decimal.
Context (plan : ColumnConversionPlan) (ss tp ts : Z) (Hplan : decimal_plan plan ss tp ts).

Lemma decimal_plan_run unscaled s :
  is_digits (strip_minus unscaled) → s = ss ∨ (ss < 0 ∧ s = 0) →
  let c := digits_value (strip_minus unscaled) in
  validate_decimal_plan_value plan (VDecimal unscaled s)
  = if decide (c mod 10 ^ Z.max 0 (s - ts) = 0) then
      if decide (c * 10 ^ Z.max 0 (- s) < 10 ^ Z.max 0 (tp - ts) * 10 ^ Z.max 0 s)
      then Ok () else reject plan "decimal_overflow"
    else reject plan "decimal_rounding_required".
Proof.
  destruct Hplan as [(sp & Hsp & H1) H2 H3 H4 H5 (Rs & Rp & Rt)]. intros Hd Hs c.
  destruct (strip_sign_digits _ Hd) as [Hdig Hsp'].
  unfold validate_decimal_plan_value. rewrite H1, H2, H3, H4, H5. cbn [mbind option_bind].
  unfold parse_usize, parse_u64, parse_i32.
  rewrite !parse_unsigned_show, !parse_signed_show by (unfold u64_max, i32_min, i32_max in *; lia).
  cbn [required ok_or mbind result_bind].
  rewrite (proj2 (Z.eqb_neq sp 0)), (proj2 (Z.eqb_neq tp 0)) by lia.
  assert (decimal_scale_ok ss = true ∧ decimal_scale_ok ts = true) as [-> ->]
    by (unfold decimal_scale_ok; rewrite !in_range_spec; lia).
  assert (negb (s =? ss) && negb ((ss <? 0) && (s =? 0)) = false) as ->.
  { destruct Hs as [->|[Hneg ->]]; [by rewrite Z.eqb_refl|].
    rewrite (proj2 (Z.ltb_lt ss 0)) by done. by destruct (0 =? ss). }
  cbn [negb orb andb].
  assert (expected_integer_digits tp ts = Some (Z.max 0 (tp - ts))) as ->.
  { unfold expected_integer_digits. rewrite (proj2 (Z.leb_le _ _)) by (unfold i32_max; lia).
    by rewrite (proj2 (in_range_spec _ _ _)) by (unfold i32_max, i32_min; lia). }
  rewrite bool_decide_eq_true_2 by done. cbn [negb].
  unfold validate_decimal_special_value. rewrite Hsp', Hdig. cbn [negb required ok_or mbind result_bind].
  assert (in_range i32_min i32_max (s - ts) = true) as ->
    by (apply in_range_spec; unfold i32_min, i32_max; lia).
  rewrite andb_false_r.
  pose proof (discarded_exact _ (Z.to_nat (s - ts)) (digits_all _ Hd)) as Hx. fold (digits_value (strip_minus unscaled)) in Hx.
  pose proof (integer_digits_fit _ s (Z.max 0 (tp - ts)) (digits_all _ Hd)) as Hf.
  change (value_of (sbytes (strip_minus unscaled))) with c in *.
  replace (Z.of_nat (Z.to_nat (s - ts))) with (Z.max 0 (s - ts)) in Hx by lia.
  specialize (Hf ltac:(unfold u64_max; lia)).
  assert ((ts <? s) && negb (forallb (λ b, bool_decide (b = ZERO))
            (discarded_digits (sbytes (strip_minus unscaled)) (Z.to_nat (s - ts))))
          = negb (bool_decide (c mod 10 ^ Z.max 0 (s - ts) = 0))) as ->.
  { destruct (Z.ltb_spec ts s).
    - cbn [andb]. f_equal. apply eq_true_iff_eq. by rewrite Hx, bool_decide_eq_true.
    - rewrite (Z.max_l 0 (s - ts)), Z.pow_0_r, Z.mod_1_r by lia. by rewrite bool_decide_eq_true_2. }
  case_bool_decide as Hex; cbn [negb]; [rewrite decide_True by done|by rewrite decide_False by done].
  destruct (_ <? integer_digits _ s); destruct (decide _) as [Hd'|Hd']; try done.
  + apply Hf in Hd'. done.
  + exfalso. by apply Hd', Hf.
Qed.

(** A decimal plan never rounds and never overflows: for a consistent
    plan whose scale does not exceed its precision, a captured finite decimal
    passes iff it equals a coefficient below [10^precision] at the target
    scale; a value that is not a multiple of the target's unit is rejected as
    rounding, any other as overflow. *)
Theorem decimal_plan_decides (unscaled : string) (s : Z) :
  ts ≤ tp → is_digits (strip_minus unscaled) → s = ss ∨ (ss < 0 ∧ s = 0) →
  let c := digits_value (strip_minus unscaled) in
  let r := validate_decimal_plan_value plan (VDecimal unscaled s) in
  (r = Ok () ↔ ∃ m, rescaled c s m ts ∧ m < 10 ^ tp)
  ∧ (r = reject plan "decimal_rounding_required" ↔ ¬ ∃ m, rescaled c s m ts)
  ∧ (r = Ok () ∨ r = reject plan "decimal_rounding_required" ∨ r = reject plan "decimal_overflow").
Proof.
  intros Hle Hd Hs c r. pose proof (decimal_plan_run unscaled s Hd Hs) as Hr. cbv zeta in Hr.
  fold c r in Hr. pose proof (digits_value_nonneg _ Hd) as H0. fold c in H0.
  destruct Hplan as [_ _ _ _ _ (Rs & Rp & Rt)].
  rewrite (Z.max_r 0 (tp - ts)) in Hr by lia. rewrite (rescaled_exists c s ts).
  destruct (decide (c mod _ = 0)) as [Hm|Hm].
  - apply rescaled_exists in Hm as Hex. destruct Hex as [m Hex].
    assert (∀ m', rescaled c s m' ts → (c * 10 ^ Z.max 0 (- s) < 10 ^ (tp - ts) * 10 ^ Z.max 0 s ↔ m' < 10 ^ tp)) as Hb
      by (intros m' Hm'; apply rescaled_bound; (done || lia)).
    destruct (decide (_ < _)) as [Hlt|Hlt]; rewrite Hr; unfold reject; split_and!.
    + split; [|done]. intros _. exists m. split; [done|]. by apply Hb.
    + split; [done|]. intros Hno. by destruct Hno.
    + by left.
    + split; [done|]. intros (m' & Hm' & Hlt'). exfalso. by apply Hlt, (Hb m').
    + split; [|intros Hno; by destruct Hno]. intros [=].
    + by right; right.
  - rewrite Hr. unfold reject. split_and!; [|done|by right; left]. split; [done|].
    intros (m & Hex & _). exfalso. apply Hm, rescaled_exists. by exists m.
Qed.
End decimal.

(** ** Bit strings *)
Definition bit_index (order : BitOrder) (i : nat) : Z :=
  match order with MsbFirst => 7 - Z.of_nat i mod 8 | LsbFirst => Z.of_nat i mod 8 end.

(** The [i]-th bit of a byte string read in an order. *)
Definition bit (order : BitOrder) (l : list byte) (i : nat) : bool :=
  match l !! (i / 8)%nat with
  | Some b => Z.testbit (bval b) (bit_index order i)
  | None => false
  end.

Lemma bit_index_range order i : 0 ≤ bit_index order i < 8.
Proof. pose proof (Z.mod_pos_bound (Z.of_nat i) 8). destruct order; cbn; lia. Qed.

Lemma bit_mask_eq order i : bit_mask order i = 2 ^ bit_index order i.
Proof.
  pose proof (bit_index_range order i).
  destruct order; cbn in *; rewrite Z.shiftl_mul_pow2, Z.mul_1_l by lia; done.
Qed.

Lemma bit_index_inj order i j : (i / 8 = j / 8)%nat → bit_index order i = bit_index order j → i = j.
Proof.
  intros Hd Hi. assert (Z.of_nat i mod 8 = Z.of_nat j mod 8) as Hm by (destruct order; cbn in Hi; lia).
  rewrite <- !(Nat2Z.inj_mod _ 8) in Hm. apply Nat2Z.inj in Hm.
  rewrite (Nat.div_mod_eq i 8), (Nat.div_mod_eq j 8). lia.
Qed.

Lemma or_byte_bit mask b k :
  0 ≤ k < 8 → Z.testbit (bval (or_byte mask b)) k = Z.testbit (bval b) k || Z.testbit mask k.
Proof.
  intros Hk. unfold or_byte. rewrite bval_byte_of. change 256 with (2 ^ 8).
  rewrite Z.mod_pow2_bits_low by lia. apply Z.lor_spec.
Qed.

Lemma mask_test order i z :
  (Z.land z (bit_mask order i) =? 0) = negb (Z.testbit z (bit_index order i)).
Proof.
  rewrite bit_mask_eq. pose proof (bit_index_range order i) as Hr.
  destruct (Z.testbit z (bit_index order i)) eqn:E; cbn [negb].
  - apply Z.eqb_neq. intros H0. assert (Z.testbit (Z.land z (2 ^ bit_index order i)) (bit_index order i) = true) as Ht.
    { rewrite Z.land_spec, E, Z.pow2_bits_true by lia. done. }
    rewrite H0, Z.bits_0 in Ht. done.
  - apply Z.eqb_eq. apply Z.bits_inj'. intros k Hk. rewrite Z.land_spec, Z.bits_0.
    destruct (decide (k = bit_index order i)) as [->|Hne]; [by rewrite E|].
    rewrite Z.pow2_bits_false by lia. by rewrite andb_false_r.
Qed.

Lemma alter_bit order target i j :
  (i / 8 < length target)%nat →
  bit order (alter (or_byte (bit_mask order i)) (i / 8)%nat target) j
  = bit order target j || bool_decide (j = i).
Proof.
  intros Hi. unfold bit. destruct (decide (j / 8 = i / 8)%nat) as [Hd|Hd].
  - rewrite Hd, list_lookup_alter. destruct (lookup_lt_is_Some_2 target (i / 8)%nat Hi) as [b Hb].
    rewrite decide_True, Hb by done. cbn [fmap option_fmap option_map].
    rewrite or_byte_bit, bit_mask_eq by apply bit_index_range. f_equal.
    case_bool_decide as Hj.
    + subst j. apply Z.pow2_bits_true. apply bit_index_range.
    + apply Z.pow2_bits_false. intros He. apply Hj. symmetry. by apply (bit_index_inj order).
  - rewrite list_lookup_alter_ne by done. rewrite bool_decide_eq_false_2 by (intros ->; done).
    by rewrite orb_false_r.
Qed.

(** The copying loop moves every bit of the value and nothing else. *)
Lemma copy_bits_spec source so to n :
  (n ≤ 8 * length source)%nat →
  ∃ target, copy_bits source so to n = Some target ∧ length target = length source
    ∧ ∀ j, bit to target j = bool_decide (j < n)%nat && bit so source j.
Proof.
  unfold copy_bits. induction n as [|n IH]; intros Hn.
  { eexists. split; [done|]. split; [apply length_replicate|]. intros j.
    rewrite bool_decide_eq_false_2 by lia. unfold bit. destruct (replicate _ _ !! _) eqn:E; [|done].
    apply lookup_replicate in E as [-> _]. apply Z.bits_0. }
  destruct IH as (target & Ht & Hlen & Hbit); [lia|].
  rewrite seq_S, foldl_app, Ht. cbn.
  assert (n / 8 < length source)%nat as Hlt by (apply Nat.Div0.div_lt_upper_bound; lia).
  destruct (lookup_lt_is_Some_2 source (n / 8)%nat Hlt) as [b Hb]. unfold copy_bit. rewrite Hb. cbn.
  eexists. split; [done|]. rewrite mask_test.
  assert (bit so source n = Z.testbit (bval b) (bit_index so n)) as Hsn by (unfold bit; by rewrite Hb).
  rewrite <- Hsn. destruct (bit so source n) eqn:En; cbn [negb].
  - rewrite length_alter. split; [done|]. intros j. rewrite alter_bit, Hbit by congruence.
    destruct (decide (j = n)) as [->|Hne].
    + rewrite (bool_decide_eq_true_2 (n = n)), (bool_decide_eq_true_2 (n < S n)%nat), En by lia. by rewrite orb_true_r.
    + rewrite (bool_decide_eq_false_2 (j = n)), orb_false_r by done. f_equal. apply bool_decide_ext. lia.
  - split; [done|]. intros j. rewrite Hbit. destruct (decide (j = n)) as [->|Hne].
    + by rewrite En, !andb_false_r.
    + f_equal. apply bool_decide_ext. lia.
Qed.

Lemma padding_mask_bit order unused k :
  0 ≤ unused < 8 → 0 ≤ k < 8 →
  Z.testbit (padding_mask order unused) k
  = match order with MsbFirst => k <? unused | LsbFirst => 8 - unused <=? k end.
Proof.
  intros Hu Hk. destruct order; cbn.
  - change (Z.shiftl 1 unused - 1) with (Z.ones unused). destruct (Z.ltb_spec k unused).
    + apply Z.ones_spec_low. lia.
    + apply Z.ones_spec_high. lia.
  - unfold wrap_u. rewrite Z.mod_pow2_bits_low, Z.shiftl_spec by lia.
    change u8_max with (Z.ones 8). destruct (Z.leb_spec (8 - unused) k).
    + apply Z.ones_spec_low. lia.
    + apply Z.testbit_neg_r. lia.
Qed.

Lemma padding_mask_high order unused k :
  0 ≤ unused < 8 → 8 ≤ k → Z.testbit (padding_mask order unused) k = false.
Proof.
  intros Hu Hk. destruct order; cbn.
  - change (Z.shiftl 1 unused - 1) with (Z.ones unused). apply Z.ones_spec_high. lia.
  - unfold wrap_u. apply Z.mod_pow2_bits_high. lia.
Qed.

Lemma last_lookup (l : list byte) d : l ≠ [] → l !! Nat.pred (length l) = Some (List.last l d).
Proof.
  induction l as [|a [|b l] IH]; [done|done|]. intros _. cbn [length Nat.pred] in *.
  change (List.last (a :: b :: l) d) with (List.last (b :: l) d).
  rewrite <- IH by done. done.
Qed.

Lemma or_last_bit order mask l i :
  bit order (or_last mask l) i
  = bit order l i || (bool_decide (i / 8 = Nat.pred (length l) ∧ l ≠ [])%nat && Z.testbit mask (bit_index order i)).
Proof.
  assert (∀ k, (or_last mask l) !! k
    = if decide (k = Nat.pred (length l) ∧ l ≠ []) then or_byte mask <$> l !! k else l !! k) as Hl.
  { induction l as [|a [|b l] IH]; intros k.
    - rewrite decide_False; [done|]. by intros [_ []].
    - destruct k as [|k]; [by rewrite decide_True|]. rewrite decide_False; [done|]. cbn. intros [? _]. lia.
    - change (or_last mask (a :: b :: l)) with (a :: or_last mask (b :: l)).
      destruct k as [|k]; [rewrite decide_False; [done|cbn; intros [? _]; lia]|].
      cbn [lookup list_lookup]. rewrite IH. cbn [length Nat.pred].
      destruct (decide (k = length l ∧ b :: l ≠ [])) as [[-> _]|Hk]; [by rewrite decide_True|].
      rewrite decide_False; [done|]. intros [Hk' _]. apply Hk. split; [lia|done]. }
  unfold bit. rewrite Hl. destruct (decide _) as [Hd|Hd].
  - rewrite bool_decide_eq_true_2 by done. destruct (l !! (i / 8)%nat) eqn:E; cbn [fmap option_fmap option_map].
    + rewrite or_byte_bit by apply bit_index_range. done.
    + exfalso. destruct Hd as [Hd Hne]. rewrite Hd, (last_lookup l NUL) in E by done. done.
  - rewrite bool_decide_eq_false_2 by done. by rewrite orb_false_r.
Qed.

Section lengths.
Context (n len : nat) (Hlen : Z.of_nat len = (Z.of_nat n + 7) / 8).

Lemma len_bounds : (n ≤ 8 * len < n + 8)%nat.
Proof.
  pose proof (Z.div_mod (Z.of_nat n + 7) 8 ltac:(lia)).
  pose proof (Z.mod_pos_bound (Z.of_nat n + 7) 8 ltac:(lia)). lia.
Qed.

Lemma unused_eq : unused_bits (Z.of_nat n) = 8 * Z.of_nat len - Z.of_nat n.
Proof.
  unfold unused_bits. pose proof len_bounds. symmetry.
  rewrite Zminus_mod_idemp_r. apply (Z.mod_unique_pos _ _ (1 - Z.of_nat len)); lia.
Qed.

(** The mask covers exactly the positions past the length. *)
Lemma mask_covers order i :
  (i / 8 = Nat.pred len)%nat → (0 < n)%nat →
  Z.testbit (padding_mask order (unused_bits (Z.of_nat n))) (bit_index order i) = bool_decide (n ≤ i)%nat.
Proof.
  intros Hi Hn. pose proof len_bounds. pose proof (bit_index_range order i).
  rewrite padding_mask_bit by (rewrite ?unused_eq; lia). rewrite unused_eq.
  assert (Z.of_nat i mod 8 = Z.of_nat i - 8 * (Z.of_nat len - 1)) as Hm.
  { symmetry. apply (Z.mod_unique_pos _ _ (Z.of_nat len - 1)); [|lia].
    pose proof (Nat.div_mod_eq i 8). pose proof (Nat.mod_upper_bound i 8 ltac:(lia)). lia. }
  destruct order; cbn; rewrite Hm; (case_bool_decide; [apply Z.ltb_lt || apply Z.leb_le|apply Z.ltb_ge || apply Z.leb_gt]; lia).
Qed.

Lemma last_index order k :
  (0 < len)%nat → 0 ≤ k < 8 → ∃ i, (i / 8 = Nat.pred len)%nat ∧ bit_index order i = k.
Proof.
  intros Hl Hk.
  assert (∀ r, (r < 8)%nat → (((8 * Nat.pred len + r) / 8 = Nat.pred len)%nat
    ∧ Z.of_nat (8 * Nat.pred len + r) mod 8 = Z.of_nat r)) as Hr.
  { intros r Hr. split.
    - symmetry. apply (Nat.div_unique _ _ _ r); lia.
    - symmetry. apply (Z.mod_unique_pos _ _ (Z.of_nat (Nat.pred len))); lia. }
  destruct order.
  - destruct (Hr (Z.to_nat (7 - k)) ltac:(lia)) as [H1 H2]. eexists. split; [exact H1|]. unfold bit_index. rewrite H2. lia.
  - destruct (Hr (Z.to_nat k) ltac:(lia)) as [H1 H2]. eexists. split; [exact H1|]. unfold bit_index. rewrite H2. lia.
Qed.
End lengths.

Section conversion.
Context `{B64 : Base64, !Base64Laws B64}.

(** Every bit of the last byte past the length shows the padding. *)
Lemma padding_valid order (n : nat) l pad :
  (0 < n)%nat → Z.of_nat (length l) = (Z.of_nat n + 7) / 8 →
  (∀ i, (n ≤ i < 8 * length l)%nat → bit order l i = bool_decide (pad = PadOne)) →
  (pad = PadNone ↔ Z.of_nat n mod 8 = 0) →
  Validate.bit_string (b64_encode l) (Z.of_nat n) pad order = Ok ().
Proof.
  intros Hn Hlen Hpad Hnone. pose proof (len_bounds n _ Hlen) as Hb. pose proof (unused_eq n _ Hlen) as Hu.
  unfold Validate.bit_string. rewrite b64_roundtrip. cbn [ok_or mbind result_bind].
  rewrite !seq_ok, !ensure_ok, Z.ltb_lt, Z.eqb_eq. split; [lia|]. split; [done|].
  fold (unused_bits (Z.of_nat n)). assert (unused_bits (Z.of_nat n) = 0 ↔ Z.of_nat n mod 8 = 0) as Hz.
  { unfold unused_bits. pose proof (Z.mod_pos_bound (Z.of_nat n) 8 ltac:(lia)).
    destruct (Z.eq_dec (Z.of_nat n mod 8) 0) as [->|?]; [done|]. rewrite Z.mod_small by lia. lia. }
  destruct (Z.eqb_spec (unused_bits (Z.of_nat n)) 0) as [H0|H0].
  { apply ensure_ok, bool_decide_eq_true, Hnone, Hz, H0. }
  rewrite seq_ok, !ensure_ok, negb_true_iff, bool_decide_eq_false, Z.eqb_eq.
  split; [by intros ?%Hnone%Hz|].
  fold (padding_mask order (unused_bits (Z.of_nat n))). set (m := padding_mask order _).
  assert (l ≠ []) as Hne by (intros ->; cbn in *; lia).
  apply Z.bits_inj'. intros k Hk. rewrite Z.land_spec.
  assert (Z.testbit (if bool_decide (pad = PadOne) then m else 0) k
          = bool_decide (pad = PadOne) && Z.testbit m k) as ->.
  { case_bool_decide; [done|]. apply Z.bits_0. }
  destruct (decide (k < 8)) as [Hk8|Hk8].
  - destruct (last_index n (length l) order k ltac:(lia) ltac:(lia)) as (i & Hi & <-).
    unfold m. rewrite (mask_covers n (length l) Hlen) by done.
    destruct (decide (n ≤ i)%nat) as [Hni|Hni]; [|by rewrite bool_decide_eq_false_2, !andb_false_r].
    rewrite bool_decide_eq_true_2, !andb_true_r by done. rewrite <- (Hpad i).
    + unfold bit. rewrite Hi, (last_lookup l NUL) by done. done.
    + pose proof (Nat.div_mod_eq i 8). pose proof (Nat.mod_upper_bound i 8 ltac:(lia)). lia.
  - unfold m. rewrite padding_mask_high by lia. by rewrite !andb_false_r.
Qed.

(** Converting a bit string to the target's bit order and padding keeps
    every bit: the result has the same length, its [i]-th bit in the target
    order is the [i]-th bit of the source, the bits past the length show the
    target padding, and with a padding that suits the length the result is a
    valid bit string again. *)
Theorem bit_string_conversion (plan : ColumnConversionPlan) (source : list byte) (n : nat)
    (pad tp : BitPadding) (so to : BitOrder) :
  (0 < n)%nat → Z.of_nat (length source) = (Z.of_nat n + 7) / 8 →
  parse_bit_order (plan_parameter plan "target_bit_order") = Some to →
  parse_padding (plan_parameter plan "target_padding") = Some tp →
  ∃ target, convert_bit_string_value plan (VBitString (b64_encode source) (Z.of_nat n) pad so)
            = Some (Ok (VBitString (b64_encode target) (Z.of_nat n) tp to))
    ∧ length target = length source
    ∧ (∀ i, (i < n)%nat → bit to target i = bit so source i)
    ∧ (∀ i, (n ≤ i < 8 * length source)%nat → bit to target i = bool_decide (tp = PadOne))
    ∧ ((tp = PadNone ↔ Z.of_nat n mod 8 = 0) →
       Validate.bit_string (b64_encode target) (Z.of_nat n) tp to = Ok ()).
Proof.
  intros Hn Hlen Hto Htp. pose proof (len_bounds n _ Hlen) as Hb.
  destruct (copy_bits_spec source so to n ltac:(lia)) as (t0 & Ht & Hl0 & Hbit).
  pose proof (unused_eq n _ Hlen) as Hu.
  set (target := if (0 <? unused_bits (Z.of_nat n)) && bool_decide (tp = PadOne)
                 then or_last (padding_mask to (unused_bits (Z.of_nat n))) t0 else t0).
  assert (t0 ≠ []) as Hne by (intros ->; cbn in *; lia).
  assert (length target = length source) as Hlt.
  { unfold target. destruct (_ && _); [|done]. rewrite <- Hl0. clear. 
    induction t0 as [|a [|b l] IH]; [done|done|]. cbn in *. by rewrite IH. }
  assert (∀ i, (i < 8 * length source)%nat →
    bit to target i = if bool_decide (i < n)%nat then bit so source i else bool_decide (tp = PadOne)) as Hall.
  { intros i Hi. unfold target. destruct (Z.ltb_spec 0 (unused_bits (Z.of_nat n))) as [H0|H0]; cbn [andb].
    - case_bool_decide as H1.
      + rewrite or_last_bit, Hbit, Hl0. case_bool_decide as Hin; cbn [andb].
        * destruct (bool_decide_reflect (i / 8 = Nat.pred (length source) ∧ t0 ≠ [])%nat) as [[Hd _]|]; [|by rewrite orb_false_r].
          rewrite (mask_covers n (length source) Hlen) by done. rewrite bool_decide_eq_false_2 by lia. by rewrite orb_false_r.
        * assert (i / 8 = Nat.pred (length source))%nat as Hd.
          { symmetry. apply (Nat.div_unique _ _ _ (i - 8 * Nat.pred (length source))); lia. }
          rewrite bool_decide_eq_true_2, (mask_covers n (length source) Hlen) by done. by rewrite bool_decide_eq_true_2 by lia.
      + rewrite Hbit. by case_bool_decide.
    - rewrite Hbit. case_bool_decide; [done|]. exfalso. lia. }
  exists target. split_and!.
  - unfold convert_bit_string_value. rewrite Hto, Htp, b64_roundtrip, Nat2Z.id, Ht. cbn [mbind option_bind].
    unfold target. destruct (_ && _); [|done]. destruct t0; done.
  - done.
  - intros i Hi. rewrite Hall by lia. by rewrite bool_decide_eq_true_2.
  - intros i Hi. rewrite Hall by lia. by rewrite bool_decide_eq_false_2 by lia.
  - intros Hnone. apply padding_valid; [done|congruence| |done].
    intros i Hi. rewrite Hlt in Hi. rewrite Hall by lia. by rewrite bool_decide_eq_false_2 by lia.
Qed.
(** A value bound to a fixed-width binary column is never cut: it is
    written with all its bytes first and the declared padding after them, to
    exactly the column's width, and a value longer than the column is
    refused. *)
Theorem binary_fixed_width (plan : ColumnConversionPlan) (l : list byte) (width : nat) (one : bool) :
  plan_parameter plan "target_fixed" = Some "true"%string →
  plan_parameter plan "target_length" = Some (show_nat (Z.of_nat width)) →
  plan_parameter plan "target_padding" = Some (if one then "one" else "zero")%string →
  Z.of_nat width ≤ u64_max →
  let pad := if one then "255"%char else "000"%char in
  convert_binary_value plan (VBinary (b64_encode l))
  = (if decide (length l ≤ width)%nat
     then Ok (VBinary (b64_encode (l ++ replicate (width - length l) pad)))
     else reject plan "binary_length_out_of_range")
  ∧ ((length l ≤ width)%nat → length (l ++ replicate (width - length l) pad) = width).
Proof.
  intros Hf Hl Hp Hw pad. split.
  2:{ intros Hle. rewrite length_app, length_replicate. lia. }
  unfold convert_binary_value, bounded_parameter. rewrite b64_roundtrip, Hf, Hl, Hp.
  cbn [required ok_or mbind result_bind]. rewrite bool_decide_eq_true_2 by done.
  assert (show_nat (Z.of_nat width) ≠ "unbounded"%string) as Hne.
  { intros E. pose proof (show_nat_digits (Z.of_nat width) ltac:(lia)) as Hd. by rewrite E in Hd. }
  rewrite bool_decide_eq_false_2 by done. unfold parse_usize, parse_u64.
  rewrite parse_unsigned_show by lia. cbn [required ok_or mbind result_bind].
  assert ((match (if one then "one" else "zero")%string with
           | "zero"%string => Ok "000"%char
           | "one"%string => Ok "255"%char
           | _ => reject plan "binary_padding_invalid"
           end) = Ok pad) as -> by (by destruct one).
  cbn [mbind result_bind]. rewrite Nat2Z.id.
  destruct (decide (length l ≤ width)%nat) as [Hle|Hle].
  - rewrite (proj2 (Z.ltb_ge _ _)) by lia. cbn [mbind result_bind]. unfold resize.
    by rewrite take_ge by done.
  - by rewrite (proj2 (Z.ltb_lt _ _)) by lia.
Qed.
End conversion.
End Spec.

(** ** Digests *)

(** A stored plan is tamper-evident: two plans that carry the same digest and
    both verify agree in every field the digest covers, so nothing of a plan but
    its confirmation state can be changed without the check failing, provided the
    two digest inputs do not collide. *)
Theorem verified_plans_agree `{SHA : Sha256} (input_json : PlanDigestInput → list byte)
    (p p' : ColumnConversionPlan) :
  (sha256_hex (input_json (digest_input p)) = sha256_hex (input_json (digest_input p')) →
   digest_input p = digest_input p') →
  verify_digest input_json p = true → verify_digest input_json p' = true →
  pl_plan_digest p = pl_plan_digest p' →
  ∃ c, p = mkPlan (pl_format p') (pl_route_id p') (pl_configuration_revision p')
    (pl_source_field p') (pl_target_field p') (pl_source_connector p') (pl_sink_connector p')
    (pl_source_build p') (pl_target_build p') (pl_source_mapping_id p') (pl_source_mapping_version p')
    (pl_target p') (pl_rule p') (pl_rule_digest p') (pl_capability_code p')
    (pl_capability_manifest_digest p') (pl_target_probe_digest p') (pl_qualification p') (pl_risk p')
    (pl_risk_code p') (pl_loss p') (pl_examples p') (pl_locator_impact p') c (pl_parameters p')
    (pl_failure_policy p') (pl_input_digest p') (pl_plan_digest p').
Proof.
  unfold verify_digest. rewrite !bool_decide_eq_true. unfold computed_digest.
  intros Hinj H1 H2 Heq. exists (pl_confirmation p).
  specialize (Hinj ltac:(congruence)). unfold digest_input in Hinj.
  destruct p, p'; cbn in *. injection Hinj as -> -> -> -> -> -> -> -> -> -> -> -> -> -> -> -> -> -> -> -> -> -> -> -> -> ->. by rewrite Heq.
Qed.

(** ** Example plans *)
Module Example4.
Definition plan_of (target own : list (string * string)) (confirmation : PlanConfirmationState)
    (digest : string) : ColumnConversionPlan :=
  mkPlan "cdc.column-conversion-plan.v1" "route" "1"
    (mkDefinition "catalog:public.t.v" "s") (mkDefinition "target" "t")
    (mkConnector "mysql" "8.0") (mkConnector "postgresql" "15") None None "mapping" "1"
    (mkTarget "numeric" (list_to_map target)) (mkRule "rule" "1") "" "capability" "" None
    RangeChecked RiskNone None (mkLoss false false false false "") [] NotUsed confirmation
    (list_to_map own) Reject "" digest.
Definition plan_with (target own : list (string * string)) : ColumnConversionPlan :=
  plan_of target own NotRequired "digest".

(** [BIGINT UNSIGNED] to a signed 64-bit column. *)
Definition integer_plan4 : ColumnConversionPlan :=
  plan_with [("target_signed", "true"); ("target_bits", "64");
    ("target_min", "-9223372036854775808"); ("target_max", "9223372036854775807");
    ("source_signed", "false"); ("source_bits", "64")]%string [].

(** [DECIMAL(20,4)] to [numeric(10,2)]. *)
Definition decimal_plan4 : ColumnConversionPlan :=
  plan_with [("source_precision", "20"); ("source_scale", "4"); ("target_precision", "10");
    ("target_scale", "2"); ("target_integer_digits", "8")]%string [].

(** [DECIMAL(20,5)] to [numeric(3,5)]: the scale exceeds the precision. *)
Definition narrow_plan4 : ColumnConversionPlan :=
  plan_with [("source_precision", "20"); ("source_scale", "5"); ("target_precision", "3");
    ("target_scale", "5"); ("target_integer_digits", "0")]%string [].

(** A 10-bit value from a big-endian source to a little-endian target. *)
Definition bit_plan4 : ColumnConversionPlan :=
  plan_with [] [("target_bit_order", "lsb_first"); ("target_padding", "one")]%string.
(** [VARBINARY] to [BINARY(4)]. *)
Definition binary_plan4 : ColumnConversionPlan :=
  plan_with [("target_length", "4")]%string [("target_fixed", "true"); ("target_padding", "zero")]%string.
End Example4.
Import Example4.
#[local] Existing Instance Rfc4648.base64_laws.

Lemma bit_string_conversion_witness :
  let source := ["202"; "064"]%char in
  ∃ target, convert_bit_string_value (B64 := Rfc4648.base64) bit_plan4
              (VBitString (b64_encode (Base64 := Rfc4648.base64) source) 10 PadZero MsbFirst)
            = Some (Ok (VBitString (b64_encode (Base64 := Rfc4648.base64) target) 10 PadOne LsbFirst))
    ∧ length target = length source
    ∧ (∀ i, (i < 10)%nat → Spec.bit LsbFirst target i = Spec.bit MsbFirst source i)
    ∧ (∀ i, (10 ≤ i < 8 * length source)%nat → Spec.bit LsbFirst target i = bool_decide (PadOne = PadOne))
    ∧ ((PadOne = PadNone ↔ 10 mod 8 = 0) →
       Validate.bit_string (B64 := Rfc4648.base64) (b64_encode (Base64 := Rfc4648.base64) target) 10 PadOne LsbFirst
       = Ok ()).
Proof.
  apply (Spec.bit_string_conversion (B64 := Rfc4648.base64) bit_plan4 ["202"; "064"]%char 10 PadZero PadOne
           MsbFirst LsbFirst); [lia|reflexivity..].
Defined.

Lemma binary_fixed_width_witness :
  convert_binary_value (B64 := Rfc4648.base64) binary_plan4
    (VBinary (b64_encode (Base64 := Rfc4648.base64) ["001"; "002"]%char))
  = Ok (VBinary (b64_encode (Base64 := Rfc4648.base64) ["001"; "002"; "000"; "000"]%char)).
Proof.
  apply (proj1 (Spec.binary_fixed_width (B64 := Rfc4648.base64) binary_plan4 ["001"; "002"]%char 4 false
           eq_refl eq_refl eq_refl ltac:(vm_compute; discriminate))).
Defined.

Lemma integer_plan_decides_witness :
  validate_integer_plan_value integer_plan4 (VInteger false 64 "9223372036854775808")
  = reject integer_plan4 "integer_overflow".
Proof.
  rewrite (Spec.integer_plan_decides integer_plan4 false 64 true 64 "9223372036854775808" 9223372036854775808).
  - rewrite decide_False; [done|]. vm_compute. intros [_ H]. discriminate H.
  - split; try reflexivity; set_solver.
  - apply (Validate.Spec.denotes_nonneg false "9223372036854775808").
    apply Validate.Spec.is_digits_spec. split; reflexivity.
  - vm_compute. split; [discriminate|reflexivity].
Defined.

Lemma decimal_plan_decides_witness :
  let r := validate_decimal_plan_value decimal_plan4 (VDecimal "-1234500" 4) in
  (r = Ok () ↔ ∃ m, Spec.rescaled 1234500 4 m 2 ∧ m < 10 ^ 10)
  ∧ (r = reject decimal_plan4 "decimal_rounding_required" ↔ ¬ ∃ m, Spec.rescaled 1234500 4 m 2)
  ∧ (r = Ok () ∨ r = reject decimal_plan4 "decimal_rounding_required"
     ∨ r = reject decimal_plan4 "decimal_overflow").
Proof.
  apply (Spec.decimal_plan_decides decimal_plan4 4 10 2).
  - split; try reflexivity; [|lia]. exists 20. split; [vm_compute; split; [done|discriminate]|reflexivity].
  - lia.
  - apply Validate.Spec.is_digits_spec. split; reflexivity.
  - by left.
Defined.

(** A target scale above the target precision is clamped to zero integer digits,
    which bounds the value by one instead of by [10^(precision - scale)]: the
    plan for [numeric(3,5)] admits 0.5, which that column cannot hold. *)
Theorem decimal_scale_above_precision :
  validate_decimal_plan_value narrow_plan4 (VDecimal "50000" 5) = Ok ()
  ∧ ¬ ∃ m, Spec.rescaled 50000 5 m 5 ∧ m < 10 ^ 3.
Proof.
  split; [vm_compute; reflexivity|]. unfold Spec.rescaled.
  change (Z.max 0 (5 - 5)) with 0. rewrite Z.pow_0_r. intros (m & H1 & H2). lia.
Qed.

Lemma verified_plans_agree_witness :
  let digest := sha256_hex (Sha256 := SumDigest.sha256) [] in
  ∃ c, plan_of [] [] NotRequired digest = plan_of [] [] c digest.
Proof.
  intros digest.
  destruct (verified_plans_agree (SHA := SumDigest.sha256) (λ _, []) (plan_of [] [] NotRequired digest)
              (plan_of [] [] Confirmed digest)) as [c Hc];
    [reflexivity|vm_compute; reflexivity|vm_compute; reflexivity|reflexivity|].
  exists c. exact Hc.
Defined.
