(* ===== verification/TextCodec.v ===== *)
(** * Text under a column plan ([crates/change_event/src/compatibility.rs])

    A text value carries the bytes of its source charset; the plan names the
    target charset and length.  [decode_supported_text] and
    [encode_supported_text] transcode through a Rust string; the plan check
    refuses what the target cannot represent or hold, and the conversion
    writes the target bytes.  The theorems state that nothing is lost: an
    admitted text is converted, and its target bytes read back as the same
    characters. *)
From S2P Require Import Prelude Text Utf8 Codec Model Plan.

(** ** Charsets *)
Definition utf8_family (normalized : string) : bool :=
  bool_decide (normalized ∈ ["utf8"; "utf8mb4"; "utf-8"]%string).
Definition latin1_family (normalized : string) : bool :=
  bool_decide (normalized ∈ ["latin1"; "iso-8859-1"]%string).

(** [char::from(u8)] for every byte. *)
Definition byte_chars (bytes : list byte) : string := of_chars (bval <$> bytes).

Definition decode_supported_text (charset : string) (bytes : list byte)
    (declared_text : option string) : result string string :=
  let normalized := to_lower charset in
  let? value :=
    (if utf8_family normalized then
       ok_or "target_capability.text_encoding_invalid"%string (from_utf8 bytes)
     else if bool_decide (normalized = "ascii"%string) then
       if existsb (λ b, 0x7f <? bval b) bytes
       then Err "target_capability.text_encoding_invalid"%string
       else Ok (byte_chars bytes)
     else if latin1_family normalized then Ok (byte_chars bytes)
     else Err "target_capability.text_charset_unsupported"%string) in
  match declared_text with
  | Some declared =>
      if utf8_family normalized && negb (bool_decide (declared = value))
      then Err "target_capability.text_encoding_invalid"%string else Ok value
  | None => Ok value
  end.

(** [u8::try_from(character as u32)] *)
Definition to_u8 (c : Z) : option byte := if c <=? 0xff then Some (byte_of c) else None.

Definition encode_supported_text (charset text : string) : result string (list byte) :=
  let normalized := to_lower charset in
  if bool_decide (normalized ∈ ["utf8"; "utf-8"]%string) then
    if existsb (λ c, 3 <? len_utf8 c) (chars text)
    then Err "target_capability.text_character_unrepresentable"%string
    else Ok (sbytes text)
  else if bool_decide (normalized = "utf8mb4"%string) then Ok (sbytes text)
  else if bool_decide (normalized = "ascii"%string) then
    if existsb (λ c, 0x7f <? c) (chars text)
    then Err "target_capability.text_character_unrepresentable"%string
    else Ok (sbytes text)
  else if latin1_family normalized then
    ok_or "target_capability.text_character_unrepresentable"%string (mapM to_u8 (chars text))
  else Err "target_capability.text_charset_unsupported"%string.

(** ** The plan *)
Definition required_text_parameter (plan : ColumnConversionPlan) (name : string) : planned string :=
  match target_parameter plan name with
  | Some v => if sempty v then reject plan "text_parameter_missing" else Ok v
  | None => reject plan "text_parameter_missing"
  end.

(** A failure code of the codec, reported for the plan. *)
Definition coded {A} (plan : ColumnConversionPlan) (m : result string A) : planned A :=
  map_err (plan_failure plan) m.

Definition text_policy (plan : ColumnConversionPlan) : bool :=
  bool_decide (pl_parameters plan !! "encoding_policy"%string = Some "strict"%string)
  && bool_decide (pl_parameters plan !! "length_policy"%string = Some "reject"%string)
  && bool_decide (pl_parameters plan !! "collation_policy"%string = Some "target"%string).

Section text.
Context `{B64 : Base64}.

Definition validate_text_plan_value (plan : ColumnConversionPlan) (value : LogicalValue) : planned () :=
  match value with
  | VText charset bytes_base64url text =>
      let? bytes := required plan "text_encoding_invalid" (b64_decode bytes_base64url) in
      let? decoded := coded plan (decode_supported_text charset bytes text) in
      let? target_charset := required_text_parameter plan "target_charset" in
      let? encoded := coded plan (encode_supported_text target_charset decoded) in
      let? target_length := required plan "text_length_missing" (target_parameter plan "target_length") in
      let? length :=
        (if eq_ignore_case target_length "unbounded" then Ok None
         else let? l := required plan "text_length_invalid" (parse_usize target_length) in Ok (Some l)) in
      let? unit := required plan "text_length_unit_missing" (target_parameter plan "target_length_unit") in
      let? actual :=
        (if bool_decide (unit = "bytes"%string) then Ok (Z.of_nat (List.length encoded))
         else if bool_decide (unit = "characters"%string) then Ok (Z.of_nat (List.length (chars decoded)))
         else reject plan "text_length_unit_invalid") in
      if match length with Some limit => limit <? actual | None => false end
      then reject plan "text_length_overflow"
      else if negb (text_policy plan) then reject plan "text_policy_missing"
      else Ok ()
  | _ => reject plan "text_type_mismatch"
  end.

Definition convert_text_value (plan : ColumnConversionPlan) (value : LogicalValue) : planned LogicalValue :=
  match value with
  | VText charset bytes_base64url text =>
      let? bytes := required plan "text_encoding_invalid" (b64_decode bytes_base64url) in
      let? decoded := coded plan (decode_supported_text charset bytes text) in
      let? target_charset := required_text_parameter plan "target_charset" in
      let? encoded := coded plan (encode_supported_text target_charset decoded) in
      Ok (VText target_charset (b64_encode encoded) (Some decoded))
  | _ => reject plan "text_type_mismatch"
  end.
End text.

(** ** What the charsets mean *)
Module Spec.

(** The characters a charset can represent. *)
Definition repertoire (charset : string) : option (Z → bool) :=
  let normalized := to_lower charset in
  if bool_decide (normalized ∈ ["utf8"; "utf-8"]%string) then Some (λ c, c <? 0x10000)
  else if bool_decide (normalized = "utf8mb4"%string) then Some (λ _, true)
  else if bool_decide (normalized = "ascii"%string) then Some (λ c, c <? 0x80)
  else if latin1_family normalized then Some (λ c, c <? 0x100)
  else None.

Lemma byte_scalar (b : byte) : scalar (bval b) = true.
Proof. pose proof (bval_range b). apply orb_true_iff. left. apply in_range_spec. lia. Qed.

Lemma bytes_scalar (l : list byte) : Forall (λ c, scalar c = true) (bval <$> l).
Proof. apply Forall_fmap, Forall_true. intros. apply byte_scalar. Qed.

Lemma byte_chars_spec l : rust_string (byte_chars l) ∧ chars (byte_chars l) = bval <$> l.
Proof. apply chars_of_chars, bytes_scalar. Qed.

Lemma decoded_rust charset bytes declared s :
  decode_supported_text charset bytes declared = Ok s → rust_string s.
Proof.
  unfold decode_supported_text. intros H.
  apply bind_ok in H as (v & Hv & H).
  assert (v = s) as ->. { destruct declared; [case_match|]; congruence. }
  clear H. repeat case_match; try congruence.
  - apply ok_or_ok, from_utf8_some in Hv as [Hv ->]. unfold rust_string. by rewrite sbytes_of.
  - injection Hv as <-. apply byte_chars_spec.
  - injection Hv as <-. apply byte_chars_spec.
Qed.

Lemma len_utf8_le c : (3 <? len_utf8 c) = negb (c <? 0x10000).
Proof. unfold len_utf8. repeat case_match; bool_simpl; try done; lia. Qed.

Lemma existsb_not {A} (p q : A → bool) l :
  (∀ x, p x = negb (q x)) → existsb p l = negb (forallb q l).
Proof. intros H. induction l as [|x l IH]; [done|]. cbn. by rewrite H, IH, negb_andb. Qed.

Lemma forallb_scalar (p : Z → bool) l : forallb p l = true ↔ Forall (λ c, p c = true) l.
Proof. rewrite forallb_forall, Forall_forall. by setoid_rewrite <- list_elem_of_In. Qed.

(** Latin-1 bytes are the characters themselves. *)
Lemma mapM_to_u8 cs bs :
  Forall (λ c, scalar c = true) cs →
  mapM to_u8 cs = Some bs ↔ Forall (λ c, (c <? 0x100) = true) cs ∧ bval <$> bs = cs.
Proof.
  intros Hs. rewrite mapM_Some. unfold to_u8. revert bs.
  induction Hs as [|c cs Hc _ IH]; intros bs.
  - split; [intros H; inversion H; auto|]. intros [_ H]. apply fmap_nil_inv in H as ->. constructor.
  - apply orb_true_iff in Hc. rewrite !in_range_spec in Hc. split.
    + intros H. inversion H as [|? b ? bs' Hb Hbs]; subst. case_match; [|done].
      injection Hb as <-. bool_simpl. apply IH in Hbs as [H1 H2].
      split; [constructor; [by apply Z.ltb_lt; lia|done]|]. cbn. rewrite H2, bval_small by lia. done.
    + intros [Hr Hb]. apply fmap_cons_inv in Hb as (b & bs' & Hb & Hbs & ->).
      inversion Hr as [|?? Hcr Hrs]; subst. constructor; [|apply IH; split; [done|congruence]].
      pose proof (bval_range b). case_match; bool_simpl; [by rewrite byte_of_bval|lia].
Qed.

(** ASCII text is its own encoding. *)
Lemma ascii_bytes cs :
  Forall (λ c, scalar c = true) cs → Forall (λ c, (c <? 0x80) = true) cs →
  concat (char_bytes <$> cs) = byte_of <$> cs ∧ bval <$> (byte_of <$> cs) = cs.
Proof.
  intros Hs. induction Hs as [|c cs Hc _ IH]; [done|]. intros Hr.
  inversion Hr as [|?? Hcr Hrs]; subst. destruct (IH Hrs) as [IH1 IH2].
  apply Z.ltb_lt in Hcr. apply orb_true_iff in Hc. rewrite !in_range_spec in Hc.
  assert (char_bytes c = [byte_of c]) as E by (unfold char_bytes; by rewrite ltb_t by lia).
  rewrite !fmap_cons. cbn [concat]. rewrite E, IH1, IH2, bval_small by lia. done.
Qed.

Lemma not_over (z limit : Z) : (limit - 1 <? z) = negb (z <? limit).
Proof. destruct (limit - 1 <? z) eqn:?, (z <? limit) eqn:?; bool_simpl; lia || done. Qed.

Lemma ascii_decodes s :
  rust_string s → Forall (λ c, (c <? 0x80) = true) (chars s) →
  existsb (λ b, 0x7f <? bval b) (sbytes s) = false ∧ byte_chars (sbytes s) = s.
Proof.
  intros Hs Hr. destruct (ascii_bytes _ (chars_scalar s Hs) Hr) as [He Hb].
  assert (sbytes s = byte_of <$> chars s) as Hsb.
  { rewrite <- He. rewrite <- (of_chars_chars s Hs) at 1. apply sbytes_of. }
  split.
  - rewrite (existsb_not _ (λ b, bval b <? 0x80)) by (intros; apply (not_over (bval x) 0x80)).
    apply negb_false_iff, forallb_forall. intros b Hin%list_elem_of_In.
    rewrite Forall_forall in Hr. apply Hr. rewrite <- Hb, <- Hsb. by apply list_elem_of_fmap_2.
  - unfold byte_chars. rewrite Hsb, Hb. by apply of_chars_chars.
Qed.

Lemma latin1_decodes s :
  rust_string s → Forall (λ c, (c <? 0x100) = true) (chars s) →
  ∃ bytes, mapM to_u8 (chars s) = Some bytes ∧ byte_chars bytes = s.
Proof.
  intros Hs Hr. pose proof (chars_scalar s Hs) as Hc. exists (byte_of <$> chars s).
  assert (bval <$> (byte_of <$> chars s) = chars s) as Hb.
  { rewrite <- list_fmap_compose. rewrite <- (list_fmap_id (chars s)) at 2. apply list_fmap_ext.
    intros i c Hi. rewrite Forall_lookup in Hr, Hc. specialize (Hr _ _ Hi). specialize (Hc _ _ Hi).
    apply Z.ltb_lt in Hr. apply orb_true_iff in Hc. rewrite !in_range_spec in Hc.
    cbn. apply bval_small. lia. }
  rewrite (proj2 (mapM_to_u8 _ _ Hc) (conj Hr Hb)). split; [done|].
  unfold byte_chars. rewrite Hb. by apply of_chars_chars.
Qed.

(** Encoding succeeds exactly on the repertoire, and the target bytes read back
    as the same string. *)
Lemma encode_spec charset s rep :
  rust_string s → repertoire charset = Some rep →
  if decide (Forall (λ c, rep c = true) (chars s)) then
    ∃ bytes, encode_supported_text charset s = Ok bytes
      ∧ decode_supported_text charset bytes (Some s) = Ok s
  else encode_supported_text charset s
       = Err "target_capability.text_character_unrepresentable"%string.
Proof.
  intros Hs Hrep. pose proof (chars_scalar s Hs) as Hc.
  unfold repertoire in Hrep. unfold encode_supported_text, decode_supported_text, utf8_family.
  assert (from_utf8 (sbytes s) = Some s) as Hu by (apply from_utf8_some; by rewrite of_sbytes).
  set (n := to_lower charset) in *.
  destruct (decide (n ∈ ["utf8"; "utf-8"]%string)) as [H1|H1].
  { rewrite bool_decide_eq_true_2 in Hrep |- * by done. injection Hrep as <-.
    rewrite (existsb_not _ _ _ len_utf8_le). case_decide as Hr.
    - rewrite (proj2 (forallb_scalar _ _) Hr). exists (sbytes s). cbn [negb].
      rewrite bool_decide_eq_true_2 by (rewrite !elem_of_cons in *; tauto). rewrite Hu.
      cbn. by rewrite bool_decide_eq_true_2.
    - destruct (forallb _ _) eqn:E; [|done]. exfalso. by apply Hr, forallb_scalar. }
  rewrite (bool_decide_eq_false_2 (n ∈ ["utf8"; "utf-8"]%string)) in Hrep |- * by done.
  destruct (decide (n = "utf8mb4"%string)) as [H2|H2].
  { rewrite (bool_decide_eq_true_2 (n = _)) in Hrep |- * by done. injection Hrep as <-.
    rewrite decide_True by (by apply Forall_true). exists (sbytes s). split; [done|].
    rewrite bool_decide_eq_true_2 by (rewrite H2, !elem_of_cons; tauto). rewrite Hu.
    cbn. by rewrite bool_decide_eq_true_2. }
  rewrite (bool_decide_eq_false_2 (n = "utf8mb4"%string)) in Hrep |- * by done.
  assert (bool_decide (n ∈ ["utf8"; "utf8mb4"; "utf-8"]%string) = false) as ->.
  { apply bool_decide_eq_false. rewrite !elem_of_cons in *. tauto. }
  destruct (decide (n = "ascii"%string)) as [H3|H3].
  { rewrite (bool_decide_eq_true_2 (n = _)) in Hrep |- * by done. injection Hrep as <-.
    rewrite (existsb_not _ (λ c, c <? 0x80)) by (intros; apply (not_over _ 0x80)).
    case_decide as Hr.
    - rewrite (proj2 (forallb_scalar _ _) Hr). exists (sbytes s). split; [done|].
      destruct (ascii_decodes s Hs Hr) as [-> Hb]. cbn. by rewrite Hb.
    - destruct (forallb _ _) eqn:E; [|done]. exfalso. by apply Hr, forallb_scalar. }
  rewrite (bool_decide_eq_false_2 (n = "ascii"%string)) in Hrep |- * by done.
  destruct (latin1_family n) eqn:H4; [|done]. injection Hrep as <-. case_decide as Hr.
  - destruct (latin1_decodes s Hs Hr) as (bytes & -> & Hb). exists bytes. split; [done|]. cbn. by rewrite Hb.
  - destruct (mapM to_u8 (chars s)) eqn:E; [|done]. by apply mapM_to_u8 in E as [? _].
Qed.

(** A complete text plan: a charset with its repertoire, a length limit in bytes
    or characters, and the strict policies. *)
Record text_plan (plan : ColumnConversionPlan) (tc : string) (rep : Z → bool)
    (limit : option Z) (in_chars : bool) : Prop := {
  tp_charset : target_parameter plan "target_charset" = Some tc;
  tp_named : sempty tc = false;
  tp_repertoire : repertoire tc = Some rep;
  tp_length : ∃ text, target_parameter plan "target_length" = Some text
    ∧ match limit with
      | None => eq_ignore_case text "unbounded" = true
      | Some l => eq_ignore_case text "unbounded" = false ∧ parse_usize text = Some l
      end;
  tp_unit : target_parameter plan "target_length_unit"
            = Some (if in_chars then "characters" else "bytes")%string;
  tp_policy : text_policy plan = true
}.

(** The size of a text in the unit of the target column. *)
Definition text_size (in_chars : bool) (bytes : list byte) (s : string) : Z :=
  if in_chars then Z.of_nat (length (chars s)) else Z.of_nat (length bytes).

Section theorems.
Context `{B64 : Base64} {BL : Base64Laws B64}.

(** Text is never truncated and no character is lost or replaced: under a
    complete plan, a text that decodes to [s] passes the check exactly when the
    target charset has every character of [s] and the target column has room for
    it; its conversion then writes bytes that read back, in the target charset,
    as [s]; and a text with a character outside the repertoire is refused by the
    check and by the conversion alike. *)
Theorem text_plan_decides plan tc rep limit in_chars charset bytes declared s :
  text_plan plan tc rep limit in_chars →
  decode_supported_text charset bytes declared = Ok s →
  let v := VText charset (b64_encode bytes) declared in
  let unrepresentable :=
    plan_failure plan "target_capability.text_character_unrepresentable" in
  if decide (Forall (λ c, rep c = true) (chars s)) then
    ∃ encoded, convert_text_value plan v = Ok (VText tc (b64_encode encoded) (Some s))
      ∧ decode_supported_text tc encoded (Some s) = Ok s
      ∧ validate_text_plan_value plan v
        = match limit with
          | Some l => if l <? text_size in_chars encoded s
                      then reject plan "text_length_overflow" else Ok ()
          | None => Ok ()
          end
  else validate_text_plan_value plan v = Err unrepresentable
       ∧ convert_text_value plan v = Err unrepresentable.
Proof.
  intros [Hc Hn Hrep (lt & Hl & Hlim) Hu Hp] Hd. cbn zeta.
  pose proof (encode_spec tc s rep (decoded_rust _ _ _ _ Hd) Hrep) as He.
  unfold validate_text_plan_value, convert_text_value, required_text_parameter, required, coded.
  rewrite b64_roundtrip, Hc, Hn. cbn [ok_or mbind result_bind]. rewrite Hd.
  cbn [map_err mbind result_bind]. case_decide.
  - destruct He as (encoded & He & Hback). exists encoded. rewrite He. split_and!; [done|done|].
    rewrite Hl, Hu, Hp. cbn [map_err ok_or mbind result_bind].
    destruct limit as [l|]; [destruct Hlim as [-> ->]|rewrite Hlim];
      destruct in_chars; unfold text_size; cbn; done.
  - rewrite He. done.
Qed.
End theorems.

(** MySQL's three-byte [utf8] and PostgreSQL's [UTF8] are the same name to the
    codec, so a target of the latter is refused every character of four bytes
    although it stores them. *)
Theorem utf8_target_rejects_astral :
  encode_supported_text "UTF8" (of_chars [0x1F600])
  = Err "target_capability.text_character_unrepresentable"%string
  ∧ is_ok (encode_supported_text "utf8mb4" (of_chars [0x1F600])) = true.
Proof. split; vm_compute; reflexivity. Qed.
End Spec.

(** A [latin1] column written to a [VARCHAR(4)] of [utf8mb4]. *)
Module Example7.
Definition text_plan7 : ColumnConversionPlan :=
  Example4.plan_with
    [("target_charset", "utf8mb4"); ("target_length", "4"); ("target_length_unit", "characters")]%string
    [("encoding_policy", "strict"); ("length_policy", "reject"); ("collation_policy", "target")]%string.
(** "café" *)
Definition cafe7 : list byte := ["099"; "097"; "102"; "233"]%char.
End Example7.

Lemma text_plan_decides_witness :
  ∃ encoded,
    convert_text_value (B64 := Rfc4648.base64) Example7.text_plan7
      (VText "latin1" (b64_encode (Base64 := Rfc4648.base64) Example7.cafe7) None)
    = Ok (VText "utf8mb4" (b64_encode (Base64 := Rfc4648.base64) encoded)
            (Some (of_chars [99; 97; 102; 233])))
    ∧ decode_supported_text "utf8mb4" encoded (Some (of_chars [99; 97; 102; 233]))
      = Ok (of_chars [99; 97; 102; 233])
    ∧ validate_text_plan_value (B64 := Rfc4648.base64) Example7.text_plan7
        (VText "latin1" (b64_encode (Base64 := Rfc4648.base64) Example7.cafe7) None)
      = if 4 <? 4 then reject Example7.text_plan7 "text_length_overflow" else Ok ().
Proof.
  pose proof (Spec.text_plan_decides (B64 := Rfc4648.base64) (BL := Rfc4648.base64_laws)
    Example7.text_plan7 "utf8mb4" (λ _, true) (Some 4) true "latin1" Example7.cafe7 None
    (of_chars [99; 97; 102; 233])) as H.
  rewrite decide_True in H by (repeat constructor).
  apply H; [|vm_compute; reflexivity].
  constructor; try reflexivity. exists "4"%string. split; [reflexivity|]. split; reflexivity.
Defined.
