(* ===== verification/LogicalTypes.v ===== *)
(** * Logical types ([crates/change_event/src/compatibility.rs])

    [LogicalType] is the semantic family of a source or target field;
    [validate] checks a declaration and [matches_value] decides whether a
    captured value belongs to it.  The theorems give [matches_value] a
    declarative meaning: a relation [inhabits] by recursion on the type, in
    which a decimal belongs to [Decimal(p, s)] exactly when it is a number of
    that precision and scale. *)
From S2P Require Import Prelude Text Utf8 Codec Model Validate Plan.

Inductive LengthUnit := LuBytes | LuCharacters.
Inductive DuplicateKeyPolicy := DkReject | DkPreserveLast.
Record JsonProfile := mkJsonProfile { jp_normalized : bool; jp_duplicate_keys : DuplicateKeyPolicy }.

Record LogicalField_ (T : Type) := mkLogicalField {
  lf_name : string; lf_logical_type : T; lf_nullable : bool
}.
Arguments mkLogicalField {T}. Arguments lf_name {T}. Arguments lf_logical_type {T}.
Arguments lf_nullable {T}.

Inductive LogicalType :=
| TBoolean
| TUuid
| TInteger (signed : bool) (bits : Z)
| TDecimal (precision scale : Z)
| TDecimalUnbounded
| TFloat (bits : Z)
| TText (charset : string) (max_length : option Z) (length_unit : LengthUnit)
    (collation : option string)
| TBinary (max_length : option Z)
| TBitString (length : Z)
| TVariableBitString (max_length : option Z)
| TDate
| TLocalTime (fractional_precision : Z)
| TOffsetTime (fractional_precision : Z)
| TLocalDatetime (fractional_precision : Z)
| TInstant (fractional_precision : Z)
| TDuration (fractional_precision : Z)
| TCalendarInterval (fractional_precision : Z)
| TYear
| TJson (profile : JsonProfile)
| TEnum (members : list string)
| TSet (members : list string)
| TSpatial (subtype : string) (srid : option Z) (dimensions : Z)
| TInvalidTemporal (kind : string)
| TNetwork (address_family : string) (cidr : bool)
| TXml
| TArray (element : LogicalType)
| TArrayWithMetadata (element : LogicalType) (dimensions : Z) (lower_bounds : list Z)
| TStruct (fields : list (LogicalField_ LogicalType))
| TMap (key value : LogicalType)
| TRange (element : LogicalType)
| TMultiRange (element : LogicalType)
| TDomain (name : string) (base : LogicalType) (constraints : list string) (not_null : bool)
    (collation : option string) (definition_digest : string)
| TOpaque (source_type format : string)
| TRaw (codec_identity native_type source_definition_digest encoding : string).
Notation LogicalField := (LogicalField_ LogicalType).

(** ** Induction over nested types *)
Section type_ind.
Context (P : LogicalType → Prop).
(** A type without nested types. *)
Definition flat_type (t : LogicalType) : bool :=
  match t with
  | TArray _ | TArrayWithMetadata _ _ _ | TStruct _ | TMap _ _ | TRange _ | TMultiRange _
  | TDomain _ _ _ _ _ _ => false
  | _ => true
  end.
Hypothesis HFlat : ∀ t, flat_type t = true → P t.
Hypothesis HArray : ∀ e, P e → P (TArray e).
Hypothesis HShaped : ∀ e d b, P e → P (TArrayWithMetadata e d b).
Hypothesis HStruct : ∀ fs, Forall (λ f, P (lf_logical_type f)) fs → P (TStruct fs).
Hypothesis HMap : ∀ k v, P k → P v → P (TMap k v).
Hypothesis HRange : ∀ e, P e → P (TRange e).
Hypothesis HMultiRange : ∀ e, P e → P (TMultiRange e).
Hypothesis HDomain : ∀ n t cs nn c d, P t → P (TDomain n t cs nn c d).

Fixpoint LogicalType_nested_ind (t : LogicalType) : P t.
Proof.
  destruct t; try (apply HFlat; exact eq_refl).
  - apply HArray, LogicalType_nested_ind.
  - apply HShaped, LogicalType_nested_ind.
  - apply HStruct. revert fields. fix go 1. intros [|f l]; constructor;
      [apply LogicalType_nested_ind|apply go].
  - apply HMap; apply LogicalType_nested_ind.
  - apply HRange, LogicalType_nested_ind.
  - apply HMultiRange, LogicalType_nested_ind.
  - apply HDomain, LogicalType_nested_ind.
Defined.
End type_ind.

(** ** Well-formed declarations *)
Definition LogicalTypeValidationError : Type := string.

Fixpoint validate (t : LogicalType) : result LogicalTypeValidationError () :=
  match t with
  | TInteger _ bits =>
      if integer_width bits then Ok () else Err "integer width is invalid"%string
  | TDecimal precision scale =>
      if (precision =? 0) || negb (decimal_scale_ok scale)
      then Err "decimal precision or scale is invalid"%string else Ok ()
  | TLocalTime p | TOffsetTime p | TLocalDatetime p | TInstant p | TDuration p
  | TCalendarInterval p =>
      if 6 <? p then Err "temporal fractional precision is invalid"%string else Ok ()
  | TFloat bits =>
      if (bits =? 32) || (bits =? 64) then Ok () else Err "floating point width is invalid"%string
  | TText charset _ _ collation =>
      if blank_or_nul charset then Err "text charset is invalid"%string
      else if match collation with Some c => blank c | None => false end
      then Err "text collation is invalid"%string else Ok ()
  | TBitString length =>
      if length =? 0 then Err "bit string length must be positive"%string else Ok ()
  | TVariableBitString (Some max_length) =>
      if max_length =? 0
      then Err "variable bit string maximum length must be positive"%string else Ok ()
  | TSpatial subtype srid dimensions =>
      let open_spatial_shape :=
        bool_decide (subtype = "*"%string) && Validate.is_none srid && (dimensions =? 0) in
      if blank subtype || negb (in_range 2 4 dimensions) && negb open_spatial_shape
      then Err "spatial declaration is invalid"%string else Ok ()
  | TInvalidTemporal kind =>
      if blank kind then Err "invalid temporal kind is empty"%string else Ok ()
  | TNetwork address_family _ =>
      if blank address_family then Err "network family is empty"%string else Ok ()
  | TArrayWithMetadata element dimensions lower_bounds =>
      if (dimensions =? 0) || negb (dimensions =? Z.of_nat (length lower_bounds))
      then Err "array dimensions and lower bounds do not agree"%string
      else validate element
  | TStruct fields =>
      (fix go (names : list string) (fields : list LogicalField) :=
         match fields with
         | [] => Ok ()
         | f :: fields' =>
             if blank (lf_name f) || bool_decide (lf_name f ∈ names)
             then Err "structured field names must be unique and non-empty"%string
             else validate (lf_logical_type f) ;? go (lf_name f :: names) fields'
         end) [] fields
  | TArray element | TRange element | TMultiRange element => validate element
  | TMap key value => validate key ;? validate value
  | TDomain name base _ _ _ definition_digest =>
      if blank name || blank definition_digest
      then Err "domain identity or definition digest is empty"%string else validate base
  | TRaw codec_identity native_type source_definition_digest encoding =>
      if existsb blank_or_nul [codec_identity; native_type; source_definition_digest; encoding]
      then Err "raw logical type lacks stable source evidence"%string else Ok ()
  | _ => Ok ()
  end.

Definition family_name (t : LogicalType) : string :=
  match t with
  | TBoolean => "boolean"
  | TUuid => "uuid"
  | TInteger _ _ => "integer"
  | TDecimal _ _ | TDecimalUnbounded => "decimal"
  | TFloat _ => "float"
  | TText _ _ _ _ => "text"
  | TBinary _ => "binary"
  | TBitString _ | TVariableBitString _ => "bit_string"
  | TDate => "date"
  | TLocalTime _ => "local_time"
  | TOffsetTime _ => "offset_time"
  | TLocalDatetime _ => "local_datetime"
  | TInstant _ => "instant"
  | TDuration _ => "duration"
  | TCalendarInterval _ => "calendar_interval"
  | TYear => "year"
  | TJson _ => "json"
  | TEnum _ => "enum"
  | TSet _ => "set"
  | TSpatial _ _ _ => "spatial"
  | TInvalidTemporal _ => "invalid_temporal"
  | TNetwork _ _ => "network"
  | TXml => "xml"
  | TArray _ | TArrayWithMetadata _ _ _ => "array"
  | TStruct _ => "struct"
  | TMap _ _ => "map"
  | TRange _ => "range"
  | TMultiRange _ => "multi_range"
  | TDomain _ _ _ _ _ _ => "domain"
  | TOpaque _ _ => "opaque"
  | TRaw _ _ _ _ => "raw"
  end.

(** ** Membership *)
Definition fractional_microseconds_match_signed (microseconds precision : Z) : bool :=
  (precision <=? 6) && (microseconds mod 10 ^ (6 - precision) =? 0).
Definition fractional_microseconds_match (microseconds precision : Z) : bool :=
  fractional_microseconds_match_signed microseconds precision.
Definition fractional_nanoseconds_match (nanoseconds precision : Z) : bool :=
  (precision <=? 6) && (nanoseconds mod 10 ^ (9 - precision) =? 0).

Definition raw_carrier_is_reversible (c : RawValueCarrier) : bool :=
  bool_decide (rvc_reversible c = Some true)
  && match rvc_source_context c with
     | Some context =>
         bool_decide (ctx_source_type_definition_digest context = rvc_source_definition_digest c)
     | None => false
     end.

(** [trim_end_matches('0')], and the zeros it strips. *)
Definition trim_end_zeros (l : list byte) : list byte := rev (significant (rev l)).
Definition trailing_zeros (l : list byte) : Z :=
  Z.of_nat (length l) - Z.of_nat (length (trim_end_zeros l)).

(** The [Decimal] arm. *)
Definition decimal_matches (precision scale : Z) (unscaled : string) (value_scale : Z) : bool :=
  let digits := sbytes (strip_minus unscaled) in
  if bool_decide (unscaled = "NaN"%string) then value_scale =? 0
  else if bool_decide (unscaled ∈ ["Infinity"; "-Infinity"]%string) then false
  else
    let scale_matches := (scale =? value_scale) || ((scale <? 0) && (value_scale =? 0)) in
    let coefficient := significant digits in
    let len := Z.of_nat (length coefficient) in
    let significant_digits :=
      if scale <? 0 then Z.max 1 (Z.of_nat (length (trim_end_zeros coefficient))) else Z.max 1 len in
    let integer_digits :=
      if len =? 0 then 0
      else if value_scale <? 0 then sat_add_u64 len (- value_scale)
      else Z.max 0 (len - value_scale) in
    let maximum_integer_digits := Z.max 0 (precision - scale) in
    let scale_aligned :=
      (0 <=? scale) || negb (value_scale =? 0) || (len =? 0)
      || (- scale <=? trailing_zeros digits) in
    scale_matches && negb (Validate.lempty digits)
    && (significant_digits <=? precision) && (integer_digits <=? maximum_integer_digits)
    && scale_aligned.

(** [max_length.is_none_or(|max| length <= max)] *)
Definition within (max_length : option Z) (length : Z) : bool :=
  match max_length with Some m => length <=? m | None => true end.

Definition is_null (v : LogicalValue) : bool :=
  match v with VNull => true | _ => false end.

Section matching.
Context `{B64 : Base64}.

Definition text_matches (charset : string) (max_length : option Z) (unit : LengthUnit)
    (value_charset bytes_base64url : string) (text : option string) : bool :=
  eq_ignore_case charset value_charset &&
  match max_length with
  | None => true
  | Some _ =>
      match text with
      | Some text =>
          within max_length
            (match unit with LuBytes => slen text | LuCharacters => Z.of_nat (length (chars text)) end)
      | None =>
          match b64_decode bytes_base64url with
          | Some bytes => within max_length (Z.of_nat (length bytes))
          | None => false
          end
      end
  end.

(** The arms without nested types. *)
Definition scalar_matches (t : LogicalType) (v : LogicalValue) : bool :=
  match t, v with
  | TBoolean, VBoolean _ | TUuid, VUuid _ | TDate, VDate _ _ _ | TYear, VYear _
  | TJson _, VJson _ => true
  | TDate, VInvalidTemporal kind _ => eq_ignore_case kind "mysql.date"
  | TLocalDatetime _, VInvalidTemporal kind _ => eq_ignore_case kind "mysql.datetime"
  | TInstant _, VInvalidTemporal kind _ => eq_ignore_case kind "mysql.timestamp"
  | TDecimalUnbounded, VDecimal _ _ => true
  | TInteger signed bits, VInteger value_signed value_bits _ =>
      Bool.eqb signed value_signed && (bits =? value_bits)
  | TDecimal precision scale, VDecimal unscaled value_scale =>
      decimal_matches precision scale unscaled value_scale
  | TLocalTime p, VLocalTime _ _ _ us | TOffsetTime p, VOffsetTime _ _ _ us _
  | TDuration p, VDuration _ _ _ _ us | TLocalDatetime p, VLocalDatetime _ _ _ _ _ _ us =>
      fractional_microseconds_match us p
  | TCalendarInterval p, VCalendarInterval _ _ us => fractional_microseconds_match_signed us p
  | TInstant p, VInstant _ ns => fractional_nanoseconds_match ns p
  | TFloat bits, VFloat value_bits _ => bits =? value_bits
  | TText charset max_length unit _, VText value_charset bytes text =>
      text_matches charset max_length unit value_charset bytes text
  | TBinary max_length, VBinary bytes =>
      match max_length with
      | None => true
      | Some _ =>
          match b64_decode bytes with
          | Some l => within max_length (Z.of_nat (length l))
          | None => false
          end
      end
  | TBitString length, VBitString _ bit_length _ _ => length =? bit_length
  | TVariableBitString max_length, VBitString _ bit_length _ _ => within max_length bit_length
  | TEnum members, VEnum label =>
      negb (Validate.lempty members) && bool_decide (label ∈ members)
  | TSet members, VSet values =>
      negb (Validate.lempty members) && forallb (λ value, bool_decide (value ∈ members)) values
      && bool_decide (NoDup values)
  | TDate, VTemporalInfinity kind _ => bool_decide (kind = TI_Date)
  | TLocalDatetime _, VTemporalInfinity TI_LocalDatetime _
  | TInstant _, VTemporalInfinity TI_Instant _
  | TCalendarInterval _, VTemporalInfinity TI_CalendarInterval _ => true
  | TSpatial subtype srid dimensions, VSpatial _ _ geometry_type value_dimensions value_srid _ =>
      (bool_decide (subtype = "*"%string) || eq_ignore_case subtype geometry_type)
      && (Validate.is_none srid || bool_decide (srid = value_srid))
      && ((dimensions =? 0) || (dimensions =? value_dimensions))
  | TInvalidTemporal kind, VInvalidTemporal value_kind _ => bool_decide (kind = value_kind)
  | TNetwork address_family cidr, VNetwork value_family _ prefix_length =>
      (eq_ignore_case address_family value_family
       || eq_ignore_case address_family "ip"
          && bool_decide (value_family ∈ ["ipv4"; "ipv6"]%string))
      && (if cidr then is_some prefix_length
          else eq_ignore_case address_family "ip" || Validate.is_none prefix_length)
  | TXml, VXml _ _ => true
  | TRaw codec_identity native_type source_definition_digest encoding, VRaw c =>
      bool_decide (codec_identity = rvc_codec_identity c)
      && bool_decide (native_type = rvc_native_type c)
      && bool_decide (source_definition_digest = rvc_source_definition_digest c)
      && bool_decide (encoding = rvc_encoding c) && raw_carrier_is_reversible c
  | TOpaque source_type format, VRaw c =>
      bool_decide (source_type = rvc_native_type c) && bool_decide (format = rvc_encoding c)
      && raw_carrier_is_reversible c
  | _, _ => false
  end.

Fixpoint matches_value (t : LogicalType) (v : LogicalValue) : bool :=
  match t, v with
  | TArray element, VArray elements | TArray element, VArrayWithMetadata elements _ _ _ =>
      forallb (λ value, is_null value || matches_value element value) elements
  | TArrayWithMetadata element dimensions lower_bounds,
    VArrayWithMetadata elements value_dimensions value_lower_bounds _ =>
      (dimensions =? value_dimensions) && bool_decide (lower_bounds = value_lower_bounds)
      && forallb (λ value, is_null value || matches_value element value) elements
  | TStruct fields, VStruct values =>
      bool_decide (length fields = length values)
      && (fix go (fields : list LogicalField) (values : list StructuredField) :=
            match fields, values with
            | field :: fields', value :: values' =>
                bool_decide (lf_name field = sf_name value)
                && (is_null (sf_value value) && lf_nullable field
                    || matches_value (lf_logical_type field) (sf_value value))
                && go fields' values'
            | _, _ => true
            end) fields values
  | TMap key value, VMap entries =>
      forallb (λ entry, matches_value key (me_key entry)
                        && (is_null (me_value entry) || matches_value value (me_value entry))) entries
  | TRange element, VRange _ lower upper _ _ =>
      forallb (matches_value element) (option_list lower ++ option_list upper)
  | TMultiRange element, VMultiRange ranges =>
      forallb (λ range, match range with
                        | VRange _ lower upper _ _ =>
                            forallb (matches_value element) (option_list lower ++ option_list upper)
                        | _ => false
                        end) ranges
  | TDomain _ base _ _ _ _, VDomain value => matches_value base value
  | TDomain _ base _ _ _ _, value => matches_value base value
  | t, v => scalar_matches t v
  end.
End matching.

(** ** What membership means *)
Module Spec.
Import Validate.Spec Plan.Spec.

(** [us] is a whole number of units of [10^-p] seconds. *)
Definition whole_units (p scale us : Z) : Prop := p ≤ 6 ∧ ∃ k, us = k * 10 ^ (scale - p).

(** A number of [p] digits at scale [s]; negative scales also take the plain
    integer spelling of the same number. *)
Definition decimal_in (p s : Z) (unscaled : string) (vs : Z) : Prop :=
  (vs = s ∨ (s < 0 ∧ vs = 0))
  ∧ ∃ m, rescaled (digits_value (strip_minus unscaled)) vs m s ∧ m < 10 ^ p.

Lemma units_spec (p scale us : Z) :
  6 ≤ scale → (p <=? 6) && (us mod 10 ^ (scale - p) =? 0) = true ↔ whole_units p scale us.
Proof.
  intros Hs. unfold whole_units. rewrite andb_true_iff, Z.leb_le, Z.eqb_eq.
  split; intros [Hp H]; (split; [done|]);
    assert (0 < 10 ^ (scale - p)) by (apply Z.pow_pos_nonneg; lia);
    by rewrite Z.mod_divide in * by lia.
Qed.

(** *** Decimals *)
Lemma significant_split l : ∃ n, l = replicate n ZERO ++ significant l.
Proof.
  induction l as [|c l [n IH]]; [by exists 0%nat|]. cbn [significant].
  case_bool_decide as E; [|by exists 0%nat]. exists (S n). cbn. by rewrite E, <- IH.
Qed.

Lemma significant_head l : significant l = [] ∨ ∃ c r, significant l = c :: r ∧ c ≠ ZERO.
Proof.
  induction l as [|c l IH]; [by left|]. cbn [significant]. case_bool_decide; [done|].
  right. by exists c, l.
Qed.

Lemma trim_split l :
  l = trim_end_zeros l ++ replicate (Z.to_nat (trailing_zeros l)) ZERO
  ∧ 0 ≤ trailing_zeros l
  ∧ (trim_end_zeros l = [] ∨ ∃ r c, trim_end_zeros l = r ++ [c] ∧ c ≠ ZERO).
Proof.
  unfold trailing_zeros, trim_end_zeros. destruct (significant_split (rev l)) as [n Hn].
  assert (l = rev (significant (rev l)) ++ replicate n ZERO) as Hl.
  { rewrite <- (rev_involutive l) at 1. rewrite Hn at 1. rewrite rev_app_distr. f_equal.
    clear. induction n as [|n IH]; [done|]. cbn [replicate rev]. by rewrite IH, <- replicate_cons_app. }
  assert (length l = length (rev (significant (rev l))) + n)%nat as Hlen.
  { rewrite Hl at 1. by rewrite length_app, length_replicate. }
  replace (Z.to_nat _) with n by lia. split_and!; [done|lia|].
  destruct (significant_head (rev l)) as [->|(c & r & -> & Hc)]; [by left|].
  right. exists (rev r), c. done.
Qed.

Lemma trailing_divides l k :
  all_digits l → value_of l ≠ 0 → 0 ≤ k →
  (k ≤ trailing_zeros l ↔ value_of l mod 10 ^ k = 0).
Proof.
  intros Hl Hnz Hk. destruct (trim_split l) as (Hs & Hn & Ht).
  set (n := trailing_zeros l) in *.
  assert (value_of l = value_of (trim_end_zeros l) * 10 ^ n) as Hv.
  { rewrite Hs at 1. rewrite value_app, length_replicate, Z2Nat.id by done.
    rewrite <- (app_nil_r (replicate _ _)), value_zeros. cbn. lia. }
  destruct Ht as [Ht|(r & c & Ht & Hc)]; [rewrite Ht in Hv; cbn in Hv; lia|].
  assert (0 < 10 ^ k ∧ 0 < 10 ^ n) as [? ?] by (split; apply Z.pow_pos_nonneg; lia).
  rewrite Z.mod_divide by lia. split.
  - intros Hle. rewrite Hv. apply Z.divide_mul_r. exists (10 ^ (n - k)).
    rewrite <- Z.pow_add_r by lia. f_equal. lia.
  - intros Hd. destruct (Z.le_gt_cases k n) as [|Hgt]; [done|]. exfalso.
    rewrite Hv, Ht, value_app in Hd. cbn [length] in Hd.
    assert (all_digits [c]) as Hcd.
    { rewrite Hs, Ht in Hl. by apply digits_app in Hl as [[_ ?]%digits_app _]. }
    pose proof (Forall_inv Hcd) as Hdig. pose proof (digit_range c Hdig).
    assert (bval c ≠ 48) by (intros E; by apply Hc, zero_digit).
    replace (10 ^ k) with (10 ^ (k - n) * 10 ^ n) in Hd by (rewrite <- Z.pow_add_r by lia; f_equal; lia).
    apply Z.mul_divide_cancel_r in Hd; [|lia].
    assert ((10 | 10 ^ (k - n))) as H10.
    { exists (10 ^ (k - n - 1)). rewrite Z.mul_comm, <- Z.pow_succ_r by lia. f_equal. lia. }
    pose proof (Z.divide_trans _ _ _ H10 Hd) as [q Hq]. assert (value_of [c] = bval c - 48) by (unfold value_of; cbn [foldl]; lia).
    change (10 ^ Z.of_nat 1) with 10 in Hq. lia.
Qed.

Lemma trim_length l : Z.of_nat (length (trim_end_zeros l)) = Z.of_nat (length l) - trailing_zeros l.
Proof. unfold trailing_zeros. lia. Qed.

(** The length of the coefficient without its trailing zeros. *)
Lemma trimmed_fits l k p :
  all_digits l → value_of l ≠ 0 → 0 ≤ k → value_of l mod 10 ^ k = 0 →
  Z.of_nat (length (significant l)) ≤ p + k →
  Z.of_nat (length (trim_end_zeros (significant l))) ≤ p.
Proof.
  intros Hl Hnz Hk Hd Hp.
  assert (all_digits (significant l)) as Hs.
  { destruct (significant_split l) as [n Hn]. rewrite Hn in Hl. by apply digits_app in Hl as [_ ?]. }
  rewrite <- (significant_value l) in Hnz, Hd.
  apply trailing_divides in Hd; try done. rewrite trim_length. lia.
Qed.

Lemma significant_zero l : all_digits l → (significant l = [] ↔ value_of l = 0).
Proof.
  intros Hl. pose proof (significant_length l 0 Hl) as H. pose proof (value_bounds l Hl).
  rewrite Z.pow_0_r in H. destruct (significant l); cbn in H; split; intros; try done; try lia.
Qed.

(** Without the saturation: the machine widths leave room. *)
Lemma saturated a b k : 0 ≤ k < u64_max → (sat_add_u64 a b <=? k) = (a + b <=? k).
Proof.
  intros Hk. unfold sat_add_u64. apply eq_bool_prop_intro.
  rewrite !Is_true_true, !Z.leb_le. lia.
Qed.

Lemma digits_not_special unscaled :
  is_digits (strip_minus unscaled) →
  unscaled ≠ "NaN"%string ∧ unscaled ∉ ["Infinity"; "-Infinity"]%string.
Proof.
  intros [_ H]. split; [intros ->|rewrite !elem_of_cons, elem_of_nil; intros [->|[->|[]]]].
  - by specialize (H "N"%char ltac:(left)).
  - by specialize (H "I"%char ltac:(left)).
  - by specialize (H "I"%char ltac:(left)).
Qed.

(** The test on the coefficient, once the scales agree. *)
Definition coefficient_matches (precision scale value_scale : Z) (digits : list byte) : bool :=
  let coefficient := significant digits in
  let len := Z.of_nat (length coefficient) in
  ((if scale <? 0 then Z.max 1 (Z.of_nat (length (trim_end_zeros coefficient))) else Z.max 1 len)
     <=? precision)
  && ((if len =? 0 then 0
       else if value_scale <? 0 then sat_add_u64 len (- value_scale) else Z.max 0 (len - value_scale))
      <=? Z.max 0 (precision - scale))
  && ((0 <=? scale) || negb (value_scale =? 0) || (len =? 0) || (- scale <=? trailing_zeros digits)).

Lemma coefficient_spec p s vs l :
  0 < p ≤ 65535 → -1000 ≤ s ≤ 1000 → all_digits l → vs = s ∨ (s < 0 ∧ vs = 0) →
  coefficient_matches p s vs l = true ↔ ∃ m, rescaled (value_of l) vs m s ∧ m < 10 ^ p.
Proof.
  intros Hp Hs Hl Hvs. pose proof (value_bounds l Hl) as [Hv0 _].
  pose proof (significant_length l p Hl ltac:(lia)) as Hlen.
  pose proof (significant_zero l Hl) as Hz.
  unfold coefficient_matches, rescaled. cbn zeta.
  set (len := Z.of_nat (length (significant l))) in *.
  assert (len = 0 ↔ value_of l = 0) as Hz' by (rewrite <- Hz; unfold len; destruct (significant l); cbn; split; done || lia).
  rewrite !andb_true_iff, !Z.leb_le. destruct (Z.le_gt_cases 0 s) as [Hs0|Hs0].
  - (* an exact scale *)
    assert (vs = s) as -> by lia. rewrite (ltb_f s 0), (leb_t 0 s), Z.sub_diag by lia.
    rewrite Z.max_id, Z.pow_0_r, !Z.mul_1_r.
    trans (len ≤ p).
    + destruct (len =? 0) eqn:E; bool_simpl; cbn; intuition lia.
    + rewrite Hlen. split; [intros; eexists; rewrite Z.mul_1_r; eauto|intros (m & Hm & ?); lia].
  - destruct (decide (value_of l = 0)) as [Hc|Hc].
    { (* zero *)
      rewrite Hc. assert (significant l = []) as Hsig by (by apply Hz).
      assert (len = 0) as -> by (by apply Hz'). rewrite Hsig. rewrite (ltb_t s 0) by lia. cbn.
      split; [intros _; exists 0; split; [lia|by apply Z.pow_pos_nonneg; lia]|].
      intros _. split; [lia|]. by rewrite orb_true_r. }
    assert (0 < len) as Hlen0 by (destruct (Z.eq_dec len 0); [tauto|unfold len in *; lia]).
    rewrite (ltb_t s 0), (leb_f 0 s), (proj2 (Z.eqb_neq len 0)) by lia.
    pose proof (trim_split (significant l)) as (_ & Htz & _).
    rewrite trim_length. fold len.
    destruct Hvs as [->|[_ ->]].
    + (* the planned scale *)
      rewrite (ltb_t s 0), (proj2 (Z.eqb_neq s 0)), Z.sub_diag by lia. cbn [negb orb].
      rewrite Z.max_id, Z.pow_0_r, !Z.mul_1_r. unfold sat_add_u64, u64_max.
      trans (len ≤ p); [intuition lia|]. rewrite Hlen.
      split; [intros; eexists; rewrite Z.mul_1_r; eauto|intros (m & Hm & ?); lia].
    + (* the integer spelling *)
      rewrite Z.ltb_irrefl, (Z.max_l 0 (s - 0)), Z.pow_0_r, Z.mul_1_r, (Z.max_r 0 (0 - s)) by lia.
      replace (0 - s) with (- s) by lia. cbn [negb Z.eqb orb]. rewrite Z.leb_le.
      rewrite (trailing_divides l (- s) Hl Hc) by lia.
      pose proof (significant_length l (p - s) Hl ltac:(lia)) as Hlen'. fold len in Hlen'.
      replace (10 ^ (p - s)) with (10 ^ p * 10 ^ (- s)) in Hlen' by (rewrite <- Z.pow_add_r by lia; f_equal; lia).
      assert (0 < 10 ^ (- s)) by (apply Z.pow_pos_nonneg; lia). split.
      * intros [[_ Hb] Hd]. exists (value_of l / 10 ^ (- s)). apply Z.mod_divide in Hd; [|lia].
        destruct Hd as [q Hq]. rewrite Hq, Z.div_mul by lia. split; [done|].
        assert (value_of l < 10 ^ p * 10 ^ (- s)) by (apply Hlen'; lia). nia.
      * intros (m & Hm & Hmp). assert (value_of l mod 10 ^ (- s) = 0) as Hd.
        { rewrite Hm. by apply Z.mod_mul; lia. }
        assert (len ≤ p - s) as Hb by (apply Hlen'; nia).
        pose proof (trimmed_fits l (- s) p Hl Hc ltac:(lia) Hd) as Ht.
        rewrite trim_length in Ht. fold len in Ht. split_and!; try lia.
Qed.

Lemma decimal_matches_spec p s unscaled vs :
  0 < p ≤ 65535 → -1000 ≤ s ≤ 1000 → is_digits (strip_minus unscaled) →
  decimal_matches p s unscaled vs = true ↔ decimal_in p s unscaled vs.
Proof.
  intros Hp Hs Hd. pose proof (digits_all _ Hd) as Hl.
  destruct (digits_not_special _ Hd) as [H1 H2].
  unfold decimal_matches, decimal_in. rewrite !bool_decide_eq_false_2 by done.
  assert (Validate.lempty (sbytes (strip_minus unscaled)) = false) as ->.
  { destruct Hd as [Hne _]. by destruct (strip_minus unscaled). }
  pose proof (coefficient_spec p s vs (sbytes (strip_minus unscaled)) Hp Hs Hl) as Hc.
  unfold coefficient_matches in Hc. cbn zeta in *. rewrite !andb_true_iff in *.
  change (digits_value (strip_minus unscaled)) with (value_of (sbytes (strip_minus unscaled))).
  rewrite orb_true_iff, andb_true_iff, !Z.eqb_eq, Z.ltb_lt. cbn [negb].
  destruct (decide (vs = s ∨ (s < 0 ∧ vs = 0))) as [Hv|Hv]; [|intuition congruence].
  rewrite <- (Hc Hv). clear Hc. assert (s = vs ∨ s < 0 ∧ vs = 0) by (destruct Hv as [->|]; tauto).
  tauto.
Qed.

(** *** Every type *)
Section inhabits.
Context `{B64 : Base64, SHA : Sha256}.

Definition text_length (unit : LengthUnit) (bytes : string) (text : option string) : option Z :=
  match text with
  | Some text =>
      Some (match unit with LuBytes => slen text | LuCharacters => Z.of_nat (length (chars text)) end)
  | None => (λ l, Z.of_nat (length l)) <$> b64_decode bytes
  end.

Definition scalar_inhabits (t : LogicalType) (v : LogicalValue) : Prop :=
  match t, v with
  | TBoolean, VBoolean _ | TUuid, VUuid _ | TDate, VDate _ _ _ | TYear, VYear _
  | TJson _, VJson _ | TXml, VXml _ _ | TDecimalUnbounded, VDecimal _ _ => True
  | TDate, VInvalidTemporal kind _ => to_lower kind = "mysql.date"%string
  | TLocalDatetime _, VInvalidTemporal kind _ => to_lower kind = "mysql.datetime"%string
  | TInstant _, VInvalidTemporal kind _ => to_lower kind = "mysql.timestamp"%string
  | TInteger signed bits, VInteger signed' bits' _ => signed = signed' ∧ bits = bits'
  | TDecimal p s, VDecimal unscaled vs =>
      unscaled = "NaN"%string ∨ (is_digits (strip_minus unscaled) ∧ decimal_in p s unscaled vs)
  | TLocalTime p, VLocalTime _ _ _ us | TOffsetTime p, VOffsetTime _ _ _ us _
  | TDuration p, VDuration _ _ _ _ us | TLocalDatetime p, VLocalDatetime _ _ _ _ _ _ us
  | TCalendarInterval p, VCalendarInterval _ _ us => whole_units p 6 us
  | TInstant p, VInstant _ ns => whole_units p 9 ns
  | TFloat bits, VFloat bits' _ => bits = bits'
  | TText charset max unit _, VText charset' bytes text =>
      to_lower charset = to_lower charset'
      ∧ ∀ m, max = Some m → ∃ n, text_length unit bytes text = Some n ∧ n ≤ m
  | TBinary max, VBinary bytes =>
      ∀ m, max = Some m → ∃ l, b64_decode bytes = Some l ∧ Z.of_nat (length l) ≤ m
  | TBitString n, VBitString _ bits _ _ => bits = n
  | TVariableBitString max, VBitString _ bits _ _ => ∀ m, max = Some m → bits ≤ m
  | TEnum members, VEnum label => label ∈ members
  | TSet members, VSet values => members ≠ [] ∧ values ⊆ members
  | TDate, VTemporalInfinity TI_Date _
  | TLocalDatetime _, VTemporalInfinity TI_LocalDatetime _
  | TInstant _, VTemporalInfinity TI_Instant _
  | TCalendarInterval _, VTemporalInfinity TI_CalendarInterval _ => True
  | TSpatial subtype srid dims, VSpatial _ _ geometry dims' srid' _ =>
      (subtype = "*"%string ∨ to_lower subtype = to_lower geometry)
      ∧ (srid = None ∨ srid = srid') ∧ (dims = 0 ∨ dims = dims')
  | TInvalidTemporal kind, VInvalidTemporal kind' _ => kind = kind'
  | TNetwork family cidr, VNetwork family' _ prefix =>
      let ip := to_lower family = "ip"%string in
      (to_lower family = to_lower family' ∨ ip ∧ family' ∈ ["ipv4"; "ipv6"]%string)
      ∧ (if cidr then prefix ≠ None else ip ∨ prefix = None)
  | TRaw codec native digest encoding, VRaw c =>
      (codec, native, digest, encoding)
      = (rvc_codec_identity c, rvc_native_type c, rvc_source_definition_digest c, rvc_encoding c)
      ∧ raw_carrier_is_reversible c = true
  | TOpaque native encoding, VRaw c =>
      (native, encoding) = (rvc_native_type c, rvc_encoding c) ∧ raw_carrier_is_reversible c = true
  | _, _ => False
  end.

(** A value belongs to a type when its parts do; [NULL] elements belong to every
    array and map, and a domain is transparent. *)
Inductive inhabits : LogicalType → LogicalValue → Prop :=
| in_scalar t v : scalar_inhabits t v → inhabits t v
| in_array e l : Forall (λ v, v = VNull ∨ inhabits e v) l → inhabits (TArray e) (VArray l)
| in_any_array e l d b n :
    Forall (λ v, v = VNull ∨ inhabits e v) l → inhabits (TArray e) (VArrayWithMetadata l d b n)
| in_shaped_array e l d b n :
    Forall (λ v, v = VNull ∨ inhabits e v) l →
    inhabits (TArrayWithMetadata e d b) (VArrayWithMetadata l d b n)
| in_struct fs vs :
    Forall2 (λ f v, lf_name f = sf_name v
      ∧ ((sf_value v = VNull ∧ lf_nullable f = true) ∨ inhabits (lf_logical_type f) (sf_value v))) fs vs →
    inhabits (TStruct fs) (VStruct vs)
| in_map k t es :
    Forall (λ e, inhabits k (me_key e) ∧ (me_value e = VNull ∨ inhabits t (me_value e))) es →
    inhabits (TMap k t) (VMap es)
| in_range_of e empty lo up li ui :
    Forall (inhabits e) (option_list lo ++ option_list up) →
    inhabits (TRange e) (VRange empty lo up li ui)
| in_multirange e rs : Forall (inhabits (TRange e)) rs → inhabits (TMultiRange e) (VMultiRange rs)
| in_domain n t cs nn c d v : inhabits t v → inhabits (TDomain n t cs nn c d) (VDomain v)
| in_domain_base n t cs nn c d v :
    (∀ u, v ≠ VDomain u) → inhabits t v → inhabits (TDomain n t cs nn c d) v.

(** The precisions of a declaration are 16-bit numbers. *)
Fixpoint u16_precisions (t : LogicalType) : Prop :=
  match t with
  | TDecimal p _ => 0 ≤ p ≤ 65535
  | TArray e | TRange e | TMultiRange e | TArrayWithMetadata e _ _ | TDomain _ e _ _ _ _ =>
      u16_precisions e
  | TMap k v => u16_precisions k ∧ u16_precisions v
  | TStruct fs => foldr (λ f P, u16_precisions (lf_logical_type f) ∧ P) True fs
  | _ => True
  end.

(** A captured value, every part of which passed validation. *)
Definition captured (v : LogicalValue) : Prop := ∀ k u, below k u v → local_ok u.

Lemma captured_child v u : captured v → u ∈ children v → captured u.
Proof. intros Hv Hu k w Hw. eapply Hv. by eapply below_child. Qed.

Lemma captured_here v : captured v → local_ok v.
Proof. intros H. eapply H. constructor. Qed.

Lemma eq_ignore_case_spec a b : eq_ignore_case a b = true ↔ to_lower a = to_lower b.
Proof. apply bool_decide_eq_true. Qed.

Lemma is_none_true {A} (o : option A) : Validate.is_none o = true ↔ o = None.
Proof. by destruct o. Qed.
Lemma is_some_true {A} (o : option A) : Validate.is_some o = true ↔ o ≠ None.
Proof. by destruct o. Qed.
Lemma lempty_false {A} (l : list A) : negb (Validate.lempty l) = true ↔ l ≠ [].
Proof. by destruct l. Qed.

Lemma within_spec (max : option Z) n : within max n = true ↔ ∀ m, max = Some m → n ≤ m.
Proof. destruct max; cbn; rewrite ?Z.leb_le; naive_solver. Qed.

Lemma text_matches_spec charset max unit charset' bytes text :
  text_matches charset max unit charset' bytes text = true
  ↔ to_lower charset = to_lower charset'
    ∧ ∀ m, max = Some m → ∃ n, text_length unit bytes text = Some n ∧ n ≤ m.
Proof.
  unfold text_matches, text_length. rewrite andb_true_iff, eq_ignore_case_spec.
  assert (∀ P Q R : Prop, (Q ↔ R) → P ∧ Q ↔ P ∧ R) as Hand by tauto. apply Hand.
  destruct max as [m|]; [|naive_solver]. destruct text as [s|]; cbn; [|destruct (b64_decode bytes); cbn];
    rewrite ?Z.leb_le; naive_solver.
Qed.

Lemma decimal_type_spec p s unscaled vs :
  local_ok (VDecimal unscaled vs) → validate (TDecimal p s) = Ok () → 0 ≤ p ≤ 65535 →
  decimal_matches p s unscaled vs = true
  ↔ unscaled = "NaN"%string ∨ (is_digits (strip_minus unscaled) ∧ decimal_in p s unscaled vs).
Proof.
  intros Hv Ht Hp. cbn in Ht. destruct (_ || _) eqn:E in Ht; [done|]. apply orb_false_iff in E as [Hp0 Hs].
  bool_simpl. apply negb_false_iff, in_range_spec in Hs.
  cbn in Hv. unfold Validate.decimal in Hv. destruct (special_decimal unscaled) eqn:Hsp.
  - apply ensure_ok, Z.eqb_eq in Hv as ->. unfold special_decimal in Hsp.
    rewrite !orb_true_iff, !bool_decide_eq_true in Hsp.
    assert (∀ x, x ∈ ["Infinity"; "-Infinity"; "NaN"]%string → ¬ is_digits (strip_minus x)) as Hnd.
    { intros x Hx Hd. apply digits_not_special in Hd as [? Hd]. apply Hd.
      rewrite !elem_of_cons in *. tauto. }
    destruct Hsp as [[->| ->]| ->]; [split; [by left|done]|..];
      (split; [by vm_compute|intros [?|[Hd _]]; [done|exfalso; eapply Hnd; [|exact Hd]; rewrite !elem_of_cons; tauto]]).
  - assert (is_digits (strip_minus unscaled)) as Hd.
    { apply ensure_ok in Hv. apply is_digits_spec. by rewrite andb_true_iff, negb_true_iff in Hv. }
    rewrite decimal_matches_spec by (done || lia). pose proof (digits_not_special _ Hd). tauto.
Qed.

Lemma network_spec family cidr family' (prefix : option Z) :
  (eq_ignore_case family family'
   || eq_ignore_case family "ip" && bool_decide (family' ∈ ["ipv4"; "ipv6"]%string))
  && (if (cidr : bool) then Validate.is_some prefix
      else eq_ignore_case family "ip" || Validate.is_none prefix) = true
  ↔ scalar_inhabits (TNetwork family cidr) (VNetwork family' "" prefix).
Proof.
  cbn. rewrite andb_true_iff, orb_true_iff, andb_true_iff, !eq_ignore_case_spec, bool_decide_eq_true.
  destruct cidr; rewrite ?orb_true_iff, ?eq_ignore_case_spec, ?is_none_true, ?is_some_true; done.
Qed.

Lemma set_spec (members values : list string) :
  NoDup values →
  negb (Validate.lempty members) && forallb (λ value, bool_decide (value ∈ members)) values
  && bool_decide (NoDup values) = true ↔ members ≠ [] ∧ values ⊆ members.
Proof.
  intros Hn. rewrite bool_decide_eq_true_2 by done.
  rewrite andb_true_r, andb_true_iff, lempty_false, forallb_forall.
  setoid_rewrite bool_decide_eq_true. setoid_rewrite <- list_elem_of_In. done.
Qed.

Lemma scalar_spec t v :
  local_ok v → validate t = Ok () → u16_precisions t →
  scalar_matches t v = true ↔ scalar_inhabits t v.
Proof.
  intros Hv Ht Hp. destruct t, v; try (cbn; split; done);
    try (cbn; by rewrite eq_ignore_case_spec); try (cbn; by apply units_spec).
  - (* integers *) cbn. by rewrite andb_true_iff, Z.eqb_eq, Bool.eqb_true_iff.
  - by apply decimal_type_spec.
  - cbn. by rewrite Z.eqb_eq.
  - apply text_matches_spec.
  - (* binary *) cbn. destruct max_length as [m|]; [|naive_solver].
    destruct (b64_decode bytes_base64url); cbn; rewrite ?Z.leb_le; naive_solver.
  - cbn. rewrite Z.eqb_eq. split; congruence.
  - apply within_spec.
  - cbn. destruct kind; (split; [|done]); try done; by rewrite ?bool_decide_eq_true.
  - cbn. by destruct kind.
  - cbn. by destruct kind.
  - cbn. by destruct kind.
  - (* enums *) cbn. rewrite andb_true_iff, bool_decide_eq_true, lempty_false.
    split; [tauto|]. intros H. split; [|done]. by destruct members; [apply elem_of_nil in H|].
  - apply set_spec, Hv.
  - (* spatial *) cbn. rewrite !andb_true_iff, !orb_true_iff, eq_ignore_case_spec, is_none_true,
      !bool_decide_eq_true, !Z.eqb_eq. tauto.
  - cbn. by rewrite bool_decide_eq_true.
  - apply network_spec.
  - (* opaque *) cbn. rewrite !andb_true_iff, !bool_decide_eq_true. naive_solver.
  - (* raw *) cbn. rewrite !andb_true_iff, !bool_decide_eq_true. naive_solver.
Qed.

(** *** Structural cases *)
Notation decides t := (∀ v, captured v → matches_value t v = true ↔ inhabits t v).

Lemma elements_spec e l :
  decides e → (∀ u, u ∈ l → captured u) →
  forallb (λ value, is_null value || matches_value e value) l = true
  ↔ Forall (λ v, v = VNull ∨ inhabits e v) l.
Proof.
  intros He Hl. rewrite forallb_forall, Forall_forall. setoid_rewrite <- list_elem_of_In.
  apply forall_proper. intros u. split; intros H Hu; specialize (H Hu);
    rewrite orb_true_iff, (He u (Hl u Hu)) in *; destruct u; cbn in *; naive_solver.
Qed.

Lemma bounds_spec e l :
  decides e → (∀ u, u ∈ l → captured u) →
  forallb (matches_value e) l = true ↔ Forall (inhabits e) l.
Proof.
  intros He Hl. rewrite forallb_forall, Forall_forall. setoid_rewrite <- list_elem_of_In.
  apply forall_proper. intros u. split; intros H Hu; specialize (H Hu); by rewrite (He u (Hl u Hu)) in *.
Qed.

Lemma range_decides e : decides e → decides (TRange e).
Proof.
  intros He v Hv. destruct v; try (split; [done|]; intros H; inversion H; subst; done).
  change (matches_value _ _) with (forallb (matches_value e) (option_list lower ++ option_list upper)).
  rewrite bounds_spec; [|done|intros u Hu; eapply captured_child; [done|exact Hu]].
  split; [apply in_range_of|]. intros H. by inversion H; subst.
Qed.

Lemma multirange_decides e : decides e → decides (TMultiRange e).
Proof.
  intros He v Hv. destruct v; try (split; [done|]; intros H; inversion H; subst; done).
  change (matches_value (TMultiRange e) _) with (forallb (matches_value (TRange e)) ranges).
  rewrite bounds_spec; [|by apply range_decides|intros u Hu; eapply captured_child; [done|exact Hu]].
  split; [apply in_multirange|]. intros H. by inversion H; subst.
Qed.

Lemma array_decides e : decides e → decides (TArray e).
Proof.
  intros He v Hv. destruct v; try (split; [done|]; intros H; inversion H; subst; done).
  all: match goal with
       | |- matches_value _ ?v = true ↔ _ =>
           change (matches_value (TArray e) v)
             with (forallb (λ value, is_null value || matches_value e value) elements)
       end.
  all: rewrite elements_spec; [|done|intros u Hu; eapply captured_child; [done|exact Hu]].
  all: split; [by constructor|]; intros H; by inversion H; subst.
Qed.

Lemma shaped_array_decides e d b : decides e → decides (TArrayWithMetadata e d b).
Proof.
  intros He v Hv. destruct v; try (split; [done|]; intros H; inversion H; subst; done).
  change (matches_value _ _) with ((d =? dimensions) && bool_decide (b = lower_bounds)
    && forallb (λ value, is_null value || matches_value e value) elements).
  rewrite !andb_true_iff, Z.eqb_eq, bool_decide_eq_true, elements_spec;
    [|done|intros u Hu; eapply captured_child; [done|exact Hu]].
  split; [intros [[-> ->] ?]; by constructor|]. intros H. by inversion H; subst.
Qed.

Lemma map_decides k t : decides k → decides t → decides (TMap k t).
Proof.
  intros Hk Ht v Hv. destruct v; try (split; [done|]; intros H; inversion H; subst; done).
  change (matches_value _ _) with (forallb (λ entry, matches_value k (me_key entry)
    && (is_null (me_value entry) || matches_value t (me_value entry))) entries).
  trans (Forall (λ e, inhabits k (me_key e) ∧ (me_value e = VNull ∨ inhabits t (me_value e))) entries);
    [|split; [apply in_map|intros H; by inversion H; subst]].
  rewrite forallb_forall, Forall_forall. setoid_rewrite <- list_elem_of_In.
  apply forall_proper. intros e.
  assert (e ∈ entries → captured (me_key e) ∧ captured (me_value e)) as Hc.
  { intros He. split; (eapply captured_child; [done|]); cbn; apply list_elem_of_In, in_concat;
      exists [me_key e; me_value e]; (split; [apply list_elem_of_In, list_elem_of_fmap; by exists e|]); cbn; tauto. }
  split; intros H He; specialize (H He); destruct (Hc He) as [Hck Hcv];
    rewrite andb_true_iff, orb_true_iff, (Hk _ Hck), (Ht _ Hcv) in *;
    destruct (me_value e); cbn in *; naive_solver.
Qed.

(** The fields of a struct are matched in order. *)
Lemma struct_fields_spec fs vs :
  Forall (λ f, decides (lf_logical_type f)) fs → (∀ u, u ∈ sf_value <$> vs → captured u) →
  bool_decide (length fs = length vs)
  && (fix go (fields : list LogicalField) (values : list StructuredField) :=
        match fields, values with
        | field :: fields', value :: values' =>
            bool_decide (lf_name field = sf_name value)
            && (is_null (sf_value value) && lf_nullable field
                || matches_value (lf_logical_type field) (sf_value value))
            && go fields' values'
        | _, _ => true
        end) fs vs = true
  ↔ Forall2 (λ f v, lf_name f = sf_name v
      ∧ ((sf_value v = VNull ∧ lf_nullable f = true) ∨ inhabits (lf_logical_type f) (sf_value v))) fs vs.
Proof.
  intros Hfs. revert vs. induction Hfs as [|f fs Hf Hfs IH]; intros [|v vs] Hv;
    try (split; [done|intros H; by inversion H]).
  rewrite Forall2_cons, <- IH by (intros u Hu; apply Hv; by right).
  rewrite !andb_true_iff, orb_true_iff, andb_true_iff, !bool_decide_eq_true,
    (Hf (sf_value v) ltac:(apply Hv; by left)).
  assert (is_null (sf_value v) = true ↔ sf_value v = VNull) as -> by (by destruct (sf_value v)).
  assert (length (f :: fs) = length (v :: vs) ↔ length fs = length vs) as -> by (cbn; lia). tauto.
Qed.

Lemma domain_decides n t cs nn c d : decides t → decides (TDomain n t cs nn c d).
Proof.
  intros Ht v Hv. destruct v; try (
    match goal with |- matches_value _ ?v = true ↔ _ =>
      change (matches_value (TDomain n t cs nn c d) v) with (matches_value t v) end;
    rewrite Ht by done; split; [by apply in_domain_base|]; intros H; by inversion H; subst).
  change (matches_value t v = true ↔ inhabits (TDomain n t cs nn c d) (VDomain v)).
  rewrite Ht by (eapply captured_child; [done|by left]).
  split; [by constructor|]. intros H. inversion H as [| | | | | | | | |? ? ? ? ? ? ? Hne]; subst; try done.
  by destruct (Hne v).
Qed.

Lemma flat_decides t :
  flat_type t = true → validate t = Ok () → u16_precisions t → decides t.
Proof.
  intros Hf Ht Hp v Hv. trans (scalar_inhabits t v).
  - rewrite <- scalar_spec by (done || by apply captured_here). destruct t; done.
  - split; [by constructor|]. intros H. by inversion H; subst.
Qed.

(** The field types of a valid struct are valid. *)
Lemma struct_fields_valid fs :
  validate (TStruct fs) = Ok () → Forall (λ f, validate (lf_logical_type f) = Ok ()) fs.
Proof.
  change (validate (TStruct fs)) with
    ((fix go (names : list string) (fields : list LogicalField) :=
       match fields with
       | [] => Ok ()
       | f :: fields' =>
           if blank (lf_name f) || bool_decide (lf_name f ∈ names)
           then Err "structured field names must be unique and non-empty"%string
           else validate (lf_logical_type f) ;? go (lf_name f :: names) fields'
       end) [] fs).
  generalize (@nil string) as names. induction fs as [|f fs IH]; intros names H; [constructor|].
  case_match; [done|]. apply seq_ok in H as [H1 H2]. constructor; [done|by eapply IH].
Qed.

Lemma type_decides t : validate t = Ok () → u16_precisions t → decides t.
Proof.
  intros Ht Hp.
  induction t as [t Hf|e IH|e d b IH|fs IH|k t IHk IHt|e IH|e IH|n t cs nn c d IH]
    using LogicalType_nested_ind.
  - by apply flat_decides.
  - apply array_decides, IH; done.
  - apply shaped_array_decides, IH; [|done]. cbn in Ht. by case_match.
  - apply struct_fields_valid in Ht. intros v Hv.
    destruct v; try (split; [done|]; intros H; inversion H; subst; done).
    trans (Forall2 (λ f v, lf_name f = sf_name v
      ∧ ((sf_value v = VNull ∧ lf_nullable f = true) ∨ inhabits (lf_logical_type f) (sf_value v))) fs fields);
      [|split; [apply in_struct|intros H; by inversion H; subst]].
    apply struct_fields_spec; [|intros u Hu; eapply captured_child; [done|exact Hu]].
    clear Hv fields. induction IH as [|f fs Hf _ IH']; [constructor|].
    apply Forall_cons in Ht as [? ?]. destruct Hp as [? ?]. constructor; [by apply Hf|by apply IH'].
  - apply seq_ok in Ht as [? ?]. destruct Hp as [? ?]. apply map_decides; [by apply IHk|by apply IHt].
  - apply range_decides, IH; done.
  - apply multirange_decides, IH; done.
  - apply domain_decides, IH; [|done]. cbn in Ht. by case_match.
Qed.

Lemma captured_valid v : Validate.logical_value v = Ok () → captured v.
Proof. intros H k u Hu. by apply (proj1 (value_below v 0) H k u Hu). Qed.

End inhabits.
End Spec.

(** An order line: a nullable price and a list of labels. *)
Module Example8.
Definition line_type8 : LogicalType :=
  TStruct [mkLogicalField "price" (TDecimal 6 2) true;
           mkLogicalField "labels" (TArray (TEnum ["new"; "sale"]%string)) false].
Definition line8 : LogicalValue :=
  VStruct [mkField "price" (VDecimal "-123456" 2);
           mkField "labels" (VArray [VEnum "sale"; VNull])].
End Example8.

