(* ===== verification/Families.v ===== *)
(** * Members, structures and geometries under a column plan
    ([crates/change_event/src/compatibility.rs])

    ENUM and SET labels against the members of the target definition, nested
    values against the structure rule saved in the plan, and spatial values
    against the qualified geometry, dimensions, SRID and CRS, down to the WKB
    header of their bytes.  The decoding of a saved member list is
    [serde_json::from_str], the parameter [json_members]. *)
From S2P Require Import Prelude Text Codec Model Representation Validate Plan.

(** ** ENUM and SET *)
Section members.
Context (json_members : string → option (list string)).

Definition plan_members (plan : ColumnConversionPlan) (name : string) : planned (list string) :=
  let? encoded := required plan "enum_set_mapping_missing"
    (match target_parameter plan name with
     | Some v => Some v
     | None => pl_parameters plan !! name
     end) in
  required plan "enum_set_mapping_invalid" (json_members encoded).

(** The loop over the members of a SET value; [earlier] is [members[..index]]. *)
Fixpoint check_members (plan : ColumnConversionPlan) (target_members earlier members : list string) :
    planned () :=
  match members with
  | [] => Ok ()
  | member :: members' =>
      if bool_decide (member ∈ earlier) then reject plan "set_duplicate_member"
      else if negb (bool_decide (member ∈ target_members)) then reject plan "set_unknown_member"
      else check_members plan target_members (earlier ++ [member]) members'
  end.

Definition validate_enum_set_plan_value (plan : ColumnConversionPlan) (value : LogicalValue) : planned () :=
  let? target_members := plan_members plan "target_members" in
  match value with
  | VEnum label =>
      if bool_decide (label ∈ target_members) then Ok () else reject plan "enum_unknown_label"
  | VSet members => check_members plan target_members [] members
  | _ => reject plan "enum_set_type_mismatch"
  end.

Definition convert_enum_set_value (plan : ColumnConversionPlan) (value : LogicalValue) : planned LogicalValue :=
  let? target_members := plan_members plan "target_members" in
  match value with
  | VEnum label =>
      if bool_decide (label ∈ target_members) then Ok (VEnum label)
      else reject plan "enum_unknown_label"
  | VSet members =>
      validate_enum_set_plan_value plan value ;?
      Ok (VSet (filter (λ target, target ∈ members) target_members))
  | _ => reject plan "enum_set_type_mismatch"
  end.
End members.

(** ** Nested values *)
Section recursive.
Context `{B64 : Base64, SHA : Sha256}.

Definition structure_name (value : LogicalValue) : string :=
  match value with
  | VArray _ | VArrayWithMetadata _ _ _ _ => "array"
  | VStruct _ => "struct"
  | VMap _ => "map"
  | VRange _ _ _ _ _ => "range"
  | VMultiRange _ => "multi_range"
  | _ => "other"
  end.

(** The shape of an array with metadata. *)
Definition recursive_array_shape (elements : list LogicalValue) (dimensions : Z)
    (lower_bounds dimension_lengths : list Z) : result string () :=
  if dimensions =? 0 then
    if negb (lempty elements) || negb (lempty lower_bounds) || negb (lempty dimension_lengths)
    then Err "zero-dimensional arrays must be empty"%string else Ok ()
  else
    if negb (dimensions =? Z.of_nat (length lower_bounds))
       || (negb (lempty dimension_lengths)
           && negb (dimensions =? Z.of_nat (length dimension_lengths)))
    then Err "array dimensions and lower bounds do not agree"%string
    else if negb (lempty dimension_lengths)
            && negb (bool_decide (checked_product dimension_lengths
                                  = Some (Z.of_nat (length elements))))
    then Err "array dimension lengths do not match the flattened element count"%string
    else Ok ().

Fixpoint validate_recursive_value (value : LogicalValue) (depth : Z) : result string () :=
  ensure (depth <=? 100) "recursive value exceeds the maximum structure depth"%string ;?
  match value with
  | VNull => Ok ()
  | VArray elements => each (λ e, validate_recursive_value e (depth + 1)) elements
  | VArrayWithMetadata elements dimensions lower_bounds dimension_lengths =>
      recursive_array_shape elements dimensions lower_bounds dimension_lengths ;?
      each (λ e, validate_recursive_value e (depth + 1)) elements
  | VStruct fields =>
      each_distinct sf_name "struct field names must be unique and contain no NUL"%string
        (λ f, ensure (negb (sempty (sf_name f) || has_nul (sf_name f)))
                "struct field names must be unique and contain no NUL"%string)
        (λ f, validate_recursive_value (sf_value f) (depth + 1)) [] fields
  | VMap entries =>
      each_distinct me_key "map keys must be unique"%string (λ _, Ok ())
        (λ e, validate_recursive_value (me_key e) (depth + 1) ;?
              validate_recursive_value (me_value e) (depth + 1)) [] entries
  | VRange empty lower upper _ _ =>
      ensure (negb (empty && (is_some lower || is_some upper)))
        "empty ranges cannot contain bounds"%string ;?
      match lower with Some v => validate_recursive_value v (depth + 1) | None => Ok () end ;?
      match upper with Some v => validate_recursive_value v (depth + 1) | None => Ok () end
  | VMultiRange ranges =>
      each (λ r, ensure (is_range r) "multirange entries must be ranges"%string ;?
                 validate_recursive_value r (depth + 1)) ranges
  | VDomain value => validate_recursive_value value (depth + 1)
  | VRaw carrier =>
      map_err (λ _, "raw value carrier lacks stable source evidence"%string) (carrier_validate carrier)
  | _ => Ok ()
  end.

Definition validate_recursive_plan_value (plan : ColumnConversionPlan) (value : LogicalValue) : planned () :=
  let? expected := required plan "recursive_structure_rule_missing"
    (plan_parameter plan "recursive_kind") in
  if negb (bool_decide (structure_name value = expected))
  then reject plan "recursive_structure_mismatch" else
  match validate_recursive_value value 0 with
  | Ok _ => Ok ()
  | Err _ => reject plan "recursive_structure_invalid"
  end.
End recursive.

(** ** Spatial values *)
(** [read_u32_wire] of four bytes; shorter slices panic in the source, and
    every caller passes exactly four. *)
Definition read_u32_wire (bytes : list byte) (little_endian : bool) : option Z :=
  match bytes with
  | [a; b; c; d] =>
      Some (if little_endian
            then bval a + bval b * 2 ^ 8 + bval c * 2 ^ 16 + bval d * 2 ^ 24
            else bval a * 2 ^ 24 + bval b * 2 ^ 16 + bval c * 2 ^ 8 + bval d)
  | _ => None
  end.

(** The base code and the number of dimensions a geometry code declares. *)
Definition wire_shape (geometry_code : Z) : Z * Z :=
  let has_z := negb (Z.land geometry_code 0x80000000 =? 0) in
  let has_m := negb (Z.land geometry_code 0x40000000 =? 0) in
  let base_code := Z.land geometry_code 0x0fffffff in
  let actual_dimensions := 2 + Z.b2z has_z + Z.b2z has_m in
  if 1000 <=? base_code then
    let suffix := base_code / 1000 in
    (base_code mod 1000,
     if (suffix =? 1) || (suffix =? 2) then 3 else if suffix =? 3 then 4 else 0)
  else (base_code, actual_dimensions).

(** [None] would be a panic of [read_u32_wire]. *)
Definition validate_spatial_wire (plan : ColumnConversionPlan) (bytes : list byte)
    (format : SpatialFormat) (geometry_type : string) (dimensions : Z) (srid : option Z) :
    option (planned ()) :=
  if Z.of_nat (length bytes) <? 5 then Some (reject plan "spatial_format_invalid") else
  let marker := bval (List.hd NUL bytes) in
  if negb ((marker =? 0) || (marker =? 1)) then Some (reject plan "spatial_format_invalid") else
  let little_endian := marker =? 1 in
  geometry_code ← read_u32_wire (take 4 (drop 1 bytes)) little_endian;
  let has_srid := negb (Z.land geometry_code 0x20000000 =? 0) in
  let '(base_code, actual_dimensions) := wire_shape geometry_code in
  let actual_geometry := geometry_name base_code in
  if bool_decide (actual_geometry = "unknown"%string)
     || (negb (bool_decide (geometry_type = "*"%string))
         && negb (eq_ignore_case actual_geometry geometry_type))
     || (negb (dimensions =? 0) && negb (actual_dimensions =? dimensions))
  then Some (reject plan "spatial_header_mismatch")
  else if has_srid && (Z.of_nat (length bytes) <? 9)
  then Some (reject plan "spatial_format_invalid") else
  embedded_srid ←
    (if has_srid then
       s ← read_u32_wire (take 4 (drop 5 bytes)) little_endian; Some (Some (wrap_s 32 s))
     else Some None);
  if negb (Bool.eqb (bool_decide (format = Ewkb)) has_srid)
  then Some (reject plan "spatial_format_mismatch")
  else if negb (bool_decide (embedded_srid = srid))
  then Some (reject plan "spatial_srid_mismatch")
  else Some (Ok ()).

Section spatial.
Context `{B64 : Base64}.

(** A declared constraint: absent or equal to [any], or satisfied. *)
Definition declared (o : option string) (any : string) (ok : string → bool) : bool :=
  match o with Some v => bool_decide (v = any) || ok v | None => true end.

Definition spatial_format_of (name : string) : option SpatialFormat :=
  if bool_decide (name = "wkb"%string) then Some Wkb
  else if bool_decide (name = "ewkb"%string) then Some Ewkb else None.

(** The checks of the declared header, in the order of the code, with the
    format, geometry and dimensions that the wire bytes are checked against. *)
Definition validate_spatial_header (plan : ColumnConversionPlan) (format : SpatialFormat)
    (geometry_type : string) (dimensions : Z) (srid : option Z) (crs : option string) :
    planned (SpatialFormat * string * Z) :=
  let? expected_format := required plan "spatial_format_missing"
    (plan_parameter plan "target_spatial_format" ≫= spatial_format_of) in
  if negb (bool_decide (format = expected_format)) then reject plan "spatial_format_mismatch" else
  let? expected_geometry := required plan "spatial_geometry_type_missing"
    (plan_parameter plan "target_geometry_type") in
  if negb (declared (Some expected_geometry) "*" (eq_ignore_case geometry_type))
  then reject plan "spatial_geometry_type_mismatch"
  else if negb (declared (plan_parameter plan "source_geometry_type") "*" (eq_ignore_case geometry_type))
  then reject plan "spatial_source_geometry_type_mismatch" else
  let? dimensions_text := required plan "spatial_dimensions_missing"
    (plan_parameter plan "target_dimensions") in
  let? expected_dimensions := required plan "spatial_dimensions_invalid" (parse_u8 dimensions_text) in
  if negb ((expected_dimensions =? 0) || (dimensions =? expected_dimensions))
  then reject plan "spatial_dimensions_mismatch"
  else if negb (declared (plan_parameter plan "source_dimensions") "0"
                  (λ v, bool_decide (v = show_nat dimensions)))
  then reject plan "spatial_source_dimensions_mismatch" else
  let? expected_srid := required plan "spatial_srid_missing" (plan_parameter plan "target_srid") in
  if negb (declared (Some expected_srid) "unknown" (λ v, bool_decide (srid = parse_i32 v)))
  then reject plan "spatial_srid_mismatch"
  else if negb (declared (plan_parameter plan "source_srid") "unknown"
                  (λ v, bool_decide (srid = parse_i32 v)))
  then reject plan "spatial_source_srid_mismatch" else
  let? expected_crs := required plan "spatial_crs_missing" (plan_parameter plan "target_crs") in
  if negb (declared (Some expected_crs) "unknown" (λ v, bool_decide (crs = Some v)))
  then reject plan "spatial_crs_mismatch"
  else if negb (declared (plan_parameter plan "source_crs") "unknown" (λ v, bool_decide (crs = Some v)))
  then reject plan "spatial_source_crs_mismatch"
  else if negb match plan_parameter plan "source_spatial_format" with
               | Some f => bool_decide (f = match format with Wkb => "wkb" | Ewkb => "ewkb" end%string)
               | None => true
               end
  then reject plan "spatial_format_mismatch"
  else Ok (expected_format, expected_geometry, expected_dimensions).

Definition validate_spatial_plan_value (plan : ColumnConversionPlan) (value : LogicalValue) :
    option (planned ()) :=
  match value with
  | VSpatial format bytes_base64url geometry_type dimensions srid crs =>
      match validate_spatial_header plan format geometry_type dimensions srid crs with
      | Err e => Some (Err e)
      | Ok (expected_format, expected_geometry, expected_dimensions) =>
          match b64_decode bytes_base64url with
          | None => Some (reject plan "spatial_format_invalid")
          | Some bytes =>
              validate_spatial_wire plan bytes expected_format expected_geometry expected_dimensions
                (if bool_decide (expected_format = Ewkb) then srid else None)
          end
      end
  | _ => Some (reject plan "spatial_type_mismatch")
  end.
End spatial.

(** ** What the plans admit *)
Module Spec.

(** *** Members *)
Lemma check_members_ok plan T members earlier :
  NoDup earlier →
  check_members plan T earlier members = Ok () ↔ NoDup (earlier ++ members) ∧ members ⊆ T.
Proof.
  revert earlier. induction members as [|m ms IH]; intros earlier He; cbn [check_members].
  { rewrite app_nil_r. split; [intros _; split; [done|set_solver]|done]. }
  case_bool_decide as Hm; [|case_bool_decide as Ht]; cbn [negb].
  - split; [done|]. intros [Hn _]. apply NoDup_app in Hn as (_ & Hn & _).
    by destruct (Hn m Hm); left.
  - rewrite IH by (apply NoDup_app; split_and!; [done|set_solver|apply NoDup_singleton]).
    rewrite <- (assoc_L (++)). cbn. split; intros [? ?]; split; set_solver.
  - split; [done|]. intros [_ Hs]. destruct Ht. apply Hs. by left.
Qed.

(** A label is admitted when the target declares it.  A SET value is admitted
    exactly when its members are distinct and declared by the target, and it
    is then converted into the same set, listed in the target's declaration
    order; the conversion fails exactly where the check does. *)
Theorem enum_set_plan_decides (json_members : string → option (list string)) plan T :
  plan_members json_members plan "target_members" = Ok T →
  (∀ label, convert_enum_set_value json_members plan (VEnum label)
            = if bool_decide (label ∈ T) then Ok (VEnum label)
              else reject plan "enum_unknown_label")
  ∧ ∀ members,
      let admitted := NoDup members ∧ members ⊆ T in
      (validate_enum_set_plan_value json_members plan (VSet members) = Ok () ↔ admitted)
      ∧ (is_ok (convert_enum_set_value json_members plan (VSet members)) = true ↔ admitted)
      ∧ (NoDup T → admitted → ∃ ordered,
           convert_enum_set_value json_members plan (VSet members) = Ok (VSet ordered)
           ∧ ordered ≡ₚ members ∧ sublist ordered T).
Proof.
  intros HT. split.
  { intros label. unfold convert_enum_set_value. rewrite HT. done. }
  intros members admitted.
  assert (validate_enum_set_plan_value json_members plan (VSet members) = Ok () ↔ admitted) as Hv.
  { unfold validate_enum_set_plan_value. rewrite HT. cbn -[check_members].
    by rewrite check_members_ok by constructor. }
  assert (convert_enum_set_value json_members plan (VSet members)
          = (validate_enum_set_plan_value json_members plan (VSet members) ;?
             Ok (VSet (filter (λ t, t ∈ members) T)))) as Hc.
  { unfold convert_enum_set_value. by rewrite HT. }
  split_and!; [done|..]; rewrite Hc.
  - rewrite is_ok_true, <- Hv. setoid_rewrite seq_ok. naive_solver.
  - intros HnT Ha. pose proof (proj2 Hv Ha) as ->. eexists. split; [reflexivity|].
    destruct Ha as [Hm Hs]. split; [|apply sublist_filter].
    apply NoDup_Permutation; [by apply NoDup_filter|done|].
    intros x. rewrite list_elem_of_filter. set_solver.
Qed.

(** *** Nested values *)
Section recursive.
Context `{B64 : Base64, SHA : Sha256}.

Lemma recursive_array_shape_ok l d lb dl :
  array_shape l d lb dl = Ok () → recursive_array_shape l d lb dl = Ok ().
Proof.
  unfold array_shape, recursive_array_shape. destruct (d =? 0).
  - rewrite ensure_ok. by destruct (lempty l), (lempty lb), (lempty dl).
  - rewrite seq_ok, ensure_ok. intros [H1 H2]. apply andb_true_iff in H1 as [-> H1].
    destruct (lempty dl); cbn in *; [done|]. rewrite H1. cbn.
    by apply ensure_ok in H2 as ->.
Qed.

Lemma each_impl {A E F} (f : A → result E ()) (g : A → result F ()) l :
  Forall (λ x, f x = Ok () → g x = Ok ()) l → each f l = Ok () → each g l = Ok ().
Proof. rewrite !each_ok, !Forall_forall. naive_solver. Qed.

Lemma each_distinct_impl {A E F K} `{EqDecision K} (key : A → K) (d : E) (d' : F)
    pre f pre' g seen l :
  Forall (λ x, (pre x = Ok () → pre' x = Ok ()) ∧ (f x = Ok () → g x = Ok ())) l →
  each_distinct key d pre f seen l = Ok () → each_distinct key d' pre' g seen l = Ok ().
Proof.
  revert seen. induction l as [|x l IH]; intros seen Hl; [done|].
  apply Forall_cons in Hl as [[Hp Hf] Hl]. rewrite !each_distinct_cons, !seq_ok, !ensure_ok.
  intros (? & ? & ? & ?). eauto 8.
Qed.

(** The recursive check asks nothing that the validation of a captured value
    does not already ask. *)
Lemma recursive_of_validated v d :
  logical_value_at_depth v d = Ok () → validate_recursive_value v d = Ok ().
Proof.
  revert d. induction v as [v Hf|l IH|l IH|l IH|e lo up li ui IH1 IH2|l IH|l dm b n IH|v IH]
    using LogicalValue_nested_ind; intros d;
    [destruct v; try discriminate Hf|..];
    cbn [logical_value_at_depth validate_recursive_value];
    rewrite ?seq_ok, ?ensure_ok; try tauto.
  - (* a raw carrier *) rewrite !map_err_ok. tauto.
  - intros [? H]. split; [done|]. revert H. apply each_impl. eapply Forall_impl; eauto.
  - intros [? H]. split; [done|]. revert H. apply each_distinct_impl.
    eapply Forall_impl; [exact IH|]. cbn. intros f Hf'. rewrite !ensure_ok, negb_orb. auto.
  - intros [? H]. split; [done|]. revert H. apply each_distinct_impl.
    eapply Forall_impl; [exact IH|]. cbn. intros f [? ?]. rewrite !seq_ok. naive_solver.
  - intros (? & He & Hl & Hu). split_and!; [done|..].
    + destruct e; [|done]. apply ensure_ok in He. apply andb_true_iff in He as [? ?].
      by destruct lo, up.
    + destruct lo; cbn in *; auto.
    + destruct up; cbn in *; auto.
  - intros [? H]. split; [done|]. revert H. apply each_impl.
    eapply Forall_impl; [exact IH|]. cbn. intros r Hr. rewrite !seq_ok, !ensure_ok. naive_solver.
  - intros (? & Hs & H). split_and!; [done|by apply recursive_array_shape_ok|].
    revert H. apply each_impl. eapply Forall_impl; eauto.
  - intros [? ?]. split; auto.
Qed.

(** For a captured value that passed validation, the saved structure rule
    decides alone: the value is admitted exactly when its outermost shape is
    the one the plan names; the depth, field, key, range and array checks
    repeat what validation established and cannot fail. *)
Theorem recursive_plan_decides plan v :
  logical_value v = Ok () →
  validate_recursive_plan_value plan v
  = match plan_parameter plan "recursive_kind" with
    | None => reject plan "recursive_structure_rule_missing"
    | Some kind => if bool_decide (structure_name v = kind) then Ok ()
                   else reject plan "recursive_structure_mismatch"
    end.
Proof.
  intros Hv. unfold validate_recursive_plan_value.
  destruct (plan_parameter plan "recursive_kind") as [kind|]; cbn; [|done].
  case_bool_decide; cbn; [|done]. by rewrite (recursive_of_validated v 0 Hv).
Qed.
End recursive.

(** *** Geometries *)
Section spatial.
Context `{B64 : Base64}.

Definition format_name (format : SpatialFormat) : string :=
  match format with Wkb => "wkb" | Ewkb => "ewkb" end.

(** A saved target constraint must be present, a source constraint may be. *)
Definition constrained (plan : ColumnConversionPlan) (target source any : string)
    (ok : string → Prop) : Prop :=
  (∃ v, plan_parameter plan target = Some v ∧ (v = any ∨ ok v))
  ∧ ∀ v, plan_parameter plan source = Some v → v = any ∨ ok v.

Definition spatial_admits (plan : ColumnConversionPlan) (format : SpatialFormat)
    (geometry_type : string) (dimensions : Z) (srid : option Z) (crs : option string) : Prop :=
  plan_parameter plan "target_spatial_format" = Some (format_name format)
  ∧ (∀ f, plan_parameter plan "source_spatial_format" = Some f → f = format_name format)
  ∧ constrained plan "target_geometry_type" "source_geometry_type" "*"
      (λ v, to_lower geometry_type = to_lower v)
  ∧ (∃ v n, plan_parameter plan "target_dimensions" = Some v ∧ parse_u8 v = Some n
            ∧ (n = 0 ∨ dimensions = n))
  ∧ (∀ v, plan_parameter plan "source_dimensions" = Some v → v = "0"%string ∨ v = show_nat dimensions)
  ∧ constrained plan "target_srid" "source_srid" "unknown" (λ v, srid = parse_i32 v)
  ∧ constrained plan "target_crs" "source_crs" "unknown" (λ v, crs = Some v).

Lemma declared_some v any ok :
  declared (Some v) any ok = true ↔ v = any ∨ ok v = true.
Proof. unfold declared. by rewrite orb_true_iff, bool_decide_eq_true. Qed.

Lemma declared_option o any ok :
  declared o any ok = true ↔ ∀ v, o = Some v → v = any ∨ ok v = true.
Proof.
  destruct o as [v|]; [rewrite declared_some|cbn]; naive_solver.
Qed.

Lemma unless_ok {E A} (b : bool) (e : E) (m : result E A) a :
  (if negb b then Err e else m) = Ok a ↔ b = true ∧ m = Ok a.
Proof. destruct b; cbn; naive_solver. Qed.

Lemma reject_unless {A} plan code (b : bool) (m : planned A) a :
  (if negb b then reject plan code else m) = Ok a ↔ b = true ∧ m = Ok a.
Proof. apply unless_ok. Qed.

Lemma spatial_format_of_spec o format :
  (o ≫= spatial_format_of) = Some format ↔ o = Some (format_name format).
Proof.
  destruct o as [f|]; cbn; [|done]. unfold spatial_format_of, format_name.
  repeat case_bool_decide; subst; destruct format; naive_solver.
Qed.

Lemma source_format_ok (o : option string) x :
  match o with Some f => bool_decide (f = x) | None => true end = true
  ↔ ∀ f, o = Some f → f = x.
Proof. destruct o; rewrite ?bool_decide_eq_true; naive_solver. Qed.

(** The header checks accept exactly the admitted headers, and hand the saved
    target format, geometry and dimensions to the wire check. *)
Lemma header_ok plan format gt dims srid crs f g n :
  validate_spatial_header plan format gt dims srid crs = Ok (f, g, n)
  ↔ spatial_admits plan format gt dims srid crs ∧ f = format
    ∧ plan_parameter plan "target_geometry_type" = Some g
    ∧ (plan_parameter plan "target_dimensions" ≫= parse_u8) = Some n.
Proof.
  unfold validate_spatial_header, required.
  repeat first [setoid_rewrite reject_unless | setoid_rewrite bind_ok | setoid_rewrite ok_or_ok
               | setoid_rewrite spatial_format_of_spec].
  change (match format with Wkb => "wkb" | Ewkb => "ewkb" end%string) with (format_name format).
  repeat first [setoid_rewrite declared_some | setoid_rewrite declared_option
               | setoid_rewrite source_format_ok | setoid_rewrite bool_decide_eq_true
               | setoid_rewrite orb_true_iff | setoid_rewrite Z.eqb_eq].
  unfold spatial_admits, constrained, eq_ignore_case. split.
  - intros (? & ? & -> & g' & ? & ? & ? & d & ? & n' & ? & ? & ? & s & ? & ? & ? & c & ? & ? & ? & ? & [= <- <- <-]).
    split_and!; eauto. by simplify_option_eq.
  - intros ((? & ? & [(g' & ? & ?) ?] & (d & n' & ? & ? & ?) & ? & [(s & ? & ?) ?] & (c & ? & ?) & ?)
            & -> & ? & Hn).
    simplify_option_eq. eauto 25.
Qed.

Lemma read_wire l le z : read_u32 (take 4 l) le = Ok z ↔ read_u32_wire (take 4 l) le = Some z.
Proof.
  destruct l as [|a [|b [|c [|d l]]]]; cbn; naive_solver.
Qed.

(** The wire check of a validated geometry succeeds. *)
Lemma wire_ok plan format b64 gt dims srid crs bytes g n :
  spatial format b64 gt dims srid crs = Ok () →
  b64_decode b64 = Some bytes →
  g = "*"%string ∨ to_lower gt = to_lower g → n = 0 ∨ dims = n →
  validate_spatial_wire plan bytes format g n (if bool_decide (format = Ewkb) then srid else None)
  = Some (Ok ()).
Proof.
  unfold spatial, validate_spatial_wire. intros H Hb Hg Hn.
  ok_inv H. simplify_eq.
  match goal with H : (5 <=? _) = true |- _ => apply Z.leb_le in H end.
  rewrite (proj2 (Z.ltb_ge _ 5)) by lia.
  assert (((bval (hd NUL a) =? 0) || (bval (hd NUL a) =? 1)) = true
          ∧ a0 = (bval (hd NUL a) =? 1)) as [-> ->].
  { destruct (Z.eqb_spec (bval (hd NUL a)) 0) as [->|]; [naive_solver|].
    destruct (_ =? 1); naive_solver. }
  cbn [negb]. match goal with H : read_u32 _ _ = Ok _ |- _ => apply read_wire in H; rewrite H end.
  cbn [mbind option_bind]. revert H. cbv zeta. fold (wire_shape a1).
  destruct (wire_shape a1) as [code shape]. intros H.
  assert (∀ shape' : Z, shape' = dims → eq_ignore_case (geometry_name code) gt = true →
    geometry_name code ≠ "unknown"%string →
    bool_decide (geometry_name code = "unknown"%string)
    || negb (bool_decide (g = "*"%string)) && negb (eq_ignore_case (geometry_name code) g)
    || negb (n =? 0) && negb (shape' =? n) = false) as Hhead.
  { clear - Hg Hn. unfold eq_ignore_case. intros ? -> He ?. apply bool_decide_eq_true in He.
    rewrite He, bool_decide_eq_false_2 by done.
    destruct Hg as [-> | ->]; [rewrite (bool_decide_eq_true_2 ("*" = "*")%string) by done
                              |rewrite (bool_decide_eq_true_2 (to_lower g = _)) by done];
      destruct Hn as [-> | ->]; rewrite ?Z.eqb_refl; cbn; by rewrite ?andb_false_r. }
  destruct (negb (Z.land a1 536870912 =? 0)) eqn:Es; ok_inv H; bool_simpl.
  - match goal with H : read_u32 _ _ = Ok _ |- _ => apply read_wire in H; rewrite H end.
    rewrite Hhead, (proj2 (Z.ltb_ge _ 9)) by done. cbn.
    destruct format; [done|]. subst. cbn in H. apply bool_decide_eq_true in H as <-.
    rewrite (bool_decide_eq_true_2 (Ewkb = Ewkb)) by done. cbn. by rewrite bool_decide_eq_true_2.
  - rewrite Hhead by done. destruct format; [|done]. cbn. done.
Qed.

(** For a validated geometry the saved header constraints decide alone: the
    value is admitted exactly when format, geometry type, dimensions, SRID and
    CRS meet the plan's target and source constraints; the second parse of the
    WKB header neither panics nor refuses what validation accepted. *)
Theorem spatial_plan_decides plan format b64 gt dims srid crs :
  spatial format b64 gt dims srid crs = Ok () →
  ∃ r, validate_spatial_plan_value plan (VSpatial format b64 gt dims srid crs) = Some r
       ∧ (r = Ok () ↔ spatial_admits plan format gt dims srid crs).
Proof.
  intros Hs. cbn [validate_spatial_plan_value].
  destruct (validate_spatial_header plan format gt dims srid crs) as [[[f g] n]|e] eqn:Hh.
  - pose proof Hh as (Ha & -> & Hg & Hn)%header_ok.
    assert (∃ w, b64_decode b64 = Some w) as [w Hw].
    { revert Hs. unfold spatial. intros Hs. ok_inv Hs. eauto. }
    rewrite Hw, (wire_ok plan format b64 gt dims srid crs w g n Hs Hw); [by eexists|..].
    + destruct Ha as (_ & _ & [(g' & ? & ?) _] & _). by simplify_eq.
    + destruct Ha as (_ & _ & _ & (d & n' & Hd & Hd' & ?) & _).
      rewrite Hd in Hn. cbn in Hn. naive_solver.
  - eexists. split; [done|]. split; [done|]. intros Ha.
    destruct Ha as (H1 & H2 & [(g & Hg & ?) ?] & (d & n & Hd & Hn & ?) & H3) eqn:E. clear E.
    assert (validate_spatial_header plan format gt dims srid crs = Ok (format, g, n)) as ?; [|congruence].
    apply header_ok. split_and!; [unfold spatial_admits, constrained; naive_solver|done|done|].
    by rewrite Hd.
Qed.
End spatial.
End Spec.

(** ** Instances *)
Import Plan.Example4.
Definition comma_members (s : string) : option (list string) := Some (split "," s).
Definition set_plan9 : ColumnConversionPlan := plan_with [("target_members", "read,write,admin")]%string [].

Lemma enum_set_plan_decides_witness :
  convert_enum_set_value comma_members set_plan9 (VSet ["admin"; "read"]%string)
  = Ok (VSet ["read"; "admin"]%string)
  ∧ (validate_enum_set_plan_value comma_members set_plan9 (VSet ["admin"; "root"]%string) = Ok () ↔
     NoDup ["admin"; "root"]%string ∧ ["admin"; "root"]%string ⊆ ["read"; "write"; "admin"]%string).
Proof.
  split; [reflexivity|].
  exact (proj1 (proj2 (Spec.enum_set_plan_decides comma_members set_plan9
                         ["read"; "write"; "admin"]%string eq_refl) ["admin"; "root"]%string)).
Defined.

Definition array_plan9 : ColumnConversionPlan := plan_with [("recursive_kind", "array")]%string [].
Definition nested9 : LogicalValue :=
  VArrayWithMetadata [VInteger true 32 "1"; VNull; VInteger true 32 "-7"; VNull] 2 [1; 0] [2; 2].

Lemma recursive_plan_decides_witness :
  validate_recursive_plan_value (B64 := Rfc4648.base64) (SHA := SumDigest.sha256) array_plan9 nested9 = Ok ().
Proof.
  rewrite (Spec.recursive_plan_decides (B64 := Rfc4648.base64) (SHA := SumDigest.sha256)
             array_plan9 nested9 ltac:(vm_compute; reflexivity)).
  reflexivity.
Defined.

(** A little-endian EWKB point with SRID 4326. *)
Definition point9 : list byte :=
  ["001"; "001"; "000"; "000"; "032"; "230"; "016"; "000"; "000"]%char ++ replicate 16 "000"%char.
Definition spatial_plan9 : ColumnConversionPlan :=
  plan_with [("target_spatial_format", "ewkb"); ("target_geometry_type", "POINT");
             ("target_dimensions", "2"); ("target_srid", "4326"); ("target_crs", "unknown")]%string [].

Lemma spatial_plan_decides_witness :
  ∃ r, validate_spatial_plan_value (B64 := Rfc4648.base64) spatial_plan9
         (VSpatial Ewkb (b64_encode (Base64 := Rfc4648.base64) point9) "Point" 2 (Some 4326) None) = Some r
       ∧ (r = Ok () ↔ Spec.spatial_admits spatial_plan9 Ewkb "Point" 2 (Some 4326) None).
Proof.
  apply (Spec.spatial_plan_decides (B64 := Rfc4648.base64) spatial_plan9 Ewkb
           (b64_encode (Base64 := Rfc4648.base64) point9) "Point" 2 (Some 4326) None).
  vm_compute. reflexivity.
Defined.
