(* ===== verification/Floats.v ===== *)
(** * Floating-point values under a column plan
    ([crates/change_event/src/compatibility.rs], [validate_float_plan_value])

    A captured [f64] may be written to a 32-bit column only if nothing is lost.
    The code decides this by narrowing with [as f32] (round to nearest, ties to
    even), widening back and comparing.  Here an IEEE value is its sign, an
    integer mantissa and a binary exponent; the theorem gives the decision
    without rounding: the value is [M * 2^E] for a 24-bit [M] and [E >= -149],
    and lies below [2^128]. *)
From S2P Require Import Prelude Text Codec Model Plan.

(** [value.to_string()] of an [f32] or [f64] given by its width and bits. *)
Class FloatText := { display_float : Z → Z → string }.

(** ** IEEE 754 values *)
Inductive ieee :=
| NaN
| Infinite (negative : bool)
| Finite (negative : bool) (mantissa exponent : Z).

(** [f64::from_bits] *)
Definition from_bits (raw : Z) : ieee :=
  let negative := Z.testbit raw 63 in
  let biased := Z.land (Z.shiftr raw 52) 0x7ff in
  let fraction := Z.land raw (2 ^ 52 - 1) in
  if biased =? 0x7ff then if fraction =? 0 then Infinite negative else NaN
  else if biased =? 0 then Finite negative fraction (-1074)
  else Finite negative (2 ^ 52 + fraction) (biased - 1075).

Definition is_finite (x : ieee) : bool :=
  match x with Finite _ _ _ => true | _ => false end.

(** [m / 2^k] to the nearest integer, ties to even. *)
Definition round_half_even (m k : Z) : Z :=
  let q := Z.shiftr m k in
  let r := m - Z.shiftl q k in
  let half := 2 ^ (k - 1) in
  if r <? half then q
  else if half <? r then q + 1
  else if Z.even q then q else q + 1.

Definition bit_size (m : Z) : Z := Z.log2 m + 1.

(** [source as f32]: at most 24 significant bits, no exponent below -149, and
    infinity from [2^128] on. *)
Definition as_f32 (x : ieee) : ieee :=
  match x with
  | Finite negative m e =>
      let e' := Z.max (-149) (e + bit_size m - 24) in
      let q := if e' <=? e then Z.shiftl m (e - e') else round_half_even m (e' - e) in
      if 2 ^ (128 + 149) <=? Z.shiftl q (e' + 149) then Infinite negative else Finite negative q e'
  | x => x
  end.

(** [==] of two values, both being [f64] (exponents from -1074 on). *)
Definition ieee_eq (x y : ieee) : bool :=
  match x, y with
  | Finite n1 m1 e1, Finite n2 m2 e2 =>
      ((m1 =? 0) && (m2 =? 0))
      || (Bool.eqb n1 n2 && (Z.shiftl m1 (e1 + 1074) =? Z.shiftl m2 (e2 + 1074)))
  | Infinite n1, Infinite n2 => Bool.eqb n1 n2
  | _, _ => false
  end.

Definition validate_float_plan_value (plan : ColumnConversionPlan) (value : LogicalValue) : planned () :=
  match value with
  | VFloat bits ieee754_hex =>
      let? target_bits := required plan "float_range_missing"
        (target_parameter plan "target_bits" ≫= parse_u8) in
      let? source_bits := required plan "float_range_missing"
        (target_parameter plan "source_bits" ≫= parse_u8) in
      if negb (bits =? source_bits) || negb (source_bits =? 64) || negb (target_bits =? 32)
         || negb (slen ieee754_hex =? 16)
      then reject plan "float_range_invalid" else
      let? raw := required plan "float_invalid" (parse_hex_u64 ieee754_hex) in
      let source := from_bits raw in
      let narrowed := as_f32 source in
      if negb (is_finite source) || negb (is_finite narrowed) || negb (ieee_eq narrowed source)
      then reject plan "float_rounding_or_overflow"
      else Ok ()
  | _ => reject plan "float_type_mismatch"
  end.

(** ** Narrowing is exact on the representable values *)
Module Spec.

(** [m * 2^e] has 24 significant bits, an exponent of at least -149 and lies
    below [2^128]; all exponents are counted from [2^-1074]. *)
Definition single (m e : Z) : Prop :=
  ∃ M E, 0 ≤ M < 2 ^ 24 ∧ -149 ≤ E ∧ m * 2 ^ (e + 1074) = M * 2 ^ (E + 1074)
         ∧ m * 2 ^ (e + 1074) < 2 ^ (128 + 1074).

Definition exactly_single (x : ieee) : Prop :=
  match x with Finite _ m e => single m e | _ => False end.

(** The mantissas and exponents of [f64]. *)
Definition double (m e : Z) : Prop := 0 ≤ m ∧ -1074 ≤ e.

Lemma from_bits_double raw n m e : from_bits raw = Finite n m e → double m e.
Proof.
  assert (∀ n k, 0 ≤ k → 0 ≤ Z.land n k) as Hland by (intros; apply Z.land_nonneg; auto).
  pose proof (Hland (Z.shiftr raw 52) 0x7ff ltac:(lia)).
  pose proof (Hland raw (2 ^ 52 - 1) ltac:(lia)).
  unfold from_bits, double. destruct (_ =? 0x7ff); [by destruct (_ =? 0)|].
  destruct (Z.eqb_spec (Z.land (Z.shiftr raw 52) 0x7ff) 0); intros [= <- <- <-]; lia.
Qed.

Lemma bit_size_bound m : 0 ≤ m → m < 2 ^ bit_size m ∧ 0 < bit_size m.
Proof.
  intros Hm. unfold bit_size. pose proof (Z.log2_nonneg m). split; [|lia].
  destruct (Z.eq_dec m 0) as [->|]; [done|].
  replace (Z.log2 m + 1) with (Z.succ (Z.log2 m)) by lia. apply Z.log2_spec. lia.
Qed.

Lemma bit_size_le m k : 0 ≤ m → 0 < k → bit_size m ≤ k ↔ m < 2 ^ k.
Proof.
  intros Hm Hk. destruct (Z.eq_dec m 0) as [->|].
  { unfold bit_size. cbn. split; [intros; by apply Z.pow_pos_nonneg; lia|lia]. }
  pose proof (Z.log2_lt_pow2 m k ltac:(lia)). unfold bit_size. lia.
Qed.

(** Rounding a multiple of the unit changes nothing. *)
Lemma round_exact q k : 0 ≤ q → 0 < k → round_half_even (q * 2 ^ k) k = q.
Proof.
  intros Hq Hk. unfold round_half_even.
  assert (0 < 2 ^ k) by (apply Z.pow_pos_nonneg; lia).
  rewrite Z.shiftr_div_pow2, Z.div_mul, Z.shiftl_mul_pow2, Z.sub_diag by lia.
  rewrite (proj2 (Z.ltb_lt 0 _)); [done|]. apply Z.pow_pos_nonneg; lia.
Qed.

Lemma pow_split a b : 0 ≤ a ≤ b → 2 ^ b = 2 ^ (b - a) * 2 ^ a.
Proof. intros. rewrite <- Z.pow_add_r by lia. f_equal. lia. Qed.

(** A representable value is a multiple of the unit [as f32] rounds to. *)
Lemma single_multiple m e :
  double m e → single m e →
  let e' := Z.max (-149) (e + bit_size m - 24) in
  e < e' → ∃ q, 0 ≤ q ∧ m = q * 2 ^ (e' - e).
Proof.
  intros [Hm He] (M & E & HM & HE & Hv & _) e' Hlt.
  destruct (Z.eq_dec m 0) as [->|Hnz]; [by exists 0|].
  assert (e' ≤ E) as HE'.
  { assert (2 ^ (bit_size m - 1) ≤ m) as Hlow.
    { unfold bit_size. rewrite Z.add_simpl_r. apply Z.log2_spec. lia. }
    assert (2 ^ (bit_size m - 1 + (e + 1074)) < 2 ^ (24 + (E + 1074))) as Hpow.
    { pose proof (bit_size_bound m Hm). rewrite (Z.pow_add_r _ (bit_size m - 1)) by lia.
      eapply Z.le_lt_trans; [apply Z.mul_le_mono_nonneg_r; [lia|exact Hlow]|].
      rewrite Hv, (Z.pow_add_r _ 24) by lia. apply Z.mul_lt_mono_pos_r; [apply Z.pow_pos_nonneg|]; lia. }
    apply Z.pow_lt_mono_r_iff in Hpow; lia. }
  exists (M * 2 ^ (E - e')). split; [apply Z.mul_nonneg_nonneg; [|apply Z.pow_nonneg]; lia|].
  apply (Z.mul_reg_r _ _ (2 ^ (e + 1074))); [apply Z.pow_nonzero; lia|].
  rewrite Hv, <- !Z.mul_assoc, <- !Z.pow_add_r by lia. f_equal. f_equal. lia.
Qed.

(** The narrowed mantissa when the value is representable. *)
Lemma as_f32_exact n m e :
  double m e → single m e →
  ∃ q e', as_f32 (Finite n m e) = Finite n q e' ∧ -149 ≤ e'
          ∧ q * 2 ^ (e' + 1074) = m * 2 ^ (e + 1074).
Proof.
  intros [Hm He] Hs. pose proof (single_multiple m e (conj Hm He) Hs) as Hmul. cbn in Hmul.
  cbn [as_f32]. set (e' := Z.max (-149) (e + bit_size m - 24)) in *.
  assert (∃ q, (if e' <=? e then Z.shiftl m (e - e') else round_half_even m (e' - e)) = q
               ∧ 0 ≤ q ∧ q * 2 ^ (e' + 1074) = m * 2 ^ (e + 1074)) as (q & -> & Hq & Hv).
  { eexists. split; [reflexivity|]. destruct (Z.leb_spec e' e) as [Hle|Hlt].
    - rewrite Z.shiftl_mul_pow2 by lia. split; [apply Z.mul_nonneg_nonneg; [|apply Z.pow_nonneg]; lia|].
      rewrite <- Z.mul_assoc, <- Z.pow_add_r by lia. do 2 f_equal. lia.
    - destruct (Hmul Hlt) as (q & Hq & Hqm).
      rewrite Hqm at 1 2. rewrite round_exact by lia. split; [done|].
      rewrite Hqm at 1. rewrite <- Z.mul_assoc, <- Z.pow_add_r by lia. do 2 f_equal. lia. }
  exists q, e'. split_and!; [|lia|done].
  destruct Hs as (_ & _ & _ & _ & _ & Hmax).
  rewrite <- Hv in Hmax. rewrite (proj2 (Z.leb_gt _ _)); [done|].
  rewrite Z.shiftl_mul_pow2 by lia. apply (Z.mul_lt_mono_pos_r (2 ^ 925)); [done|].
  rewrite <- Z.mul_assoc, <- !Z.pow_add_r by lia.
  by replace (e' + 149 + 925) with (e' + 1074) by lia.
Qed.

Lemma as_f32_exponent n m e n' q e' :
  as_f32 (Finite n m e) = Finite n' q e' → -149 ≤ e'.
Proof. cbn [as_f32]. destruct (_ <=? Z.shiftl _ _); [done|]. intros [= <- <- <-]. lia. Qed.

(** What [as f32] returns has at most 24 bits unless rounding carried. *)
Lemma as_f32_single n m e n' q e' :
  double m e → as_f32 (Finite n m e) = Finite n' q e' →
  q * 2 ^ (e' + 1074) = m * 2 ^ (e + 1074) → n' = n ∧ single m e.
Proof.
  intros [Hm He]. cbn [as_f32].
  assert (-149 ≤ Z.max (-149) (e + bit_size m - 24) ∧ e + bit_size m - 24 ≤ Z.max (-149) (e + bit_size m - 24)) as [? ?] by lia.
  generalize dependent (Z.max (-149) (e + bit_size m - 24)). intros k ? ?.
  destruct (_ <=? Z.shiftl _ _) eqn:Hmax; [done|]. intros [= -> <- <-]. apply Z.leb_gt in Hmax.
  intros Hv. split; [done|]. revert Hv Hmax.
  generalize (if k <=? e then Z.shiftl m (e - k) else round_half_even m (k - e)). intros q Hv Hmax.
  rewrite Z.shiftl_mul_pow2 in Hmax by lia.
  exists q, k. rewrite <- Hv. split; [|split_and!; [lia|done|]].
  - assert (0 < 2 ^ (k + 1074)) by (apply Z.pow_pos_nonneg; lia).
    assert (0 ≤ m * 2 ^ (e + 1074)) by (apply Z.mul_nonneg_nonneg; [|apply Z.pow_nonneg]; lia).
    assert (m * 2 ^ (e + 1074) < 2 ^ 24 * 2 ^ (k + 1074)); [|nia].
    pose proof (bit_size_bound m Hm) as [Hb ?]. rewrite <- Z.pow_add_r by lia.
    eapply Z.lt_le_trans; [apply Z.mul_lt_mono_pos_r; [apply Z.pow_pos_nonneg; lia|exact Hb]|].
    rewrite <- Z.pow_add_r by lia. apply Z.pow_le_mono_r; lia.
  - apply (Z.mul_lt_mono_pos_r (2 ^ 925)) in Hmax; [|done].
    rewrite <- Z.mul_assoc, <- !Z.pow_add_r in Hmax by lia.
    by replace (k + 149 + 925) with (k + 1074) in Hmax by lia.
Qed.

Lemma narrowing_exact x :
  (∀ n m e, x = Finite n m e → double m e) →
  is_finite x && is_finite (as_f32 x) && ieee_eq (as_f32 x) x = true ↔ exactly_single x.
Proof.
  intros Hd. destruct x as [| |n m e]; [done..|]. destruct (Hd n m e eq_refl) as [Hm He].
  cbn [is_finite andb exactly_single]. split.
  - intros [Hf Hq]%andb_true_iff.
    destruct (as_f32 (Finite n m e)) as [| |n' q e'] eqn:En; try done. cbn in Hq.
    apply orb_true_iff in Hq as [Hq|Hq]; bool_simpl.
    + subst. exists 0, 0. rewrite !Z.mul_0_l. split_and!; lia.
    + pose proof (as_f32_exponent _ _ _ _ _ _ En).
      rewrite !Z.shiftl_mul_pow2 in * by lia. by eapply as_f32_single.
  - intros Hs. destruct (as_f32_exact n m e (conj Hm He) Hs) as (q & e' & -> & ? & Hv). cbn.
    rewrite !Z.shiftl_mul_pow2, Hv, Z.eqb_refl, eqb_reflx by lia. by rewrite orb_true_r.
Qed.

(** What the parameters of a float plan must say. *)
Definition float_plan (plan : ColumnConversionPlan) : Prop :=
  (target_parameter plan "target_bits" ≫= parse_u8) = Some 32
  ∧ (target_parameter plan "source_bits" ≫= parse_u8) = Some 64.

(** Under a double-to-single plan a captured double (16 hexadecimal digits) is
    accepted exactly when it is finite and exactly representable in single
    precision, subnormals included; every other value is refused as rounding
    or overflowing, so no admitted value changes when it is written. *)
Theorem float_plan_decides plan hex raw :
  float_plan plan → slen hex = 16 → parse_hex_u64 hex = Some raw →
  (validate_float_plan_value plan (VFloat 64 hex) = Ok () ↔ exactly_single (from_bits raw))
  ∧ (validate_float_plan_value plan (VFloat 64 hex) ≠ Ok () →
     validate_float_plan_value plan (VFloat 64 hex) = reject plan "float_rounding_or_overflow").
Proof.
  intros [Ht Hs] Hl Hr. unfold validate_float_plan_value. rewrite Ht, Hs. cbn.
  rewrite Hl. cbn. unfold required. rewrite Hr. cbn.
  rewrite <- (narrowing_exact (from_bits raw)) by apply from_bits_double.
  destruct (is_finite (from_bits raw)), (is_finite (as_f32 (from_bits raw))),
    (ieee_eq (as_f32 (from_bits raw)) (from_bits raw)); cbn; done.
Qed.
End Spec.

(** ** Instances: [0.5] and the least subnormal are exact, [0.1] is not, [2^128] overflows *)
Import Plan.Example4.
Definition float_plan9 : ColumnConversionPlan :=
  plan_with [("target_bits", "32"); ("source_bits", "64")]%string [].

Example floats9 :
  (λ hex, is_ok (validate_float_plan_value float_plan9 (VFloat 64 hex)))
  <$> ["3fe0000000000000"; "36a0000000000000"; "3fb999999999999a"; "47f0000000000000";
       "7ff8000000000000"; "47efffffe0000000"; "47efffffe0000001"; "3690000000000000"]%string
  = [true; true; false; false; false; true; false; false].
Proof. vm_compute. reflexivity. Qed.

Lemma float_plan_decides_witness :
  (validate_float_plan_value float_plan9 (VFloat 64 "36a0000000000000") = Ok ()
   ↔ Spec.exactly_single (from_bits 0x36a0000000000000))
  ∧ (validate_float_plan_value float_plan9 (VFloat 64 "36a0000000000000") ≠ Ok () →
     validate_float_plan_value float_plan9 (VFloat 64 "36a0000000000000")
     = reject float_plan9 "float_rounding_or_overflow").
Proof.
  apply (Spec.float_plan_decides float_plan9 "36a0000000000000" 0x36a0000000000000);
    [split; reflexivity|reflexivity..].
Defined.
