(* ===== verification/JsonText.v ===== *)
(** * JSON written as normalised text ([crates/change_event/src/compatibility.rs])

    A JSON value bound for a text column is rendered deterministically: object
    keys sorted, array order kept, integers without leading zeros, decimals at
    their declared scale.  The quoting of strings and the shortest form of a
    double are [serde_json]'s, the parameters of [JsonPrinter].  The theorems:
    the text does not depend on the order of object entries, numerals keep
    their value and scale, and rendering fails only on what JSON cannot write. *)
From S2P Require Import Prelude Text Utf8 Codec Model Canonical Validate Plan TextCodec Floats.

(** [serde_json::to_string] of a string and of a finite double. *)
Class JsonPrinter := {
  json_string : string → string;
  json_double : Z → string
}.

(** ** Numerals *)
Definition minus (value : string) : string := if is_some (strip_byte "-" value) then "-" else "".

(** [trim_start_matches('0')], or ["0"] when nothing is left. *)
Definition trim_zeros (digits : list byte) : list byte :=
  match significant digits with [] => [ZERO] | l => l end.

Definition normalized_integer (value : string) (signed : bool) : result string string :=
  let digits := strip_sign value in
  if sempty digits || negb (all_bytes is_ascii_digit digits)
  then Err "invalid JSON integer"%string
  else if negb signed && is_some (strip_byte "-" value)
  then Err "unsigned JSON integer is negative"%string
  else Ok (minus value +:+ of_bytes (trim_zeros (sbytes digits))).

Definition normalized_decimal (unscaled : string) (scale : Z) : result string string :=
  let digits := strip_sign unscaled in
  if sempty digits || negb (all_bytes is_ascii_digit digits)
  then Err "invalid JSON decimal"%string else
  let sign := minus unscaled in
  let digits := sbytes digits in
  if scale =? 0 then Ok (sign +:+ of_bytes (trim_zeros digits)) else
  let scale := Z.to_nat scale in
  let split := (length digits - scale)%nat in
  let '(whole, fraction) :=
    if bool_decide (split = 0%nat)
    then ([ZERO], replicate (scale - length digits) ZERO ++ digits)
    else (take split digits, drop split digits) in
  Ok (sign +:+ of_bytes (trim_zeros whole) +:+ "." +:+ of_bytes fraction).

(** ** Values *)
Section render.
Context `{JP : JsonPrinter}.

Definition normalized_double (value : string) : result string string :=
  if negb (slen value =? 16) || negb (all_bytes is_ascii_hexdigit value)
  then Err "invalid JSON double bit pattern"%string else
  let? bits := ok_or "invalid JSON double bit pattern"%string (parse_hex_u64 value) in
  match from_bits bits with
  | Finite negative mantissa _ =>
      if (mantissa =? 0) && negative then Ok "-0.0"%string else Ok (json_double bits)
  | _ => Err "JSON text cannot represent a non-finite number"%string
  end.

(** [Iterator::collect] into a [Result] of a vector: the first error in order. *)
Fixpoint collect {A} (l : list (result string A)) : result string (list A) :=
  match l with
  | [] => Ok []
  | m :: l' => let? x := m in let? xs := collect l' in Ok (x :: xs)
  end.

(** Two equal keys next to each other ([windows(2)]). *)
Fixpoint adjacent_duplicate (keys : list string) : bool :=
  match keys with
  | a :: (b :: _) as rest => bool_decide (a = b) || adjacent_duplicate rest
  | _ => false
  end.

Definition render_entry (e : JsonEntry_ (result string string)) : result string string :=
  let? value := je_value e in Ok (json_string (je_key e) +:+ ":" +:+ value).

(** The entries of an object once their values are rendered (each rendering is
    consulted, in key order, only after the duplicate test). *)
Definition render_object (entries : list (JsonEntry_ (result string string))) : result string string :=
  let entries := sort_by String.le je_key entries in
  if adjacent_duplicate (je_key <$> entries) then Err "duplicate JSON object key"%string else
  let? rendered := collect (render_entry <$> entries) in
  Ok ("{" +:+ join "," rendered +:+ "}").

Fixpoint render_normalized_json (value : JsonValue) : result string string :=
  match value with
  | JNull => Ok "null"%string
  | JBoolean b => Ok (if b then "true" else "false")%string
  | JString s => Ok (json_string s)
  | JSignedInteger v => normalized_integer v true
  | JUnsignedInteger v => normalized_integer v false
  | JDoubleBits v => normalized_double v
  | JDecimal unscaled scale => normalized_decimal unscaled scale
  | JArray values =>
      let? rendered := collect (render_normalized_json <$> values) in
      Ok ("[" +:+ join "," rendered +:+ "]")
  | JObject entries =>
      render_object ((λ e, mkJsonEntry (je_key e) (render_normalized_json (je_value e))) <$> entries)
  end.

(** ** The plan *)
Definition validate_json_plan_value (plan : ColumnConversionPlan) (value : LogicalValue) : planned () :=
  match value with
  | VJson value =>
      match plan_parameter plan "json_strategy" with
      | Some strategy =>
          if bool_decide (strategy = "normalized_text"%string) then
            match render_normalized_json value with
            | Ok _ => Ok ()
            | Err _ => reject plan "json_normalization_failed"
            end
          else if bool_decide (strategy = "raw_text"%string) then reject plan "json_raw_text_unavailable"
          else if bool_decide (strategy = "structured"%string) then Ok ()
          else reject plan "json_strategy_invalid"
      | None => Ok ()
      end
  | _ => reject plan "json_type_mismatch"
  end.

Context `{B64 : Base64}.

Definition convert_json_value (plan : ColumnConversionPlan) (value : LogicalValue) : planned LogicalValue :=
  match value with
  | VJson value =>
      let strategy := default "structured"%string (plan_parameter plan "json_strategy") in
      if bool_decide (strategy = "raw_text"%string) then reject plan "json_raw_text_unavailable"
      else if negb (bool_decide (strategy = "normalized_text"%string))
      then reject plan "json_strategy_invalid" else
      match render_normalized_json value with
      | Err _ => reject plan "json_normalization_failed"
      | Ok normalized =>
          let? target_charset := required_text_parameter plan "target_charset" in
          let? encoded := coded plan (encode_supported_text target_charset normalized) in
          Ok (VText target_charset (b64_encode encoded) (Some normalized))
      end
  | _ => reject plan "json_type_mismatch"
  end.
End render.

(** ** What the text says *)
Module Spec.
Import Plan.Spec TextCodec.Spec.

(** *** Numerals keep their value *)

(** No superfluous leading zero. *)
Definition plain (whole : list byte) : Prop :=
  whole = [ZERO] ∨ ∃ c r, whole = c :: r ∧ c ≠ ZERO.

Lemma string_app_nil s : s +:+ "" = s.
Proof. induction s as [|c s IH]; [done|]. cbn. by rewrite IH. Qed.

Lemma significant_plain l : significant l = [] ∨ ∃ c r, significant l = c :: r ∧ c ≠ ZERO.
Proof.
  induction l as [|c l IH]; [by left|]. cbn. case_bool_decide; [done|]. right. eauto.
Qed.

Lemma significant_digits l : all_digits l → all_digits (significant l).
Proof. induction 1 as [|c l Hc Hl IH]; cbn; [constructor|]. case_bool_decide; [done|by constructor]. Qed.

Lemma trim_zeros_spec l :
  plain (trim_zeros l) ∧ value_of (trim_zeros l) = value_of l
  ∧ (all_digits l → all_digits (trim_zeros l)).
Proof.
  rewrite <- (significant_value l). unfold trim_zeros. pose proof (significant_digits l) as Hd.
  destruct (significant_plain l) as [E|(c & r & E & Hc)]; rewrite E in *.
  - split_and!; [by left|done|]. intros _. by repeat constructor.
  - split_and!; [right; eauto|done|done].
Qed.

Lemma digits_of_checks s :
  sempty s || negb (all_bytes is_ascii_digit s) = false →
  all_digits (sbytes s) ∧ s ≠ ""%string.
Proof.
  intros [He Hd]%orb_false_iff. apply negb_false_iff in Hd. split.
  - apply Forall_forall. intros c Hc. by apply (proj1 (all_bytes_spec _ _) Hd).
  - by destruct s.
Qed.

(** A decimal is written without superfluous leading zeros, with exactly its
    declared number of fraction digits and with the digits of its coefficient:
    the text denotes the same number and keeps the scale, trailing zeros
    included; an integer is the case of scale zero. *)
Theorem decimal_text_exact unscaled scale text :
  0 ≤ scale → normalized_decimal unscaled scale = Ok text →
  ∃ whole fraction,
    text = minus unscaled +:+ of_bytes whole
           +:+ (if scale =? 0 then "" else "." +:+ of_bytes fraction)
    ∧ plain whole ∧ Z.of_nat (length fraction) = scale
    ∧ all_digits (whole ++ fraction)
    ∧ value_of (whole ++ fraction) = value_of (sbytes (strip_sign unscaled)).
Proof.
  intros Hs. unfold normalized_decimal.
  destruct (sempty _ || _) eqn:Hc; [done|]. apply digits_of_checks in Hc as [Hd _].
  set (digits := sbytes (strip_sign unscaled)) in *. destruct (Z.eqb_spec scale 0) as [->|Hs0].
  { intros [= <-]. exists (trim_zeros digits), []. rewrite app_nil_r.
    destruct (trim_zeros_spec digits) as (? & ? & ?).
    split_and!; auto. cbn. by rewrite string_app_nil. }
  set (k := Z.to_nat scale). case_bool_decide as Hk; intros [= <-].
  - exists (trim_zeros [ZERO]), (replicate (k - length digits) ZERO ++ digits).
    split_and!; [done|by left|rewrite length_app, length_replicate; lia|..].
    + cbn. repeat constructor. apply digits_app. split; [apply replicate_digits|done].
    + change (trim_zeros [ZERO]) with (replicate 1 ZERO). by rewrite !value_zeros.
  - exists (trim_zeros (take (length digits - k) digits)), (drop (length digits - k) digits).
    destruct (trim_zeros_spec (take (length digits - k) digits)) as (? & Hv & Ha).
    rewrite <- (take_drop (length digits - k) digits) in Hd. apply digits_app in Hd as [? ?].
    split_and!; [done|done|rewrite length_drop; lia|apply digits_app; auto|].
    rewrite value_app, Hv, <- value_app. by rewrite take_drop.
Qed.

(** *** The order of entries does not matter *)
Section render.
Context `{JP : JsonPrinter}.

Lemma render_reordered v w :
  json_reordered v w → render_normalized_json v = render_normalized_json w.
Proof.
  induction 1 as [|????????|l k Hnd Hp|l v w k _ IH|l n v w k _ IH]; cbn;
    [done|congruence|..].
  - unfold render_object. rewrite (sort_by_unique String.le je_key _
      ((λ e, mkJsonEntry (je_key e) (render_normalized_json (je_value e))) <$> k)); [done|..].
    + by rewrite <- list_fmap_compose.
    + by apply fmap_Permutation.
  - by rewrite !fmap_app, !fmap_cons, IH.
  - rewrite !fmap_app, !fmap_cons. cbn. by rewrite IH.
Qed.

(** *** Which validated values can be written *)
Fixpoint writable (v : JsonValue) : bool :=
  match v with
  | JDoubleBits s => match parse_hex_u64 s with Some raw => is_finite (from_bits raw) | None => false end
  | JDecimal unscaled _ => negb (special_decimal unscaled)
  | JArray l => forallb writable l
  | JObject l => forallb (λ e, writable (je_value e)) l
  | _ => true
  end.

Lemma collect_ok {A} (l : list (result string A)) :
  is_ok (collect l) = forallb is_ok l.
Proof.
  induction l as [|[x|e] l IH]; cbn; [done| |done].
  rewrite <- IH. by destruct (collect l).
Qed.

Lemma sorted_no_duplicate (l : list string) :
  Sorted String.le l → NoDup l → adjacent_duplicate l = false.
Proof.
  induction 1 as [|x l Hl IH Hx]; [done|]. intros [Hn Hnd]%NoDup_cons.
  destruct l as [|y l]; [done|]. cbn. rewrite bool_decide_eq_false_2; [by apply IH|].
  intros ->. apply Hn. left.
Qed.

Lemma sorted_keys {V} (l : list (JsonEntry_ V)) :
  Sorted (key_le String.le je_key) l → Sorted String.le (je_key <$> l).
Proof.
  induction 1 as [|x l Hl IH Hx]; cbn; constructor; [done|]. destruct Hx; by constructor.
Qed.

Lemma forallb_perm {A} (p : A → bool) l k : l ≡ₚ k → forallb p l = forallb p k.
Proof.
  induction 1; cbn; [done|congruence| |congruence].
  by rewrite !andb_assoc, (andb_comm (p y)).
Qed.

Lemma render_object_ok (l : list (JsonEntry_ (result string string))) :
  NoDup (je_key <$> l) → is_ok (render_object l) = forallb (λ e, is_ok (je_value e)) l.
Proof.
  intros Hnd. unfold render_object. rewrite sorted_no_duplicate.
  - rewrite <- (forallb_perm _ _ _ (sort_by_perm String.le je_key l)).
    assert (∀ es, is_ok (collect (render_entry <$> es)) = forallb (λ e, is_ok (je_value e)) es) as Hc.
    { intros es. rewrite collect_ok. induction es as [|[k [s|e]] es IH]; cbn in *; by rewrite ?IH. }
    rewrite <- Hc. by destruct (collect _).
  - apply sorted_keys, sort_by_sorted, _.
  - by rewrite (sort_by_perm String.le je_key l).
Qed.

Lemma negb_both (a b : bool) : negb a && b = negb (a || negb b).
Proof. by destruct a, b. Qed.

Lemma unsigned_digits s :
  let digits := strip_minus s in
  negb (sempty digits) && all_bytes is_ascii_digit digits = true →
  strip_sign s = digits.
Proof.
  unfold strip_minus, strip_sign. destruct (strip_byte "-" s) as [d|] eqn:E; [done|]. cbn.
  intros [_ Hd]%andb_true_iff.
  by rewrite (strip_byte_none "+" s) by by apply digits_not_byte.
Qed.

Lemma integer_text s signed :
  Validate.integer s signed 64 = Ok () → is_ok (normalized_integer s signed) = true.
Proof.
  unfold Validate.integer, normalized_integer. intros H. ok_inv H.
  assert (strip_sign s = (if signed then strip_minus s else s)
          ∧ (signed = false → strip_byte "-" s = None)) as [Hd Hm].
  { destruct signed; [split; [by apply unsigned_digits|done]|].
    match goal with H : _ && _ = true |- _ => apply andb_true_iff in H as [_ Hd] end.
    assert (strip_byte "-" s = None) as Hn by by apply strip_byte_none, digits_not_byte.
    split; [|done]. unfold strip_sign. rewrite Hn.
    by rewrite (strip_byte_none "+" s) by by apply digits_not_byte. }
  rewrite Hd. match goal with H : _ && _ = true |- _ => rewrite negb_both, negb_true_iff in H; rewrite H end.
  destruct signed; cbn; [done|]. by rewrite Hm.
Qed.

Lemma decimal_text s scale :
  decimal s scale = Ok () → is_ok (normalized_decimal s scale) = negb (special_decimal s).
Proof.
  unfold decimal, normalized_decimal. destruct (special_decimal s) eqn:Hs; intros H.
  - unfold special_decimal in Hs. rewrite !orb_true_iff, !bool_decide_eq_true in Hs.
    by destruct Hs as [[->| ->]| ->].
  - apply ensure_ok in H. rewrite (unsigned_digits s H). 
    rewrite negb_both, negb_true_iff in H. rewrite H. destruct (scale =? 0); [done|].
    by case_bool_decide.
Qed.

(** A validated JSON value can be written as text unless it contains a
    non-finite double or a special decimal (NaN, Infinity): JSON has no
    spelling for them, and the only failures are these. *)
Theorem render_succeeds v d :
  json_value v d = Ok () → is_ok (render_normalized_json v) = writable v.
Proof.
  revert d. induction v as [| | | | |s|u s|l IH|l IH] using JsonValue_nested_ind; intros d H;
    cbn [json_value] in H; apply seq_ok in H as [_ H]; cbn [render_normalized_json writable].
  1-3: done.
  - by apply integer_text.
  - by apply integer_text.
  - unfold Validate.float in H. apply ensure_ok in H. apply andb_true_iff in H as [H Hx].
    apply andb_true_iff in H as [_ Hl]. unfold normalized_double.
    change (64 / 4) with 16 in Hl. rewrite Hl, Hx. cbn.
    destruct (parse_hex_u64 s) as [raw|]; [|done]. cbn.
    destruct (from_bits raw); [done..|]. by destruct (_ && _).
  - apply seq_ok in H as [_ H]. by apply decimal_text.
  - rewrite each_ok, Forall_forall in H. rewrite Forall_forall in IH.
    transitivity (is_ok (collect (render_normalized_json <$> l))); [by destruct (collect _)|].
    rewrite collect_ok. induction l as [|x l IHl]; [done|]. cbn.
    rewrite (IH x (list_elem_of_here _ _) _ (H x (list_elem_of_here _ _))), IHl; [done|..];
      intros; eauto using list_elem_of_further.
  - apply each_distinct_nil_ok in H as [Hnd H]. rewrite render_object_ok.
    + rewrite Forall_forall in H, IH. clear Hnd. induction l as [|x l IHl]; [done|]. cbn.
      destruct (H x (list_elem_of_here _ _)) as [_ Hx].
      rewrite (IH x (list_elem_of_here _ _) _ Hx), IHl; [done|..];
        intros; eauto using list_elem_of_further.
    + by rewrite <- list_fmap_compose.
Qed.

(** *** The plan *)
Context `{B64 : Base64}.

(** Under a normalised-text plan, JSON objects that differ only in the order
    of their entries become the same text; whatever is rendered is accepted,
    converted when the target charset has its characters, and the target bytes
    read back as exactly that text; what cannot be rendered is refused by the
    check and by the conversion alike. *)
Theorem json_plan_decides plan tc rep v w :
  plan_parameter plan "json_strategy" = Some "normalized_text"%string →
  target_parameter plan "target_charset" = Some tc → tc ≠ ""%string → repertoire tc = Some rep →
  json_reordered v w →
  match render_normalized_json w with
  | Ok text =>
      rust_string text →
      validate_json_plan_value plan (VJson v) = Ok ()
      ∧ if decide (Forall (λ c, rep c = true) (chars text)) then
          ∃ encoded, convert_json_value plan (VJson v) = Ok (VText tc (b64_encode encoded) (Some text))
                     ∧ decode_supported_text tc encoded (Some text) = Ok text
        else convert_json_value plan (VJson v)
             = Err (plan_failure plan "target_capability.text_character_unrepresentable")
  | Err _ =>
      validate_json_plan_value plan (VJson v) = reject plan "json_normalization_failed"
      ∧ convert_json_value plan (VJson v) = reject plan "json_normalization_failed"
  end.
Proof.
  intros Hp Ht Hn Hr Hvw. rewrite <- (render_reordered v w Hvw).
  unfold validate_json_plan_value, convert_json_value. rewrite Hp. cbn.
  destruct (render_normalized_json v) as [text|]; [|done]. intros Hs. split; [done|].
  unfold required_text_parameter. rewrite Ht. replace (sempty tc) with false by by destruct tc.
  cbn. pose proof (encode_spec tc text rep Hs Hr) as He. unfold coded. case_decide.
  - destruct He as (encoded & -> & Hb). exists encoded. done.
  - by rewrite He.
Qed.
End render.
End Spec.

(** ** Instances *)
Module Example10.
(** Quoting for strings without control characters, quotes or backslashes. *)
Definition QUOTE10 : string := String "034" "".
#[local] Instance plain_printer : JsonPrinter := {|
  json_string s := QUOTE10 +:+ s +:+ QUOTE10;
  json_double n := show_nat n
|}.
Definition json_plan10 : ColumnConversionPlan :=
  Plan.Example4.plan_with [("target_charset", "utf8mb4")]%string [("json_strategy", "normalized_text")]%string.
(** [{"b": [1, true], "a": -0.50}] and its reordering. *)
Definition price10 : JsonEntry := mkJsonEntry "a" (JDecimal "-050" 2).
Definition flags10 : JsonEntry := mkJsonEntry "b" (JArray [JUnsignedInteger "001"; JBoolean true]).
End Example10.
Import Example10.

Example render10 :
  render_normalized_json (JP := plain_printer) (JObject [flags10; price10])
  = Ok ("{" +:+ QUOTE10 +:+ "a" +:+ QUOTE10 +:+ ":-0.50," +:+ QUOTE10 +:+ "b" +:+ QUOTE10
        +:+ ":[1,true]}")%string.
Proof. reflexivity. Qed.

Lemma decimal_text_exact_witness :
  ∃ whole fraction,
    "-0.050"%string = minus "-0050" +:+ of_bytes whole +:+ (if 3 =? 0 then "" else "." +:+ of_bytes fraction)
    ∧ Spec.plain whole ∧ Z.of_nat (length fraction) = 3
    ∧ Plan.Spec.all_digits (whole ++ fraction)
    ∧ Plan.Spec.value_of (whole ++ fraction) = Plan.Spec.value_of (sbytes (strip_sign "-0050")).
Proof. apply (Spec.decimal_text_exact "-0050" 3 "-0.050"); [lia|reflexivity]. Defined.

Lemma render_succeeds_witness :
  let v := JArray [JDoubleBits "7ff0000000000000"; JNull] in
  is_ok (render_normalized_json (JP := plain_printer) v) = false.
Proof.
  intros v. rewrite (Spec.render_succeeds (JP := plain_printer) v 0 ltac:(reflexivity)). reflexivity.
Defined.

Lemma json_plan_decides_witness :
  ∃ text,
    render_normalized_json (JP := plain_printer) (JObject [price10; flags10]) = Ok text
    ∧ validate_json_plan_value (JP := plain_printer) json_plan10 (VJson (JObject [flags10; price10])) = Ok ()
    ∧ ∃ encoded,
        convert_json_value (JP := plain_printer) (B64 := Rfc4648.base64) json_plan10
          (VJson (JObject [flags10; price10]))
        = Ok (VText "utf8mb4" (b64_encode (Base64 := Rfc4648.base64) encoded) (Some text))
        ∧ decode_supported_text "utf8mb4" encoded (Some text) = Ok text.
Proof.
  pose proof (Spec.json_plan_decides (JP := plain_printer) (B64 := Rfc4648.base64)
    json_plan10 "utf8mb4" (λ _, true) (JObject [flags10; price10]) (JObject [price10; flags10])
    eq_refl eq_refl ltac:(discriminate) eq_refl) as H.
  eexists. split; [reflexivity|].
  destruct (H ltac:(apply jr_object; [refine (bool_decide_unpack _ _); vm_compute; exact I|constructor]) ltac:(vm_compute; reflexivity)) as [Hv Hc].
  split; [exact Hv|]. rewrite decide_True in Hc by (vm_compute; repeat constructor). exact Hc.
Defined.
