(* ===== verification/Temporal.v ===== *)
(** * Temporal conversion plans ([crates/change_event/src/compatibility.rs])

    Fixed time-zone offsets, precision checks, and the conversions between
    local date-times and instants.  The calendar arithmetic is Calendar.v. *)
From S2P Require Import Prelude Text Codec Model Outcome Calendar Validate Plan.

(** ** Fixed offsets *)

(** The part common to [parse_timezone_offset] and [parse_timezone_value].  The
    hours and minutes are parsed as [i32], which admits a sign of their own; the
    final arithmetic is 32-bit. *)
Definition parse_offset (value : string) : option Z :=
  if eq_ignore_case value "utc" || bool_decide (value = "Z"%string) then Some 0 else
  match value with
  | String c rest =>
      sign ← (if bool_decide (c = "+"%char) then Some 1
              else if bool_decide (c = "-"%char) then Some (-1) else None);
      '(hours, minutes) ← split_once ":" rest;
      hours ← parse_i32 hours;
      minutes ← parse_i32 minutes;
      if (23 <? hours) || (59 <? minutes) then None
      else Some (wrap_s 32 (sign * (hours * 3600 + minutes * 60)))
  | EmptyString => None
  end.

Definition parse_timezone_offset (plan : ColumnConversionPlan) : planned Z :=
  let? value := required plan "timezone_missing"
    (match pl_parameters plan !! "time_zone"%string with
     | Some v => Some v
     | None => pl_parameters plan !! "timezone"%string
     end) in
  required plan "timezone_invalid" (parse_offset value).

(** The same check when a plan is made; the error texts aside. *)
Definition parse_timezone_value (value : string) : option Z := parse_offset value.

(** ** Precision *)
Definition validate_microsecond_precision (plan : ColumnConversionPlan) (microsecond precision : Z) : planned () :=
  if negb (microsecond mod 10 ^ (6 - precision) =? 0) then reject plan "temporal_precision_loss" else Ok ().
Definition validate_nanosecond_precision (plan : ColumnConversionPlan) (nanoseconds precision : Z) : planned () :=
  if negb (nanoseconds mod 10 ^ (9 - precision) =? 0) then reject plan "temporal_precision_loss" else Ok ().

Definition temporal_kind (plan : ColumnConversionPlan) (name : string) : string :=
  default ""%string (target_parameter plan name).

Definition validate_temporal_plan_value (plan : ColumnConversionPlan) (value : LogicalValue) : planned () :=
  let source_kind := temporal_kind plan "source_temporal_kind" in
  let target_kind := temporal_kind plan "target_temporal_kind" in
  let? target_precision := required plan "temporal_precision_invalid"
    (p ← target_parameter plan "target_precision" ≫= parse_u8; if p <=? 6 then Some p else None) in
  if negb (bool_decide (pl_parameters plan !! "precision_policy"%string = Some "reject"%string))
  then reject plan "temporal_precision_policy_missing" else
  match source_kind, target_kind, value with
  | "local_datetime"%string, "local_datetime"%string, VLocalDatetime _ _ _ _ _ _ microsecond =>
      validate_microsecond_precision plan microsecond target_precision
  | "instant"%string, "instant"%string, VInstant _ nanoseconds =>
      validate_nanosecond_precision plan nanoseconds target_precision
  | "duration"%string, "duration"%string, VDuration _ _ _ _ microsecond =>
      validate_microsecond_precision plan microsecond target_precision
  | "local_datetime"%string, "instant"%string, VLocalDatetime _ _ _ _ _ _ microsecond =>
      validate_microsecond_precision plan microsecond target_precision ;?
      (let? _ := parse_timezone_offset plan in Ok ())
  | "instant"%string, "local_datetime"%string, VInstant _ nanoseconds =>
      validate_nanosecond_precision plan nanoseconds target_precision ;?
      (let? _ := parse_timezone_offset plan in Ok ())
  | _, _, _ => reject plan "temporal_type_mismatch"
  end.

(** ** Conversion *)
Definition convert_temporal_value (plan : ColumnConversionPlan) (value : LogicalValue) : planned LogicalValue :=
  match temporal_kind plan "source_temporal_kind", temporal_kind plan "target_temporal_kind", value with
  | "local_datetime"%string, "local_datetime"%string, VLocalDatetime _ _ _ _ _ _ _
  | "instant"%string, "instant"%string, VInstant _ _
  | "duration"%string, "duration"%string, VDuration _ _ _ _ _ => Ok value
  | "local_datetime"%string, "instant"%string, VLocalDatetime year month day hour minute second microsecond =>
      let? offset := parse_timezone_offset plan in
      let days := days_from_civil year month day in
      let seconds := wrap_s 64 (days * 86400 + hour * 3600 + minute * 60 + second - offset) in
      Ok (VInstant (show_int seconds) (wrap_u 32 (microsecond * 1000)))
  | "instant"%string, "local_datetime"%string, VInstant unix_seconds nanoseconds =>
      let? offset := parse_timezone_offset plan in
      let? seconds := required plan "temporal_value_invalid" (parse_i64 unix_seconds) in
      let seconds := wrap_s 64 (seconds + offset) in
      let days := seconds / 86400 in
      let day_seconds := seconds mod 86400 in
      let '(year, month, day) := civil_from_days days in
      if negb (in_range i32_min i32_max year) then reject plan "temporal_value_invalid" else
      Ok (VLocalDatetime year (wrap_u 8 month) (wrap_u 8 day) (wrap_u 8 (Z.quot day_seconds 3600))
            (wrap_u 8 (Z.quot (Z.rem day_seconds 3600) 60)) (wrap_u 8 (Z.rem day_seconds 60))
            (Z.quot nanoseconds 1000))
  | _, _, _ => reject plan "temporal_type_mismatch"
  end.

(** ** What the conversions promise *)
Module Spec.
Lemma wrap_s_small w z : 0 < w → - 2 ^ (w - 1) ≤ z < 2 ^ (w - 1) → wrap_s w z = z.
Proof.
  intros Hw Hz. unfold wrap_s. assert (2 ^ w = 2 * 2 ^ (w - 1)) as Hp.
  { rewrite <- Z.pow_succ_r by lia. f_equal. lia. }
  rewrite Z.mod_small; lia.
Qed.
Lemma wrap_u_small w z : 0 ≤ z < 2 ^ w → wrap_u w z = z.
Proof. intros. by apply Z.mod_small. Qed.

(** The two plans of a column that is stored as an instant and read as local
    time at one fixed offset. *)
Record zone_plan (plan : ColumnConversionPlan) (source target : string) (offset : Z) : Prop := {
  zp_source : target_parameter plan "source_temporal_kind" = Some source;
  zp_target : target_parameter plan "target_temporal_kind" = Some target;
  zp_offset : parse_timezone_offset plan = Ok offset
}.

(** The seconds since 1970 of a local date-time. *)
Definition local_seconds (year month day hour minute second : Z) : Z :=
  days_from_civil year month day * 86400 + hour * 3600 + minute * 60 + second.

Definition clock (h m s us : Z) : Prop := 0 ≤ h < 24 ∧ 0 ≤ m < 60 ∧ 0 ≤ s < 60 ∧ 0 ≤ us < 1000000.

Lemma clock_parts h m s us :
  clock h m s us →
  let t := h * 3600 + m * 60 + s in
  0 ≤ t < 86400 ∧ Z.quot t 3600 = h ∧ Z.quot (Z.rem t 3600) 60 = m ∧ Z.rem t 60 = s.
Proof. unfold clock. intros H. cbv zeta. Z.to_euclidean_division_equations. lia. Qed.

(** Shifting a local date-time to an instant and back is the identity: for
    every calendar date of the 32-bit years, every time of day and every
    offset below 24 hours, the instant is the local second count less the
    offset, and the inverse plan returns the date-time unchanged. *)
Theorem local_instant_roundtrip (to_instant to_local : ColumnConversionPlan) (offset : Z)
    (y mo d h m s us : Z) :
  zone_plan to_instant "local_datetime" "instant" offset →
  zone_plan to_local "instant" "local_datetime" offset →
  -86400 < offset < 86400 → i32_min ≤ y ≤ i32_max → valid_date y mo d → clock h m s us →
  let instant := VInstant (show_int (local_seconds y mo d h m s - offset)) (us * 1000) in
  convert_temporal_value to_instant (VLocalDatetime y mo d h m s us) = Ok instant
  ∧ convert_temporal_value to_local instant = Ok (VLocalDatetime y mo d h m s us).
Proof.
  intros [H1 H2 H3] [H4 H5 H6] Ho Hy Hd Hc instant.
  pose proof (days_from_civil_bounds y mo d Hy Hd) as Hb.
  assert (civil_from_days (days_from_civil y mo d) = (y, mo, d)) as Hciv by (by apply civil_days_inverse).
  destruct (clock_parts h m s us Hc) as (Ht & Hh & Hm & Hs). destruct Hc as (Ch & Cm & Cs & Cu).
  assert (1 ≤ mo ≤ 12 ∧ 1 ≤ d ≤ 31) as [Hmo Hday].
  { split; [by apply (days_in_month_months y); unfold valid_date in Hd; lia|].
    unfold valid_date in Hd. split; [lia|]. etrans; [apply Hd|].
    unfold days_in_month. repeat case_match; lia. }
  split.
  - unfold convert_temporal_value, temporal_kind. rewrite H1, H2, H3. cbn [mbind result_bind default].
    unfold local_seconds in instant. rewrite wrap_s_small, wrap_u_small by lia. done.
  - unfold convert_temporal_value, temporal_kind, instant. rewrite H4, H5, H6. cbn [mbind result_bind default].
    unfold parse_i64, local_seconds. rewrite parse_signed_show by (unfold i64_min, i64_max; lia).
    cbn [required ok_or mbind result_bind]. rewrite wrap_s_small by lia.
    set (t := h * 3600 + m * 60 + s) in *.
    replace (days_from_civil y mo d * 86400 + h * 3600 + m * 60 + s - offset + offset)
      with (t + days_from_civil y mo d * 86400) by lia.
    rewrite Z.div_add, Z.div_small, Z.add_0_l, Z_mod_plus_full, Z.mod_small, Hciv by lia.
    rewrite (proj2 (in_range_spec _ _ _)) by done. cbn [negb]. rewrite Hh, Hm, Hs.
    rewrite !wrap_u_small by lia. rewrite Z.quot_mul by lia. done.
Qed.

Import Validate.Spec.

Lemma parse_i32_digits s :
  is_digits s → parse_i32 s = if in_range i32_min i32_max (digits_value s) then Some (digits_value s) else None.
Proof.
  intros H. unfold parse_i32, parse_signed.
  rewrite !digits_no_sign by done. cbn. by rewrite parse_digits_value.
Qed.

Lemma digits_no_colon s : is_digits s → contains_byte ":" s = false.
Proof. intros [_ H]%is_digits_spec. by apply digits_not_byte. Qed.

(** A fixed offset is read as it is written: a sign, hours and minutes in
    decimal digits denote that many seconds east or west of UTC when the hours
    are at most 23 and the minutes at most 59, and are refused otherwise. *)
Theorem fixed_offset_decides (west : bool) (hours minutes : string) :
  is_digits hours → is_digits minutes →
  parse_offset (String (if west then "-" else "+")%char (hours +:+ String ":" minutes))
  = if decide (digits_value hours ≤ 23 ∧ digits_value minutes ≤ 59)
    then Some ((if west then -1 else 1) * (digits_value hours * 3600 + digits_value minutes * 60))
    else None.
Proof.
  intros Hh Hm. unfold parse_offset.
  assert (∀ r, eq_ignore_case (String (if west then "-" else "+")%char r) "utc"
          || bool_decide (String (if west then "-" else "+")%char r = "Z"%string) = false) as ->.
  { intros r. apply orb_false_iff. split; [|by apply bool_decide_eq_false; destruct west].
    unfold eq_ignore_case. apply bool_decide_eq_false. by destruct west. }
  assert ((if bool_decide ((if west then "-" else "+")%char = "+"%char) then Some 1
           else if bool_decide ((if west then "-" else "+")%char = "-"%char) then Some (-1) else None)
          = Some (if west then -1 else 1)) as -> by (by destruct west).
  cbn [mbind option_bind]. rewrite split_once_app by (by apply digits_no_colon). cbn [mbind option_bind].
  rewrite !parse_i32_digits by done. pose proof (digits_value_nonneg _ Hh). pose proof (digits_value_nonneg _ Hm).
  destruct (in_range i32_min i32_max (digits_value hours)) eqn:E1; cbn [mbind option_bind].
  2:{ rewrite decide_False; [done|]. intros [? _]. apply not_true_iff_false in E1. apply E1, in_range_spec.
      unfold i32_min, i32_max. lia. }
  destruct (in_range i32_min i32_max (digits_value minutes)) eqn:E2; cbn [mbind option_bind].
  2:{ rewrite decide_False; [done|]. intros [_ ?]. apply not_true_iff_false in E2. apply E2, in_range_spec.
      unfold i32_min, i32_max. lia. }
  destruct (decide _) as [[? ?]|Hno].
  - rewrite !(proj2 (Z.ltb_ge _ _)) by lia. cbn [orb]. rewrite wrap_s_small by (destruct west; lia). done.
  - destruct (Z.ltb_spec 23 (digits_value hours)); [done|].
    destruct (Z.ltb_spec 59 (digits_value minutes)); [done|]. exfalso. apply Hno. lia.
Qed.

(** The range check has no lower bound: after the sign, hours and minutes may
    carry a sign of their own, and then reach below it. *)
Theorem signed_offset_parts_accepted :
  parse_offset "+-5:00" = Some (-18000) ∧ parse_offset "--5:00" = Some 18000
  ∧ parse_offset "+-99:00" = Some (-356400).
Proof. repeat split; vm_compute; reflexivity. Qed.
End Spec.

(** ** A column of instants, read at +08:00 *)
Module Example5.
Definition to_instant5 : ColumnConversionPlan :=
  Example4.plan_with [("source_temporal_kind", "local_datetime"); ("target_temporal_kind", "instant")]%string
    [("time_zone", "+08:00")]%string.
Definition to_local5 : ColumnConversionPlan :=
  Example4.plan_with [("source_temporal_kind", "instant"); ("target_temporal_kind", "local_datetime")]%string
    [("time_zone", "+08:00")]%string.
End Example5.
Import Example5.

Lemma local_instant_roundtrip_witness :
  convert_temporal_value to_instant5 (VLocalDatetime 2024 2 29 23 59 58 5)
  = Ok (VInstant (show_int (Spec.local_seconds 2024 2 29 23 59 58 - 28800)) (5 * 1000))
  ∧ convert_temporal_value to_local5 (VInstant (show_int (Spec.local_seconds 2024 2 29 23 59 58 - 28800)) (5 * 1000))
    = Ok (VLocalDatetime 2024 2 29 23 59 58 5).
Proof.
  apply (Spec.local_instant_roundtrip to_instant5 to_local5 28800 2024 2 29 23 59 58 5).
  - split; vm_compute; reflexivity.
  - split; vm_compute; reflexivity.
  - lia.
  - unfold i32_min, i32_max. lia.
  - unfold valid_date. vm_compute. split; discriminate.
  - unfold Spec.clock. lia.
Defined.

Lemma fixed_offset_decides_witness : parse_offset "-03:30" = Some (-1 * (3 * 3600 + 30 * 60)).
Proof.
  pose proof (Spec.fixed_offset_decides true "03" "30") as H.
  apply H; apply Validate.Spec.is_digits_spec; split; reflexivity.
Defined.
