(* ===== verification/Convert.v ===== *)
(** * Applying the saved plans ([crates/change_event/src/compatibility.rs])

    The dispatcher over the value families: [validate_value_against_plan]
    chooses the check a plan's parameters ask for, [convert_value_with_plan]
    the conversion, and [convert_transaction_with_plans] applies them to every
    planned column of a transaction before a sink renders SQL.  Serialised
    types, values, envelopes, metadata and member lists are [serde_json]'s: the
    parameters of [PlanSerde].  A result of [None] is a panic of the source. *)
From S2P Require Import Prelude Text Codec Model Representation Validate Plan Temporal TextCodec LogicalTypes Families Floats JsonText.

Class PlanSerde := {
  ps_type : string → option LogicalType;
  ps_members : string → option (list string);
  ps_metadata : string → option (gmap string string);
  ps_keys : string → option (gset string);
  ps_type_json : LogicalType → list byte;
  ps_metadata_json : gmap string string → list byte;
  ps_keys_json : gset string → list byte;
  ps_value_json : LogicalValue → option (list byte);
  ps_envelope_json : SourceRepresentationEnvelope → option (list byte)
}.

(** [Result::map] *)
Definition ok_map {E A B} (f : A → B) (m : result E A) : result E B := f <$> m.

(** The double quote. *)
Definition QUOTE : byte := "034"%char.

Section convert.
Context `{B64 : Base64, SHA : Sha256, JP : JsonPrinter, PS : PlanSerde}.

(** ** The tagged carrier of a whole logical value *)
Definition carrier_type_matches (plan : ColumnConversionPlan) (value : LogicalValue) : bool :=
  match target_parameter plan "source_logical_type_json" ≫= ps_type with
  | Some source_type =>
      bool_decide (target_parameter plan "source_logical_type_digest"
                   = Some (sha256_hex (ps_type_json source_type)))
      && matches_value source_type value
  | None => false
  end.

Definition validate_logical_value_carrier (plan : ColumnConversionPlan) (value : LogicalValue) : planned () :=
  if bool_decide (target_parameter plan "logical_value_schema" = Some "change_event.logical_value.v0_3"%string)
     && bool_decide (target_parameter plan "value_strategy" = Some "tagged_json_v0_3"%string)
     && match target_parameter plan "target_storage" with Some s => negb (sempty s) | None => false end
     && carrier_type_matches plan value
  then
    let? encoded := required plan "logical_value_json_invalid" (ps_value_json value) in
    let? capacity :=
      match target_parameter plan "target_capacity_bytes" with
      | Some c => let? n := required plan "logical_value_carrier_capacity_invalid" (parse_usize c) in Ok (Some n)
      | None => Ok None
      end in
    if match capacity with Some n => n <? Z.of_nat (length encoded) | None => false end
    then reject plan "logical_value_carrier_capacity_exceeded" else Ok ()
  else reject plan "logical_value_carrier_invalid".

(** ** The check of one value *)
Definition equals (o : option string) (v : string) : bool := bool_decide (o = Some v).

Definition validate_by_strategy (plan : ColumnConversionPlan) (value : LogicalValue) : option (planned ()) :=
  match target_parameter plan "value_strategy" with
  | Some strategy =>
      if bool_decide (strategy = "structured_json"%string) then
        Some match value with VJson _ => Ok () | _ => reject plan "json_type_mismatch" end
      else if bool_decide (strategy = "enum_label"%string) || bool_decide (strategy = "set_members"%string)
      then Some (validate_enum_set_plan_value ps_members plan value)
      else if bool_decide (strategy = "binary"%string) then Some (validate_binary_plan_value plan value)
      else if bool_decide (strategy = "bit_string"%string)
      then Some (validate_bit_string_plan_value plan value)
      else if bool_decide (strategy = "spatial"%string) then validate_spatial_plan_value plan value
      else if bool_decide (strategy = "recursive"%string)
      then Some (validate_recursive_plan_value plan value)
      else Some (reject plan "unknown_value_strategy")
  | None => Some (Ok ())
  end.

Definition validate_by_kind (plan : ColumnConversionPlan) (value : LogicalValue) : option (planned ()) :=
  match target_parameter plan "conversion_kind" with
  | Some kind =>
      if bool_decide (kind = "binary"%string) then Some (validate_binary_plan_value plan value)
      else if bool_decide (kind = "bit_string"%string)
      then Some (validate_bit_string_plan_value plan value)
      else if bool_decide (kind = "spatial"%string) then validate_spatial_plan_value plan value
      else if bool_decide (kind = "recursive"%string)
      then Some (validate_recursive_plan_value plan value)
      else if bool_decide (kind = "text"%string) then Some (validate_text_plan_value plan value)
      else if bool_decide (kind = "json"%string) then Some (validate_json_plan_value plan value)
      else if bool_decide (kind = "enum"%string) || bool_decide (kind = "set"%string)
      then Some (validate_enum_set_plan_value ps_members plan value)
      else if bool_decide (kind = "temporal"%string) then Some (validate_temporal_plan_value plan value)
      else Some (reject plan "unknown_conversion_rule")
  | None => validate_by_strategy plan value
  end.

Definition validate_by_range (plan : ColumnConversionPlan) (value : LogicalValue) : option (planned ()) :=
  match target_parameter plan "range_kind" with
  | Some range =>
      if bool_decide (range = "integer"%string) then Some (validate_integer_plan_value plan value)
      else if bool_decide (range = "decimal"%string) then Some (validate_decimal_plan_value plan value)
      else if bool_decide (range = "float"%string) then Some (validate_float_plan_value plan value)
      else Some (reject plan "unknown_range_rule")
  | None => validate_by_kind plan value
  end.

Definition validate_value_against_plan (plan : ColumnConversionPlan) (value : LogicalValue) :
    option (planned ()) :=
  let kind := target_parameter plan "conversion_kind" in
  if equals kind "logical_value_json" then Some (validate_logical_value_carrier plan value)
  else if equals kind "source_representation"
  then Some (reject plan "source_representation_value_mismatch") else
  let range_kind := target_parameter plan "range_kind" in
  if is_some range_kind && negb (equals (target_parameter plan "range_check") "strict")
  then Some (reject plan "range_check_missing")
  else if (equals range_kind "decimal" || equals range_kind "float")
          && negb (equals (target_parameter plan "rounding_mode") "reject")
  then Some (reject plan "rounding_policy_missing")
  else if negb (equals range_kind "decimal") then
    match validate_decimal_special_value plan value with
    | Err e => Some (Err e)
    | Ok true => Some (Ok ())
    | Ok false => validate_by_range plan value
    end
  else validate_by_range plan value.

(** ** The conversion of one value *)
Definition convert_value_with_plan (plan : ColumnConversionPlan) (value : LogicalValue) :
    option (planned LogicalValue) :=
  checked ← validate_value_against_plan plan value;
  match checked with
  | Err e => Some (Err e)
  | Ok _ =>
      let kind := target_parameter plan "conversion_kind" in
      if equals kind "binary" then Some (convert_binary_value plan value)
      else if equals kind "bit_string" then convert_bit_string_value plan value
      else if equals kind "spatial" || equals kind "recursive" then Some (Ok value)
      else if equals kind "text" then Some (convert_text_value plan value)
      else if equals kind "json" then Some (convert_json_value plan value)
      else if equals kind "enum" || equals kind "set" then Some (convert_enum_set_value ps_members plan value)
      else if equals kind "temporal" then Some (convert_temporal_value plan value)
      else
        let strategy := target_parameter plan "value_strategy" in
        if equals strategy "structured_json" then Some (Ok value)
        else if equals strategy "enum_label" || equals strategy "set_members"
        then Some (convert_enum_set_value ps_members plan value)
        else Some (Ok value)
  end.

(** ** Source representation envelopes *)
Definition format_text (f : SourceRepresentationFormat) : string :=
  match f with FmtText => "text" | FmtBinary => "binary" end.

(** The stored capacity, the connector, build, identity, protocol and format. *)
Definition check_envelope_source (plan : ColumnConversionPlan) (envelope : SourceRepresentationEnvelope) :
    planned () :=
  let context := env_context envelope in
  (let? encoded := required plan "source_representation_invalid" (ps_envelope_json envelope) in
   match target_parameter plan "target_capacity_bytes" with
   | Some c =>
       let? capacity := required plan "source_representation_capacity_invalid" (parse_usize c) in
       if capacity <? Z.of_nat (length encoded)
       then reject plan "source_representation_capacity_exceeded" else Ok ()
   | None => Ok ()
   end) ;?
  (if negb (bool_decide (ctx_connector context = pl_source_connector plan))
   then reject plan "source_representation_connector_mismatch" else Ok ()) ;?
  (if negb (bool_decide (pl_source_build plan = Some (ctx_server_build context)))
   then reject plan "source_representation_build_mismatch" else Ok ()) ;?
  (let? expected_identity := required plan "source_representation_identity_missing"
     (target_parameter plan "source_representation_type_identity") in
   if negb (bool_decide (ctx_source_type_identity context = expected_identity))
   then reject plan "source_representation_identity_mismatch" else Ok ()) ;?
  (let? expected_protocol := required plan "source_representation_protocol_missing"
     (target_parameter plan "source_representation_protocol") in
   let? expected_format := required plan "source_representation_format_missing"
     (target_parameter plan "source_representation_format") in
   if negb (bool_decide (ctx_protocol context = expected_protocol))
      || negb (bool_decide (format_text (ctx_format context) = expected_format))
   then reject plan "source_representation_protocol_mismatch" else Ok ()).

(** The type metadata: the approved pairs, and no key beyond the approved ones
    and the runtime-context keys. *)
Definition check_envelope_metadata (plan : ColumnConversionPlan) (envelope : SourceRepresentationEnvelope) :
    planned () :=
  let actual := ctx_type_metadata (env_context envelope) in
  let? metadata_json := required plan "source_representation_metadata_missing"
    (target_parameter plan "source_representation_type_metadata_json") in
  let? expected := required plan "source_representation_metadata_invalid" (ps_metadata metadata_json) in
  (if bool_decide (expected = ∅)
      || negb (equals (target_parameter plan "source_representation_type_metadata_digest")
                 (sha256_hex (ps_metadata_json expected)))
   then reject plan "source_representation_metadata_invalid" else Ok ()) ;?
  (let? keys_json := required plan "source_representation_context_metadata_missing"
     (target_parameter plan "source_representation_context_metadata_keys_json") in
   let? context_keys := required plan "source_representation_context_metadata_invalid" (ps_keys keys_json) in
   (if negb (equals (target_parameter plan "source_representation_context_metadata_keys_digest")
               (sha256_hex (ps_keys_json context_keys)))
       || negb (bool_decide (dom expected ## context_keys))
       || negb (bool_decide (set_Forall (λ key, blank key = false) context_keys))
    then reject plan "source_representation_context_metadata_invalid" else Ok ()) ;?
   (if negb (bool_decide (map_Forall (λ key value, actual !! key = Some value) expected))
    then reject plan "source_representation_metadata_mismatch" else Ok ()) ;?
   (if negb (bool_decide (dom actual = dom expected ∪ context_keys))
    then reject plan "source_representation_metadata_unbound" else Ok ())).

(** The type definition, the native type and the codec. *)
Definition check_envelope_codec (plan : ColumnConversionPlan) (envelope : SourceRepresentationEnvelope) :
    planned () :=
  let context := env_context envelope in
  (let? expected_digest := required plan "source_representation_definition_missing"
     (target_parameter plan "source_type_definition_digest") in
   let digest := ctx_source_type_definition_digest context in
   let actual_digest := default digest (strip_prefix "sha256:" digest) in
   if negb (bool_decide (actual_digest = expected_digest))
   then reject plan "source_representation_definition_mismatch" else Ok ()) ;?
  (let? expected_native := required plan "source_representation_native_type_missing"
     (target_parameter plan "source_type_native") in
   if negb (bool_decide (env_encoding envelope
                         = default ""%string (target_parameter plan "source_type_encoding")))
      || blank (ctx_source_type_identity context)
      || match ctx_type_metadata context !! "native_type"%string with
         | Some native => negb (bool_decide (native = expected_native))
         | None => false
         end
      || match target_parameter plan "source_codec_identity" with Some s => sempty s | None => true end
   then reject plan "source_representation_codec_mismatch" else Ok ()).

Definition validate_source_representation_envelope_against_plan
    (plan : ColumnConversionPlan) (envelope : SourceRepresentationEnvelope) : planned () :=
  if negb (equals (target_parameter plan "conversion_kind") "source_representation")
     || negb (equals (target_parameter plan "source_representation_codec")
                "source_representation_envelope_json_v1")
  then reject plan "source_representation_not_supported" else
  if sempty (tr_native_type (pl_target plan))
     || match target_parameter plan "target_storage" with Some s => sempty s | None => true end
  then reject plan "source_representation_target_missing" else
  map_err (λ e, plan_failure plan (SourceRepresentationError_code e)) (envelope_validate envelope) ;?
  check_envelope_source plan envelope ;?
  check_envelope_metadata plan envelope ;?
  check_envelope_codec plan envelope.

Definition validate_datum_against_plan (plan : ColumnConversionPlan) (datum : Datum) :
    option (planned ()) :=
  match datum with
  | Value value => validate_value_against_plan plan value
  | DNull | Unchanged | Unavailable => Some (Ok ())
  | EnvelopeDatum envelope =>
      Some (validate_source_representation_envelope_against_plan plan envelope)
  end.

(** ** Transactions *)
(** The scan of [is_geography_native_type]: whether a quote is open at its end,
    where the type name ends, and the last dot outside quotes. *)
Fixpoint scan_type (l : list byte) (index : nat) (quoted : bool) (last_dot : option nat) :
    bool * nat * option nat :=
  match l with
  | [] => (quoted, index, last_dot)
  | c :: l' =>
      if bool_decide (c = QUOTE) then scan_type l' (S index) (negb quoted) last_dot
      else if bool_decide (c = "("%char) && negb quoted then (quoted, index, last_dot)
      else if bool_decide (c = "."%char) && negb quoted then scan_type l' (S index) quoted (Some index)
      else scan_type l' (S index) quoted last_dot
  end.

Definition strip_quotes (name : string) : option string :=
  rest ← strip_byte QUOTE name;
  match rev (sbytes rest) with
  | c :: l => if bool_decide (c = QUOTE) then Some (of_bytes (rev l)) else None
  | [] => None
  end.

Definition is_geography_native_type (native_type : string) : bool :=
  let bytes := sbytes (trim native_type) in
  let '(quoted, type_end, last_dot) := scan_type bytes 0 false None in
  if quoted then false else
  let start := match last_dot with Some i => S i | None => 0%nat end in
  let name := trim (of_bytes (drop start (take type_end bytes))) in
  match strip_quotes name with
  | Some name => bool_decide (name = "geography"%string)
  | None => negb (contains_byte QUOTE name) && eq_ignore_case name "geography"
  end.

(** [format!("catalog:{}.{}.{}", ...)] *)
Definition lineage (schema table column : string) : string :=
  "catalog:" +:+ schema +:+ "." +:+ table +:+ "." +:+ column.

Definition find_plan (plans : list ColumnConversionPlan) (l : string) : option ColumnConversionPlan :=
  List.find (λ plan, bool_decide (df_lineage_id (pl_source_field plan) = l)) plans.

Definition with_datum (column : ColumnDatum) (datum : Datum) : ColumnDatum :=
  mkColumn (col_ordinal column) (col_name column) (col_native_type column)
    (col_primary_key_ordinal column) (col_generated column) (col_collation column) datum.

Definition convert_datum (plan : ColumnConversionPlan) (datum : Datum) : option (planned Datum) :=
  match datum with
  | Value value => r ← convert_value_with_plan plan value; Some (ok_map Value r)
  | DNull => Some (Ok DNull)
  | Unchanged => Some (Ok Unchanged)
  | Unavailable => Some (Ok Unavailable)
  | EnvelopeDatum envelope =>
      Some (ok_map (λ _, EnvelopeDatum envelope)
              (validate_source_representation_envelope_against_plan plan envelope))
  end.

Definition geodetic_mismatch (plan : ColumnConversionPlan) (column : ColumnDatum) : bool :=
  bool_decide (pl_qualification plan = Exact)
  && equals (target_parameter plan "conversion_kind") "spatial"
  && negb (Bool.eqb (is_geography_native_type (col_native_type column))
                    (is_geography_native_type (tr_native_type (pl_target plan)))).

(** The body of the loop over the columns of an image. *)
Definition convert_column (plans : list ColumnConversionPlan) (schema table : string)
    (column : ColumnDatum) : option (planned ColumnDatum) :=
  match find_plan plans (lineage schema table (col_name column)) with
  | None => Some (Ok column)
  | Some plan =>
      if col_generated column then Some (Ok column)
      else if geodetic_mismatch plan column
      then Some (reject plan "spatial_geodetic_planar_mismatch")
      else datum ← convert_datum plan (col_datum column); Some (ok_map (with_datum column) datum)
  end.

(** A loop over a mutable list: the first failure, or the first panic, ends it. *)
Fixpoint for_each_mut {A E} (f : A → option (result E A)) (l : list A) : option (result E (list A)) :=
  match l with
  | [] => Some (Ok [])
  | x :: l' =>
      r ← f x;
      match r with
      | Err e => Some (Err e)
      | Ok y => rest ← for_each_mut f l'; Some (ok_map (cons y) rest)
      end
  end.

Definition convert_image_with_plans (plans : list ColumnConversionPlan) (change : RowChange)
    (image : option (list ColumnDatum)) : option (planned (option (list ColumnDatum))) :=
  match image with
  | None => Some (Ok None)
  | Some image =>
      r ← for_each_mut (convert_column plans (chg_schema change) (chg_table change)) image;
      Some (ok_map Some r)
  end.

Definition with_images (change : RowChange) (before after : option (list ColumnDatum)) : RowChange :=
  mkChange (chg_database change) (chg_operation change) (chg_schema change) (chg_table change)
    (chg_source_cursor change) (chg_source_timestamp change) (chg_schema_basis change) before after.

Definition convert_change (plans : list ColumnConversionPlan) (change : RowChange) :
    option (planned RowChange) :=
  before ← convert_image_with_plans plans change (chg_before change);
  match before with
  | Err e => Some (Err e)
  | Ok before =>
      after ← convert_image_with_plans plans change (chg_after change);
      Some (ok_map (with_images change before) after)
  end.

Definition convert_transaction_with_plans (transaction : ChangeTransaction)
    (plans : list ColumnConversionPlan) : option (planned ChangeTransaction) :=
  changes ← for_each_mut (convert_change plans) (tx_changes transaction);
  Some (ok_map (λ changes, mkTransaction (tx_source transaction) (tx_id transaction)
           (tx_begin_cursor transaction) (tx_commit_cursor transaction) changes) changes).
End convert.

(** ** What a converted transaction is *)
Module Spec.
Import Validate.Spec Plan.Spec.

Section spec.
Context `{B64 : Base64, SHA : Sha256, JP : JsonPrinter, PS : PlanSerde}.

(** *** No conversion panics *)
Lemma read_wire_total l le : (4 ≤ length l)%nat → is_Some (read_u32_wire (take 4 l) le).
Proof. destruct l as [|a [|b [|c [|d l]]]]; cbn; try lia; eauto. Qed.

Lemma spatial_wire_total plan bytes format g n srid :
  is_Some (validate_spatial_wire plan bytes format g n srid).
Proof.
  unfold validate_spatial_wire. destruct (Z.ltb_spec (Z.of_nat (length bytes)) 5); [eauto|].
  destruct (negb _); [eauto|].
  destruct (read_wire_total (drop 1 bytes) (bval (hd NUL bytes) =? 1)) as [code ->];
    [rewrite length_drop; lia|].
  cbn [mbind option_bind]. destruct (wire_shape code) as [c d]. destruct (_ || _ || _); [eauto|].
  destruct (negb (Z.land code _ =? 0)); cbn [andb].
  - destruct (Z.ltb_spec (Z.of_nat (length bytes)) 9); [eauto|].
    destruct (read_wire_total (drop 5 bytes) (bval (hd NUL bytes) =? 1)) as [s ->];
      [rewrite length_drop; lia|].
    cbn [mbind option_bind]. repeat case_match; eauto.
  - cbn [mbind option_bind]. repeat case_match; eauto.
Qed.

Lemma spatial_total plan v : is_Some (validate_spatial_plan_value plan v).
Proof.
  destruct v; cbn; eauto. destruct (validate_spatial_header _ _ _ _ _ _) as [[[f g] n]|]; [|eauto].
  destruct (b64_decode _); [|eauto]. apply spatial_wire_total.
Qed.

Lemma validate_total plan v : is_Some (validate_value_against_plan plan v).
Proof.
  assert (is_Some (validate_by_kind plan v)) as Hk.
  { unfold validate_by_kind, validate_by_strategy. pose proof (spatial_total plan v).
    repeat case_match; eauto. }
  assert (is_Some (validate_by_range plan v)) as Hr.
  { unfold validate_by_range. repeat case_match; eauto. }
  unfold validate_value_against_plan. repeat case_match; eauto.
Qed.

(** The first check of a successful sequence of checks passed. *)
Local Ltac passed H :=
  match type of H with (if ?b then _ else _) = Ok _ =>
    let E := fresh "Hpass" in destruct b eqn:E; [discriminate H|]; try apply negb_false_iff in E
  end.

(** An admitted bit string has all the bytes its length asks for. *)
Lemma bit_string_admitted plan b len pad order :
  validate_bit_string_plan_value plan (VBitString b len pad order) = Ok () →
  ∃ bytes, b64_decode b = Some bytes ∧ Z.of_nat (length bytes) = (len + 7) / 8.
Proof.
  cbn [validate_bit_string_plan_value]. unfold required. intros H. ok_inv H.
  passed H. bool_simpl. subst. passed H. ok_inv H. passed H. ok_inv H. passed H. ok_inv H.
  passed H. bool_simpl. eauto.
Qed.

Lemma bit_string_total plan v :
  validate_bit_string_plan_value plan v = Ok () ∨ (∀ b l p o, v ≠ VBitString b l p o) →
  is_Some (convert_bit_string_value plan v).
Proof.
  intros H. destruct v; cbn; eauto. destruct H as [H|H]; [|by destruct (H _ _ _ _ eq_refl)].
  apply bit_string_admitted in H as (bytes & Hb & Hl). rewrite Hb.
  destruct (parse_bit_order _) as [to|]; [|eauto]. destruct (parse_padding _); [|eauto].
  destruct (copy_bits_spec bytes bit_order to (Z.to_nat bit_length)) as (t & -> & _); [|cbn; eauto].
  destruct (Z.le_gt_cases 0 bit_length); [|lia].
  pose proof (Z.div_mod (bit_length + 7) 8 ltac:(lia)). pose proof (Z.mod_pos_bound (bit_length + 7) 8 ltac:(lia)).
  lia.
Qed.
Lemma kind_bit_string plan v :
  validate_value_against_plan plan v = Some (Ok ()) →
  target_parameter plan "conversion_kind" = Some "bit_string"%string →
  validate_bit_string_plan_value plan v = Ok () ∨ (∀ b l p o, v ≠ VBitString b l p o).
Proof.
  intros H Hk. destruct v; try (right; by intros). left. revert H.
  unfold validate_value_against_plan, validate_by_range, validate_by_kind. rewrite Hk. cbn.
  destruct (target_parameter plan "range_kind") as [range|]; cbn; [|by intros [=]].
  repeat (case_match; try done).
Qed.

Lemma convert_value_total plan v : is_Some (convert_value_with_plan plan v).
Proof.
  unfold convert_value_with_plan. destruct (validate_total plan v) as [[[]|e] Hv]; rewrite Hv; [|cbn; eauto].
  cbn [mbind option_bind].
  destruct (equals (target_parameter plan "conversion_kind") "binary"); [eauto|].
  destruct (equals (target_parameter plan "conversion_kind") "bit_string") eqn:Hk;
    [|repeat case_match; eauto].
  apply bool_decide_eq_true in Hk. by apply bit_string_total, kind_bit_string.
Qed.

(** *** Columns, images and changes *)

(** What becomes of one datum under its plan. *)
Inductive datum_converted (plan : ColumnConversionPlan) : Datum → Datum → Prop :=
| dc_absent d : d ∈ [DNull; Unchanged; Unavailable] → datum_converted plan d d
| dc_envelope e :
    validate_source_representation_envelope_against_plan plan e = Ok () →
    datum_converted plan (EnvelopeDatum e) (EnvelopeDatum e)
| dc_value v w :
    convert_value_with_plan plan v = Some (Ok w) → datum_converted plan (Value v) (Value w).

(** A column keeps its definition; its datum is converted when a plan names the
    column and the target does not compute it, and kept otherwise. *)
Definition column_converted (plans : list ColumnConversionPlan) (schema table : string)
    (c c' : ColumnDatum) : Prop :=
  col_definition c' = col_definition c ∧
  match find_plan plans (lineage schema table (col_name c)) with
  | Some plan =>
      if col_generated c then col_datum c' = col_datum c
      else geodetic_mismatch plan c = false ∧ datum_converted plan (col_datum c) (col_datum c')
  | None => col_datum c' = col_datum c
  end.

Definition image_converted (plans : list ColumnConversionPlan) (schema table : string)
    (image image' : option (list ColumnDatum)) : Prop :=
  option_Forall2 (Forall2 (column_converted plans schema table)) image image'.

Definition change_converted (plans : list ColumnConversionPlan) (c c' : RowChange) : Prop :=
  c' = with_images c (chg_before c') (chg_after c')
  ∧ image_converted plans (chg_schema c) (chg_table c) (chg_before c) (chg_before c')
  ∧ image_converted plans (chg_schema c) (chg_table c) (chg_after c) (chg_after c').

Definition transaction_converted (plans : list ColumnConversionPlan) (t t' : ChangeTransaction) : Prop :=
  (tx_source t' = tx_source t ∧ tx_id t' = tx_id t
   ∧ tx_begin_cursor t' = tx_begin_cursor t ∧ tx_commit_cursor t' = tx_commit_cursor t)
  ∧ Forall2 (change_converted plans) (tx_changes t) (tx_changes t').

(** [m] always answers, with [Ok y] exactly when [P y]. *)
Definition answers {E A} (m : option (result E A)) (P : A → Prop) : Prop :=
  ∃ r, m = Some r ∧ ∀ y, r = Ok y ↔ P y.

Lemma answers_map {E A B} (f : A → B) (m : option (result E A)) P Q :
  answers m P → (∀ y, Q y ↔ ∃ x, P x ∧ y = f x) → answers (r ← m; Some (ok_map f r)) Q.
Proof.
  intros (r & -> & Hr) HQ. eexists. split; [reflexivity|]. intros y. rewrite HQ.
  unfold ok_map. rewrite fmap_ok. setoid_rewrite Hr. naive_solver.
Qed.

Lemma answers_each {E A} (f : A → option (result E A)) (R : A → A → Prop) l :
  (∀ x, answers (f x) (R x)) → answers (for_each_mut f l) (Forall2 R l).
Proof.
  intros Hf. induction l as [|x l (rs & IH & Hl)]; cbn [for_each_mut].
  { eexists. split; [reflexivity|]. intros y. split; [by intros [= <-]|by inversion 1]. }
  destruct (Hf x) as (r & -> & Hx). cbn [mbind option_bind]. destruct r as [y|e].
  - rewrite IH. cbn [mbind option_bind]. eexists. split; [reflexivity|]. intros ys.
    unfold ok_map. rewrite fmap_ok. setoid_rewrite Hl.
    assert (∀ z, z = y ↔ R x z) as Hy by (intros z; rewrite <- Hx; naive_solver).
    split; [intros (zs & ? & <-); constructor; [by apply Hy|done]|].
    inversion 1 as [|? z ? zs Hz]; subst. apply Hy in Hz as ->. eauto.
  - eexists. split; [reflexivity|]. intros ys. split; [done|].
    inversion 1 as [|? z ? zs Hz]; subst. by apply Hx in Hz.
Qed.

Lemma convert_datum_answers plan d : answers (convert_datum plan d) (datum_converted plan d).
Proof.
  assert (∀ d', d' ∈ [DNull; Unchanged; Unavailable] →
    answers (E := TargetCapabilityFailure) (Some (Ok d')) (datum_converted plan d')) as Habs.
  { intros d' Hd. eexists. split; [reflexivity|]. intros y. split.
    - intros [= <-]. by constructor.
    - inversion 1; subst; [done|set_solver..]. }
  destruct d as [| | |v|e]; cbn [convert_datum]; try (apply Habs; set_solver).
  - destruct (convert_value_total plan v) as [r Hr].
    rewrite Hr. eexists. split; [reflexivity|]. intros y. unfold ok_map. rewrite fmap_ok. split.
    + intros (w & -> & <-). by constructor.
    + inversion 1; subst; [set_solver|]. eexists. split; [|done]. congruence.
  - eexists. split; [reflexivity|]. intros y. unfold ok_map. rewrite fmap_ok. split.
    + intros ([] & ? & <-). by constructor.
    + inversion 1; subst; [set_solver|eauto].
Qed.

Lemma with_datum_spec c c' d :
  c' = with_datum c d ↔ col_definition c' = col_definition c ∧ col_datum c' = d.
Proof.
  destruct c, c'. unfold with_datum, col_definition. cbn. split; [by intros [= -> -> -> -> -> -> ->]|].
  by intros [[= -> -> -> -> -> ->] ->].
Qed.

Lemma keep_column_answers {E} c :
  answers (E := E) (Some (Ok c)) (λ c', col_definition c' = col_definition c ∧ col_datum c' = col_datum c).
Proof.
  eexists. split; [reflexivity|]. intros c'. rewrite <- with_datum_spec.
  replace (with_datum c (col_datum c)) with c by by destruct c. naive_solver.
Qed.

Lemma convert_column_answers plans schema table c :
  answers (convert_column plans schema table c) (column_converted plans schema table c).
Proof.
  unfold convert_column, column_converted. destruct (find_plan _ _) as [plan|]; [|apply keep_column_answers].
  destruct (col_generated c); [apply keep_column_answers|].
  destruct (geodetic_mismatch plan c).
  - eexists. split; [reflexivity|]. intros y. naive_solver.
  - eapply answers_map; [apply convert_datum_answers|]. intros c'. setoid_rewrite with_datum_spec.
    split; [intros (? & _ & ?); eauto|by intros (x & ? & ? & <-)].
Qed.

Lemma convert_image_answers plans c image :
  answers (convert_image_with_plans plans c image)
    (image_converted plans (chg_schema c) (chg_table c) image).
Proof.
  destruct image as [image|]; cbn [convert_image_with_plans].
  - eapply answers_map; [apply answers_each; intros; apply convert_column_answers|].
    intros y. unfold image_converted. split; [inversion 1; eauto|]. intros (x & ? & ->). by constructor.
  - eexists. split; [reflexivity|]. intros y. split; [intros [= <-]; constructor|by inversion 1].
Qed.

Lemma convert_change_answers plans c : answers (convert_change plans c) (change_converted plans c).
Proof.
  unfold convert_change, change_converted.
  destruct (convert_image_answers plans c (chg_before c)) as (rb & -> & Hb). cbn [mbind option_bind].
  destruct rb as [before|e].
  - assert (∀ b, b = before ↔ image_converted plans (chg_schema c) (chg_table c) (chg_before c) b) as Hb'
      by (intros b; rewrite <- Hb; naive_solver).
    eapply answers_map; [apply convert_image_answers|]. intros c'. setoid_rewrite <- Hb'. split.
    + intros (Hc & H1 & H2). exists (chg_after c'). split; [done|]. by rewrite <- H1.
    + intros (after & Ha & ->). done.
  - eexists. split; [reflexivity|]. intros c'. split; [done|]. intros (_ & H & _). by apply Hb in H.
Qed.

Lemma transaction_answers t plans :
  answers (convert_transaction_with_plans t plans) (transaction_converted plans t).
Proof.
  unfold convert_transaction_with_plans, transaction_converted.
  eapply answers_map; [apply answers_each; intros; apply convert_change_answers|].
  intros [src id b c chs]. cbn. split.
  - intros ((-> & -> & -> & ->) & H). eauto.
  - by intros (chs' & H & [= -> -> -> -> ->]).
Qed.

(** C20: Converting a transaction never panics, and it succeeds exactly when every
    planned column converts: the result then has the same source, id, cursors,
    operations, tables and column definitions, absent and unplanned data are
    untouched, and only the values of planned, non-generated columns are
    replaced by their conversions. *)
Theorem convert_transaction_exact (t : ChangeTransaction) (plans : list ColumnConversionPlan) :
  ∃ r, convert_transaction_with_plans t plans = Some r
       ∧ ∀ t', r = Ok t' ↔ transaction_converted plans t t'.
Proof. exact (transaction_answers t plans). Qed.

(** *** The converted transaction is validated again *)

(** A datum up to the value it carries. *)
Definition presence (d : Datum) : Datum := match d with Value _ => Value VNull | d => d end.

Lemma column_converted_same plans schema table c c' :
  column_converted plans schema table c c' →
  col_definition c' = col_definition c ∧ presence (col_datum c') = presence (col_datum c).
Proof.
  intros [Hd H]. split; [done|]. destruct (find_plan _ _); [|by rewrite H].
  destruct (col_generated c); [by rewrite H|]. by destruct H as [_ []].
Qed.

Definition values_ok (columns : list ColumnDatum) : Prop :=
  Forall (λ c, ∀ v, col_datum c = Value v → logical_value v = Ok ()) columns.

(** Columns that agree up to their values are well-formed together, the values
    aside. *)
Lemma column_ok_same op b c c' :
  col_definition c' = col_definition c → presence (col_datum c') = presence (col_datum c) →
  column_ok op b c → column_ok op b c' ↔ ∀ v, col_datum c' = Value v → logical_value v = Ok ().
Proof.
  destruct c as [o n nt pk g coll d], c' as [o' n' nt' pk' g' coll' d'].
  unfold col_definition, column_ok, key_ok, datum_ok, presence_ok. cbn.
  intros [= -> -> -> -> -> ->] Hp (? & ? & Hk & Hpr & Hd).
  split.
  - intros (_ & _ & _ & _ & Hd') v ->. done.
  - intros Hv. split_and!; try done.
    + intros Hs. destruct (Hk Hs) as [? [v ->]]. split; [done|]. destruct d'; try done. eauto.
    + destruct d, d'; try done.
    + destruct d, d'; try done; cbn in Hp; simplify_eq; eauto.
Qed.

Lemma fmap_through {A B C} (f : A → C) (g : B → C) (h : A → B) (l : list A) :
  (∀ x, f x = g (h x)) → f <$> l = g <$> (h <$> l).
Proof. intros H. induction l as [|x l IH]; cbn; [done|]. by rewrite H, IH. Qed.

Lemma image_same op b row row' :
  Forall2 (λ c c', col_definition c' = col_definition c
                   ∧ presence (col_datum c') = presence (col_datum c)) row row' →
  image_ok op b row → image_ok op b row' ↔ values_ok row'.
Proof.
  intros H (Hne & Hok & Hn & Ho & Hk).
  assert (col_definition <$> row' = col_definition <$> row) as Hdef.
  { clear -H. induction H as [|c c' l l' [Hd _] _ IH]; cbn; [done|]. by rewrite Hd, IH. }
  assert (∀ A (f : ColumnDatum → A) g, (∀ c, f c = g (col_definition c)) → f <$> row' = f <$> row) as Hmap.
  { intros A f g Hf. by rewrite !(fmap_through f g col_definition), Hdef. }
  assert (key_ordinals row' = key_ordinals row) as Hkey.
  { unfold key_ordinals. clear -H. induction H as [|c c' l l' [Hd _] _ IH]; [done|].
    cbn. assert (col_primary_key_ordinal c' = col_primary_key_ordinal c) as ->; [|by rewrite IH].
    unfold col_definition in Hd. congruence. }
  unfold image_ok. rewrite Hkey.
  rewrite (Hmap _ col_name (λ d, d.1.1.1.1.2)), (Hmap _ col_ordinal (λ d, d.1.1.1.1.1)) by done.
  assert (row' ≠ []) as Hne' by (inversion H; subst; done).
  assert (Forall (column_ok op b) row' ↔ values_ok row') as ->; [|tauto].
  clear -H Hok. unfold values_ok. induction H as [|c c' l l' [Hd Hp] _ IH]; [by split|].
  apply Forall_cons in Hok as [Hc Hok]. rewrite !Forall_cons, (IH Hok). by rewrite column_ok_same.
Qed.

Lemma converted_shape plans schema table row row' :
  Forall2 (column_converted plans schema table) row row' →
  Forall2 (λ c c', col_definition c' = col_definition c
                   ∧ presence (col_datum c') = presence (col_datum c)) row row'.
Proof. intros H. eapply Forall2_impl; [exact H|]. intros. by eapply column_converted_same. Qed.

Lemma definitions_same plans schema table row row' :
  Forall2 (column_converted plans schema table) row row' →
  col_definition <$> row' = col_definition <$> row.
Proof. induction 1 as [|c c' l l' [Hd _] _ IH]; cbn; [done|]. by rewrite Hd, IH. Qed.

Lemma shape_same plans schema table op b b' a a' :
  image_converted plans schema table b b' → image_converted plans schema table a a' →
  shape_ok op b a →
  shape_ok op b' a' ↔ values_ok (default [] b') ∧ values_ok (default [] a').
Proof.
  intros Hb Ha Hs. destruct Hs as [a0 Hi|b0 Hi|b0 a0 Hi1 Hi2 He];
    inversion Hb as [x xb Hxb|]; subst; inversion Ha as [y ya Hya|]; subst; cbn.
  - rewrite <- (image_same _ _ _ _ (converted_shape _ _ _ _ _ Hya) Hi). split.
    + inversion 1; subst. split; [constructor|done].
    + intros [_ ?]. by constructor.
  - rewrite <- (image_same _ _ _ _ (converted_shape _ _ _ _ _ Hxb) Hi). split.
    + inversion 1; subst. split; [done|constructor].
    + intros [? _]. by constructor.
  - rewrite <- (image_same _ _ _ _ (converted_shape _ _ _ _ _ Hxb) Hi1),
            <- (image_same _ _ _ _ (converted_shape _ _ _ _ _ Hya) Hi2). split.
    + by inversion 1; subst.
    + intros [? ?]. constructor; [done..|].
      by rewrite (definitions_same _ _ _ _ _ Hxb), (definitions_same _ _ _ _ _ Hya).
Qed.

Lemma change_columns_converted plans c c' :
  change_converted plans c c' →
  Forall2 (column_converted plans (chg_schema c) (chg_table c)) (change_columns c) (change_columns c').
Proof.
  intros (_ & Hb & Ha). unfold change_columns. apply Forall2_app;
    [destruct Hb|destruct Ha]; cbn; auto.
Qed.

Lemma change_same plans c c' :
  change_converted plans c c' → change_ok c → change_ok c' ↔ values_ok (change_columns c').
Proof.
  intros Hc (H1 & H2 & H3 & H4 & H5 & H6). pose proof (change_columns_converted _ _ _ Hc) as Hcols.
  destruct Hc as (E & Hb & Ha).
  assert (∀ column e, column ∈ change_columns c' → col_datum column = EnvelopeDatum e →
            ctx_source_cursor (env_context e) = chg_source_cursor c) as H6'.
  { intros column e Hin Hd. apply list_elem_of_lookup in Hin as [i Hi].
    destruct (Forall2_lookup_r _ _ _ _ _ Hcols Hi) as (c0 & Hi0 & Hc0).
    apply column_converted_same in Hc0 as [_ Hp]. rewrite Hd in Hp.
    apply (H6 c0); [by eapply list_elem_of_lookup_2|].
    by destruct (col_datum c0). }
  assert (chg_schema c' = chg_schema c ∧ chg_table c' = chg_table c ∧ chg_schema_basis c' = chg_schema_basis c
          ∧ chg_source_cursor c' = chg_source_cursor c ∧ chg_operation c' = chg_operation c)
    as (E1 & E2 & E3 & E4 & E5) by (by rewrite E).
  unfold change_ok. rewrite E1, E2, E3, E4, E5.
  rewrite (shape_same _ _ _ _ _ _ _ _ Hb Ha H5).
  unfold values_ok, change_columns in *. rewrite Forall_app. tauto.
Qed.

(** C21: Conversion preserves everything validation asks of a transaction except the
    values themselves: a converted transaction passes the second validation
    exactly when each of its values does (images, keys, ordinals, presence
    rules, envelopes and identities cannot be broken by a plan). *)
Theorem converted_revalidates (t t' : ChangeTransaction) (plans : list ColumnConversionPlan) v :
  Validate.validate t = Ok v → convert_transaction_with_plans t plans = Some (Ok t') →
  (Validate.validate t' = Ok (mkValidated t')
   ↔ Forall (λ c, values_ok (change_columns c)) (tx_changes t')).
Proof.
  intros Hv Hc. apply validate_spec in Hv as [_ Ht]. destruct (transaction_answers t plans) as (r & Hr & Hspec).
  rewrite Hr in Hc. injection Hc as ->. destruct (proj1 (Hspec t') eq_refl) as [(E1 & E2 & E3 & E4) Hchs].
  rewrite validate_spec. unfold transaction_ok in *. rewrite E1, E2, E3, E4.
  destruct Ht as (H1 & H2 & H3 & H4 & H5 & H6).
  assert (tx_changes t' ≠ []) as Hne by (inversion Hchs; congruence).
  assert (Forall change_ok (tx_changes t') ↔ Forall (λ c, values_ok (change_columns c)) (tx_changes t')) as Hf.
  { clear -H6 Hchs. induction Hchs as [|c c' l l' Hc _ IH]; [by split|].
    apply Forall_cons in H6 as [? ?]. rewrite !Forall_cons, IH by done. by rewrite change_same. }
  rewrite Hf. tauto.
Qed.

(** *** The type metadata of an envelope *)

(** What an approved plan says of the metadata: the pairs of the type
    definition and the names of the pairs that vary at run time. *)
Record metadata_plan (plan : ColumnConversionPlan) (expected : gmap string string) (keys : gset string) : Prop := {
  mp_metadata : (target_parameter plan "source_representation_type_metadata_json" ≫= ps_metadata)
                = Some expected;
  mp_metadata_digest : target_parameter plan "source_representation_type_metadata_digest"
                       = Some (sha256_hex (ps_metadata_json expected));
  mp_keys : (target_parameter plan "source_representation_context_metadata_keys_json" ≫= ps_keys) = Some keys;
  mp_keys_digest : target_parameter plan "source_representation_context_metadata_keys_digest"
                   = Some (sha256_hex (ps_keys_json keys))
}.

Lemma check_ok plan code (b : bool) : (if b then reject plan code else Ok ()) = Ok () ↔ b = false.
Proof. destruct b; naive_solver. Qed.

(** Under a digest-bound plan an envelope's metadata is admitted exactly when
    it is the approved definition pairs plus one pair for every run-time key and
    nothing else; a plan with no definition pairs, with a blank run-time key or
    with a key on both sides admits nothing. *)
Theorem envelope_metadata_exact plan expected keys e :
  metadata_plan plan expected keys →
  check_envelope_metadata plan e = Ok () ↔
  expected ≠ ∅ ∧ set_Forall (λ key, blank key = false) keys ∧ dom expected ## keys
  ∧ ∃ context : gmap string string,
      dom context = keys ∧ ctx_type_metadata (env_context e) = expected ∪ context.
Proof.
  intros [Hm Hmd Hk Hkd]. unfold check_envelope_metadata, required.
  apply bind_Some in Hm as (mj & -> & Hm), Hk as (kj & -> & Hk).
  cbn [ok_or mbind result_bind]. rewrite Hm. cbn [ok_or mbind result_bind]. rewrite Hmd, Hk, Hkd.
  cbn [ok_or mbind result_bind]. unfold equals. rewrite !(bool_decide_eq_true_2 (Some _ = _)) by done.
  cbn [negb]. rewrite orb_false_r. cbn [orb].
  rewrite !seq_ok, !check_ok, orb_false_iff, !negb_false_iff, !bool_decide_eq_true, bool_decide_eq_false.
  split.
  - intros (Hne & [Hd Hb] & Hmap & Hdom). split_and!; [done..|].
    exists (filter (λ kv, kv.1 ∉ dom expected) (ctx_type_metadata (env_context e))).
    set (actual := ctx_type_metadata (env_context e)) in *. split.
    + apply set_eq. intros k. rewrite elem_of_dom. unfold is_Some.
      setoid_rewrite map_lookup_filter_Some. cbn. split.
      * intros (x & Hx & Hk'). apply elem_of_dom_2 in Hx. set_solver.
      * intros Hin. assert (k ∈ dom actual) as [x Hx]%elem_of_dom by set_solver. exists x. set_solver.
    + apply map_eq. intros k. destruct (expected !! k) as [x|] eqn:Ex.
      * rewrite (lookup_union_Some_l _ _ _ _ Ex). by apply Hmap.
      * rewrite lookup_union_r by done. destruct (actual !! k) as [x|] eqn:Ea.
        -- symmetry. apply map_lookup_filter_Some. split; [done|]. cbn. by apply not_elem_of_dom.
        -- symmetry. apply map_lookup_filter_None. by left.
  - intros (Hne & Hb & Hd & context & Hc & ->). split_and!; [done..| |].
    + intros k x Hx. by apply lookup_union_Some_l.
    + by rewrite dom_union_L, Hc.
Qed.
End spec.
End Spec.

(** Column lineages do not separate their parts, so two columns can share one. *)
Theorem lineage_ambiguous : lineage "sales.eu" "orders" "id" = lineage "sales" "eu.orders" "id".
Proof. reflexivity. Qed.

(** ** Instances *)
Module Example11.
#[local] Existing Instance Rfc4648.base64.
#[local] Existing Instance SumDigest.sha256.
#[local] Existing Instance JsonText.Example10.plain_printer.
(** A serialiser that knows one metadata object, one key set and no type. *)
Definition oid_metadata : gmap string string := {[ "typname"%string := "hstore"%string ]}.
Definition oid_keys : gset string := {[ "oid"%string ]}.
#[local] Instance serde : PlanSerde := {|
  ps_type _ := None;
  ps_members s := Some (split "," s);
  ps_metadata _ := Some oid_metadata;
  ps_keys _ := Some oid_keys;
  ps_type_json _ := [];
  ps_metadata_json _ := sbytes "metadata";
  ps_keys_json _ := sbytes "keys";
  ps_value_json _ := Some [];
  ps_envelope_json _ := Some []
|}.

(** A [latin1] text column bound to [iso-8859-1], and a fixed binary column. *)
Definition hyphen_plan11 : ColumnConversionPlan :=
  Plan.Example4.plan_with
    [("conversion_kind", "text"); ("target_charset", "iso-8859-1"); ("target_length", "unbounded");
     ("target_length_unit", "bytes")]%string
    [("encoding_policy", "strict"); ("length_policy", "reject"); ("collation_policy", "target")]%string.
Definition binary_plan11 : ColumnConversionPlan :=
  Plan.Example4.plan_with [("conversion_kind", "binary"); ("target_length", "4")]%string
    [("binary_encoding", "raw_bytes"); ("target_fixed", "true"); ("target_padding", "zero")]%string.

Definition abc11 : LogicalValue := VText "latin1" (b64_encode ["097"; "098"; "099"]%char) None.

(** An insert into [public.t] with the planned column [v] and its key. *)
Definition row11 (bytes : list byte) : list ColumnDatum :=
  [mkColumn 1 "id" "integer" (Some 0) false None (Value (VInteger true 32 "7"));
   mkColumn 2 "v" "bytea" None false None (Value (VBinary (b64_encode bytes)));
   mkColumn 3 "note" "text" None false None DNull].
Definition transaction11 (bytes : list byte) : ChangeTransaction :=
  mkTransaction (mkSource "mysql" "8.0" "s") "gtid:1" (mkCursor "f" "1" "") (mkCursor "f" "2" "")
    [mkChange None Insert "public" "t" (mkCursor "f" "1" "") 0 "basis" None (Some (row11 bytes))].

(** The charset names with a hyphen are supported targets of the codec, but
    the validator admits only letters, digits and underscores in a charset
    name: the converted value, hence every transaction that holds one, fails
    the validation that follows conversion. *)
Theorem hyphenated_charset_refused :
  ∃ w, convert_value_with_plan hyphen_plan11 abc11 = Some (Ok w)
       ∧ logical_value abc11 = Ok () ∧ is_ok (logical_value w) = false.
Proof.
  eexists. split_and!; [vm_compute; reflexivity..|]. vm_compute. reflexivity.
Qed.

Lemma converted_revalidates_witness :
  convert_transaction_with_plans (transaction11 ["001"; "002"]%char) [binary_plan11]
  = Some (Ok (transaction11 ["001"; "002"; "000"; "000"]%char))
  ∧ Validate.validate (transaction11 ["001"; "002"; "000"; "000"]%char)
    = Ok (mkValidated (transaction11 ["001"; "002"; "000"; "000"]%char)).
Proof.
  assert (convert_transaction_with_plans (transaction11 ["001"; "002"]%char) [binary_plan11]
          = Some (Ok (transaction11 ["001"; "002"; "000"; "000"]%char))) as Hc by (vm_compute; reflexivity).
  split; [exact Hc|].
  apply (Spec.converted_revalidates (transaction11 ["001"; "002"]%char) _ [binary_plan11]
           (mkValidated (transaction11 ["001"; "002"]%char))); [vm_compute; reflexivity|exact Hc|].
  repeat constructor; cbn; intros v [= <-]; vm_compute; reflexivity.
Defined.

Definition metadata_plan11 : ColumnConversionPlan :=
  Plan.Example4.plan_with
    [("source_representation_type_metadata_json", "{}");
     ("source_representation_type_metadata_digest", sha256_hex (sbytes "metadata"));
     ("source_representation_context_metadata_keys_json", "[]");
     ("source_representation_context_metadata_keys_digest", sha256_hex (sbytes "keys"))]%string [].
Definition envelope11 (metadata : gmap string string) : SourceRepresentationEnvelope :=
  mkEnvelope (mkContext (mkConnector "postgresql" "15") (mkBuild "postgresql" "pgdg" "15" "15.4")
                "hstore" "sha256:" "pgoutput" FmtText metadata (mkCursor "f" "1" ""))
    "utf8" "" 0 "".

Lemma envelope_metadata_exact_witness :
  check_envelope_metadata metadata_plan11 (envelope11 (<["oid"%string := "16385"%string]> oid_metadata)) = Ok ()
  ∧ (check_envelope_metadata metadata_plan11 (envelope11 oid_metadata) = Ok () ↔
     oid_metadata ≠ ∅ ∧ set_Forall (λ key, blank key = false) oid_keys ∧ dom oid_metadata ## oid_keys
     ∧ ∃ context : gmap string string, dom context = oid_keys ∧ oid_metadata = oid_metadata ∪ context).
Proof.
  split; [vm_compute; reflexivity|].
  apply (Spec.envelope_metadata_exact metadata_plan11 oid_metadata oid_keys (envelope11 oid_metadata)).
  constructor; reflexivity.
Defined.
End Example11.
