(* ===== verification/Gtid.v ===== *)
(** * GTID sets ([crates/postgresql_15/src/checkpoint.rs])

    The PostgreSQL sink keeps the set of applied MySQL transactions as text.
    [parse_gtids] reads it into a map from (UUID, tag) to a list of closed
    intervals, sorts and merges the intervals, and [render_gtids] prints the map
    in key order.  Module [Spec] gives the set of transaction numbers a map
    denotes; the theorems show that parsing, merging and the containment test
    compute on that set and that the printed form is canonical. *)
From S2P Require Import Prelude Text Outcome.

(** ** The order of [BTreeMap<(String, Option<String>), _>] *)
Fixpoint bytes_le (a b : list byte) : bool :=
  match a, b with
  | [], _ => true
  | _ :: _, [] => false
  | x :: a', y :: b' => (bval x <? bval y) || ((bval x =? bval y) && bytes_le a' b')
  end.
Definition str_le (a b : string) : bool := bytes_le (sbytes a) (sbytes b).

Definition GtidKey : Type := string * option string.
Definition key_leb (k j : GtidKey) : bool :=
  if bool_decide (k.1 = j.1) then
    match k.2, j.2 with
    | None, _ => true
    | Some _, None => false
    | Some a, Some b => str_le a b
    end
  else str_le k.1 j.1.
Definition gkey_le (k j : GtidKey) : Prop := key_leb k j = true.

Notation Interval := (Z * Z)%type.
(** [ranges.sort_unstable()] on pairs. *)
Definition interval_leb (a b : Interval) : bool :=
  (a.1 <? b.1) || ((a.1 =? b.1) && (a.2 <=? b.2)).
Definition interval_le (a b : Interval) : Prop := interval_leb a b = true.
#[export] Instance interval_le_dec : RelDecision interval_le.
Proof. intros a b. unfold interval_le. apply _. Defined.
#[export] Instance key_le_dec : RelDecision gkey_le.
Proof. intros a b. unfold gkey_le. apply _. Defined.

Notation GtidMap := (gmap GtidKey (list Interval)).

(** ** Parsing *)
Definition is_gtid_interval (value : string) : bool :=
  match split_once "-" value with
  | Some (start, stop) =>
      negb (sempty start) && negb (sempty stop)
      && all_bytes is_ascii_digit start && all_bytes is_ascii_digit stop
  | None => negb (sempty value) && all_bytes is_ascii_digit value
  end.

Definition parse_number (s : string) : io Z :=
  ok_or (other "invalid digit found in string") (parse_u64 s).

Definition parse_interval (part : string) : io Interval :=
  let? ab :=
    (match split_once "-" part with
     | Some (a, b) => let? a := parse_number a in let? b := parse_number b in Ok (a, b)
     | None => let? n := parse_number part in Ok (n, n)
     end) in
  ensure (negb ((ab.1 =? 0) || (ab.2 <? ab.1))) (other "invalid GTID interval") ;?
  Ok ab.

Fixpoint map_result {E A B} (f : A → result E B) (l : list A) : result E (list B) :=
  match l with
  | [] => Ok []
  | x :: l' => let? y := f x in let? ys := map_result f l' in Ok (y :: ys)
  end.

(** A non-empty part between commas: its key and its intervals. *)
Definition parse_group (group : string) : io (GtidKey * list Interval) :=
  match split ":" group with
  | uuid :: first :: rest =>
      let uuid := to_lower uuid in
      ensure (slen uuid =? 36) (other "invalid GTID UUID") ;?
      if is_gtid_interval first then
        let? ranges := map_result parse_interval (first :: rest) in
        Ok ((uuid, None), ranges)
      else
        ensure (negb (match rest with [] => true | _ => false end) && negb (sempty first)
                && all_bytes (λ c, is_ascii_alphanumeric c || bool_decide (c = "_"%char)) first)
          (other "invalid tagged GTID") ;?
        (let? ranges := map_result parse_interval rest in
         Ok ((uuid, Some (to_lower first)), ranges))
  | _ => Err (other "invalid GTID set")
  end.

(** [map.entry(key).or_default()] and the pushes. *)
Definition add_ranges (m : GtidMap) (key : GtidKey) (ranges : list Interval) : GtidMap :=
  <[key := default [] (m !! key) ++ ranges]> m.

Fixpoint parse_groups (groups : list string) (m : GtidMap) : io GtidMap :=
  match groups with
  | [] => Ok m
  | group :: groups' =>
      let? kr := parse_group group in
      parse_groups groups' (add_ranges m kr.1 kr.2)
  end.

(** The loop that merges sorted intervals; [last] is [merged.last_mut()]. *)
Fixpoint merge_from (last : Interval) (ranges : list Interval) : list Interval :=
  match ranges with
  | [] => [last]
  | (a, b) :: ranges' =>
      if a <=? sat_add_u64 last.2 1
      then merge_from (last.1, Z.max last.2 b) ranges'
      else last :: merge_from (a, b) ranges'
  end.
Definition merge_sorted (ranges : list Interval) : list Interval :=
  match ranges with [] => [] | r :: ranges' => merge_from r ranges' end.
Definition merge_ranges (ranges : list Interval) : list Interval :=
  merge_sorted (sort_by interval_le id ranges).

Definition parse_gtids (value : string) : io GtidMap :=
  let? m := parse_groups (nonempty_parts (split "," value)) ∅ in
  Ok (merge_ranges <$> (m : GtidMap)).

(** ** Printing *)
Definition render_interval (r : Interval) : string :=
  if r.1 =? r.2 then show_nat r.1 else show_nat r.1 +:+ String "-" (show_nat r.2).
Definition render_entry (e : GtidKey * list Interval) : string :=
  let '((uuid, tag), ranges) := e in
  uuid +:+ match tag with Some t => String ":" t | None => "" end
       +:+ foldr (λ r value, String ":" (render_interval r +:+ value)) "" ranges.
Definition sorted_entries (m : GtidMap) : list (GtidKey * list Interval) :=
  sort_by gkey_le fst (map_to_list m).
Definition render_gtids (m : GtidMap) : string := join "," (render_entry <$> sorted_entries m).

(** ** The operations of the checkpoint *)
Definition canonical_gtids (value : string) : io string :=
  let? m := parse_gtids value in Ok (render_gtids m).

Definition canonical_single_gtid (value : string) : io string :=
  let? m := parse_gtids value in
  ensure (match sorted_entries m with
          | [(_, [(a, b)])] => a =? b
          | _ => false
          end) (other "invalid single transaction GTID") ;?
  Ok (render_gtids m).

Definition merge_gtids (left : option string) (right : string) : io string :=
  canonical_gtids (join "," (nonempty_parts [default "" left; right])).

Definition gtid_contains (set one : string) : io bool :=
  let? set := parse_gtids set in
  let? one := parse_gtids one in
  match sorted_entries one with
  | (key, (start, stop) :: _) :: _ =>
      Ok (match set !! key with
          | Some items => existsb (λ ab : Interval, (ab.1 <=? start) && (stop <=? ab.2)) items
          | None => false
          end)
  | _ => Err (other "empty GTID")
  end.

Definition uuid_a : string := "aaaaaaaa-aaaa-aaaa-aaaa-aaaaaaaaaaaa".
Definition uuid_b : string := "bbbbbbbb-bbbb-bbbb-bbbb-bbbbbbbbbbbb".
Example merge_example :
  merge_gtids (Some "AAAAAAAA-AAAA-AAAA-AAAA-AAAAAAAAAAAA:1-2") (uuid_a +:+ ":3")
  = Ok (uuid_a +:+ ":1-3").
Proof. vm_compute. reflexivity. Qed.
Example contains_example :
  (let? t := canonical_gtids (uuid_b +:+ ":tag:4-5") in gtid_contains t (uuid_b +:+ ":tag:5"))
  = Ok true.
Proof. vm_compute. reflexivity. Qed.

(** ** What the sets denote *)
Module Spec.
(** The transaction numbers of a list of intervals. *)
Definition covers (l : list Interval) (n : Z) : Prop := ∃ r, r ∈ l ∧ r.1 ≤ n ≤ r.2.

Definition interval_ok (r : Interval) : Prop := 1 ≤ r.1 ∧ r.1 ≤ r.2 ≤ u64_max.

(** Sorted, non-empty, with a gap between neighbours, from [lo] on. *)
Fixpoint normal_from (lo : Z) (l : list Interval) : Prop :=
  match l with
  | [] => True
  | (a, b) :: l' => lo ≤ a ∧ a ≤ b ≤ u64_max ∧ normal_from (b + 2) l'
  end.
Definition normal (l : list Interval) : Prop := normal_from 1 l.

Lemma covers_nil n : covers [] n ↔ False.
Proof. unfold covers. set_solver. Qed.
Lemma covers_cons r l n : covers (r :: l) n ↔ r.1 ≤ n ≤ r.2 ∨ covers l n.
Proof. unfold covers. setoid_rewrite elem_of_cons. naive_solver. Qed.
Lemma covers_app l k n : covers (l ++ k) n ↔ covers l n ∨ covers k n.
Proof. unfold covers. setoid_rewrite elem_of_app. naive_solver. Qed.
Lemma covers_perm l k n : l ≡ₚ k → covers l n ↔ covers k n.
Proof. intros H. unfold covers. by setoid_rewrite H. Qed.

Lemma normal_from_le lo lo' l : lo' ≤ lo → normal_from lo l → normal_from lo' l.
Proof. destruct l as [|[a b] l]; cbn; [done|]. intros ? (?&?&?). split_and!; try lia. done. Qed.

Lemma normal_from_covers lo l n : normal_from lo l → covers l n → lo ≤ n ≤ u64_max.
Proof.
  revert lo. induction l as [|[a b] l IH]; intros lo; [by rewrite covers_nil|].
  cbn. intros (? & ? & H). rewrite covers_cons. cbn. intros [?|Hc]; [lia|].
  apply (IH _ H) in Hc. lia.
Qed.

(** A normal list is determined by what it covers. *)
Lemma normal_head lo a b l n :
  normal_from lo ((a, b) :: l) →
  covers ((a, b) :: l) a ∧ (covers ((a, b) :: l) n → a ≤ n)
  ∧ ¬ covers ((a, b) :: l) (b + 1) ∧ (a ≤ n ≤ b → covers ((a, b) :: l) n).
Proof.
  intros (? & ? & H). rewrite !covers_cons. cbn. split_and!; try lia.
  - intros [?|Hc]; [lia|]. apply (normal_from_covers _ _ _ H) in Hc. lia.
  - intros [?|Hc]; [lia|]. apply (normal_from_covers _ _ _ H) in Hc. lia.
Qed.

Lemma normal_unique lo lo' l k :
  normal_from lo l → normal_from lo' k → (∀ n, covers l n ↔ covers k n) → l = k.
Proof.
  revert lo lo' k. induction l as [|[a b] l IH]; intros lo lo' [|[c d] k] Hl Hk H; [done| | |].
  - destruct (normal_head _ _ _ _ 0 Hk) as [Hc _]. by apply H, covers_nil in Hc.
  - destruct (normal_head _ _ _ _ 0 Hl) as [Hc _]. by apply H, covers_nil in Hc.
  - pose proof (λ n, normal_head _ _ _ _ n Hl) as Hl'.
    pose proof (λ n, normal_head _ _ _ _ n Hk) as Hk'.
    destruct (Hl' 0) as (La & _ & Lb & _), (Hk' 0) as (Ka & _ & Kb & _).
    assert (a = c) as ->.
    { apply H in La as La'. apply H in Ka as Ka'.
      apply (Hk' a) in La'. apply (Hl' c) in Ka'. lia. }
    assert (b = d) as ->.
    { cbn in Hl, Hk. rewrite H in Lb. rewrite <- H in Kb.
      destruct (Z.lt_trichotomy b d) as [?|[?|?]]; [|done|].
      - exfalso. apply Lb. apply (Hk' (b + 1)). lia.
      - exfalso. apply Kb. apply (Hl' (d + 1)). lia. }
    f_equal. destruct Hl as (_ & _ & Hl), Hk as (_ & _ & Hk).
    apply (IH _ _ _ Hl Hk). intros n. specialize (H n). rewrite !covers_cons in H.
    cbn in H. split; intros Hn.
    + apply (normal_from_covers _ _ _ Hl) in Hn as ?. destruct H as [H _].
      destruct (H (or_intror Hn)); [lia|done].
    + apply (normal_from_covers _ _ _ Hk) in Hn as ?. destruct H as [_ H].
      destruct (H (or_intror Hn)); [lia|done].
Qed.

(** *** Merging *)
#[export] Instance interval_le_total : Total interval_le.
Proof.
  intros [a b] [c d]. unfold interval_le, interval_leb. cbn.
  rewrite !orb_true_iff, !andb_true_iff, !Z.ltb_lt, !Z.eqb_eq, !Z.leb_le. lia.
Qed.

Lemma interval_le_fst r q : interval_le r q → r.1 ≤ q.1.
Proof.
  unfold interval_le, interval_leb.
  rewrite orb_true_iff, andb_true_iff, Z.ltb_lt, Z.eqb_eq. lia.
Qed.

(** The starts are non-decreasing from [lo] on. *)
Fixpoint starts_from (lo : Z) (l : list Interval) : Prop :=
  match l with
  | [] => True
  | r :: l' => lo ≤ r.1 ∧ interval_ok r ∧ starts_from r.1 l'
  end.

Lemma starts_from_sorted l :
  Sorted (key_le interval_le id) l → Forall interval_ok l → starts_from 1 l.
Proof.
  intros H. enough (∀ lo : Z, match l with [] => True | r :: _ => lo ≤ r.1 end →
                      Forall interval_ok l → starts_from lo l) as Hs.
  { intros Hok. apply Hs; [|done]. destruct Hok as [|r k [? _] _]; [done|]. lia. }
  induction H as [|r l _ IH Hr]; intros lo Hlo Hok; [done|].
  apply Forall_cons in Hok as [? Hok]. split_and!; try done.
  apply IH; [|done]. destruct Hr; [done|]. by apply interval_le_fst.
Qed.

Lemma merge_from_spec last l :
  interval_ok last → starts_from last.1 l →
  normal_from last.1 (merge_from last l)
  ∧ ∀ n, covers (merge_from last l) n ↔ covers (last :: l) n.
Proof.
  revert last. induction l as [|[a b] l IH]; intros [c d] [Hc Hd] Hl; cbn in *.
  { split; [lia|done]. }
  destruct Hl as (Ha & [? Hb] & Hl). cbn in *. unfold sat_add_u64.
  destruct (a <=? Z.min u64_max (d + 1)) eqn:E; bool_simpl.
  - destruct (IH (c, Z.max d b)) as [IH1 IH2]; cbn.
    { split; cbn; lia. }
    { destruct l as [|r l]; [done|]. cbn in *. intuition lia. }
    split; [done|]. intros n. rewrite IH2, !covers_cons. cbn.
    assert (c ≤ n ≤ Z.max d b ↔ c ≤ n ≤ d ∨ a ≤ n ≤ b) as -> by lia. tauto.
  - destruct (IH (a, b)) as [IH1 IH2]; [split; cbn; lia|done|]. split.
    + cbn. split_and!; [lia..|]. cbn in IH1. eapply normal_from_le; [|exact IH1]. lia.
    + intros n. rewrite covers_cons, IH2, !covers_cons. done.
Qed.

Lemma merge_ranges_spec l :
  Forall interval_ok l →
  normal (merge_ranges l) ∧ ∀ n, covers (merge_ranges l) n ↔ covers l n.
Proof.
  intros Hok. unfold merge_ranges.
  pose proof (sort_by_perm interval_le id l) as Hp.
  assert (starts_from 1 (sort_by interval_le id l)) as Hs.
  { apply starts_from_sorted; [apply sort_by_sorted, _|by rewrite Hp]. }
  assert (∀ n, covers (sort_by interval_le id l) n ↔ covers l n) as Hsc
    by (intros n; by apply covers_perm).
  setoid_rewrite <- Hsc. clear Hp Hsc.
  destruct (sort_by interval_le id l) as [|r k]; cbn; [done|].
  destruct Hs as (? & Hr & Hk). destruct (merge_from_spec r k Hr Hk) as [Hn Hc].
  split; [|done]. by eapply normal_from_le; [|exact Hn].
Qed.

Lemma merge_from_normal r l : normal_from 1 (r :: l) → merge_from r l = r :: l.
Proof.
  revert r. enough (∀ lo r, normal_from lo (r :: l) → merge_from r l = r :: l) as H by eauto.
  induction l as [|[c d] l IH]; intros lo [a b]; [done|].
  intros (? & ? & Hc & Hd & Hl). cbn [merge_from fst snd].
  unfold sat_add_u64. rewrite (proj2 (Z.leb_gt _ _)) by lia.
  f_equal. apply (IH c (c, d)). cbn. split_and!; [lia..|done].
Qed.

Lemma normal_sorted l : normal l → Sorted (key_le interval_le id) l.
Proof.
  unfold normal. generalize 1. induction l as [|[a b] l IH]; intros lo Hl; constructor.
  - destruct Hl as (_ & _ & Hl). by eapply IH.
  - destruct l as [|[c d] l]; constructor. destruct Hl as (_ & ? & ? & _).
    apply orb_true_iff. left. apply Z.ltb_lt. cbn. lia.
Qed.

Lemma merge_ranges_normal l : normal l → merge_ranges l = l.
Proof.
  intros Hl. unfold merge_ranges. rewrite sort_by_id by by apply normal_sorted.
  destruct l as [|r l]; [done|]. by apply merge_from_normal.
Qed.

(** Merging sorted intervals is exact: from any list of valid intervals,
    in any order and with any overlaps, [merge_ranges] computes the unique
    sorted list of intervals separated by gaps that covers the same numbers,
    the saturating increment at [u64::MAX] included. *)
Theorem merge_ranges_canonical (l k : list Interval) :
  Forall interval_ok l → normal k → (∀ n, covers k n ↔ covers l n) → merge_ranges l = k.
Proof.
  intros Hok Hk H. destruct (merge_ranges_spec l Hok) as [Hn Hc].
  apply (normal_unique 1 1); [done..|]. intros n. by rewrite Hc, H.
Qed.

Lemma merge_ranges_canonical_witness :
  merge_ranges [(7, 9); (1, 2); (3, 5); (8, u64_max); (2, 2)] = [(1, 5); (7, u64_max)].
Proof.
  apply (merge_ranges_canonical [(7, 9); (1, 2); (3, 5); (8, u64_max); (2, 2)]).
  - repeat constructor; cbn; unfold u64_max; lia.
  - cbn. unfold u64_max. lia.
  - intros n. rewrite !covers_cons, !covers_nil. cbn. unfold u64_max. lia.
Defined.

(** *** Keys *)
Definition tag_byte (c : byte) : bool := is_ascii_alphanumeric c || bool_decide (c = "_"%char).

Definition tag_ok (t : string) : Prop :=
  t ≠ ""%string ∧ all_bytes tag_byte t = true ∧ all_bytes is_ascii_digit t = false
  ∧ to_lower t = t.
Definition key_ok (k : GtidKey) : Prop :=
  slen k.1 = 36 ∧ contains_byte "," k.1 = false ∧ contains_byte ":" k.1 = false
  ∧ to_lower k.1 = k.1 ∧ (∀ t, k.2 = Some t → tag_ok t).

Lemma tag_byte_lower b : tag_byte (to_lower_byte b) = tag_byte b.
Proof. by destruct b as [[] [] [] [] [] [] [] []]. Qed.
Lemma digit_lower b : is_ascii_digit (to_lower_byte b) = is_ascii_digit b.
Proof. by destruct b as [[] [] [] [] [] [] [] []]. Qed.
Lemma comma_lower b : to_lower_byte b = ","%char → b = ","%char.
Proof. by destruct b as [[] [] [] [] [] [] [] []]. Qed.
Lemma colon_lower b : to_lower_byte b = ":"%char → b = ":"%char.
Proof. by destruct b as [[] [] [] [] [] [] [] []]. Qed.

(** A string all of whose bytes satisfy [p] does not contain a byte that does not. *)
Lemma all_not_contains p c s :
  all_bytes p s = true → p c = false → contains_byte c s = false.
Proof.
  intros Hs Hc. apply contains_byte_false. intros Hin.
  rewrite all_bytes_spec in Hs. apply Hs in Hin. congruence.
Qed.

Lemma tag_not_interval t : tag_ok t → is_gtid_interval t = false.
Proof.
  intros (He & Ht & Hd & _). unfold is_gtid_interval.
  rewrite (proj2 (split_once_None "-" t)) by (by eapply all_not_contains).
  rewrite Hd. apply andb_false_r.
Qed.

(** *** Intervals as text *)
Lemma parse_number_show n : 0 ≤ n ≤ u64_max → parse_number (show_nat n) = Ok n.
Proof. intros H. unfold parse_number, parse_u64. by rewrite parse_unsigned_show. Qed.

Lemma interval_render r : interval_ok r →
  parse_interval (render_interval r) = Ok r ∧ is_gtid_interval (render_interval r) = true
  ∧ contains_byte ":" (render_interval r) = false
  ∧ contains_byte "," (render_interval r) = false.
Proof.
  destruct r as [a b]. intros [Ha [Hb Hu]]. cbn in *.
  assert (∀ c n, is_ascii_digit c = false → 0 ≤ n → contains_byte c (show_nat n) = false)
    as Hno by (intros; by apply show_nat_no_byte).
  unfold render_interval, parse_interval, is_gtid_interval. cbn [fst snd].
  destruct (a =? b) eqn:E.
  - apply Z.eqb_eq in E as <-.
    rewrite (proj2 (split_once_None _ _)) by (apply Hno; [done|lia]).
    rewrite parse_number_show by lia. cbn.
    rewrite show_nat_nonempty, show_nat_digits by lia.
    rewrite (proj2 (Z.eqb_neq a 0)), (proj2 (Z.ltb_ge a a)) by lia. cbn.
    split_and!; try done; apply Hno; done || lia.
  - rewrite split_once_app by (apply Hno; [done|lia]).
    rewrite !parse_number_show by lia. cbn.
    rewrite !show_nat_nonempty, !show_nat_digits by lia.
    rewrite (proj2 (Z.eqb_neq a 0)), (proj2 (Z.ltb_ge b a)) by lia. cbn.
    split_and!; try done; apply contains_byte_false; rewrite sbytes_app.
    all: intros [Hin|Hin]%elem_of_app;
      [|apply elem_of_cons in Hin as [?|Hin]; [done|]].
    all: apply contains_byte_spec in Hin; rewrite Hno in Hin; done || lia.
Qed.

Lemma parse_interval_ok part r : parse_interval part = Ok r → interval_ok r.
Proof.
  unfold parse_interval. intros H. apply bind_ok in H as ([a b] & H & Hc).
  apply seq_ok in Hc as [Hc [= <-]]. apply ensure_ok, negb_true_iff, orb_false_iff in Hc as [Ha Hb].
  cbn in *. apply Z.eqb_neq in Ha. apply Z.ltb_ge in Hb.
  assert (∀ s n, parse_number s = Ok n → 0 ≤ n ≤ u64_max) as Hp.
  { intros s n Hn. apply ok_or_ok in Hn. unfold parse_u64, parse_unsigned in Hn.
    apply bind_Some in Hn as (v & Hv & Hn). apply parse_digits_nonneg in Hv.
    case_match eqn:E; simplify_eq. apply Z.leb_le in E. lia. }
  unfold interval_ok. cbn. destruct (split_once "-" part) as [[sa sb]|].
  - apply bind_ok in H as (x & Hx & H). apply bind_ok in H as (y & Hy & [= -> ->]).
    apply Hp in Hx, Hy. lia.
  - apply bind_ok in H as (x & Hx & [= -> ->]). apply Hp in Hx. lia.
Qed.

Lemma map_result_ok {A B} (f : A → io B) l k :
  map_result f l = Ok k ↔ Forall2 (λ x y, f x = Ok y) l k.
Proof.
  revert k. induction l as [|x l IH]; intros k; cbn.
  - split; [by intros [= <-]|by intros ->%Forall2_nil_inv_l].
  - rewrite bind_ok. setoid_rewrite bind_ok. setoid_rewrite IH. split.
    + intros (y & ? & ys & ? & [= <-]). by constructor.
    + intros (y & ys & ? & ? & ->)%Forall2_cons_inv_l. eauto 10.
Qed.

(** *** Groups as text *)
Definition entry_ok (e : GtidKey * list Interval) : Prop :=
  key_ok e.1 ∧ e.2 ≠ [] ∧ Forall interval_ok e.2.

Definition entry_parts (e : GtidKey * list Interval) : list string :=
  e.1.1 :: option_list e.1.2 ++ (render_interval <$> e.2).

Lemma render_entry_join e : render_entry e = join ":" (entry_parts e).
Proof.
  destruct e as [[u t] rs]. unfold entry_parts. cbn [fst snd].
  assert (∀ p, p +:+ foldr (λ r value, String ":" (render_interval r +:+ value)) "" rs
               = join ":" (p :: (render_interval <$> rs))) as H.
  { induction rs as [|r rs IH]; intros p.
    - cbn. induction p as [|c p IHp]; [done|]. cbn. by rewrite IHp.
    - rewrite fmap_cons, join_cons2, <- IH. done. }
  unfold render_entry. destruct t as [t|]; cbn [option_list option_rect app].
  - rewrite join_cons2, <- H. done.
  - rewrite <- H. done.
Qed.

Lemma tag_no c t : tag_byte c = false → tag_ok t → contains_byte c t = false.
Proof. intros Hc (_ & Ht & _). by eapply all_not_contains. Qed.

Lemma entry_parts_clean c e :
  entry_ok e → c = ":"%char ∨ c = ","%char →
  Forall (λ s, contains_byte c s = false) (entry_parts e).
Proof.
  destruct e as [[u t] rs]. intros ((_ & Hu1 & Hu2 & _ & Ht) & _ & Hrs) Hc. cbn in *.
  constructor; [by destruct Hc as [->| ->]|]. apply Forall_app. split.
  - destruct t as [t|]; repeat constructor. apply tag_no; [|by apply Ht].
    by destruct Hc as [->| ->].
  - rewrite Forall_fmap. eapply Forall_impl; [exact Hrs|]. intros r Hr.
    apply interval_render in Hr as (_ & _ & H1 & H2). by destruct Hc as [->| ->].
Qed.

Lemma join_clean c d l :
  c ≠ d → Forall (λ s, contains_byte c s = false) l →
  contains_byte c (join (String d "") l) = false.
Proof.
  intros Hcd. induction l as [|a [|b l] IH]; intros H; [done| |].
  - by apply Forall_cons in H as [? _].
  - apply Forall_cons in H as [Ha H]. rewrite join_cons2.
    rewrite contains_byte_false, sbytes_app. change (sbytes (String d "" +:+ ?x)) with (d :: sbytes x).
    rewrite elem_of_app, elem_of_cons. apply contains_byte_false in Ha.
    apply IH, contains_byte_false in H. naive_solver.
Qed.

Lemma parse_group_render e : entry_ok e → parse_group (render_entry e) = Ok e.
Proof.
  intros He. rewrite render_entry_join. unfold parse_group.
  rewrite split_join; [|by destruct e as [[? ?] ?]|apply entry_parts_clean; auto].
  destruct e as [[u t] rs]. destruct He as ((Hl & _ & _ & Hu & Ht) & Hne & Hrs).
  unfold entry_parts. cbn [fst snd] in *.
  assert (map_result parse_interval (render_interval <$> rs) = Ok rs) as Hm.
  { apply map_result_ok, Forall2_fmap_l, Forall_Forall2_diag.
    eapply Forall_impl; [exact Hrs|]. intros r Hr. by apply interval_render. }
  destruct t as [t|]; cbn [option_list option_rect app].
  - specialize (Ht t eq_refl). rewrite Hu, Hl, (tag_not_interval t Ht). cbn [Z.eqb Pos.eqb].
    rewrite Hm. destruct Ht as (Hte & Htb & _ & Htl).
    change (all_bytes (λ c, _) t) with (all_bytes tag_byte t). rewrite Htb, Htl.
    destruct t; [done|]. by destruct rs.
  - destruct rs as [|r rs]; [done|]. cbn [fmap list_fmap] in *.
    apply Forall_cons in Hrs as [Hr _]. apply interval_render in Hr as (_ & Hi & _).
    by rewrite Hu, Hl, Hi, Hm.
Qed.

Lemma map_result_intervals l rs :
  map_result parse_interval l = Ok rs → Forall interval_ok rs ∧ (l ≠ [] → rs ≠ []).
Proof.
  intros H%map_result_ok. split.
  - induction H; constructor; [by eapply parse_interval_ok|done].
  - by destruct H.
Qed.

Lemma parse_group_ok group e :
  contains_byte "," group = false → parse_group group = Ok e → entry_ok e.
Proof.
  unfold parse_group. intros Hg H.
  pose proof (split_parts_clean ":" group) as Hcol.
  assert (∀ p, p ∈ split ":" group → contains_byte "," p = false) as Hcom
    by (intros p; by apply split_parts_bytes).
  destruct (split ":" group) as [|u [|f rest]]; try discriminate H.
  apply Forall_cons in Hcol as [Hu1 _]. specialize (Hcom u ltac:(left)).
  apply seq_ok in H as [Hl H]. apply ensure_ok, Z.eqb_eq in Hl.
  assert (∀ t, (∀ x, t = Some x → tag_ok x) → key_ok (to_lower u, t)) as Hk.
  { intros t Ht. split_and!; cbn; [done|..|by apply to_lower_idem|done].
    - apply to_lower_contains; [apply comma_lower|done].
    - apply to_lower_contains; [apply colon_lower|done]. }
  destruct (is_gtid_interval f) eqn:Hf.
  - apply bind_ok in H as (rs & Hrs & [= <-]).
    apply map_result_intervals in Hrs as [? Hne].
    split_and!; [by apply Hk|by apply Hne|done].
  - apply seq_ok in H as [Ht H]. apply ensure_ok in Ht.
    apply bind_ok in H as (rs & Hrs & [= <-]).
    apply map_result_intervals in Hrs as [? Hne]. bool_simpl.
    split_and!; [apply Hk|apply Hne; by destruct rest|done].
    intros x [= <-]. unfold tag_ok.
    rewrite (to_lower_all tag_byte), (to_lower_all is_ascii_digit), to_lower_idem
      by (apply tag_byte_lower || apply digit_lower).
    split_and!; [by destruct f|done| |done].
    unfold is_gtid_interval in Hf.
    rewrite (proj2 (split_once_None "-" f)) in Hf by (by eapply (all_not_contains tag_byte)).
    apply andb_false_iff in Hf as [Hf|Hf]; [by destruct f|done].
Qed.

(** *** Maps *)
Notation Entry := (GtidKey * list Interval)%type.

(** Transaction [n] of UUID/tag [key] belongs to the map. *)
Definition member (m : GtidMap) (key : GtidKey) (n : Z) : Prop :=
  ∃ rs, m !! key = Some rs ∧ covers rs n.
(** ... and to a GTID text, read group by group. *)
Definition text_member (s : string) (key : GtidKey) (n : Z) : Prop :=
  ∃ group rs, group ∈ nonempty_parts (split "," s) ∧ parse_group group = Ok (key, rs)
              ∧ covers rs n.
Definition well_formed_text (s : string) : Prop :=
  Forall (λ g, ∃ e, parse_group g = Ok e) (nonempty_parts (split "," s)).

Definition map_wf (m : GtidMap) : Prop :=
  map_Forall (λ k rs, key_ok k ∧ rs ≠ [] ∧ normal rs) m.
Definition raw_wf (m : GtidMap) : Prop := map_Forall (λ k rs, entry_ok (k, rs)) m.

Definition add_all (m : GtidMap) (l : list Entry) : GtidMap :=
  foldl (λ m e, add_ranges m e.1 e.2) m l.

Lemma parse_groups_ok gs m m' :
  parse_groups gs m = Ok m'
  ↔ ∃ l, Forall2 (λ g e, parse_group g = Ok e) gs l ∧ m' = add_all m l.
Proof.
  revert m. induction gs as [|g gs IH]; intros m; cbn.
  - split; [intros [= <-]; by exists []|by intros (l & ->%Forall2_nil_inv_l & ->)].
  - rewrite bind_ok. setoid_rewrite IH. split.
    + intros (e & He & l & Hl & ->). exists (e :: l). by split; [constructor|].
    + intros (l & (e & l' & ? & ? & ->)%Forall2_cons_inv_l & ->). eauto.
Qed.

Lemma member_add m k rs key n :
  member (add_ranges m k rs) key n ↔ member m key n ∨ key = k ∧ covers rs n.
Proof.
  unfold member, add_ranges. destruct (decide (k = key)) as [->|Hk].
  - rewrite lookup_insert_eq. split.
    + intros (? & [= <-] & Hc). apply covers_app in Hc as [Hc|Hc]; [|by right].
      left. destruct (m !! key) as [r|]; [eauto|by apply covers_nil in Hc].
    + intros Hc. eexists. split; [done|]. apply covers_app.
      destruct Hc as [(r & -> & Hc)|[_ Hc]]; [by left|by right].
  - rewrite lookup_insert_ne by done. naive_solver.
Qed.

Lemma member_add_all l m key n :
  member (add_all m l) key n ↔ member m key n ∨ ∃ rs, (key, rs) ∈ l ∧ covers rs n.
Proof.
  revert m. induction l as [|[k rs] l IH]; intros m.
  - cbn. set_solver.
  - change (add_all m ((k, rs) :: l)) with (add_all (add_ranges m k rs) l). rewrite IH, member_add.
    setoid_rewrite elem_of_cons. naive_solver.
Qed.

Lemma raw_wf_add_all l m : Forall entry_ok l → raw_wf m → raw_wf (add_all m l).
Proof.
  intros Hl. revert m. induction Hl as [|[k rs] l (Hk & Hn & Hr) _ IH]; intros m Hm; [done|].
  apply IH. unfold add_ranges. apply map_Forall_insert_2; [|done].
  cbn in Hn. split; [done|]. split; cbn; [by destruct (default [] (m !! k))|]. apply Forall_app.
  split; [|done]. destruct (m !! k) eqn:E; [|done]. by apply Hm in E as (_ & _ & ?).
Qed.

Lemma member_fmap_merge m key n : raw_wf m → member (merge_ranges <$> m) key n ↔ member m key n.
Proof.
  intros Hm. unfold member. setoid_rewrite lookup_fmap. split.
  - intros (rs & Hrs & Hc). destruct (m !! key) as [r|] eqn:E; cbn in *; [|done].
    simplify_eq. apply Hm in E as (_ & _ & Hr). exists r. split; [done|].
    by apply merge_ranges_spec.
  - intros (r & E & Hc). rewrite E. cbn. eexists. split; [done|].
    apply Hm in E as (_ & _ & Hr). by apply merge_ranges_spec.
Qed.

Lemma raw_wf_merge m : raw_wf m → map_wf (merge_ranges <$> m).
Proof.
  intros Hm k rs. rewrite lookup_fmap. destruct (m !! k) as [r|] eqn:E; [|done].
  intros [= <-]. apply Hm in E as (Hk & Hn & Hr). cbn in *. split; [done|].
  destruct (merge_ranges_spec r Hr) as [Hnorm Hc]. split; [|done].
  intros He. destruct r as [|[a b] r]; [done|]. apply Forall_cons in Hr as [[? ?] _].
  apply (covers_nil a). rewrite <- He. apply Hc, covers_cons. cbn in *. lia.
Qed.

Lemma groups_entry_ok s l :
  Forall2 (λ g e, parse_group g = Ok e) (nonempty_parts (split "," s)) l → Forall entry_ok l.
Proof.
  intros H. assert (Forall (λ g, contains_byte "," g = false) (nonempty_parts (split "," s))) as Hc.
  { apply Forall_forall. intros g Hg. apply list_elem_of_filter in Hg as [_ Hg].
    revert g Hg. apply Forall_forall, split_parts_clean. }
  induction H; constructor; apply Forall_cons in Hc as [? ?]; [by eapply parse_group_ok|auto].
Qed.

Lemma parse_gtids_spec s m :
  parse_gtids s = Ok m →
  map_wf m ∧ (∀ key n, member m key n ↔ text_member s key n).
Proof.
  unfold parse_gtids. intros H. apply bind_ok in H as (raw & H & [= <-]).
  apply parse_groups_ok in H as (l & Hl & ->). pose proof (groups_entry_ok s l Hl) as Hok.
  assert (raw_wf (add_all ∅ l)) as Hraw by 
    by (apply raw_wf_add_all; [done|apply map_Forall_empty]).
  split; [by apply raw_wf_merge|]. intros key n.
  rewrite member_fmap_merge, member_add_all by done. unfold text_member. split.
  - intros [(rs & Hrs & _)|(rs & Hin & Hc)]; [by rewrite lookup_empty in Hrs|].
    apply list_elem_of_lookup in Hin as [i Hi].
    destruct (Forall2_lookup_r _ _ _ _ _ Hl Hi) as (g & Hg & Hp).
    exists g, rs. split; [by eapply list_elem_of_lookup_2|done].
  - intros (g & rs & Hin & Hp & Hc). right. exists rs. split; [|done].
    apply list_elem_of_lookup in Hin as [i Hi].
    destruct (Forall2_lookup_l _ _ _ _ _ Hl Hi) as (e & He & Hp').
    assert (e = (key, rs)) as -> by congruence. by eapply list_elem_of_lookup_2.
Qed.

Lemma parse_gtids_succeeds s : (∃ m, parse_gtids s = Ok m) ↔ well_formed_text s.
Proof.
  unfold parse_gtids, well_formed_text. setoid_rewrite bind_ok. setoid_rewrite parse_groups_ok.
  split.
  - intros (m & raw & (l & Hl & _) & _). induction Hl; constructor; eauto.
  - intros H. enough (∃ l, Forall2 (λ g e, parse_group g = Ok e) (nonempty_parts (split "," s)) l)
      as [l Hl] by eauto 10.
    induction H as [|g gs [e He] _ [l IH]]; [by exists []|]. exists (e :: l). by constructor.
Qed.

Lemma map_wf_unique m m' :
  map_wf m → map_wf m' → (∀ key n, member m key n ↔ member m' key n) → m = m'.
Proof.
  intros Hm Hm' H. apply map_eq. intros k.
  assert (∀ m m', map_wf m → (∀ key n, member m key n ↔ member m' key n) →
            ∀ rs, m !! k = Some rs → is_Some (m' !! k)) as Hdom.
  { clear. intros m m' Hm H rs E. apply Hm in E as Hrs. destruct Hrs as (_ & Hn & Hnorm).
    destruct rs as [|[a b] rs]; [done|].
    assert (member m' k a) as (rs' & -> & _); [|done]. apply H. eexists. split; [done|].
    apply covers_cons. cbn in *. lia. }
  destruct (m !! k) as [rs|] eqn:E, (m' !! k) as [rs'|] eqn:E'; [|exfalso..|done].
  - f_equal. apply Hm in E as Hrs. apply Hm' in E' as Hrs'.
    apply (normal_unique 1 1); [apply Hrs|apply Hrs'|]. intros n. specialize (H k n).
    unfold member in H. rewrite E, E' in H. naive_solver.
  - destruct (Hdom m m' Hm H rs E) as [? ?]. congruence.
  - assert (∀ key n, member m' key n ↔ member m key n) as H' by (intros; by rewrite H).
    destruct (Hdom m' m Hm' H' rs' E') as [? ?]. congruence.
Qed.

(** *** Printing and parsing back *)
Lemma sorted_entries_perm m : sorted_entries m ≡ₚ map_to_list m.
Proof. apply sort_by_perm. Qed.

Lemma sorted_entries_ok m : map_wf m → Forall (λ e, entry_ok e ∧ normal e.2) (sorted_entries m).
Proof.
  intros Hm. rewrite sorted_entries_perm. apply Forall_forall. intros [k rs] He.
  apply elem_of_map_to_list, Hm in He as (Hk & Hn & Hr). split; [|done].
  split_and!; [done..|]. cbn. clear -Hr. unfold normal in Hr. revert Hr.
  assert (1 ≤ 1) as H1 by lia. revert H1. generalize 1 at 2 3.
  induction rs as [|[a b] rs IH]; intros lo Hlo Hr; [constructor|].
  destruct Hr as (? & ? & Hr). constructor; [split; cbn; lia|]. eapply (IH (b + 2)); [lia|done].
Qed.

Lemma render_parts m :
  map_wf m → nonempty_parts (split "," (render_gtids m)) = render_entry <$> sorted_entries m.
Proof.
  intros Hm%sorted_entries_ok. unfold render_gtids.
  destruct (sorted_entries m) as [|e l]; [done|].
  rewrite split_join; [|done|].
  - apply nonempty_parts_all. rewrite Forall_fmap. eapply Forall_impl; [exact Hm|].
    intros e' [He _]. cbn. apply parse_group_render in He.
    destruct (render_entry e'); [discriminate He|done].
  - rewrite Forall_fmap. eapply Forall_impl; [exact Hm|]. intros e' [He _]. cbn.
    rewrite render_entry_join. apply join_clean; [done|]. apply entry_parts_clean; auto.
Qed.

Lemma add_all_map l m :
  NoDup l.*1 → (∀ k, k ∈ l.*1 → m !! k = None) → add_all m l = list_to_map l ∪ m.
Proof.
  revert m. induction l as [|[k rs] l IH]; intros m Hnd Hf.
  { change (m = ∅ ∪ m). by rewrite (left_id_L ∅ (∪)). }
  cbn in Hnd. apply NoDup_cons in Hnd as [Hk Hnd].
  change (add_all m ((k, rs) :: l)) with (add_all (add_ranges m k rs) l).
  rewrite IH; [|done|].
  - unfold add_ranges. rewrite (Hf k) by left. cbn. rewrite <- insert_union_l.
    symmetry. apply insert_union_r. by apply not_elem_of_list_to_map_1.
  - intros j Hj. unfold add_ranges. rewrite lookup_insert_ne by (intros ->; done).
    apply Hf. by right.
Qed.

Lemma parse_render m : map_wf m → parse_gtids (render_gtids m) = Ok m.
Proof.
  intros Hm. unfold parse_gtids. rewrite render_parts by done.
  pose proof (sorted_entries_ok m Hm) as Hok.
  assert (parse_groups (render_entry <$> sorted_entries m) ∅
          = Ok (add_all ∅ (sorted_entries m))) as ->.
  { apply parse_groups_ok. eexists. split; [|done].
    apply Forall2_fmap_l, Forall_Forall2_diag. eapply Forall_impl; [exact Hok|].
    intros e [He _]. by apply parse_group_render. }
  cbn. f_equal. rewrite add_all_map; [|..].
  - rewrite (right_id_L ∅ (∪)).
    rewrite (list_to_map_proper _ (map_to_list m)), list_to_map_to_list.
    + rewrite <- (map_fmap_id m) at 2. apply map_fmap_ext. intros k rs E.
      apply Hm in E as (_ & _ & ?). by apply merge_ranges_normal.
    + rewrite sorted_entries_perm. apply NoDup_fst_map_to_list.
    + apply sorted_entries_perm.
  - rewrite sorted_entries_perm. apply NoDup_fst_map_to_list.
  - intros. apply lookup_empty.
Qed.

Lemma canonical_ok s c :
  canonical_gtids s = Ok c ↔ ∃ m, parse_gtids s = Ok m ∧ c = render_gtids m.
Proof.
  unfold canonical_gtids. rewrite bind_ok.
  split; [intros (m & ? & [= <-])|intros (m & ? & ->)]; eauto.
Qed.

Lemma canonical_text s c :
  canonical_gtids s = Ok c →
  well_formed_text c ∧ ∀ key n, text_member c key n ↔ text_member s key n.
Proof.
  intros (m & Hm & ->)%canonical_ok. destruct (parse_gtids_spec s m Hm) as [Hwf Hmem].
  pose proof (parse_render m Hwf) as Hr. split; [by apply parse_gtids_succeeds; eauto|].
  intros key n. rewrite <- Hmem. by apply parse_gtids_spec in Hr as [_ <-].
Qed.

(** Reading a GTID set is exact: it succeeds exactly on well-formed texts,
    and then the map is in normal form (valid keys, sorted and merged non-empty
    intervals) and contains a transaction exactly when some group of the text
    does. *)
Theorem parse_gtids_denotes (s : string) :
  match parse_gtids s with
  | Ok m => well_formed_text s ∧ map_wf m ∧ ∀ key n, member m key n ↔ text_member s key n
  | Err _ => ¬ well_formed_text s
  end.
Proof.
  pose proof (parse_gtids_succeeds s) as Hs. destruct (parse_gtids s) as [m|e] eqn:E.
  - split; [by apply Hs; eauto|]. by apply parse_gtids_spec.
  - rewrite <- Hs. by intros [? ?].
Qed.

(** Printing then parsing a normal map gives the map back, so nothing of
    the applied set is lost in the text column of the checkpoint. *)
Theorem gtids_roundtrip (m : GtidMap) :
  map_wf m → parse_gtids (render_gtids m) = Ok m.
Proof. apply parse_render. Qed.

Definition example_map : GtidMap := {[ (uuid_a, Some "tag1") := [(1, 3); (5, 5)] ]}.
Lemma gtids_roundtrip_witness :
  parse_gtids (render_gtids example_map) = Ok example_map.
Proof.
  apply (gtids_roundtrip example_map). unfold map_wf, example_map. apply map_Forall_singleton.
  split_and!; [split_and!; [done..|]|done|cbn; unfold u64_max; lia].
  intros t [= <-]. by split_and!.
Defined.

(** The canonical text is a normal form: two well-formed texts have the
    same canonical text exactly when they denote the same transactions. *)
Theorem canonical_gtids_complete (s s' c c' : string) :
  canonical_gtids s = Ok c → canonical_gtids s' = Ok c' →
  c = c' ↔ ∀ key n, text_member s key n ↔ text_member s' key n.
Proof.
  intros H H'. split.
  - intros ->. apply canonical_text in H as [_ H], H' as [_ H'].
    intros key n. by rewrite <- H, H'.
  - intros Hmem. apply canonical_ok in H as (m & Hm & ->), H' as (m' & Hm' & ->).
    apply parse_gtids_spec in Hm as [Hw Hm], Hm' as [Hw' Hm'].
    f_equal. apply map_wf_unique; [done..|]. intros key n. by rewrite Hm, Hm'.
Qed.

Lemma canonical_gtids_complete_witness :
  uuid_a +:+ ":1-3" = uuid_a +:+ ":1-3" ↔
  ∀ key n, text_member (uuid_a +:+ ":1:2:3") key n ↔ text_member (uuid_a +:+ ":2-3:1-2") key n.
Proof.
  apply (canonical_gtids_complete (uuid_a +:+ ":1:2:3") (uuid_a +:+ ":2-3:1-2")); vm_compute; done.
Defined.

Lemma merge_parts (l r : string) :
  nonempty_parts (split "," (join "," (nonempty_parts [l; r])))
  = nonempty_parts (split "," l) ++ nonempty_parts (split "," r).
Proof.
  destruct l as [|a l]; [destruct r as [|b r]; done|].
  destruct r as [|b r]; [by rewrite app_nil_r|].
  change (join "," _) with (String a l +:+ String "," (String b r)).
  by rewrite split_join_two, nonempty_parts_app.
Qed.

Lemma merge_gtids_spec (left : option string) (right : string) :
  match merge_gtids left right with
  | Ok s => ∀ key n,
      text_member s key n ↔ text_member (default "" left) key n ∨ text_member right key n
  | Err _ => ¬ (well_formed_text (default "" left) ∧ well_formed_text right)
  end.
Proof.
  unfold merge_gtids. pose proof (merge_parts (default "" left) right) as Hp.
  destruct (canonical_gtids _) as [s|e] eqn:E.
  - apply canonical_text in E as [_ H]. intros key n. rewrite H. unfold text_member.
    rewrite Hp. setoid_rewrite elem_of_app. naive_solver.
  - intros [Hl Hr]. assert (well_formed_text (join "," (nonempty_parts [default "" left; right])))
      as [m Hm]%parse_gtids_succeeds by (unfold well_formed_text; rewrite Hp; by apply Forall_app).
    unfold canonical_gtids in E. by rewrite Hm in E.
Qed.

(** C11: Merging two GTID sets computes their union, and fails only when one of
    them is malformed. *)
Theorem merge_gtids_union (left : option string) (right : string) :
  match merge_gtids left right with
  | Ok s => ∀ key n,
      text_member s key n ↔ text_member (default "" left) key n ∨ text_member right key n
  | Err _ => ¬ (well_formed_text (default "" left) ∧ well_formed_text right)
  end.
Proof. apply merge_gtids_spec. Qed.

Lemma single_ok id one :
  canonical_single_gtid id = Ok one →
  ∃ key n, parse_gtids id = Ok {[ key := [(n, n)] ]} ∧ one = render_gtids {[ key := [(n, n)] ]}.
Proof.
  intros H. apply bind_ok in H as (m & Hm & H). apply seq_ok in H as [H [= <-]].
  apply ensure_ok in H. rewrite Hm.
  destruct (sorted_entries m) as [|[key rs] [|? ?]] eqn:E; [done| |by destruct rs as [|[? ?] [|? ?]]].
  destruct rs as [|[a b] [|? ?]]; [done| |done]. apply Z.eqb_eq in H as <-.
  assert (m = {[key := [(a, a)]]}) as ->; [|eauto].
  rewrite <- (list_to_map_to_list m).
  rewrite <- (list_to_map_proper (sorted_entries m)); [by rewrite E| |apply sorted_entries_perm].
  rewrite sorted_entries_perm. apply NoDup_fst_map_to_list.
Qed.

Lemma gtid_contains_spec (id one : string) :
  canonical_single_gtid id = Ok one →
  ∃ key n, (∀ k j, text_member id k j ↔ k = key ∧ j = n)
    ∧ ∀ set, match gtid_contains set one with
             | Ok b => b = true ↔ text_member set key n
             | Err _ => ¬ well_formed_text set
             end.
Proof.
  intros (key & n & Hid & ->)%single_ok. exists key, n.
  destruct (parse_gtids_spec _ _ Hid) as [Hwf Hmem]. split.
  { intros k j. rewrite <- Hmem. unfold member. setoid_rewrite lookup_singleton_Some. split.
    - intros (rs & [-> <-] & Hc). split; [done|]. rewrite covers_cons, covers_nil in Hc.
      cbn in Hc. lia.
    - intros [-> ->]. eexists. split; [done|]. apply covers_cons. cbn. lia. }
  intros set. unfold gtid_contains. rewrite (parse_render _ Hwf).
  destruct (parse_gtids set) as [m|e] eqn:E; cbn.
  - apply parse_gtids_spec in E as [Hm Hmem']. unfold sorted_entries.
    rewrite map_to_list_singleton. cbn. rewrite <- Hmem'. unfold member. destruct (m !! key) as [rs|] eqn:Ek; cbn.
    + rewrite existsb_exists. split.
      * intros (r & Hr & Hb). bool_simpl. exists rs. split; [done|]. exists r.
        split; [by apply list_elem_of_In|done].
      * intros (? & [= <-] & r & Hr & Hn). exists r. split; [by apply list_elem_of_In|].
        by rewrite andb_true_iff, !Z.leb_le.
    + naive_solver.
  - intros [m Hm]%parse_gtids_succeeds. congruence.
Qed.

(** C12: The containment test decides membership: [canonical_single_gtid]
    accepts a text only when it denotes exactly one transaction, and for such a
    transaction [gtid_contains] answers whether the set denotes it; it fails
    only on a malformed set. *)
Theorem gtid_contains_decides (id one : string) :
  canonical_single_gtid id = Ok one →
  ∃ key n, (∀ k j, text_member id k j ↔ k = key ∧ j = n)
    ∧ ∀ set, match gtid_contains set one with
             | Ok b => b = true ↔ text_member set key n
             | Err _ => ¬ well_formed_text set
             end.
Proof. apply gtid_contains_spec. Qed.

Lemma gtid_contains_decides_witness :
  canonical_single_gtid (uuid_a +:+ ":7-7") = Ok (uuid_a +:+ ":7")
  ∧ ∃ key n, (∀ k j, text_member (uuid_a +:+ ":7-7") k j ↔ k = key ∧ j = n)
    ∧ ∀ set, match gtid_contains set (uuid_a +:+ ":7") with
             | Ok b => b = true ↔ text_member set key n
             | Err _ => ¬ well_formed_text set
             end.
Proof.
  split; [vm_compute; done|]. apply gtid_contains_decides. vm_compute. done.
Defined.
End Spec.
