(* ===== verification/Position.v ===== *)
(** * Source positions

    A source cursor names a point of the source history: a binlog file and
    offset for MySQL, an LSN for PostgreSQL.  [Postgres] and [MySql] are the
    readers of the two sinks ([checkpoint.rs] of each), [Capture] the MySQL
    decoder that writes cursors, [Contract] the source contract that checks
    them.  The theorems relate the four and show that the comparison used to
    decide what is already applied is an order. *)
From S2P Require Import Prelude Text Utf8 Codec Model Outcome.

(** [bytes.iter().position(|c| *c == 0)], as the bytes before and after. *)
Fixpoint split_nul (l : list byte) : option (list byte * list byte) :=
  match l with
  | [] => None
  | c :: l' =>
      if bval c =? 0 then Some ([], l')
      else match split_nul l' with Some (a, b) => Some (c :: a, b) | None => None end
  end.

(** [u32::from_be_bytes(slice.try_into())]: exactly four bytes. *)
Definition u32_from_be (l : list byte) : option Z :=
  match l with
  | [a; b; c; d] => Some (bval a * 2 ^ 24 + bval b * 2 ^ 16 + bval c * 2 ^ 8 + bval d)
  | _ => None
  end.
(** [u32::to_be_bytes] *)
Definition u32_to_be (n : Z) : list byte :=
  [byte_of (n / 2 ^ 24); byte_of (n / 2 ^ 16); byte_of (n / 2 ^ 8); byte_of n].

(** [!file.contains(['\0', '/', '\\'])] *)
Definition plain_name (file : string) : bool :=
  negb (has_nul file || contains_byte "/" file || contains_byte "092"%char file).

Definition validate_position (file : string) (position : Z) : io () :=
  if sempty file || (255 <? slen file) || negb (is_ascii file) || negb (plain_name file)
     || negb (in_range 4 u32_max position)
  then Err (other "invalid binlog file or position") else Ok ().

Definition parse_hex (s : string) : io Z :=
  ok_or (other "invalid digit found in string") (parse_hex_u64 s).

Definition parse_postgresql_lsn (value : string) : io Z :=
  let? ul := ok_or (other "invalid PostgreSQL LSN") (split_once "/" value) in
  let? upper := parse_hex ul.1 in
  let? lower := parse_hex ul.2 in
  if (u32_max <? upper) || (u32_max <? lower) then Err (other "invalid PostgreSQL LSN")
  else Ok (Z.lor (wrap_u 64 (Z.shiftl upper 32)) lower).

Definition validate_checkpoint_position (mode file : string) (position : Z) : io () :=
  if bool_decide (mode = "postgresql_lsn") then
    let? lsn := parse_postgresql_lsn file in
    if negb (lsn =? position)
    then Err (other "PostgreSQL LSN and checkpoint position disagree") else Ok ()
  else validate_position file position.

(** [a.cmp(&b).then(c)] *)
Definition then_cmp (o c : comparison) : comparison := match o with Eq => c | _ => o end.

Definition split_index (file : string) : io (string * Z) :=
  let? pn := ok_or (other "cannot compare binlog files") (rsplit_once "." file) in
  let? n := ok_or (other "invalid digit found in string") (parse_u64 pn.2) in
  Ok (pn.1, n).

Definition compare_position (a : string) (ap : Z) (b : string) (bp : Z) : io comparison :=
  if bool_decide (a = b) then Ok (ap ?= bp)
  else
    let? pa := split_index a in
    let? pb := split_index b in
    if negb (bool_decide (pa.1 = pb.1)) then Err (other "binlog history prefix changed")
    else Ok (then_cmp (pa.2 ?= pb.2) (ap ?= bp)).

Definition compare_checkpoint_position (mode : option string)
    (a : string) (ap : Z) (b : string) (bp : Z) : io comparison :=
  if bool_decide (mode = Some "postgresql_lsn"%string) then
    let? la := parse_postgresql_lsn a in
    if negb (la =? ap) then Err (other "PostgreSQL LSN and checkpoint position disagree") else
    let? lb := parse_postgresql_lsn b in
    if negb (lb =? bp) then Err (other "PostgreSQL LSN and checkpoint position disagree")
    else Ok (ap ?= bp)
  else compare_position a ap b bp.

Definition MYSQL_CURSOR : string := "mysql.binlog.file-position.v1".
Definition PG_CURSOR : string := "postgresql.lsn.v1".

Section cursors.
Context `{B64 : Base64}.

(** The MySQL branch, the same in both sinks. *)
Definition binlog_position (cursor : SourceCursor) : io (string * Z) :=
  if negb (bool_decide (cur_format cursor = MYSQL_CURSOR))
  then Err (other "unsupported source cursor") else
  let? bytes := ok_or (other "invalid base64") (b64_decode (cur_value cursor)) in
  let? parts := ok_or (other "invalid source cursor") (split_nul bytes) in
  let? file := ok_or (other "invalid utf-8 sequence") (from_utf8 parts.1) in
  let? position := ok_or (other "invalid cursor position") (u32_from_be parts.2) in
  validate_position file position ;?
  Ok (file, position).
End cursors.

Module Postgres.
Definition file_position `{Base64} (cursor : SourceCursor) : io (string * Z) :=
  if bool_decide (cur_format cursor = PG_CURSOR) then
    let? position := parse_postgresql_lsn (cur_value cursor) in
    Ok (cur_value cursor, position)
  else binlog_position cursor.
End Postgres.

Module MySql.
(** The LSN branch of the MySQL sink only bounds the lower half. *)
Definition file_position `{Base64} (cursor : SourceCursor) : io (string * Z) :=
  if bool_decide (cur_format cursor = PG_CURSOR) then
    let? ul := ok_or (other "invalid PostgreSQL LSN") (split_once "/" (cur_value cursor)) in
    let? upper := parse_hex ul.1 in
    let? lower := parse_hex ul.2 in
    if u32_max <? lower then Err (other "invalid PostgreSQL LSN")
    else Ok (cur_value cursor, Z.lor (wrap_u 64 (Z.shiftl upper 32)) lower)
  else binlog_position cursor.
End MySql.

(** [MysqlDecoder::cursor] of the capture side. *)
Module Capture.
Definition cursor `{Base64} (current_file : string) (position : Z) : SourceCursor :=
  mkCursor MYSQL_CURSOR
    (b64_encode (sbytes current_file ++ NUL :: u32_to_be position))
    (current_file +:+ String ":" (show_nat position)).
End Capture.

(** [position] of the MySQL source contract. *)
Module Contract.
Notation SourceContractError := string.

Definition position `{Base64} (cursor : SourceCursor) : result SourceContractError (string * Z) :=
  ensure (bool_decide (cur_format cursor = MYSQL_CURSOR)) "invalid MySQL cursor format"%string ;?
  (let? bytes := ok_or "invalid MySQL cursor encoding"%string (b64_decode (cur_value cursor)) in
   ensure (6 <=? Z.of_nat (length bytes)) "truncated MySQL cursor"%string ;?
   let split := (length bytes - 5)%nat in
   ensure ((bval (List.nth split bytes NUL) =? 0)
           && negb (existsb (λ c, bval c =? 0) (take split bytes)))
     "invalid MySQL cursor filename"%string ;?
   (let? file := ok_or "invalid MySQL cursor filename UTF-8"%string (from_utf8 (take split bytes)) in
    ensure ((slen file <=? 255) && is_ascii file && plain_name file)
      "invalid MySQL cursor filename"%string ;?
    (let? pos := ok_or "unreachable"%string (u32_from_be (drop (split + 1) bytes)) in
     ensure ((4 <=? pos) && bool_decide (cur_display cursor = file +:+ String ":" (show_nat pos)))
       "MySQL cursor display/value mismatch"%string ;?
     Ok (file, pos)))).
End Contract.

(** ** Encoding and decoding binlog cursors *)
Lemma u32_be_roundtrip n : 0 ≤ n ≤ u32_max → u32_from_be (u32_to_be n) = Some n.
Proof.
  intros Hn. unfold u32_from_be, u32_to_be. rewrite !bval_byte_of. f_equal.
  unfold u32_max in Hn.
  pose proof (Z.div_mod n (2 ^ 8) ltac:(lia)) as H1.
  pose proof (Z.div_mod (n / 2 ^ 8) (2 ^ 8) ltac:(lia)) as H2.
  pose proof (Z.div_mod (n / 2 ^ 16) (2 ^ 8) ltac:(lia)) as H3.
  rewrite Z.div_div in H2 by lia. rewrite Z.div_div in H3 by lia.
  change (2 ^ 8 * 2 ^ 8) with (2 ^ 16) in H2. change (2 ^ 16 * 2 ^ 8) with (2 ^ 24) in H3.
  change (2 ^ 8) with 256 in *.
  assert (n / 2 ^ 24 < 256) by (apply Z.div_lt_upper_bound; lia).
  pose proof (Z.div_pos n (2 ^ 24) ltac:(lia) ltac:(lia)).
  rewrite (Z.mod_small (n / 2 ^ 24)) by lia. lia.
Qed.

Lemma u32_from_be_range l n : u32_from_be l = Some n → 0 ≤ n ≤ u32_max.
Proof.
  destruct l as [|a [|b [|c [|d [|]]]]]; try done. intros [= <-]. unfold u32_max.
  pose proof (bval_range a); pose proof (bval_range b);
    pose proof (bval_range c); pose proof (bval_range d). lia.
Qed.

Lemma split_nul_app a b :
  (∀ c, c ∈ a → bval c ≠ 0) → split_nul (a ++ NUL :: b) = Some (a, b).
Proof.
  induction a as [|c a IH]; intros H; [done|]. cbn.
  rewrite (proj2 (Z.eqb_neq _ _)) by (apply H; left).
  rewrite IH; [done|]. intros d Hd. apply H. by right.
Qed.

Lemma split_nul_Some l a b :
  split_nul l = Some (a, b) → ∃ z, l = a ++ z :: b ∧ bval z = 0 ∧ ∀ c, c ∈ a → bval c ≠ 0.
Proof.
  revert a. induction l as [|c l IH]; intros a; cbn; [done|]. destruct (bval c =? 0) eqn:E.
  - intros [= <- <-]. apply Z.eqb_eq in E. exists c. split_and!; [done..|].
    intros d Hd. by apply elem_of_nil in Hd.
  - destruct (split_nul l) as [[x y]|]; [|done]. intros [= <- <-].
    destruct (IH x eq_refl) as (z & -> & Hz & Hx). exists z. split_and!; [done..|].
    apply Z.eqb_neq in E. intros d [->|Hd]%elem_of_cons; auto.
Qed.

Lemma nul_zero c : bval c = 0 ↔ c = NUL.
Proof. split; [|by intros ->]. intros H. by apply bval_inj. Qed.

Lemma no_nul_bytes s : has_nul s = false ↔ ∀ c, c ∈ sbytes s → bval c ≠ 0.
Proof.
  unfold has_nul. rewrite contains_byte_false. setoid_rewrite nul_zero. naive_solver.
Qed.

Lemma utf8_ascii l : forallb is_ascii_byte l = true → utf8_valid l = true.
Proof.
  induction l as [|c l IH]; [done|]. cbn. unfold is_ascii_byte at 1.
  rewrite andb_true_iff. intros [Hc Hl]. rewrite Hc. by apply IH.
Qed.

Lemma from_utf8_ascii s : is_ascii s = true → from_utf8 (sbytes s) = Some s.
Proof. intros H. unfold from_utf8. by rewrite utf8_ascii, of_sbytes. Qed.

Lemma from_utf8_Some l s : from_utf8 l = Some s → l = sbytes s.
Proof. unfold from_utf8. case_match; [|done]. intros [= <-]. by rewrite sbytes_of. Qed.

Lemma validate_position_ok file position :
  validate_position file position = Ok ()
  ↔ sempty file = false ∧ slen file ≤ 255 ∧ is_ascii file = true
    ∧ plain_name file = true ∧ 4 ≤ position ≤ u32_max.
Proof.
  unfold validate_position. case_match eqn:E; split; try done.
  - intros (H1 & H2 & H3 & H4 & H5). rewrite H1, H3, H4 in E. cbn in E.
    rewrite (proj2 (Z.ltb_ge _ _) H2), (proj2 (in_range_spec _ _ _) H5) in E. done.
  - intros _. rewrite !orb_false_iff, !negb_false_iff, Z.ltb_ge, in_range_spec in E. tauto.
Qed.

Lemma plain_name_nul s : plain_name s = true → has_nul s = false.
Proof. unfold plain_name. intros H. apply negb_true_iff in H. bool_simpl. done. Qed.

Section cursor_theorems.
Context `{B64 : Base64}.

Lemma binlog_position_ok format file bytes position :
  format = MYSQL_CURSOR → has_nul file = false → validate_position file position = Ok () →
  ∀ value display, b64_decode value = Some (sbytes file ++ NUL :: bytes) →
  u32_from_be bytes = Some position →
  binlog_position (mkCursor format value display) = Ok (file, position).
Proof.
  intros -> Hn Hv value display Hd Hb. unfold binlog_position. cbn [cur_format cur_value].
  rewrite bool_decide_eq_true_2, Hd by done. cbn [negb ok_or mbind result_bind].
  rewrite split_nul_app by by apply no_nul_bytes. cbn [ok_or mbind result_bind fst snd].
  apply validate_position_ok in Hv as Hv'.
  rewrite from_utf8_ascii, Hb by tauto. cbn. by rewrite Hv.
Qed.

(** Every cursor the MySQL decoder writes for a valid binlog file and
    offset is read back by both sinks as that file and offset, and by the
    source contract as well. *)
Theorem cursor_roundtrip `{!Base64Laws B64} (file : string) (position : Z) :
  validate_position file position = Ok () →
  Postgres.file_position (Capture.cursor file position) = Ok (file, position)
  ∧ MySql.file_position (Capture.cursor file position) = Ok (file, position)
  ∧ Contract.position (Capture.cursor file position) = Ok (file, position).
Proof.
  intros Hv. apply validate_position_ok in Hv as (He & Hl & Ha & Hp & Hr).
  pose proof (u32_be_roundtrip position ltac:(lia)) as Hu.
  assert (binlog_position (Capture.cursor file position) = Ok (file, position)) as H.
  { eapply binlog_position_ok; [done|by apply plain_name_nul|by apply validate_position_ok| |done].
    apply b64_roundtrip. }
  split; [exact H|]. split; [exact H|].
  unfold Contract.position, Capture.cursor. cbn [cur_format cur_value cur_display].
  rewrite b64_roundtrip. rewrite !bool_decide_eq_true_2 by done. cbn [ensure mbind result_bind ok_or].
  assert (length (sbytes file ++ NUL :: u32_to_be position) = (length (sbytes file) + 5)%nat) as Hlen
    by (rewrite length_app; done).
  rewrite Hlen. replace (length (sbytes file) + 5 - 5)%nat with (length (sbytes file)) by lia.
  assert (0 < Z.of_nat (length (sbytes file))).
  { rewrite <- slen_bytes. destruct file; [done|]. unfold slen. cbn. lia. }
  rewrite (proj2 (Z.leb_le _ _)) by lia.
  rewrite app_nth2, Nat.sub_diag by lia. cbn [List.nth].
  rewrite take_app_length.
  assert (existsb (λ c, bval c =? 0) (sbytes file) = false) as ->.
  { apply not_true_iff_false. intros (c & Hc & Hz)%existsb_exists. apply Z.eqb_eq in Hz.
    apply list_elem_of_In in Hc. revert Hz. apply no_nul_bytes in Hc; [done|].
    by apply plain_name_nul. }
  cbn [ensure mbind result_bind]. rewrite from_utf8_ascii by done. cbn [ok_or mbind result_bind].
  rewrite (proj2 (Z.leb_le _ _) Hl), Ha, Hp. cbn [andb ensure mbind result_bind].
  replace (drop (length (sbytes file) + 1) (sbytes file ++ NUL :: u32_to_be position))
    with (u32_to_be position).
  { rewrite Hu. cbn. rewrite bool_decide_eq_true_2 by done.
    by rewrite (proj2 (Z.leb_le _ _)) by lia. }
  rewrite drop_app_ge by lia. by replace (length (sbytes file) + 1 - length (sbytes file))%nat with 1%nat by lia.
Qed.

(** The source contract and the checkpoint agree: a cursor the contract
    accepts is read by both sinks as the same file and offset, so a validated
    transaction never fails to be positioned. *)
Theorem contract_position_agrees (c : SourceCursor) (file : string) (pos : Z) :
  Contract.position c = Ok (file, pos) →
  Postgres.file_position c = Ok (file, pos) ∧ MySql.file_position c = Ok (file, pos)
  ∧ validate_position file pos = Ok ().
Proof.
  destruct c as [format value display]. unfold Contract.position. cbn [cur_format cur_value cur_display].
  intros H. apply seq_ok in H as [Hf H]. apply ensure_ok, bool_decide_eq_true in Hf as ->.
  apply bind_ok in H as (bytes & Hd & H). apply ok_or_ok in Hd.
  apply seq_ok in H as [Hlen H]. apply ensure_ok, Z.leb_le in Hlen.
  apply seq_ok in H as [Hsp H]. apply ensure_ok, andb_true_iff in Hsp as [Hz Hn].
  apply bind_ok in H as (f & Hu & H). apply ok_or_ok, from_utf8_Some in Hu.
  apply seq_ok in H as [Hname H]. apply ensure_ok in Hname. bool_simpl.
  apply bind_ok in H as (p & Hp & H). apply ok_or_ok in Hp.
  apply seq_ok in H as [Hdisp [= <- <-]]. apply ensure_ok in Hdisp. bool_simpl.
  set (n := (length bytes - 5)%nat) in *.
  assert (bytes = sbytes f ++ NUL :: drop (n + 1) bytes) as Hb.
  { rewrite <- Hu, <- (take_drop n bytes) at 1. f_equal.
    apply nul_zero in Hz. rewrite <- Hz at 1.
    rewrite nth_lookup. destruct (bytes !! n) as [z|] eqn:E; cbn.
    - rewrite Nat.add_1_r. by apply drop_S.
    - apply lookup_ge_None in E. lia. }
  apply u32_from_be_range in Hp as Hr.
  assert (validate_position f p = Ok ()) as Hv.
  { apply validate_position_ok. split_and!; try done; [|lia].
    assert (Z.of_nat (length (take n bytes)) = slen f) as Hls by by rewrite Hu, slen_bytes.
    rewrite length_take in Hls. destruct f; [|done]. change (slen "") with 0 in Hls. lia. }
  assert (binlog_position (mkCursor MYSQL_CURSOR value display) = Ok (f, p)) as Hbp.
  { eapply binlog_position_ok; [done|by apply plain_name_nul|done|by rewrite Hd, <- Hb|done]. }
  split; [exact Hbp|]. split; [exact Hbp|done].
Qed.
End cursor_theorems.

Definition example_cursor : SourceCursor :=
  Capture.cursor (H := Rfc4648.base64) "bin.000007" 154.
Lemma cursor_roundtrip_witness :
  Postgres.file_position (H := Rfc4648.base64) example_cursor = Ok ("bin.000007"%string, 154)
  ∧ MySql.file_position (H := Rfc4648.base64) example_cursor = Ok ("bin.000007"%string, 154)
  ∧ Contract.position (H := Rfc4648.base64) example_cursor = Ok ("bin.000007"%string, 154).
Proof. apply (@cursor_roundtrip Rfc4648.base64 Rfc4648.base64_laws "bin.000007" 154). vm_compute. done. Defined.

Lemma contract_position_agrees_witness :
  Postgres.file_position (H := Rfc4648.base64) example_cursor = Ok ("bin.000007"%string, 154)
  ∧ MySql.file_position (H := Rfc4648.base64) example_cursor = Ok ("bin.000007"%string, 154)
  ∧ validate_position "bin.000007" 154 = Ok ().
Proof. apply contract_position_agrees. vm_compute. done. Defined.

(** ** Comparing positions *)

Lemma split_index_Ok file p n :
  split_index file = Ok (p, n) ↔ ∃ d, rsplit_once "." file = Some (p, d) ∧ parse_u64 d = Some n.
Proof.
  unfold split_index. split.
  - intros ([q d] & Hs%ok_or_ok & H)%bind_ok. apply bind_ok in H as (m & Hn%ok_or_ok & [= <- <-]).
    eauto.
  - intros (d & Hs & Hn). rewrite Hs. cbn. by rewrite Hn.
Qed.

(** The order the comparison decides: the same file, or two files of one binlog
    history, compared by number and then by offset. *)
Definition comparable (a b : string) (na nb : Z) : Prop :=
  (a = b ∧ na = nb) ∨ a ≠ b ∧ ∃ p, split_index a = Ok (p, na) ∧ split_index b = Ok (p, nb).

Lemma compare_position_Ok a ap b bp o :
  compare_position a ap b bp = Ok o
  ↔ ∃ na nb, comparable a b na nb ∧ o = then_cmp (na ?= nb) (ap ?= bp).
Proof.
  unfold compare_position, comparable. case_bool_decide as Hab; [subst b|].
  - split.
    + intros [= <-]. exists 0, 0. split; [by left|done].
    + intros (na & nb & [[_ ->]|[? _]] & ->); [|done]. by rewrite Z.compare_refl.
  - split.
    + intros ([p na] & Ha & H)%bind_ok. apply bind_ok in H as ([q nb] & Hb & H). cbn in H.
      case_bool_decide; cbn in H; [|done].
      simplify_eq/=. exists na, nb. split; [|done]. right. split; [done|]. eauto.
    + intros (na & nb & [[? _]|(_ & p & Ha & Hb)] & ->); [done|].
      rewrite Ha. cbn. rewrite Hb. cbn. by rewrite bool_decide_eq_true_2.
Qed.

Lemma then_cmp_opp o c : CompOpp (then_cmp o c) = then_cmp (CompOpp o) (CompOpp c).
Proof. by destruct o. Qed.

Lemma compare_position_flip a ap b bp o :
  compare_position a ap b bp = Ok o → compare_position b bp a ap = Ok (CompOpp o).
Proof.
  rewrite !compare_position_Ok. intros (na & nb & Hc & ->). exists nb, na.
  rewrite then_cmp_opp, <- !Z.compare_antisym. split; [|done].
  destruct Hc as [[-> ->]|(? & p & ? & ?)]; [by left|right; eauto].
Qed.

Lemma then_cmp_le na nb ap bp :
  then_cmp (na ?= nb) (ap ?= bp) ≠ Gt ↔ na < nb ∨ na = nb ∧ ap ≤ bp.
Proof. unfold then_cmp. destruct (Z.compare_spec na nb), (Z.compare_spec ap bp); subst; split; try done; lia. Qed.
Lemma then_cmp_eq na nb ap bp :
  then_cmp (na ?= nb) (ap ?= bp) = Eq ↔ na = nb ∧ ap = bp.
Proof. unfold then_cmp. destruct (Z.compare_spec na nb), (Z.compare_spec ap bp); subst; split; try done; lia. Qed.

Lemma comparable_trans a b c na nb nb' nc :
  comparable a b na nb → comparable b c nb' nc →
  ∃ ma mc, comparable a c ma mc
    ∧ ∀ ap bp cp, then_cmp (na ?= nb) (ap ?= bp) ≠ Gt → then_cmp (nb' ?= nc) (bp ?= cp) ≠ Gt →
        then_cmp (ma ?= mc) (ap ?= cp) ≠ Gt
        ∧ (then_cmp (ma ?= mc) (ap ?= cp) = Eq →
           then_cmp (na ?= nb) (ap ?= bp) = Eq ∧ then_cmp (nb' ?= nc) (bp ?= cp) = Eq).
Proof.
  setoid_rewrite then_cmp_le. setoid_rewrite then_cmp_eq.
  intros [[-> ->]|(Hab & p & Ha & Hb)] [[-> ->]|(Hbc & q & Hb' & Hc)].
  - exists nc, nc. split; [by left|]. lia.
  - exists nb', nc. split; [by right; eauto|]. lia.
  - exists na, nb. split; [by right; eauto|]. lia.
  - rewrite Hb in Hb'. injection Hb' as <- <-. destruct (decide (a = c)) as [->|Hac].
    + rewrite Ha in Hc. injection Hc as ->. exists nc, nc. split; [by left|]. lia.
    + exists na, nc. split; [by right; eauto|]. lia.
Qed.

Lemma compare_lsn mode a ap b bp o :
  mode = Some "postgresql_lsn"%string →
  compare_checkpoint_position mode a ap b bp = Ok o
  ↔ parse_postgresql_lsn a = Ok ap ∧ parse_postgresql_lsn b = Ok bp ∧ o = (ap ?= bp).
Proof.
  intros ->. unfold compare_checkpoint_position. rewrite bool_decide_eq_true_2 by done.
  rewrite bind_ok. split.
  - intros (la & Ha & H). destruct (la =? ap) eqn:E; cbn in H; [|done].
    apply bind_ok in H as (lb & Hb & H). destruct (lb =? bp) eqn:E'; cbn in H; [|done].
    bool_simpl. by simplify_eq.
  - intros (Ha & Hb & ->). exists ap. rewrite Z.eqb_refl. split; [done|]. cbn.
    rewrite Hb. cbn. by rewrite Z.eqb_refl.
Qed.

Lemma compare_mysql mode a ap b bp :
  mode ≠ Some "postgresql_lsn"%string →
  compare_checkpoint_position mode a ap b bp = compare_position a ap b bp.
Proof. intros H. unfold compare_checkpoint_position. by rewrite bool_decide_eq_false_2. Qed.

Lemma compare_order (mode : option string)
    (a b c : string) (ap bp cp : Z) (o o' : comparison) :
  compare_checkpoint_position mode a ap b bp = Ok o →
  compare_checkpoint_position mode b bp a ap = Ok (CompOpp o)
  ∧ (compare_checkpoint_position mode b bp c cp = Ok o' → o ≠ Gt → o' ≠ Gt →
     ∃ r, compare_checkpoint_position mode a ap c cp = Ok r ∧ r ≠ Gt
          ∧ (r = Eq → o = Eq ∧ o' = Eq)).
Proof.
  intros H. destruct (decide (mode = Some "postgresql_lsn"%string)) as [Hm|Hm].
  - rewrite compare_lsn in H by done. destruct H as (Ha & Hb & ->). split.
    { rewrite compare_lsn, <- Z.compare_antisym by done. done. }
    rewrite compare_lsn by done. intros (_ & Hc & ->) H1 H2. exists (ap ?= cp).
    rewrite compare_lsn, !Z.compare_eq_iff by done.
    rewrite Z.compare_gt_iff in *. split_and!; try done; lia.
  - rewrite !compare_mysql in * by done. split; [by apply compare_position_flip|].
    apply compare_position_Ok in H as (na & nb & Hab & ->).
    intros (nb' & nc & Hbc & ->)%compare_position_Ok H1 H2.
    destruct (comparable_trans _ _ _ _ _ _ _ Hab Hbc) as (ma & mc & Hac & Hle).
    exists (then_cmp (ma ?= mc) (ap ?= cp)). rewrite compare_position_Ok.
    split; [eauto|]. by apply Hle with (bp := bp).
Qed.

(** Comparing source positions is an order wherever it is defined, in every
    checkpoint mode: swapping the arguments reverses the answer, and two
    comparisons that answer "not later" compose, strictly if either is strict.
    Hence the positions a checkpoint passes through are totally ordered and
    "already applied" is monotone. *)
Theorem compare_position_order (mode : option string)
    (a b c : string) (ap bp cp : Z) (o o' : comparison) :
  compare_checkpoint_position mode a ap b bp = Ok o →
  compare_checkpoint_position mode b bp a ap = Ok (CompOpp o)
  ∧ (compare_checkpoint_position mode b bp c cp = Ok o' → o ≠ Gt → o' ≠ Gt →
     ∃ r, compare_checkpoint_position mode a ap c cp = Ok r ∧ r ≠ Gt
          ∧ (r = Eq → o = Eq ∧ o' = Eq)).
Proof. apply compare_order. Qed.

Lemma compare_position_order_witness :
  compare_checkpoint_position (Some "binlog"%string) "bin.10" 4 "bin.9" 900 = Ok Gt
  ∧ ∃ r, compare_checkpoint_position (Some "binlog"%string) "bin.9" 900 "bin.10" 20 = Ok r
         ∧ r ≠ Gt ∧ (r = Eq → Lt = Eq ∧ Lt = Eq).
Proof.
  split; [apply (compare_position_order _ "bin.9" "bin.10" "bin.10" 900 4 20 Lt Lt); done|].
  eapply (compare_position_order _ "bin.9" "bin.10" "bin.10" 900 4 20 Lt Lt); done.
Defined.

(** ** LSNs *)
Lemma digits_from_hex_pos s a n : 0 ≤ a → digits_from 16 s a = Some n → 0 ≤ n.
Proof.
  revert a. induction s as [|c s IH]; intros a Ha; cbn; [by intros [= ->]|].
  intros (d & Hd & H)%bind_Some. revert H. apply IH.
  assert (0 ≤ d); [|lia]. unfold digit_val in Hd.
  destruct (in_range 48 57 (bval c)) eqn:E1; [apply in_range_spec in E1|
  destruct (in_range 97 122 (bval c)) eqn:E2; [apply in_range_spec in E2|
  destruct (in_range 65 90 (bval c)) eqn:E3; [apply in_range_spec in E3|]]];
  case_match; simplify_eq; lia.
Qed.

Lemma parse_hex_nonneg s n : parse_hex s = Ok n → 0 ≤ n ≤ u64_max.
Proof.
  intros H%ok_or_ok. unfold parse_hex_u64, parse_unsigned in H.
  apply bind_Some in H as (v & Hv & H). case_match eqn:E; [|done]. simplify_eq.
  apply Z.leb_le in E. unfold parse_digits in Hv. case_match; [done|].
  apply digits_from_hex_pos in Hv; lia.
Qed.

Lemma lsn_join u l : 0 ≤ u ≤ u32_max → 0 ≤ l ≤ u32_max →
  Z.lor (wrap_u 64 (Z.shiftl u 32)) l = u * 2 ^ 32 + l.
Proof.
  unfold u32_max. intros Hu Hl. unfold wrap_u. rewrite Z.shiftl_mul_pow2 by lia.
  rewrite Z.mod_small by lia. symmetry. rewrite <- Z.lxor_lor.
  - apply Z.add_nocarry_lxor.
    apply Z.bits_inj'. intros n Hn. rewrite Z.land_spec, Z.bits_0.
    destruct (decide (n < 32)).
    + rewrite Z.mul_pow2_bits_low by lia. done.
    + rewrite (Z.bits_above_log2 l), andb_false_r; [done|lia|].
      destruct (decide (l = 0)) as [->|]; [cbn; lia|].
      apply Z.log2_lt_pow2; [lia|]. apply Z.lt_le_trans with (2 ^ 32); [lia|].
      apply Z.pow_le_mono_r; lia.
  - apply Z.bits_inj'. intros n Hn. rewrite Z.land_spec, Z.bits_0.
    destruct (decide (n < 32)).
    + rewrite Z.mul_pow2_bits_low by lia. done.
    + rewrite (Z.bits_above_log2 l), andb_false_r; [done|lia|].
      destruct (decide (l = 0)) as [->|]; [cbn; lia|].
      apply Z.log2_lt_pow2; [lia|]. apply Z.lt_le_trans with (2 ^ 32); [lia|].
      apply Z.pow_le_mono_r; lia.
Qed.

(** An accepted LSN text is two hexadecimal halves of 32 bits each, and its
    position is their 64-bit concatenation: nothing wraps. *)
Theorem parse_lsn_value (s : string) :
  match parse_postgresql_lsn s with
  | Ok v => ∃ hi lo u l, s = hi +:+ String "/" lo ∧ parse_hex hi = Ok u ∧ parse_hex lo = Ok l
      ∧ 0 ≤ u < 2 ^ 32 ∧ 0 ≤ l < 2 ^ 32 ∧ v = u * 2 ^ 32 + l
  | Err _ => ¬ ∃ hi lo u l, s = hi +:+ String "/" lo ∧ contains_byte "/" hi = false
      ∧ parse_hex hi = Ok u ∧ parse_hex lo = Ok l ∧ u < 2 ^ 32 ∧ l < 2 ^ 32
  end.
Proof.
  destruct (parse_postgresql_lsn s) as [v|e] eqn:E; unfold parse_postgresql_lsn in E.
  - apply bind_ok in E as ([hi lo] & Hs & E). apply ok_or_ok, split_once_Some in Hs as [-> _].
    apply bind_ok in E as (u & Hu & E). apply bind_ok in E as (l & Hl & E). cbn in *.
    destruct (_ || _) eqn:Eb; [done|]. apply orb_false_iff in Eb as [E1 E2].
    apply Z.ltb_ge in E1, E2. apply parse_hex_nonneg in Hu as ?, Hl as ?.
    injection E as <-. exists hi, lo, u, l. rewrite lsn_join by lia.
    unfold u32_max in *. split_and!; try done; lia.
  - intros (hi & lo & u & l & -> & Hn & Hu & Hl & Hu' & Hl').
    rewrite split_once_app in E by done. cbn [ok_or mbind result_bind fst snd] in E.
    rewrite Hu in E. cbn in E. rewrite Hl in E. cbn in E.
    destruct (_ || _) eqn:Eb; [|done]. apply orb_true_iff in Eb as [Eb|Eb];
      apply Z.ltb_lt in Eb; unfold u32_max in Eb; lia.
Qed.

(** ** Positions a checkpoint may hold *)
Lemma parse_lsn_range s v : parse_postgresql_lsn s = Ok v → 0 ≤ v ≤ u64_max.
Proof.
  unfold parse_postgresql_lsn. intros ([hi lo] & _ & H)%bind_ok.
  apply bind_ok in H as (u & Hu & H). apply bind_ok in H as (l & Hl & H). cbn in *.
  destruct (_ || _) eqn:Eb; [done|]. injection H as <-. apply orb_false_iff in Eb as [E1 E2].
  apply Z.ltb_ge in E1, E2. apply parse_hex_nonneg in Hu, Hl.
  rewrite lsn_join by lia. unfold u32_max, u64_max in *. lia.
Qed.

Lemma parse_hex_no_dot s n : parse_hex s = Ok n → contains_byte "." s = false.
Proof.
  intros H%ok_or_ok. unfold parse_hex_u64, parse_unsigned in H.
  apply bind_Some in H as (v & Hv & _). unfold parse_digits in Hv.
  assert (∀ s a v, digits_from 16 s a = Some v → contains_byte "." s = false) as Hd.
  { clear. induction s as [|c s IH]; intros a v; [done|]. cbn. intros (d & Hd & H)%bind_Some.
    rewrite contains_byte_cons, (IH _ _ H), orb_false_r. apply bool_decide_eq_false.
    intros ->. vm_compute in Hd. done. }
  destruct s as [|c s]; [done|]. cbn [strip_byte] in Hv. case_bool_decide as Hc.
  - subst c. rewrite contains_byte_cons. cbn [from_option id] in Hv. cbn.
    destruct (sempty s); [done|]. by eapply Hd.
  - cbn [from_option id sempty] in Hv. by eapply Hd.
Qed.

(** The text of an LSN has a slash and no index: it compares with no binlog file. *)
Lemma lsn_incomparable file hi lo u l position f0 p0 o :
  split_once "/" file = Some (hi, lo) → parse_hex hi = Ok u → parse_hex lo = Ok l →
  validate_position f0 p0 = Ok () → compare_position file position f0 p0 = Ok o → False.
Proof.
  intros [Hs _]%split_once_Some Hu%parse_hex_no_dot Hl%parse_hex_no_dot Hv Hc.
  assert (∃ e, split_index file = Err e) as [e He].
  { subst file. unfold split_index. rewrite rsplit_once_None; [cbn; eauto|].
    apply contains_byte_false. rewrite sbytes_app. change (sbytes (String "/" lo)) with ("/"%char :: sbytes lo).
    rewrite elem_of_app, elem_of_cons. apply contains_byte_false in Hu, Hl. cbn in *. naive_solver. }
  apply compare_position_Ok in Hc as (na & nb & [[Heq _]|(_ & q & Hq & _)] & _); [|congruence].
  apply validate_position_ok in Hv as (_ & _ & _ & Hv & _). rewrite <- Heq, Hs in Hv.
  unfold plain_name in Hv. apply negb_true_iff in Hv.
  apply orb_false_iff in Hv as [[_ Hv]%orb_false_iff _].
  revert Hv. apply not_false_iff_true, contains_byte_spec. rewrite sbytes_app.
  apply elem_of_app. right. left.
Qed.

Lemma lsn_parts s v :
  parse_postgresql_lsn s = Ok v →
  ∃ hi lo u l, split_once "/" s = Some (hi, lo) ∧ parse_hex hi = Ok u ∧ parse_hex lo = Ok l.
Proof.
  unfold parse_postgresql_lsn. intros ([hi lo] & Hs%ok_or_ok & H)%bind_ok.
  apply bind_ok in H as (u & Hu & H). apply bind_ok in H as (l & Hl & _). by exists hi, lo, u, l.
Qed.

Lemma binlog_position_valid `{Base64} c file position :
  binlog_position c = Ok (file, position) → validate_position file position = Ok () ∧ 0 ≤ position ≤ u64_max.
Proof.
  unfold binlog_position. case_match; [done|]. intros (b & _ & Hx)%bind_ok.
  apply bind_ok in Hx as (ps & _ & Hx). apply bind_ok in Hx as (f & _ & Hx).
  apply bind_ok in Hx as (p & Hp & Hx). apply seq_ok in Hx as [Hx [= <- <-]]. split; [done|].
  apply ok_or_ok, u32_from_be_range in Hp. unfold u32_max, u64_max in *. lia.
Qed.

Lemma file_position_range `{Base64} c file position :
  Postgres.file_position c = Ok (file, position) → 0 ≤ position ≤ u64_max.
Proof.
  unfold Postgres.file_position. case_bool_decide.
  - intros (p & Hp & [= <- <-])%bind_ok. by eapply parse_lsn_range.
  - by intros [_ ?]%binlog_position_valid.
Qed.
Lemma my_file_position_range `{Base64} c file position :
  MySql.file_position c = Ok (file, position) → 0 ≤ position ≤ u64_max.
Proof.
  unfold MySql.file_position. case_bool_decide; [|by intros [_ ?]%binlog_position_valid].
  intros ([hi lo] & _ & Hx)%bind_ok. apply bind_ok in Hx as (u & Hu & Hx).
  apply bind_ok in Hx as (l & Hl & Hx). case_match eqn:E; [done|]. injection Hx as <- <-.
  apply Z.ltb_ge in E. apply parse_hex_nonneg in Hl. unfold u64_max, u32_max, wrap_u in *.
  pose proof (lor_below 64 (Z.shiftl u 32 mod 2 ^ 64) l) as H'. pose proof (Z.mod_pos_bound (Z.shiftl u 32) (2 ^ 64)).
  lia.
Qed.

(** A cursor that compares with a valid checkpoint position is itself a valid
    position for the checkpoint's mode: shown for any reading of cursors that
    gives LSN texts or valid binlog positions. *)
Lemma comparable_reading mode file position f0 p0 o :
  (∃ hi lo u l, split_once "/" file = Some (hi, lo) ∧ parse_hex hi = Ok u ∧ parse_hex lo = Ok l)
  ∨ validate_position file position = Ok () →
  validate_checkpoint_position mode f0 p0 = Ok () →
  compare_checkpoint_position (Some mode) file position f0 p0 = Ok o →
  validate_checkpoint_position mode file position = Ok ().
Proof.
  intros Hf Hv Hc. destruct (decide (mode = "postgresql_lsn"%string)) as [->|Hm].
  - rewrite compare_lsn in Hc by done. destruct Hc as (Ha & _ & _).
    unfold validate_checkpoint_position. cbn. rewrite Ha. cbn. by rewrite Z.eqb_refl.
  - rewrite compare_mysql in Hc by congruence.
    unfold validate_checkpoint_position in *. rewrite bool_decide_eq_false_2 in * by done.
    destruct Hf as [(hi & lo & u & l & Hs & Hu & Hl)|Hf]; [|done]. exfalso. by eapply lsn_incomparable.
Qed.

Lemma comparable_valid `{Base64} mode c file position f0 p0 o :
  Postgres.file_position c = Ok (file, position) →
  validate_checkpoint_position mode f0 p0 = Ok () →
  compare_checkpoint_position (Some mode) file position f0 p0 = Ok o →
  validate_checkpoint_position mode file position = Ok ().
Proof.
  intros Hf. apply comparable_reading. revert Hf. unfold Postgres.file_position.
  destruct (bool_decide (cur_format c = PG_CURSOR)); intros Hf.
  - left. apply bind_ok in Hf as (p & Hp & [= <- <-]). by eapply lsn_parts.
  - right. by apply binlog_position_valid in Hf as [? _].
Qed.
Lemma my_comparable_valid `{Base64} mode c file position f0 p0 o :
  MySql.file_position c = Ok (file, position) →
  validate_checkpoint_position mode f0 p0 = Ok () →
  compare_checkpoint_position (Some mode) file position f0 p0 = Ok o →
  validate_checkpoint_position mode file position = Ok ().
Proof.
  intros Hf. apply comparable_reading. revert Hf. unfold MySql.file_position.
  destruct (bool_decide (cur_format c = PG_CURSOR)); intros Hf.
  - left. apply bind_ok in Hf as ([hi lo] & Hs%ok_or_ok & Hx). apply bind_ok in Hx as (u & Hu & Hx).
    apply bind_ok in Hx as (l & Hl & Hx). case_match; [done|]. injection Hx as <- _. by exists hi, lo, u, l.
  - right. by apply binlog_position_valid in Hf as [? _].
Qed.

Lemma compare_same mode file position :
  validate_checkpoint_position mode file position = Ok () →
  compare_checkpoint_position (Some mode) file position file position = Ok Eq.
Proof.
  intros Hv. destruct (decide (mode = "postgresql_lsn"%string)) as [->|Hm].
  - rewrite compare_lsn, Z.compare_refl by done. unfold validate_checkpoint_position in Hv. cbn in Hv.
    apply bind_ok in Hv as (l & Hl & Hv). destruct (l =? position) eqn:E; [|done].
    by apply Z.eqb_eq in E as ->.
  - rewrite compare_mysql by congruence. unfold compare_position.
    by rewrite bool_decide_eq_true_2, Z.compare_refl.
Qed.

(** The MySQL sink's own LSN branch lacks the bound on the upper half: a text
    that the LSN parser rejects is read as position zero. *)
Theorem mysql_lsn_unbounded_upper :
  let c := mkCursor PG_CURSOR "100000000/0" "100000000/0" in
  MySql.file_position (H := Rfc4648.base64) c = Ok ("100000000/0"%string, 0)
  ∧ Postgres.file_position (H := Rfc4648.base64) c = Err (other "invalid PostgreSQL LSN").
Proof. vm_compute. done. Qed.
