(* ===== verification/Reader.v ===== *)
(** * The JSON Lines reader and writer of change events
    ([crates/change_event/src/reader.rs], [json.rs])

    [JsonReader] reassembles transactions from a byte stream that arrives in
    buffers of any size and may end temporarily; [json] writes one transaction.
    [serde_json] is a parameter: [parse_line] for [from_slice::<Envelope>] and
    [write_event] for [to_writer] of an event. *)
From S2P Require Import Prelude Text Codec Model Representation Validate Outcome.

(** [64 * 1024 * 1024] *)
Definition MAX_BYTES : Z := 2 ^ 26.
Definition LF : byte := "010".

(** ** Events *)
Record TransactionHeader := mkHeader {
  hd_id : string;
  hd_sequence : Z;
  hd_begin_cursor : SourceCursor;
  hd_commit_cursor : SourceCursor
}.

Inductive Payload :=
| TransactionBegin
| RowChangePayload (change : RowChange)
| TransactionCommit (change_count : Z).

Record Envelope := mkEnvelope {
  ev_format : string;
  ev_source : Source;
  ev_transaction : TransactionHeader;
  ev_payload : Payload
}.

(** What [fill_buf] returns: bytes, nothing for now, or an error. *)
Inductive Chunk := Data (l : list byte) | TemporaryEof | ReadFailure.

Record JsonReader := mkReader {
  rd_input : list Chunk;
  rd_line : list byte;
  rd_pending : option ChangeTransaction;
  rd_bytes : Z;
  rd_failed : bool
}.
Definition new (input : list Chunk) : JsonReader := mkReader input [] None 0 false.

Definition invalid (message : string) : IoError := mkIoError KInvalidData (Message message).

(** [available[..length]] up to and with the first line feed, the rest, and
    whether the line feed was found. *)
Fixpoint take_line (l : list byte) : list byte * list byte * bool :=
  match l with
  | [] => ([], [], false)
  | b :: l' =>
      if bool_decide (b = LF) then ([b], l', true)
      else let '(a, r, complete) := take_line l' in (b :: a, r, complete)
  end.

Section reader.
Context `{B64 : Base64, SHA : Sha256} (parse_line : list byte → option Envelope).

Definition supported (e : Envelope) : bool :=
  let f := ev_format e in
  if bool_decide (f = FORMAT) || bool_decide (f = PREVIOUS_FORMAT) then true
  else if bool_decide (f = LEGACY_FORMAT) || bool_decide (f = HISTORICAL_FORMAT)
  then bool_decide (src_kind (ev_source e) = "mysql"%string)
  else false.

Definition inconsistent (e : Envelope) (tx : ChangeTransaction) : bool :=
  let header := ev_transaction e in
  negb (bool_decide (tx_source tx = ev_source e))
  || negb (bool_decide (tx_id tx = hd_id header))
  || negb (bool_decide (tx_begin_cursor tx = hd_begin_cursor header))
  || negb (bool_decide (tx_commit_cursor tx = hd_commit_cursor header))
  || negb (hd_sequence header =? Z.of_nat (length (tx_changes tx)) + 1).

(** One complete line: the transaction it completes, what is pending after it,
    and the bytes of the pending transaction. *)
Definition accept_line (pending : option ChangeTransaction) (bytes : Z) (line : list byte) :
    io (option ValidatedTransaction * option ChangeTransaction * Z) :=
  let? envelope := ok_or (invalid "not a ChangeEvent") (parse_line line) in
  if negb (supported envelope) then Err (invalid "unsupported ChangeEvent format") else
  let header := ev_transaction envelope in
  if match pending with Some tx => inconsistent envelope tx | None => false end
  then Err (invalid "interleaved transaction or inconsistent identity/cursor/sequence") else
  let bytes := bytes + Z.of_nat (length line) in
  match ev_payload envelope with
  | TransactionBegin =>
      if negb (is_none pending) || negb (hd_sequence header =? 0)
      then Err (invalid "nested transaction or invalid begin sequence")
      else Ok (None, Some (mkTransaction (ev_source envelope) (hd_id header)
                             (hd_begin_cursor header) (hd_commit_cursor header) []), bytes)
  | RowChangePayload change =>
      let? tx := ok_or (invalid "row without begin") pending in
      Ok (None, Some (mkTransaction (tx_source tx) (tx_id tx) (tx_begin_cursor tx)
                        (tx_commit_cursor tx) (tx_changes tx ++ [change])), bytes)
  | TransactionCommit change_count =>
      let? tx := ok_or (invalid "commit without begin") pending in
      if negb (Z.of_nat (length (tx_changes tx)) =? change_count)
      then Err (invalid "commit change_count mismatch")
      else
        let? validated := map_err (λ _, invalid "invalid transaction") (validate tx) in
        Ok (Some validated, None, 0)
  end.

(** The loop; [fuel] bounds its iterations and [None] means it ran out. *)
Fixpoint read_transaction (fuel : nat) (r : JsonReader) :
    option (io (option ValidatedTransaction) * JsonReader) :=
  match fuel with
  | O => None
  | S fuel =>
      match rd_input r with
      | [] => Some (Ok None, r)
      | ReadFailure :: input =>
          Some (Err (invalid "read failed"),
                mkReader input (rd_line r) (rd_pending r) (rd_bytes r) (rd_failed r))
      | TemporaryEof :: input | Data [] :: input =>
          Some (Ok None, mkReader input (rd_line r) (rd_pending r) (rd_bytes r) (rd_failed r))
      | Data available :: input =>
          let '(taken, rest, complete) := take_line available in
          let length := Z.of_nat (length taken) in
          if sat_sub MAX_BYTES (rd_bytes r + Z.of_nat (List.length (rd_line r))) <? length
          then Some (Err (invalid "JSON transaction exceeds 64 MiB"), r) else
          let line := rd_line r ++ taken in
          let input := match rest with [] => input | _ => Data rest :: input end in
          if negb complete then
            read_transaction fuel (mkReader input line (rd_pending r) (rd_bytes r) (rd_failed r))
          else
            match accept_line (rd_pending r) (rd_bytes r) line with
            | Err e => Some (Err e, mkReader input [] (rd_pending r) (rd_bytes r) (rd_failed r))
            | Ok (Some v, pending, bytes) =>
                Some (Ok (Some v), mkReader input [] pending bytes (rd_failed r))
            | Ok (None, pending, bytes) =>
                read_transaction fuel (mkReader input [] pending bytes (rd_failed r))
            end
      end
  end.

Definition chunk_size (c : Chunk) : nat :=
  match c with Data l => S (length l) | _ => 1 end.
Definition input_size (input : list Chunk) : nat := sum_list_with chunk_size input.

Definition next_transaction (r : JsonReader) : option (io (option ValidatedTransaction) * JsonReader) :=
  if rd_failed r then Some (Err (invalid "reader stopped after an earlier error"), r) else
  match read_transaction (S (input_size (rd_input r))) r with
  | Some (Err e, r') =>
      Some (Err e, mkReader (rd_input r') (rd_line r') (rd_pending r') (rd_bytes r') true)
  | res => res
  end.

Definition finish (r : JsonReader) : io () :=
  if rd_failed r || negb (is_none (rd_pending r)) || negb (lempty (rd_line r))
  then Err (invalid "incomplete or failed ChangeEvent transaction at end of input")
  else Ok ().

(** Calls until the input is exhausted or an error stops the reader. *)
Fixpoint drain (fuel : nat) (r : JsonReader) : option (list ValidatedTransaction * JsonReader) :=
  match fuel with
  | O => None
  | S fuel =>
      match next_transaction r with
      | Some (Ok (Some v), r') =>
          '(vs, r'') ← drain fuel r'; Some (v :: vs, r'')
      | Some (Ok None, r') =>
          match rd_input r' with [] => Some ([], r') | _ => drain fuel r' end
      | Some (Err _, r') => Some ([], r')
      | None => None
      end
  end.
End reader.

(** ** Writing *)
Section writer.
Context (write_event : Envelope → list byte).

Definition header_of (t : ChangeTransaction) (sequence : Z) : TransactionHeader :=
  mkHeader (tx_id t) sequence (tx_begin_cursor t) (tx_commit_cursor t).
Definition event_of (t : ChangeTransaction) (sequence : Z) (payload : Payload) : Envelope :=
  mkEnvelope FORMAT (tx_source t) (header_of t sequence) payload.

(** The rows, numbered from [sequence]. *)
Fixpoint row_events (t : ChangeTransaction) (sequence : Z) (changes : list RowChange) : list Envelope :=
  match changes with
  | [] => []
  | c :: changes => event_of t sequence (RowChangePayload c) :: row_events t (sequence + 1) changes
  end.
Definition events (t : ChangeTransaction) : list Envelope :=
  event_of t 0 TransactionBegin
  :: row_events t 1 (tx_changes t)
  ++ [event_of t (Z.of_nat (length (tx_changes t)) + 1)
        (TransactionCommit (Z.of_nat (length (tx_changes t))))].

Definition emit (e : Envelope) : list byte := write_event e ++ [LF].
Definition json (v : ValidatedTransaction) : list byte :=
  concat (emit <$> events (vt_transaction v)).
End writer.

(** ** What the reader promises *)
Module Spec.
Section spec.
Context `{B64 : Base64, SHA : Sha256} (parse_line : list byte → option Envelope).
Notation accept_line := (accept_line parse_line).
Notation read_transaction := (read_transaction parse_line).
Notation next_transaction := (next_transaction parse_line).
Notation drain := (drain parse_line).

(** The specification reads one byte at a time and has no buffers. *)
Record Feed := mkFeed {
fd_line : list byte;
fd_pending : option ChangeTransaction;
fd_bytes : Z;
fd_failed : bool
}.
Definition start : Feed := mkFeed [] None 0 false.
Definition stop (st : Feed) : Feed := mkFeed (fd_line st) (fd_pending st) (fd_bytes st) true.

Definition feed_byte (st : Feed) (b : byte) : option ValidatedTransaction * Feed :=
if fd_failed st then (None, st) else
if MAX_BYTES <=? fd_bytes st + Z.of_nat (length (fd_line st)) then (None, stop st) else
let line := fd_line st ++ [b] in
if bool_decide (b = LF) then
  match accept_line (fd_pending st) (fd_bytes st) line with
  | Ok (v, pending, bytes) => (v, mkFeed [] pending bytes false)
  | Err _ => (None, stop st)
  end
else (None, mkFeed line (fd_pending st) (fd_bytes st) false).

Fixpoint feed (st : Feed) (l : list byte) : list ValidatedTransaction * Feed :=
match l with
| [] => ([], st)
| b :: l =>
    let '(v, st) := feed_byte st b in
    let '(vs, st) := feed st l in
    (match v with Some v => v :: vs | None => vs end, st)
end.

Definition data (c : Chunk) : list byte := match c with Data l => l | _ => [] end.
Definition stream (input : list Chunk) : list byte := concat (data <$> input).

Lemma feed_failed st l : fd_failed st = true → feed st l = ([], st).
Proof.
intros Hf. induction l as [|b l IH]; [done|]. cbn. unfold feed_byte. rewrite Hf. by rewrite IH.
Qed.

Lemma feed_app st l l' :
feed st (l ++ l') = let '(vs, st1) := feed st l in let '(vs', st2) := feed st1 l' in (vs ++ vs', st2).
Proof.
revert st. induction l as [|b l IH]; intros st; cbn; [by destruct (feed st l')|].
destruct (feed_byte st b) as [v st0]. rewrite IH. destruct (feed st0 l) as [vs st1].
destruct (feed st1 l') as [vs' st2]. by destruct v.
Qed.

Definition used (st : Feed) : Z := fd_bytes st + Z.of_nat (length (fd_line st)).

(** A stretch without line feed only grows the line, up to the bound. *)
Lemma feed_stretch st l :
fd_failed st = false → LF ∉ l →
if decide (l = [] ∨ used st + Z.of_nat (length l) ≤ MAX_BYTES)
then feed st l = ([], mkFeed (fd_line st ++ l) (fd_pending st) (fd_bytes st) false)
else ∃ st', feed st l = ([], st') ∧ fd_failed st' = true.
Proof.
revert st. induction l as [|b l IH]; intros st Hf Hl.
{ rewrite decide_True by (by left). cbn. rewrite app_nil_r. destruct st. cbn in *. by subst. }
assert (b ≠ LF ∧ LF ∉ l) as [Hb Hl'] by set_solver.
cbn [feed]. unfold feed_byte at 1 2. rewrite Hf, (bool_decide_eq_false_2 (b = LF)) by done.
destruct (Z.leb_spec MAX_BYTES (fd_bytes st + Z.of_nat (length (fd_line st)))) as [Hm|Hm].
- assert (feed (stop st) l = ([], stop st)) as Hs by (by apply feed_failed).
  rewrite decide_False by (intros [?|?]; [done|]; unfold used in *; cbn [length] in *; lia).
  rewrite Hs. by eexists.
- specialize (IH (mkFeed (fd_line st ++ [b]) (fd_pending st) (fd_bytes st) false) eq_refl Hl').
  revert IH. unfold used. cbn [fd_line fd_bytes fd_pending length]. rewrite length_app. cbn [length].
  destruct (decide (b :: l = [] ∨ _)) as [Hd|Hd]; destruct (decide (l = [] ∨ _)) as [Hd'|Hd'].
  + intros ->. by rewrite <- app_assoc.
  + exfalso. apply Hd'. right. destruct Hd; [done|lia].
  + exfalso. apply Hd. right. destruct Hd' as [->|?]; cbn [length] in *; lia.
  + intros (st' & -> & ?). by exists st'.
Qed.

(** A complete line is accepted as a whole. *)
Lemma feed_line st l :
fd_failed st = false → LF ∉ l →
if decide (used st + Z.of_nat (length l) + 1 ≤ MAX_BYTES)
then match accept_line (fd_pending st) (fd_bytes st) (fd_line st ++ l ++ [LF]) with
     | Ok (v, pending, bytes) =>
         feed st (l ++ [LF]) = (option_list v, mkFeed [] pending bytes false)
     | Err _ => ∃ st', feed st (l ++ [LF]) = ([], st') ∧ fd_failed st' = true
     end
else ∃ st', feed st (l ++ [LF]) = ([], st') ∧ fd_failed st' = true.
Proof.
intros Hf Hl. rewrite feed_app. pose proof (feed_stretch st l Hf Hl) as H.
destruct (decide (l = [] ∨ _)) as [Hd|Hd].
- rewrite H. clear H. cbn [feed]. unfold feed_byte. cbn [fd_failed fd_line fd_bytes fd_pending].
  rewrite length_app, Nat2Z.inj_add, Z.add_assoc, bool_decide_eq_true_2, <- app_assoc by done.
  unfold used in *. destruct (decide _) as [Hd'|Hd'].
  + destruct (Z.leb_spec MAX_BYTES (fd_bytes st + Z.of_nat (length (fd_line st)) + Z.of_nat (length l))) as [?|_]; [lia|].
    destruct (accept_line _ _ _) as [[[[v|] p] n]|e]; [done|done|]. by eexists.
  + destruct (Z.leb_spec MAX_BYTES (fd_bytes st + Z.of_nat (length (fd_line st)) + Z.of_nat (length l))) as [_|?]; [|lia].
    by eexists.
- destruct H as (st' & -> & Hs). rewrite (feed_failed st') by done. cbn.
  rewrite decide_False; [by eexists|]. intros ?. apply Hd. right. lia.
Qed.

Lemma take_line_spec l a r c :
take_line l = (a, r, c) →
l = a ++ r ∧ (l ≠ [] → a ≠ [])
∧ if c : bool then ∃ a', a = a' ++ [LF] ∧ LF ∉ a' else r = [] ∧ LF ∉ a.
Proof.
revert a r c. induction l as [|b l IH]; intros a r c; cbn.
{ intros [= <- <- <-]. split_and!; try done. by apply not_elem_of_nil. }
case_bool_decide as Hb.
{ intros [= <- <- <-]. split_and!; try done. subst b. exists []. split; [done|]. by apply not_elem_of_nil. }
destruct (take_line l) as [[a0 r0] c0] eqn:E. intros [= <- <- <-].
destruct (IH _ _ _ eq_refl) as (-> & _ & Hc). split_and!; [done|done|]. destruct c0.
- destruct Hc as (a' & -> & Hn). exists (b :: a'). split; [done|]. set_solver.
- destruct Hc as [-> Hn]. split; [done|]. set_solver.
Qed.

(** ** The buffered reader follows the specification *)

Definition abs (r : JsonReader) : Feed :=
mkFeed (rd_line r) (rd_pending r) (rd_bytes r) (rd_failed r).

Definition feed_chunk (st : Feed) (c : Chunk) : list ValidatedTransaction * Feed :=
match c with
| Data l => feed st l
| TemporaryEof => ([], st)
| ReadFailure => ([], stop st)
end.
Fixpoint feed_input (st : Feed) (input : list Chunk) : list ValidatedTransaction * Feed :=
match input with
| [] => ([], st)
| c :: input =>
    let '(vs, st) := feed_chunk st c in
    let '(vs', st) := feed_input st input in (vs ++ vs', st)
end.

Lemma feed_input_failed st input :
fd_failed st = true → ∃ st', feed_input st input = ([], st') ∧ fd_failed st' = true.
Proof.
revert st. induction input as [|c input IH]; intros st Hf; cbn; [by eexists|].
destruct (IH st Hf) as (st1 & E & H1).
destruct c; cbn; [rewrite feed_failed, E by done; by eexists|rewrite E; by eexists|].
destruct (IH (stop st) eq_refl) as (st2 & -> & ?). by eexists.
Qed.

Lemma feed_input_split st l r input :
feed_input st (Data (l ++ r) :: input)
= let '(vs, st1) := feed st l in
  let '(vs', st2) := feed_input st1 (match r with [] => input | _ => Data r :: input end) in
  (vs ++ vs', st2).
Proof.
cbn. rewrite feed_app. destruct (feed st l) as [vs st1]. destruct r as [|b r]; cbn [feed].
- rewrite app_nil_r. by destruct (feed_input st1 input).
- cbn. destruct (feed_byte st1 b) as [v st2], (feed st2 r) as [vs' st3].
  destruct (feed_input st3 input) as [vs'' st4]. by rewrite app_assoc.
Qed.

Lemma rest_size (l r : list byte) input :
l ≠ [] → (input_size (match r with [] => input | _ => Data r :: input end)
  < chunk_size (Data (l ++ r)) + input_size input)%nat.
Proof.
intros Hl. destruct l as [|b l]; [done|]. cbn. rewrite length_app.
destruct r; cbn; unfold input_size; cbn; lia.
Qed.

(** One call: what it delivers, and that the rest of the input will be read as
  the specification reads it. *)
Definition step_ok (r : JsonReader) (res : io (option ValidatedTransaction)) (r' : JsonReader) : Prop :=
match res with
| Ok v =>
    feed_input (abs r) (rd_input r)
    = (let '(vs, st) := feed_input (abs r') (rd_input r') in (option_list v ++ vs, st))
    ∧ rd_failed r' = false
    ∧ (if v then input_size (rd_input r') < input_size (rd_input r)
       else rd_input r' = [] ∨ input_size (rd_input r') < input_size (rd_input r))%nat
| Err _ => ∃ st, feed_input (abs r) (rd_input r) = ([], st) ∧ fd_failed st = true
end.

(** What the specification does with the bytes taken from one buffer. *)
Lemma feed_taken st l taken rest complete :
take_line l = (taken, rest, complete) → l ≠ [] → fd_failed st = false →
if sat_sub MAX_BYTES (used st) <? Z.of_nat (length taken)
then ∃ st', feed st taken = ([], st') ∧ fd_failed st' = true
else if complete : bool then
  match accept_line (fd_pending st) (fd_bytes st) (fd_line st ++ taken) with
  | Ok (v, pending, bytes) => feed st taken = (option_list v, mkFeed [] pending bytes false)
  | Err _ => ∃ st', feed st taken = ([], st') ∧ fd_failed st' = true
  end
else feed st taken = ([], mkFeed (fd_line st ++ taken) (fd_pending st) (fd_bytes st) false).
Proof.
intros E Hl Hf. destruct (take_line_spec _ _ _ _ E) as (_ & Hne & Hc). specialize (Hne Hl).
assert (Hlen : 0 < Z.of_nat (length taken)) by (destruct taken; [done|cbn; lia]).
unfold sat_sub. destruct complete.
- destruct Hc as (a & -> & Ha). pose proof (feed_line st a Hf Ha) as H.
  rewrite length_app in *. cbn [length] in *.
  destruct (Z.ltb_spec (Z.max 0 (MAX_BYTES - used st)) (Z.of_nat (length a + 1))).
  + by rewrite decide_False in H by lia.
  + by rewrite decide_True in H by lia.
- destruct Hc as [_ Ha]. pose proof (feed_stretch st taken Hf Ha) as H.
  destruct (Z.ltb_spec (Z.max 0 (MAX_BYTES - used st)) (Z.of_nat (length taken))).
  + by rewrite decide_False in H by (intros [?|?]; [done|lia]).
  + by rewrite decide_True in H by (right; lia).
Qed.

(** The three ways a buffer ends a step. *)
Section steps.
Context (r r1 : JsonReader) (taken rest : list byte) (input : list Chunk).
Context (Hin : rd_input r = Data (taken ++ rest) :: input) (Hne : taken ≠ []).
Context (Hin1 : rd_input r1 = match rest with [] => input | _ => Data rest :: input end).

Lemma smaller : (input_size (rd_input r1) < input_size (rd_input r))%nat.
Proof. rewrite Hin, Hin1. pose proof (rest_size taken rest input Hne). done. Qed.

Lemma step_fail st' e r' :
feed (abs r) taken = ([], st') → fd_failed st' = true → step_ok r (Err e) r'.
Proof.
intros Hl Hf. unfold step_ok. rewrite Hin, feed_input_split, Hl, <- Hin1.
destruct (feed_input_failed st' (rd_input r1) Hf) as (st2 & -> & ?). by exists st2.
Qed.

Lemma step_deliver v :
feed (abs r) taken = ([v], abs r1) → rd_failed r1 = false → step_ok r (Ok (Some v)) r1.
Proof.
intros Hl Hf. pose proof smaller as Hz. unfold step_ok. rewrite Hin in *.
rewrite feed_input_split, Hl, <- Hin1. split_and!; [by destruct (feed_input _ _)|done|done].
Qed.

Lemma step_on res r' :
feed (abs r) taken = ([], abs r1) → step_ok r1 res r' → step_ok r res r'.
Proof.
intros Hl Hs. pose proof smaller. unfold step_ok in *. rewrite Hin in *.
rewrite feed_input_split, Hl, <- Hin1. destruct res as [v|e].
- destruct Hs as (-> & Hf & Hz). split_and!; [by destruct (feed_input _ _)|done|].
  destruct v; [lia|]. destruct Hz; [by left|right; lia].
- destruct Hs as (st & -> & ?). by exists st.
Qed.
End steps.

Lemma read_spec fuel r :
(input_size (rd_input r) < fuel)%nat → rd_failed r = false →
∃ res r', read_transaction fuel r = Some (res, r') ∧ step_ok r res r'.
Proof.
revert r. induction fuel as [|fuel IH]; intros [input line pending bytes failed] Hfuel Hf; [lia|].
cbn [rd_failed rd_input] in *. subst failed.
cbn [Reader.read_transaction rd_input rd_line rd_pending rd_bytes rd_failed].
destruct input as [|[[|b available]| |] input]; try (do 2 eexists; split; [done|]).
1,2,4: cbn; split_and!; [by try destruct (feed_input _ _)|done|]; (by left) || (right; cbn; lia).
2:{ destruct (feed_input_failed (stop (mkFeed line pending bytes false)) input eq_refl) as (st & E & ?).
    exists st. cbn. unfold abs. cbn. by rewrite E. }
set (r := mkReader _ line pending bytes false).
destruct (take_line (b :: available)) as [[taken rest] complete] eqn:E.
destruct (take_line_spec _ _ _ _ E) as (Heq & Hne & _). specialize (Hne ltac:(done)).
pose proof (feed_taken (abs r) _ _ _ _ E ltac:(done) eq_refl) as Hfeed.
unfold used in Hfeed. cbn [abs r fd_line fd_bytes fd_pending rd_line rd_pending rd_bytes] in Hfeed.
assert (rd_input r = Data (taken ++ rest) :: input) as Hin by (cbn; by rewrite Heq).
set (input' := match rest with [] => input | _ => Data rest :: input end) in *.
destruct (_ <? Z.of_nat (length taken)).
{ do 2 eexists. split; [done|]. destruct Hfeed as (st' & H1 & H2).
  by apply (step_fail r (mkReader input' [] None 0 false) taken rest input Hin eq_refl st'). }
destruct complete; cbn [negb].
- destruct (accept_line pending bytes (line ++ taken)) as [[[[v|] p] n]|e].
  + do 2 eexists. split; [done|]. by apply (step_deliver r _ taken rest input).
  + set (r1 := mkReader input' [] p n false).
    destruct (IH r1) as (res & r' & -> & Hs); [|done|].
    { pose proof (smaller r r1 taken rest input Hin Hne eq_refl). subst r. cbn [rd_input] in *. lia. }
    do 2 eexists. split; [done|]. by apply (step_on r r1 taken rest input).
  + do 2 eexists. split; [done|]. destruct Hfeed as (st' & H1 & H2).
    by apply (step_fail r (mkReader input' [] None 0 false) taken rest input Hin eq_refl st').
- set (r1 := mkReader input' (line ++ taken) pending bytes false).
  destruct (IH r1) as (res & r' & -> & Hs); [|done|].
  { pose proof (smaller r r1 taken rest input Hin Hne eq_refl). subst r. cbn [rd_input] in *. lia. }
  do 2 eexists. split; [done|]. by apply (step_on r r1 taken rest input).
Qed.

Lemma drain_spec fuel r :
(input_size (rd_input r) < fuel)%nat → rd_failed r = false →
∃ r', drain fuel r = Some ((feed_input (abs r) (rd_input r)).1, r')
  ∧ rd_failed r' = fd_failed (feed_input (abs r) (rd_input r)).2
  ∧ (rd_failed r' = false → abs r' = (feed_input (abs r) (rd_input r)).2).
Proof.
revert r. induction fuel as [|fuel IH]; intros r Hfuel Hf; [lia|]. cbn [Reader.drain].
unfold Reader.next_transaction. rewrite Hf.
destruct (read_spec (S (input_size (rd_input r))) r) as (res & r' & -> & Hs); [lia|done|].
unfold step_ok in Hs. destruct res as [[v|]|e].
- destruct Hs as (Hs & Hf' & Hz). destruct (IH r') as (r2 & -> & H1 & H2); [lia|done|].
  exists r2. rewrite Hs. destruct (feed_input (abs r') (rd_input r')) as [vs st]. done.
- destruct Hs as (Hs & Hf' & Hz). rewrite Hs.
  destruct (rd_input r') as [|c input] eqn:Hin.
  + exists r'. cbn. done.
  + destruct (IH r') as (r2 & E & H1 & H2); [rewrite Hin in *; destruct Hz; [done|lia]|done|].
    exists r2. rewrite E, Hin in *. by destruct (feed_input (abs r') (c :: input)) as [vs st].
- destruct Hs as (st & -> & Hst). exists (mkReader (rd_input r') (rd_line r') (rd_pending r') (rd_bytes r') true).
  cbn. rewrite Hst. done.
Qed.

Lemma feed_input_stream st input :
Forall (λ c, c ≠ ReadFailure) input → feed_input st input = feed st (stream input).
Proof.
intros Hin. revert st. induction Hin as [|c input Hc _ IH]; intros st; [done|]. unfold stream. cbn.
rewrite feed_app. destruct c as [l| |]; cbn; [|by rewrite IH; destruct (feed st _)|done].
destruct (feed st l) as [vs st1]. rewrite IH. unfold stream. by destruct (feed st1 _).
Qed.

Lemma finish_failed r : rd_failed r = true → is_ok (finish r) = false.
Proof. intros H. unfold finish. by rewrite H. Qed.

Lemma finish_abs r r' : abs r = abs r' → finish r = finish r'.
Proof. intros [= Hl Hp _ Hf]. unfold finish. by rewrite Hl, Hp, Hf. Qed.

(** Buffering is invisible: reading terminates, and what the reader
  delivers and whether [finish] accepts the end of the input depend only on
  the bytes, not on the sizes of the buffers in which they arrive nor on the
  temporary ends of input between them. *)
Theorem buffering_irrelevant (input input' : list Chunk) :
Forall (λ c, c ≠ ReadFailure) input → Forall (λ c, c ≠ ReadFailure) input' →
stream input = stream input' →
∃ vs r r', drain (S (input_size input)) (new input) = Some (vs, r)
  ∧ drain (S (input_size input')) (new input') = Some (vs, r')
  ∧ is_ok (finish r) = is_ok (finish r').
Proof.
intros H1 H2 Heq.
destruct (drain_spec (S (input_size input)) (new input)) as (r & E1 & F1 & A1); [cbn [rd_input new]; lia|done|].
destruct (drain_spec (S (input_size input')) (new input')) as (r' & E2 & F2 & A2); [cbn [rd_input new]; lia|done|].
cbn [rd_input new] in *. rewrite feed_input_stream in E1, F1, A1 by done.
rewrite feed_input_stream in E2, F2, A2 by done. change (abs (new input')) with (abs (new input)) in *.
rewrite <- Heq in *. exists (feed (abs (new input)) (stream input)).1, r, r'. split_and!; [done..|].
destruct (rd_failed r) eqn:E.
- rewrite !finish_failed by congruence. done.
- rewrite (finish_abs r r'); [done|]. rewrite A1, A2 by congruence. done.
Qed.

(** ** Delivered transactions *)

(** The lines of a transaction that is not complete yet: a begin, then rows. *)
Inductive partial : ChangeTransaction → list (list byte) → Prop :=
| partial_begin line e :
  parse_line line = Some e → supported e = true → ev_payload e = TransactionBegin →
  hd_sequence (ev_transaction e) = 0 →
  partial (mkTransaction (ev_source e) (hd_id (ev_transaction e)) (hd_begin_cursor (ev_transaction e))
             (hd_commit_cursor (ev_transaction e)) []) [line]
| partial_row tx ls line e c :
  partial tx ls → parse_line line = Some e → supported e = true → inconsistent e tx = false →
  ev_payload e = RowChangePayload c →
  partial (mkTransaction (tx_source tx) (tx_id tx) (tx_begin_cursor tx) (tx_commit_cursor tx)
             (tx_changes tx ++ [c])) (ls ++ [line]).

(** All lines of a transaction: the last one is its commit, with the count. *)
Definition complete_lines (v : ValidatedTransaction) (lines : list (list byte)) : Prop :=
∃ tx ls line e, lines = ls ++ [line] ∧ partial tx ls ∧ parse_line line = Some e
  ∧ supported e = true ∧ inconsistent e tx = false
  ∧ ev_payload e = TransactionCommit (Z.of_nat (length (tx_changes tx)))
  ∧ validate tx = Ok v ∧ Z.of_nat (length (concat lines)) ≤ MAX_BYTES.

(** The bytes of the pending transaction and of the line being read. *)
Definition reading (st : Feed) (tail : list byte) : Prop :=
fd_failed st = true
∨ ∃ lines, tail = concat lines ++ fd_line st ∧ fd_bytes st = Z.of_nat (length (concat lines))
    ∧ match fd_pending st with Some tx => partial tx lines | None => lines = [] end.

Lemma accept_line_spec pending lines line v pending' bytes' :
match pending with Some tx => partial tx lines | None => lines = [] end →
accept_line pending (Z.of_nat (length (concat lines))) line = Ok (v, pending', bytes') →
Z.of_nat (length (concat lines ++ line)) ≤ MAX_BYTES →
match v with
| Some v => complete_lines v (lines ++ [line]) ∧ pending' = None ∧ bytes' = 0
| None => bytes' = Z.of_nat (length (concat (lines ++ [line])))
    ∧ match pending' with Some tx => partial tx (lines ++ [line]) | None => False end
end.
Proof.
intros Hp Ha Hm. assert (concat (lines ++ [line]) = concat lines ++ line) as Hcat.
{ by rewrite concat_app; cbn; rewrite app_nil_r. }
unfold Reader.accept_line in Ha.
apply bind_ok in Ha as (e & He & Ha). apply ok_or_ok in He.
destruct (supported e) eqn:Hsup; [|done]. cbn [negb] in Ha.
destruct (match pending with Some tx => inconsistent e tx | None => false end) eqn:Hinc; [done|].
destruct (ev_payload e) as [|c|n] eqn:Hpay.
- destruct pending as [tx|]; [done|]. subst lines. cbn [is_none negb orb] in Ha.
  destruct (hd_sequence (ev_transaction e) =? 0) eqn:Hseq; [|done]. injection Ha as <- <- <-.
  split; [by rewrite Hcat; cbn|]. apply Z.eqb_eq in Hseq. by apply (partial_begin line e).
- apply bind_ok in Ha as (tx & Htx & Ha). apply ok_or_ok in Htx as ->. injection Ha as <- <- <-.
  split; [rewrite Hcat, length_app; lia|]. by apply (partial_row tx lines line e c).
- apply bind_ok in Ha as (tx & Htx & Ha). apply ok_or_ok in Htx as ->.
  destruct (Z.of_nat (length (tx_changes tx)) =? n) eqn:Hn; [|done]. cbn [negb] in Ha.
  apply bind_ok in Ha as (w & Hw & Ha). apply map_err_ok in Hw. injection Ha as <- <- <-.
  apply Z.eqb_eq in Hn. subst n. split; [|done].
  exists tx, lines, line, e. split_and!; try done. by rewrite Hcat.
Qed.

Lemma feed_byte_reading st b tail :
reading st tail →
let '(v, st') := feed_byte st b in
match v with
| Some v => ∃ lines, complete_lines v lines ∧ concat lines = tail ++ [b] ∧ reading st' []
| None => reading st' (tail ++ [b])
end.
Proof.
intros Hr. unfold feed_byte. destruct (fd_failed st) eqn:Hf; [by left|].
destruct Hr as [?|(lines & -> & Hb & Hp)]; [congruence|].
destruct (MAX_BYTES <=? _) eqn:Hm; [by left|]. apply Z.leb_gt in Hm.
case_bool_decide as HLF.
- destruct (accept_line _ _ _) as [[[v p] n]|e] eqn:Ha; [|by left].
  rewrite Hb in Ha. apply (accept_line_spec _ lines) in Ha; [|done|].
  2:{ rewrite !length_app. cbn [length]. lia. }
  assert (concat (lines ++ [fd_line st ++ [b]]) = (concat lines ++ fd_line st) ++ [b]) as Hcat.
  { rewrite concat_app. cbn. by rewrite app_nil_r, app_assoc. }
  destruct v as [v|].
  + destruct Ha as (Hc & -> & ->). eexists. split; [done|]. split; [done|].
    right. exists []. done.
  + destruct Ha as [-> Hp']. right. exists (lines ++ [fd_line st ++ [b]]). cbn.
    rewrite Hcat, app_nil_r. split_and!; [done|by rewrite <- Hcat|]. by destruct p.
- right. exists lines. cbn. by rewrite app_assoc.
Qed.

Lemma feed_reading st l tail :
reading st tail →
let '(vs, st') := feed st l in
∃ groups rest, tail ++ l = concat (concat groups) ++ rest
  ∧ Forall2 complete_lines vs groups ∧ reading st' rest.
Proof.
revert st tail. induction l as [|b l IH]; intros st tail Hr; cbn.
{ exists [], tail. by rewrite app_nil_r. }
pose proof (feed_byte_reading st b tail Hr) as Hb. destruct (feed_byte st b) as [[v|] st1].
- destruct Hb as (lines & Hc & Hcat & Hr1). specialize (IH st1 [] Hr1).
  destruct (feed st1 l) as [vs st2]. destruct IH as (groups & rest & Heq & Hall & Hr2).
  exists (lines :: groups), rest. split_and!; [|by constructor|done]. cbn in *.
  rewrite concat_app, Hcat, <- !app_assoc. cbn. by rewrite Heq.
- specialize (IH st1 _ Hb). destruct (feed st1 l) as [vs st2].
  destruct IH as (groups & rest & Heq & Hall & Hr2). exists groups, rest.
  rewrite <- Heq, <- app_assoc. done.
Qed.

(** Only complete, validated transactions are delivered, and none is lost
  or reordered: whatever the bytes, the delivered transactions are, one after
  the other and without gaps, the leading lines of the input; each is one
  begin, its rows and a commit of one identity with consecutive sequence
  numbers, within 64 MiB, and passed validation. *)
Theorem delivered_are_complete (input : list Chunk) :
Forall (λ c, c ≠ ReadFailure) input →
∃ vs r groups rest, drain (S (input_size input)) (new input) = Some (vs, r)
  ∧ stream input = concat (concat groups) ++ rest
  ∧ Forall2 complete_lines vs groups
  ∧ (is_ok (finish r) = true → rest = []).
Proof.
intros Hin. destruct (drain_spec (S (input_size input)) (new input)) as (r & E & F & A); [cbn [rd_input new]; lia|done|].
cbn [rd_input new] in *. rewrite feed_input_stream in E, F, A by done.
change (abs (new input)) with start in *.
pose proof (feed_reading start (stream input) []) as Hf. destruct (feed start (stream input)) as [vs st].
destruct Hf as (groups & rest & Heq & Hall & Hr); [by right; exists []|].
exists vs, r, groups, rest. split_and!; [done..|]. cbn [snd] in *.
unfold finish. destruct (rd_failed r) eqn:Ef; [done|]. specialize (A eq_refl).
destruct Hr as [?|(lines & -> & _ & Hp)]; [congruence|]. rewrite <- A in *. unfold abs in *. cbn in *.
destruct (rd_pending r); [done|]. destruct (rd_line r); [|done]. by subst.
Qed.

(** ** Writing and reading back *)
Section roundtrip.
Context (write_event : Envelope → list byte).
Notation emit := (emit write_event).

(** [serde_json] on the events of a transaction: the text has no line feed and
  parses back to the event. *)
Definition faithful (t : ChangeTransaction) : Prop :=
∀ e, e ∈ events t → LF ∉ write_event e ∧ parse_line (emit e) = Some e.

Definition pending_of (t : ChangeTransaction) (changes : list RowChange) : ChangeTransaction :=
mkTransaction (tx_source t) (tx_id t) (tx_begin_cursor t) (tx_commit_cursor t) changes.

Lemma feed_event e p n v p' n' :
LF ∉ write_event e → n + Z.of_nat (length (emit e)) ≤ MAX_BYTES →
accept_line p n (emit e) = Ok (v, p', n') →
feed (mkFeed [] p n false) (emit e) = (option_list v, mkFeed [] p' n' false).
Proof.
intros Hl Hn Ha. pose proof (feed_line (mkFeed [] p n false) (write_event e) eq_refl Hl) as H.
unfold used in H. cbn [fd_line fd_bytes fd_pending length app] in H. fold (emit e) in H.
revert Hn. unfold Reader.emit. rewrite length_app. cbn [length]. intros Hn.
rewrite decide_True in H by lia. by rewrite Ha in H.
Qed.

Lemma supported_event t s p : supported (event_of t s p) = true.
Proof. unfold supported. cbn. done. Qed.

Lemma consistent_event t changes s p :
s = Z.of_nat (length changes) + 1 → inconsistent (event_of t s p) (pending_of t changes) = false.
Proof.
intros ->. unfold inconsistent. cbn. by rewrite !bool_decide_eq_true_2, Z.eqb_refl.
Qed.

Lemma accept_event t changes s p n :
parse_line (emit (event_of t s p)) = Some (event_of t s p) →
s = Z.of_nat (length changes) + 1 →
accept_line (Some (pending_of t changes)) n (emit (event_of t s p))
= match p with
  | TransactionBegin => Err (invalid "nested transaction or invalid begin sequence")
  | RowChangePayload c =>
      Ok (None, Some (pending_of t (changes ++ [c])), n + Z.of_nat (length (emit (event_of t s p))))
  | TransactionCommit k =>
      if negb (Z.of_nat (length changes) =? k) then Err (invalid "commit change_count mismatch")
      else let? v := map_err (λ _, invalid "invalid transaction") (validate (pending_of t changes)) in
           Ok (Some v, None, 0)
  end.
Proof.
intros Hp Hs. unfold Reader.accept_line. rewrite Hp. cbn [ok_or mbind result_bind].
rewrite supported_event, consistent_event by done. cbn [negb]. by destruct p.
Qed.

Lemma feed_rows t done changes n s :
(∀ e, e ∈ row_events t s changes → LF ∉ write_event e ∧ parse_line (emit e) = Some e) →
s = Z.of_nat (length done) + 1 →
n + Z.of_nat (length (concat (emit <$> row_events t s changes))) ≤ MAX_BYTES →
feed (mkFeed [] (Some (pending_of t done)) n false) (concat (emit <$> row_events t s changes))
= ([], mkFeed [] (Some (pending_of t (done ++ changes)))
         (n + Z.of_nat (length (concat (emit <$> row_events t s changes)))) false).
Proof.
revert done n s. induction changes as [|c changes IH]; intros done n s He Hs Hn.
{ cbn. by rewrite app_nil_r, Z.add_0_r. }
cbn [row_events fmap list_fmap concat] in *. rewrite length_app, Nat2Z.inj_add in *.
destruct (He (event_of t s (RowChangePayload c))) as [Hl Hp]; [by left|].
rewrite feed_app.
rewrite (feed_event _ _ n None _ _ Hl ltac:(lia) (accept_event t done s _ n Hp Hs)).
rewrite IH; [| |rewrite length_app; cbn; lia|lia].
- by rewrite <- app_assoc, Z.add_assoc.
- intros e H. apply He. by right.
Qed.

Lemma feed_json v :
faithful (vt_transaction v) → validate (vt_transaction v) = Ok v →
Z.of_nat (length (json write_event v)) ≤ MAX_BYTES →
feed start (json write_event v) = ([v], start).
Proof.
unfold json, faithful, events. set (t := vt_transaction v). intros He Hv Hn.
rewrite fmap_cons, fmap_app in *. cbn [concat] in *. rewrite concat_app in *.
rewrite !length_app, !Nat2Z.inj_add in Hn. cbn [fmap list_fmap concat app] in *.
rewrite app_nil_r in *.
assert (pending_of t (tx_changes t) = t) as Ht by (by destruct t).
destruct (He (event_of t 0 TransactionBegin)) as [Hl0 Hp0]; [by left|].
destruct (He (event_of t (Z.of_nat (length (tx_changes t)) + 1)
                (TransactionCommit (Z.of_nat (length (tx_changes t)))))) as [Hl1 Hp1];
  [set_solver|].
rewrite feed_app. unfold start.
assert (accept_line None 0 (emit (event_of t 0 TransactionBegin))
        = Ok (None, Some (pending_of t []), Z.of_nat (length (emit (event_of t 0 TransactionBegin)))))
  as Ha0.
{ unfold Reader.accept_line. rewrite Hp0. cbn [ok_or mbind result_bind].
  rewrite supported_event. done. }
rewrite (feed_event _ None 0 None _ _ Hl0 ltac:(lia) Ha0).
rewrite feed_app, feed_rows; [|set_solver|done|lia]. cbn [app].
rewrite (feed_event _ _ _ (Some v) None 0 Hl1); [done|lia|].
rewrite accept_event by done. rewrite Z.eqb_refl, Ht, Hv. done.
Qed.

End roundtrip.
End spec.
End Spec.

(** ** A concrete stream *)
Module Example3.
#[local] Existing Instance Rfc4648.base64.
#[local] Existing Instance SumDigest.sha256.

Definition cursor3 : SourceCursor := mkCursor "mysql.binlog-file-position.v1" "AAA" "bin.000007:400".
Definition change3 : RowChange :=
  mkChange None Insert "public" "t" cursor3 1700000000000 "basis" None
    (Some [mkColumn 0 "id" "int" (Some 0) false None (Value (VInteger true 32 "1"))]).
Definition tx3 : ChangeTransaction :=
  mkTransaction (mkSource "mysql" "8.0.36" "src") "tx" cursor3 cursor3 [change3].
Definition v3 : ValidatedTransaction := mkValidated tx3.

(** One letter per event of the example transaction. *)
Definition write3 (e : Envelope) : list byte :=
  match ev_payload e with
  | TransactionBegin => ["B"%char]
  | RowChangePayload _ => ["R"%char]
  | TransactionCommit _ => ["C"%char]
  end.
Definition parse3 (line : list byte) : option Envelope :=
  match line with
  | ["B"%char; _] => Some (event_of tx3 0 TransactionBegin)
  | ["R"%char; _] => Some (event_of tx3 1 (RowChangePayload change3))
  | ["C"%char; _] => Some (event_of tx3 2 (TransactionCommit 1))
  | _ => None
  end.

Definition input3 : list Chunk :=
  [Data ["B"%char; LF; "R"%char]; TemporaryEof; Data [LF]; Data ["C"%char]; Data [LF; "B"%char; LF];
   Data ["R"%char; LF; "C"%char; LF]].
Definition input3' : list Chunk := [Data (Spec.stream input3)].
End Example3.

Import Example3.

Lemma buffering_irrelevant_witness :
  Forall (λ c, c ≠ ReadFailure) input3 ∧
  ∃ vs r r', drain (B64 := Rfc4648.base64) (SHA := SumDigest.sha256) parse3 (S (input_size input3)) (new input3)
             = Some (vs, r)
    ∧ drain (B64 := Rfc4648.base64) (SHA := SumDigest.sha256) parse3 (S (input_size input3')) (new input3')
      = Some (vs, r')
    ∧ is_ok (finish r) = is_ok (finish r').
Proof.
  split; [repeat constructor; discriminate|].
  apply Spec.buffering_irrelevant; [repeat constructor; discriminate..|reflexivity].
Defined.

Lemma delivered_are_complete_witness :
  ∃ vs r groups rest,
    drain (B64 := Rfc4648.base64) (SHA := SumDigest.sha256) parse3 (S (input_size input3)) (new input3)
    = Some (vs, r)
    ∧ Spec.stream input3 = concat (concat groups) ++ rest
    ∧ Forall2 (Spec.complete_lines (B64 := Rfc4648.base64) (SHA := SumDigest.sha256) parse3) vs groups
    ∧ (is_ok (finish r) = true → rest = []).
Proof. apply Spec.delivered_are_complete. repeat constructor; discriminate. Defined.

