(* ===== verification/Snapshot.v ===== *)
(** * Snapshot batches ([crates/change_event/src/snapshot.rs])

    The initial copy delivers rows table by table.  A batch is validated like the
    images of INSERTs, with two more conditions: every value is present and every
    row has a primary key. *)
From S2P Require Import Prelude Text Codec Model Validate.

Record SnapshotTable := mkSnapshotTable {
  st_schema : string;
  st_table : string;
  st_columns : list string
}.
#[export] Instance SnapshotTable_eq_dec : EqDecision SnapshotTable.
Proof. solve_decision. Defined.

Record SnapshotBoundary := mkBoundary {
  sb_source : Source;
  sb_cursor : SourceCursor
}.

Record SnapshotBatch := mkBatch {
  bt_source : Source;
  bt_schema : string;
  bt_table : string;
  bt_rows : list (list ColumnDatum);
  bt_last_in_table : bool
}.

Definition complete_source (s : Source) : bool :=
  negb (sempty (src_kind s)) && negb (sempty (src_version s)) && negb (sempty (src_id s)).

Definition validate_snapshot_boundary (boundary : SnapshotBoundary) : check :=
  ensure (complete_source (sb_source boundary)) (VE "incomplete snapshot source") ;?
  ensure (negb (sempty (cur_format (sb_cursor boundary)))
          && negb (sempty (cur_value (sb_cursor boundary))))
    (VE "snapshot cursor is incomplete").

Definition complete_datum (d : Datum) : bool :=
  match d with DNull | Value _ => true | _ => false end.

(** Only [validate_snapshot] builds one. *)
Record ValidatedSnapshotBatch := mkValidatedBatch { vb_batch : SnapshotBatch }.

Section snapshot.
Context `{B64 : Base64, SHA : Sha256}.

Definition snapshot_row (row : list ColumnDatum) : check :=
  image row Insert false ;?
  ensure (forallb (λ c, complete_datum (col_datum c)) row)
    (VE "snapshot rows must contain complete values") ;?
  ensure (existsb (λ c, is_some (col_primary_key_ordinal c)) row)
    (VE "snapshot requires primary keys").

Definition validate_snapshot (batch : SnapshotBatch) :
    result ValidationError ValidatedSnapshotBatch :=
  ensure (complete_source (bt_source batch)) (VE "incomplete snapshot source") ;?
  ensure (negb (sempty (bt_schema batch)) && negb (sempty (bt_table batch))
          && negb (has_nul (bt_schema batch)) && negb (has_nul (bt_table batch)))
    (VE "invalid snapshot table") ;?
  ensure (negb (lempty (bt_rows batch)) || bt_last_in_table batch)
    (VE "empty non-final snapshot batch") ;?
  each snapshot_row (bt_rows batch) ;?
  Ok (mkValidatedBatch batch).

Lemma validate_snapshot_same batch v :
  validate_snapshot batch = Ok v → vb_batch v = batch.
Proof. unfold validate_snapshot. rewrite !seq_ok. by intros (_ & _ & _ & _ & [= <-]). Qed.

(** Every row of an accepted snapshot batch is an insertable image: it is
    a well-formed INSERT image without unavailable, unchanged or unreadable
    values, and it identifies its row by a primary key whose first ordinal is
    zero. *)
Theorem snapshot_rows_insertable (batch : SnapshotBatch) (v : ValidatedSnapshotBatch) :
  validate_snapshot batch = Ok v →
  Forall (λ row,
    Spec.image_ok Insert false row
    ∧ Forall (λ c, col_datum c = DNull ∨ ∃ x, col_datum c = Value x) row
    ∧ ∃ c, c ∈ row ∧ col_primary_key_ordinal c = Some 0) (bt_rows (vb_batch v)).
Proof.
  intros H. rewrite (validate_snapshot_same _ _ H). unfold validate_snapshot in H.
  rewrite !seq_ok in H. destruct H as (_ & _ & _ & H & _).
  rewrite each_ok in H. eapply Forall_impl; [exact H|]. intros row Hr. cbn in Hr.
  unfold snapshot_row in Hr. rewrite !seq_ok, !ensure_ok in Hr. destruct Hr as (Hi & Hc & Hk).
  apply Spec.image_ok_spec in Hi. split_and!; [done| |].
  - apply Forall_forall. intros c Hin. rewrite forallb_forall in Hc.
    apply list_elem_of_In, Hc in Hin. destruct (col_datum c); naive_solver.
  - destruct Hi as (_ & _ & _ & _ & Hp).
    assert (0 ∈ Spec.key_ordinals row) as H0.
    { rewrite Hp, elem_of_seqZ. apply existsb_exists in Hk as (c & Hin & Hk).
      apply list_elem_of_In in Hin. destruct (col_primary_key_ordinal c) as [k|] eqn:E; [|done].
      assert (k ∈ Spec.key_ordinals row) as Hin' by (apply list_elem_of_omap; eauto).
      destruct (Spec.key_ordinals row); [by apply elem_of_nil in Hin'|]. cbn. lia. }
    apply list_elem_of_omap in H0 as (c & ? & ?). eauto.
Qed.
End snapshot.

Definition example_row : list ColumnDatum :=
  [mkColumn 0 "id" "bigint" (Some 0) false None (Value (VInteger true 64 "7"));
   mkColumn 1 "name" "text" None false None DNull].
Definition example_batch : SnapshotBatch :=
  mkBatch (mkSource "mysql" "8.0.36" "src") "shop" "orders" [example_row] true.
Lemma snapshot_rows_insertable_witness :
  validate_snapshot (B64 := Rfc4648.base64) (SHA := SumDigest.sha256) example_batch
    = Ok (mkValidatedBatch example_batch)
  ∧ Forall (λ row,
      Spec.image_ok (B64 := Rfc4648.base64) (SHA := SumDigest.sha256) Insert false row
      ∧ Forall (λ c, col_datum c = DNull ∨ ∃ x, col_datum c = Value x) row
      ∧ ∃ c, c ∈ row ∧ col_primary_key_ordinal c = Some 0) [example_row].
Proof.
  split; [vm_compute; done|].
  apply (snapshot_rows_insertable example_batch (mkValidatedBatch example_batch)).
  vm_compute. done.
Defined.
