(* ===== verification/RowSql.v ===== *)
(** * Rows and plans as the SQL planners read them

    What the planners of the PostgreSQL and the MySQL sink share (each crate has
    its own copy of these helpers): the set of changed tables, the key columns
    in key order, the writable columns, the kind of a plan, the checks of a value
    as an [io::Result], and the locator of a row after a statement. *)
From S2P Require Import Prelude Text Codec Model Representation Outcome Validate Plan JsonText Convert.

(** The order of [BTreeSet<(String, String)>]. *)
Definition table_le (a b : string * string) : Prop :=
  (a.1 ≠ b.1 ∧ String.le a.1 b.1) ∨ (a.1 = b.1 ∧ String.le a.2 b.2).
#[export] Instance table_le_dec : RelDecision table_le.
Proof. intros a b. unfold table_le. apply _. Defined.

Definition table_set (tables : list (string * string)) : list (string * string) :=
  merge_sort table_le (remove_dups tables).

(** [columns.sort_by_key(|column| column.primary_key_ordinal)] *)
Definition key_order (a b : option Z) : Prop :=
  match a, b with
  | None, _ => True
  | Some _, None => False
  | Some x, Some y => x ≤ y
  end.
#[export] Instance key_order_dec : RelDecision key_order.
Proof. intros [a|] [b|]; cbn; apply _. Defined.

Definition is_key (column : ColumnDatum) : bool := is_some (col_primary_key_ordinal column).
Definition key_columns (row : list ColumnDatum) : list ColumnDatum :=
  sort_by key_order col_primary_key_ordinal (filter (λ c, is_key c = true) row).

Definition is_absent (d : Datum) : bool :=
  match d with Unavailable | Unchanged => true | _ => false end.
Definition writable_columns (row : list ColumnDatum) : list ColumnDatum :=
  filter (λ c, negb (col_generated c) && negb (is_absent (col_datum c)) = true) row.
(** The locator of the row after the statement: an absent key value is the one
    of the before image. *)
Definition resolve_key (change : RowChange) (key : ColumnDatum) : io ColumnDatum :=
  if is_absent (col_datum key) then
    supported (List.find (λ prior,
      bool_decide (col_primary_key_ordinal prior = col_primary_key_ordinal key)
      && bool_decide (col_name prior = col_name key)) (default [] (chg_before change)))
  else Ok key.

(** [value.starts_with(prefix)] *)
Definition starts_with (prefix value : string) : bool := is_some (strip_prefix prefix value).

Definition conversion_kind (plan : option ColumnConversionPlan) : option string :=
  plan ← plan; target_parameter plan "conversion_kind".

Inductive CarrierKind := LogicalCarrier | SourceCarrier.
#[export] Instance CarrierKind_eq_dec : EqDecision CarrierKind.
Proof. solve_decision. Defined.
Definition carrier_kind (kind : option string) : option CarrierKind :=
  if equals kind "logical_value_json" then Some LogicalCarrier
  else if equals kind "source_representation" then Some SourceCarrier else None.

(** ** Checks as [io::Result] *)
Section checks.
Context `{B64 : Base64, SHA : Sha256, JP : JsonPrinter, PS : PlanSerde}.

(** A check of Convert.v as an [io::Result]; the panic is unreachable
    ([Convert.Spec.validate_total]). *)
Definition planned_io {A} (m : planned A) : io A :=
  map_err (λ f, other_cause (CapabilityFailure (tf_code f))) m.
Definition check_value (plan : ColumnConversionPlan) (value : LogicalValue) : io () :=
  match validate_value_against_plan plan value with
  | Some m => planned_io m
  | None => refuse
  end.
Definition check_envelope (plan : ColumnConversionPlan) (envelope : SourceRepresentationEnvelope) : io () :=
  planned_io (validate_source_representation_envelope_against_plan plan envelope).
End checks.

(** ** Lemmas *)
Lemma key_columns_spec row :
  key_columns row ≡ₚ filter (λ c, is_key c = true) row
  ∧ Sorted (key_le key_order col_primary_key_ordinal) (key_columns row).
Proof.
  split; [apply sort_by_perm|]. apply sort_by_sorted.
  intros [a|] [b|]; cbn; try tauto. lia.
Qed.

#[export] Instance table_le_total : Total table_le.
Proof.
  intros [a1 a2] [b1 b2]. unfold table_le. cbn. destruct (decide (a1 = b1)) as [->|Hne].
  - destruct (total String.le a2 b2); auto.
  - destruct (total String.le a1 b1); auto.
Qed.

Lemma table_set_spec tables :
  Sorted table_le (table_set tables) ∧ NoDup (table_set tables) ∧ ∀ t, t ∈ table_set tables ↔ t ∈ tables.
Proof.
  unfold table_set. split_and!.
  - apply Sorted_merge_sort, _.
  - rewrite merge_sort_Permutation. apply NoDup_remove_dups.
  - intros t. by rewrite merge_sort_Permutation, elem_of_remove_dups.
Qed.

Lemma mapM_ok {A B E} (f : A → result E B) l k : mapM f l = Ok k ↔ Forall2 (λ a b, f a = Ok b) l k.
Proof.
  revert k. induction l as [|a l IH]; intros k; cbn [mapM].
  { split; [intros [= <-]; constructor|by inversion 1]. }
  rewrite bind_ok. setoid_rewrite bind_ok. split.
  - intros (b & Hb & bs & Hbs%IH & [= <-]). by constructor.
  - inversion 1 as [|? b ? bs Hb Hbs]; subst. exists b. split; [done|]. exists bs. split; [by apply IH|done].
Qed.

Lemma mapM_ok_Forall2 {A B E} (f : A → result E B) (P : A → B → Prop) l k :
  (∀ a b, f a = Ok b → P a b) → mapM f l = Ok k → Forall2 P l k.
Proof. intros Hf H%mapM_ok. eapply Forall2_impl; eauto. Qed.

Lemma refuse_empty {A B} (l : list A) (m : io B) x :
  (if lempty l then refuse else m) = Ok x ↔ l ≠ [] ∧ m = Ok x.
Proof. destruct l; cbn; [by split; [|intros []]|]. by split; [|intros []]. Qed.

(** Every writable column of every change has a plan. *)
Definition covered (plans : list ColumnConversionPlan) (t : ChangeTransaction) : Prop :=
  Forall (λ change, Forall (λ c, col_generated c = false →
    ∃ plan, plan ∈ plans ∧ df_lineage_id (pl_source_field plan)
                           = lineage (chg_schema change) (chg_table change) (col_name c))
    (change_columns change)) (tx_changes t).
