(* ===== verification/Target.v ===== *)
(** * Executing planned SQL on a PostgreSQL target
    ([crates/postgresql_15/src/sql.rs])

    The planner renders a validated transaction to parameterised statements;
    this file models their execution inside one database transaction: the table
    checks, the locator probe before a statement, the affected-row count, the
    generated-column observation and the carrier read-back after it.  The server
    itself is the interface [PgServer]: the answer of a query and the effect of a
    statement on a database state of any type. *)
From S2P Require Import Prelude Text Codec Model Representation Snapshot Outcome.

(** ** The server behind [sqlx] *)

(** A column of a fetched row, as the [try_get] calls of this file decode it. *)
Inductive Cell := CNull | CText (s : string) | CBytes (l : list byte) | CBool (b : bool) | CInt (z : Z).

(** Values bound to a statement; floats by their bit pattern. *)
Inductive SqlParameter :=
| PInteger (z : Z)
| PNumeric (s : string)
| PFloat32 (bits : Z)
| PFloat64 (bits : Z)
| PBoolean (b : bool)
| PText (s : string)
| PBinary (l : list byte)
| PDate (s : string)
| PTime (s : string)
| PTimestamp (s : string)
| PTimestamptz (s : string)
| PInterval (s : string)
| PUuid (s : string)
| PJson (s : string)
| PStructured (s : string)
| PCustomBinary (l : list byte)
| PSpatial (bytes : list byte) (srid : option Z) (format : SpatialFormat).

Class PgServer (D : Type) := {
  (** [query.fetch_all(tx)] of a reading statement: the rows. *)
  pg_fetch : string → list SqlParameter → D → result SqlxError (list (list Cell));
  (** [query.execute(tx)]: the new state and [rows_affected()]. *)
  pg_execute : string → list SqlParameter → D → result SqlxError (D * Z)
}.

(** [.map_err(io::Error::other)] on a driver error. *)
Definition sqlx_io {A} (m : result SqlxError A) : io A :=
  map_err (λ e, other_cause (Sqlx e)) m.

(** [row.try_get(i)] at the types used below. *)
Definition decode_error : IoError := other_cause (Sqlx (SqlxDriver "column decode")).
Definition get_text (c : Cell) : io string :=
  match c with CText s => Ok s | _ => Err decode_error end.
Definition get_bool (c : Cell) : io bool :=
  match c with CBool b => Ok b | _ => Err decode_error end.
Definition get_int (c : Cell) : io Z :=
  match c with CInt z => Ok z | _ => Err decode_error end.
Definition get_opt_text (c : Cell) : io (option string) :=
  match c with CNull => Ok None | CText s => Ok (Some s) | _ => Err decode_error end.
Definition get_opt_bytes (c : Cell) : io (option (list byte)) :=
  match c with CNull => Ok None | CBytes l => Ok (Some l) | _ => Err decode_error end.
Definition cell (i : nat) (row : list Cell) : Cell := default CNull (row !! i).

(** ** Planned statements *)
Record PreparedQuery := mkQuery { pq_sql : string; pq_parameters : list SqlParameter }.

Inductive CarrierReadbackExpected :=
| ExpectSqlNull (text : bool)
| ExpectLogicalValue (v : LogicalValue)
| ExpectSourceRepresentation (bytes : list byte).

Record CarrierReadbackCheck := mkReadback {
  rb_query : PreparedQuery;
  rb_column : string;
  rb_expected : CarrierReadbackExpected
}.

Record PlannedStatement := mkPlanned {
  ps_sql : string;
  ps_diagnostic_sql : string;
  ps_parameters : list SqlParameter;
  ps_probe : option PreparedQuery;
  ps_verification : option PreparedQuery;
  ps_carrier_readbacks : list CarrierReadbackCheck
}.

Record SqlTransaction := mkSqlTransaction {
  sq_source_uuid : string;
  sq_source_transaction_id : string;
  sq_commit_cursor : SourceCursor;
  sq_target_version : string;
  sq_tables : list (string * string);
  sq_statements : list PlannedStatement
}.

Record SnapshotSql := mkSnapshotSql {
  ss_statements : list string;
  ss_parameters : list (list SqlParameter)
}.

(** ** Identifier quoting *)
Definition QUOTE : byte := "034".
Definition double_quote (c : byte) : list byte :=
  if bool_decide (c = QUOTE) then [QUOTE; QUOTE] else [c].
Definition quote_identifier (identifier : string) : string :=
  String QUOTE (of_bytes (concat (double_quote <$> sbytes identifier))) +:+ String QUOTE "".
Definition qualified_table (schema table : string) : string :=
  quote_identifier schema +:+ String "." (quote_identifier table).

Definition RELATION_QUERY : string :=
  "SELECT c.relkind::text AS relkind, c.relpersistence::text AS relpersistence, c.relrowsecurity, c.relforcerowsecurity FROM pg_class c JOIN pg_namespace n ON n.oid=c.relnamespace WHERE n.nspname=$1 AND c.relname=$2".
Definition TRIGGER_QUERY : string :=
  "SELECT count(*) FROM pg_trigger t JOIN pg_class c ON c.oid=t.tgrelid JOIN pg_namespace n ON n.oid=c.relnamespace WHERE n.nspname=$1 AND c.relname=$2 AND NOT t.tgisinternal AND t.tgenabled <> 'D'".
Definition FOREIGN_KEY_QUERY : string :=
  "SELECT count(*) FROM pg_constraint con JOIN pg_class c ON c.oid=con.conrelid JOIN pg_namespace n ON n.oid=c.relnamespace WHERE con.contype='f' AND n.nspname=$1 AND c.relname=$2".

(** ** Execution *)
Section execution.
Context {D : Type} `{Server : PgServer D} `{B64 : Base64, SHA : Sha256}.
(** [serde_json::from_str::<LogicalValue>] and
    [serde_json::from_slice::<SourceRepresentationEnvelope>]. *)
Context (json_logical_value : string → option LogicalValue)
        (json_envelope : list byte → option SourceRepresentationEnvelope).

(** [fetch_one] of a scalar. *)
Definition fetch_scalar (sql : string) (ps : list SqlParameter) (d : D) : io Cell :=
  let? rows := sqlx_io (pg_fetch sql ps d) in
  match rows with
  | row :: _ => Ok (cell 0 row)
  | [] => Err (other_cause (Sqlx (SqlxDriver "RowNotFound")))
  end.

Definition check_table (d : D) (table : string * string) : io D :=
  let '(schema, name) := table in
  if eq_ignore_case schema "cdc" then Err capability_failure else
  let? locked :=
    sqlx_io (pg_execute ("LOCK TABLE " +:+ qualified_table schema name
                         +:+ " IN ROW EXCLUSIVE MODE") [] d) in
  let d := locked.1 in
  let? rows := sqlx_io (pg_fetch RELATION_QUERY [PText schema; PText name] d) in
  match rows with
  | [] => Err capability_failure
  | relation :: _ =>
      let? relkind := get_text (cell 0 relation) in
      let? relpersistence := get_text (cell 1 relation) in
      let? row_security := get_bool (cell 2 relation) in
      let? force_row_security := get_bool (cell 3 relation) in
      if negb (bool_decide (relkind = "r"%string)) || negb (bool_decide (relpersistence = "p"%string))
      then Err capability_failure else
      if row_security || force_row_security then Err capability_failure else
      let? count := fetch_scalar TRIGGER_QUERY [PText schema; PText name] d in
      let? trigger_count := get_int count in
      if negb (trigger_count =? 0) then Err capability_failure else Ok d
  end.

Fixpoint check_tables (d : D) (tables : list (string * string)) : io D :=
  match tables with
  | [] => Ok d
  | t :: tables' => let? d' := check_table d t in check_tables d' tables'
  end.

Definition readback_matches (expected : CarrierReadbackExpected) (row : list Cell) : io bool :=
  match expected with
  | ExpectSqlNull true =>
      let? actual := get_opt_text (cell 0 row) in Ok (bool_decide (actual = None))
  | ExpectSqlNull false =>
      let? actual := get_opt_bytes (cell 0 row) in Ok (bool_decide (actual = None))
  | ExpectLogicalValue expected =>
      let? actual := get_opt_text (cell 0 row) in
      Ok (bool_decide ((actual ≫= json_logical_value) = Some expected))
  | ExpectSourceRepresentation expected =>
      let? actual := get_opt_bytes (cell 0 row) in
      Ok (match actual with
          | Some bytes =>
              match json_envelope bytes with
              | Some envelope =>
                  is_ok (envelope_validate envelope) && bool_decide (bytes = expected)
              | None => false
              end
          | None => false
          end)
  end.

Definition verify_carrier_readback (d : D) (check : CarrierReadbackCheck) : io () :=
  let? rows := sqlx_io (pg_fetch (pq_sql (rb_query check)) (pq_parameters (rb_query check)) d) in
  match rows with
  | [row] =>
      let? matches := readback_matches (rb_expected check) row in
      ensure matches capability_failure
  | _ => Err capability_failure
  end.

(** Exactly one row, or an error. *)
Definition expect_one_row (query : option PreparedQuery) (e : IoError) (d : D) : io () :=
  match query with
  | None => Ok ()
  | Some q =>
      let? rows := sqlx_io (pg_fetch (pq_sql q) (pq_parameters q) d) in
      if Z.of_nat (length rows) =? 1 then Ok () else Err e
  end.

Definition execute_statement (d : D) (statement : PlannedStatement) : io D :=
  expect_one_row (ps_probe statement)
    (other "row locator matched another number of rows; transaction rolled back") d ;?
  (let? r := sqlx_io (pg_execute (ps_sql statement) (ps_parameters statement) d) in
   if negb (r.2 =? 1)
   then Err (other "unexpected affected row count; transaction rolled back") else
   expect_one_row (ps_verification statement)
     (other "generated-column observation disagrees with target; transaction rolled back") r.1 ;?
   each (verify_carrier_readback r.1) (ps_carrier_readbacks statement) ;?
   Ok r.1).

Fixpoint execute_all (d : D) (statements : list PlannedStatement) : io D :=
  match statements with
  | [] => Ok d
  | s :: statements' => let? d' := execute_statement d s in execute_all d' statements'
  end.

Definition execute_statements (plan : SqlTransaction) (d : D) : io D :=
  let? d := check_tables d (sq_tables plan) in
  execute_all d (sq_statements plan).

Fixpoint execute_inserts (d : D) (l : list (string * list SqlParameter)) : io D :=
  match l with
  | [] => Ok d
  | (sql, ps) :: l' =>
      let? r := sqlx_io (pg_execute sql ps d) in
      if negb (r.2 =? 1)
      then Err (other "snapshot INSERT affected an unexpected number of rows; rolling back")
      else execute_inserts r.1 l'
  end.
(** [plan.statements.iter().zip(&plan.parameters)] *)
Definition execute_snapshot (plan : SnapshotSql) (d : D) : io D :=
  execute_inserts d (zip (ss_statements plan) (ss_parameters plan)).

Definition check_empty_target (lock : bool) (d : D) (table : SnapshotTable) : io D :=
  let? rows :=
    sqlx_io (pg_fetch ("SELECT 1 FROM " +:+ qualified_table (st_schema table) (st_table table)
                       +:+ " LIMIT 1" +:+ (if lock then " FOR UPDATE" else "")) [] d) in
  match rows with
  | _ :: _ => Err (other "target table must be empty")
  | [] =>
      let? count :=
        fetch_scalar FOREIGN_KEY_QUERY [PText (st_schema table); PText (st_table table)] d in
      let? foreign_keys := get_int count in
      if negb (foreign_keys =? 0) then Err capability_failure else Ok d
  end.

Fixpoint check_empty_targets (lock : bool) (d : D) (tables : list SnapshotTable) : io D :=
  match tables with
  | [] => Ok d
  | t :: tables' => let? d' := check_empty_target lock d t in check_empty_targets lock d' tables'
  end.

Definition snapshot_targets (tables : list SnapshotTable) (lock : bool) (d : D) : io D :=
  if bool_decide (tables = []) then Err capability_failure else
  let? d := check_tables d ((λ t, (st_schema t, st_table t)) <$> tables) in
  check_empty_targets lock d tables.

(** *** What a successful execution implies *)

(** The states between the statements of a plan: each one is the result of
    executing the statement alone, affecting exactly one row. *)
Inductive ran : D → list PlannedStatement → D → Prop :=
| ran_nil d : ran d [] d
| ran_cons d s d' l d'' :
    pg_execute (ps_sql s) (ps_parameters s) d = Ok (d', 1) →
    (∀ q, ps_probe s = Some q → ∃ row, pg_fetch (pq_sql q) (pq_parameters q) d = Ok [row]) →
    (∀ q, ps_verification s = Some q → ∃ row, pg_fetch (pq_sql q) (pq_parameters q) d' = Ok [row]) →
    Forall (λ c, verify_carrier_readback d' c = Ok ()) (ps_carrier_readbacks s) →
    ran d' l d'' →
    ran d (s :: l) d''.

Lemma sqlx_io_ok {A} (m : result SqlxError A) a : sqlx_io m = Ok a ↔ m = Ok a.
Proof. apply map_err_ok. Qed.

Lemma expect_one_row_ok query e d :
  expect_one_row query e d = Ok ()
  ↔ ∀ q, query = Some q → ∃ row, pg_fetch (pq_sql q) (pq_parameters q) d = Ok [row].
Proof.
  unfold expect_one_row. destruct query as [q|]; [|naive_solver].
  rewrite bind_ok. setoid_rewrite sqlx_io_ok. split.
  - intros (rows & Hr & Hl) q' [= <-]. case_match eqn:E; [|done]. apply Z.eqb_eq in E.
    destruct rows as [|row [|? ?]]; cbn in E; [lia|eauto|lia].
  - intros H. destruct (H q eq_refl) as [row Hr]. eauto.
Qed.

Lemma execute_statement_ok d s d' :
  execute_statement d s = Ok d'
  ↔ pg_execute (ps_sql s) (ps_parameters s) d = Ok (d', 1)
    ∧ (∀ q, ps_probe s = Some q → ∃ row, pg_fetch (pq_sql q) (pq_parameters q) d = Ok [row])
    ∧ (∀ q, ps_verification s = Some q → ∃ row, pg_fetch (pq_sql q) (pq_parameters q) d' = Ok [row])
    ∧ Forall (λ c, verify_carrier_readback d' c = Ok ()) (ps_carrier_readbacks s).
Proof.
  unfold execute_statement. rewrite seq_ok, expect_one_row_ok. split.
  - intros [Hp H]. apply bind_ok in H as ([d1 n] & He%sqlx_io_ok & H). cbn in H.
    destruct (n =? 1) eqn:E; cbn in H; [|done]. apply Z.eqb_eq in E as ->.
    rewrite !seq_ok, expect_one_row_ok, each_ok in H. naive_solver.
  - intros (He & Hp & Hv & Hc). split; [done|]. rewrite He. cbn.
    by rewrite !seq_ok, expect_one_row_ok, each_ok.
Qed.

Lemma execute_all_ok d l d' : execute_all d l = Ok d' ↔ ran d l d'.
Proof.
  revert d. induction l as [|s l IH]; intros d; cbn.
  - split; [intros [= <-]; constructor|by inversion 1].
  - rewrite bind_ok. setoid_rewrite execute_statement_ok. setoid_rewrite IH. split.
    + intros (d1 & (? & ? & ? & ?) & ?). by econstructor.
    + inversion 1; subst. eauto 10.
Qed.

Lemma check_tables_names tables d d' :
  check_tables d tables = Ok d' → Forall (λ t, eq_ignore_case t.1 "cdc" = false) tables.
Proof.
  revert d. induction tables as [|[s t] tables IH]; intros d; cbn; [by constructor|].
  intros (d1 & H & H')%bind_ok. constructor; [|by eapply IH]. cbn.
  unfold check_table in H. by destruct (eq_ignore_case s "cdc").
Qed.

(** Executing a plan succeeds only if every statement was located by its
    probe, changed exactly one row, produced the observed generated values and
    reads its carriers back unchanged, in the plan's order; and no table of the
    plan lies in the schema that holds the replication checkpoint. *)
Theorem execute_statements_exact (plan : SqlTransaction) (d d' : D) :
  execute_statements plan d = Ok d' →
  (∃ d0, check_tables d (sq_tables plan) = Ok d0 ∧ ran d0 (sq_statements plan) d')
  ∧ Forall (λ t, eq_ignore_case t.1 "cdc" = false) (sq_tables plan).
Proof.
  intros (d0 & Hc & H)%bind_ok. split; [|by eapply check_tables_names].
  exists d0. split; [done|]. by apply execute_all_ok.
Qed.
End execution.

(** ** A server for examples: rows as a list of executed statements *)
Module ListServer.
(** The statements executed so far. *)
Definition db : Type := list (string * list SqlParameter).
Definition is_lock (sql : string) : bool :=
  match strip_prefix "LOCK" sql with Some _ => true | None => false end.
#[export] Instance server : PgServer db := {
  pg_fetch sql _ _ :=
    if bool_decide (sql = RELATION_QUERY) then Ok [[CText "r"; CText "p"; CBool false; CBool false]]
    else if bool_decide (sql = TRIGGER_QUERY) then Ok [[CInt 0]]
    else if bool_decide (sql = FOREIGN_KEY_QUERY) then Ok [[CInt 0]]
    else if bool_decide (sql = "probe"%string) then Ok [[CInt 1]] else Ok [];
  pg_execute sql ps d := if is_lock sql then Ok (d, 0) else Ok (d ++ [(sql, ps)], 1)
}.

Definition insert_row (id : Z) : PlannedStatement :=
  mkPlanned "INSERT INTO t VALUES ($1)" "" [PInteger id] None None [].
Definition update_row (id : Z) : PlannedStatement :=
  mkPlanned "UPDATE t SET v=v WHERE id=$1" "" [PInteger id] (Some (mkQuery "probe" [PInteger id]))
    None [].
Definition example_plan (id : string) (cursor : SourceCursor) : SqlTransaction :=
  mkSqlTransaction "src" id cursor "15" [("public", "t")]%string [insert_row 1; update_row 1].
End ListServer.

Definition no_logical_value (_ : string) : option LogicalValue := None.
Definition no_envelope (_ : list byte) : option SourceRepresentationEnvelope := None.

Lemma execute_statements_exact_witness :
  let plan := ListServer.example_plan "tx" (mkCursor "f" "v" "d") in
  let d' := [("INSERT INTO t VALUES ($1)", [PInteger 1]);
             ("UPDATE t SET v=v WHERE id=$1", [PInteger 1])]%string in
  (∃ d0, check_tables (Server := ListServer.server) [] (sq_tables plan) = Ok d0
     ∧ ran (Server := ListServer.server) (B64 := Rfc4648.base64) (SHA := SumDigest.sha256)
         no_logical_value no_envelope d0 (sq_statements plan) d')
  ∧ Forall (λ t, eq_ignore_case t.1 "cdc" = false) (sq_tables plan).
Proof. apply execute_statements_exact. vm_compute. done. Defined.
