(* ===== verification/PgRender.v ===== *)
(** * Rendering values for PostgreSQL ([crates/postgresql_15/src/sql.rs])

    How a logical value becomes a bound parameter ([parameter_for]), the
    expression around its placeholder ([parameter_expression]), the text of
    nested values ([structured_text]) and the literal of the diagnostic script
    ([render_logical_value]).  The decimal form of floats and the calendar form
    of instants are the standard library's and [chrono]'s: [PgText]. *)
From S2P Require Import Prelude Text Utf8 Codec Model Representation Outcome Validate Plan Floats Convert JsonText Target.

Class PgText := {
  #[global] pg_float_text :: FloatText;
  (** [DateTime::from_timestamp(seconds, nanoseconds)]: the text of
      ["%Y-%m-%d %H:%M:%S"] and [timestamp_subsec_micros()]. *)
  chrono_utc : Z → Z → option (string * Z)
}.

(** ** Formatting *)
(** [format!("{value:0width$}")] of a value that is not negative. *)
Definition padded (width : nat) (value : Z) : string :=
  let digits := show_nat value in
  of_bytes (replicate (width - String.length digits) "048"%char) +:+ digits.

Definition hex_digit (d : Z) : byte := byte_of (if d <? 10 then 48 + d else 55 + d).
Definition hex (bytes : list byte) : string :=
  of_bytes (concat ((λ b, [hex_digit (bval b / 16); hex_digit (bval b mod 16)]) <$> bytes)).

Definition SINGLE : byte := "039"%char.
Definition BACKSLASH : byte := "092"%char.
Definition double_single (c : byte) : list byte := if bool_decide (c = SINGLE) then [SINGLE; SINGLE] else [c].
Definition quote_literal (value : string) : string :=
  String SINGLE (of_bytes (concat (double_single <$> sbytes value))) +:+ String SINGLE "".

(** [value.replace('\\', "\\\\").replace('"', "\\\"")] *)
Definition escape_byte (c : byte) : list byte :=
  if bool_decide (c = BACKSLASH) then [BACKSLASH; BACKSLASH]
  else if bool_decide (c = QUOTE) then [BACKSLASH; QUOTE] else [c].
Definition escaped (value : string) : string := of_bytes (concat (escape_byte <$> sbytes value)).
Definition quoted_item (value : string) : string :=
  String QUOTE (escaped value) +:+ String QUOTE "".

Definition clock_text (hour minute second microsecond : Z) : string :=
  padded 2 hour +:+ ":" +:+ padded 2 minute +:+ ":" +:+ padded 2 second +:+ "." +:+ padded 6 microsecond.

Definition postgres_date (year month day : Z) : string :=
  if year <=? 0 then padded 4 (1 - year) +:+ "-" +:+ padded 2 month +:+ "-" +:+ padded 2 day +:+ " BC"
  else padded 4 year +:+ "-" +:+ padded 2 month +:+ "-" +:+ padded 2 day.


(** ** Scalars *)
Definition parse_hex_bits (value : string) (width : Z) : io Z :=
  if negb (slen value =? width) || negb (all_bytes is_ascii_hexdigit value) then refuse
  else supported (parse_hex_u64 value).

Definition bit_at (order : BitOrder) (bytes : list byte) (position : nat) : bool :=
  let byte := bval (nth (position / 8) bytes NUL) in
  negb (Z.land byte (bit_mask order position) =? 0).

(** Every index of the loop is in range by the test before it. *)
Definition bit_string_text (bytes : list byte) (bit_length : Z) (order : BitOrder) : io string :=
  if (bit_length =? 0) || (Z.of_nat (length bytes) * 8 <? bit_length) then refuse
  else Ok (of_bytes ((λ i, if bit_at order bytes i then "049"%char else "048"%char)
                     <$> seq 0 (Z.to_nat bit_length))).

Definition zeros (n : Z) : string := of_bytes (replicate (Z.to_nat n) ZERO).

Definition render_decimal (unscaled : string) (scale : Z) : io string :=
  if special_name unscaled then if scale =? 0 then Ok unscaled else refuse else
  let digits := strip_sign unscaled in
  if sempty digits || negb (all_bytes is_ascii_digit digits) then refuse
  else if 16383 <? scale then refuse
  else if scale <? 0 then
    if 131072 <? slen digits - scale then refuse
    else Ok (minus unscaled +:+ digits +:+ zeros (- scale))
  else if 131072 <? sat_sub (slen digits) scale then refuse
  else
    let magnitude :=
      if scale =? 0 then digits
      else if scale <? slen digits then
        let split := (String.length digits - Z.to_nat scale)%nat in
        of_bytes (take split (sbytes digits)) +:+ "." +:+ of_bytes (drop split (sbytes digits))
      else "0." +:+ zeros (scale - slen digits) +:+ digits in
    Ok (minus unscaled +:+ magnitude).

Section values.
Context `{B64 : Base64, SHA : Sha256, JP : JsonPrinter, PT : PgText}.

Definition render_float_text (value : string) : string :=
  if bool_decide (value = "NaN"%string) then quote_literal "NaN"
  else if bool_decide (value = "inf"%string) then quote_literal "Infinity"
  else if bool_decide (value = "-inf"%string) then quote_literal "-Infinity"
  else value.

Definition render_float (bits : Z) (hexadecimal : string) : io string :=
  if bits =? 32 then
    let? raw := supported (parse_unsigned 16 u32_max hexadecimal) in
    Ok (if raw =? 2 ^ 31 then "-0.0"%string else render_float_text (display_float 32 raw))
  else if bits =? 64 then
    let? raw := supported (parse_hex_u64 hexadecimal) in
    Ok (if raw =? 2 ^ 63 then "-0.0"%string else render_float_text (display_float 64 raw))
  else refuse.

Definition starts_with_byte (c : byte) (value : string) : bool := is_some (strip_byte c value).

Fixpoint render_json (value : JsonValue) : io string :=
  match value with
  | JNull => Ok "null"%string
  | JBoolean b => Ok (if b then "true" else "false")%string
  | JString s => Ok (json_string s)
  | JSignedInteger v | JUnsignedInteger v => Ok v
  | JDoubleBits v =>
      let? rendered := render_float 64 v in
      if starts_with_byte SINGLE rendered then refuse else Ok rendered
  | JDecimal unscaled scale => if scale <=? i32_max then render_decimal unscaled scale else refuse
  | JArray values =>
      let? rendered := mapM render_json values in
      Ok ("[" +:+ join "," rendered +:+ "]")
  | JObject entries =>
      let? rendered := mapM (λ e, let? value := render_json (je_value e) in
                                  Ok (json_string (je_key e) +:+ ":" +:+ value)) entries in
      Ok ("{" +:+ join "," rendered +:+ "}")
  end.

Definition utf8_charset (charset : string) : bool :=
  bool_decide (to_lower charset ∈ ["utf8"; "utf8mb4"]%string).
Definition decode_bytes (value : string) : io (list byte) := supported (b64_decode value).

(** ** Nested values *)
(** An element of an array literal: nested arrays and NULL are not quoted. *)
Definition array_item (value : string) : string :=
  if starts_with_byte "{"%char value || bool_decide (value = "NULL"%string) then value
  else quoted_item value.
Definition braces (items : list string) : string := "{" +:+ join "," items +:+ "}".
Definition array_literal (values : list string) : string := braces (array_item <$> values).

Definition composite_item (value : string) : string :=
  if sempty value || bool_decide (value = "NULL"%string) then String QUOTE (String QUOTE "")
  else quoted_item value.

(** [array_literal_with_shape]: [rest] are the elements from [element_index] on;
    an element's text is asked for only when it is reached. *)
Fixpoint array_literal_with_shape (lengths : list Z) (rest : list (io string)) :
    io (string * list (io string)) :=
  match lengths with
  | [] =>
      match rest with
      | [] => refuse
      | element :: rest => let? value := element in Ok (array_item value, rest)
      end
  | length :: lengths =>
      let? r := (fix children (n : nat) (rest : list (io string)) : io (list string * list (io string)) :=
         match n with
         | O => Ok ([], rest)
         | S n =>
             let? c := array_literal_with_shape lengths rest in
             let? cs := children n c.2 in
             Ok (c.1 :: cs.1, cs.2)
         end) (Z.to_nat length) rest in
      Ok (braces r.1, r.2)
  end.

Definition array_bound (bound : Z * Z) : io string :=
  let '(lower, length) := bound in
  if negb (length <=? i32_max) then refuse else
  let upper := lower + (length - 1) in
  if in_range i32_min i32_max upper then Ok ("[" +:+ show_int lower +:+ ":" +:+ show_int upper +:+ "]")
  else refuse.

Definition shaped_array (elements : list (io string)) (dimensions : Z)
    (lower_bounds dimension_lengths : list Z) : io string :=
  if dimensions =? 0 then
    match elements, lower_bounds, dimension_lengths with
    | [], [], [] => Ok "{}"%string
    | _, _, _ => refuse
    end
  else if negb (dimensions =? Z.of_nat (length lower_bounds))
          || negb (dimensions =? Z.of_nat (length dimension_lengths)) then refuse else
  let? r := array_literal_with_shape dimension_lengths elements in
  match r.2 with
  | [] =>
      let? bounds := mapM array_bound (zip lower_bounds dimension_lengths) in
      Ok (join "" bounds +:+ "=" +:+ r.1)
  | _ => refuse
  end.

Definition optional (o : option (io string)) : io string := default (Ok ""%string) o.

(** [value_input].  [structured_text] calls it on every kind it does not list
    and is called by it on the kinds it lists, on the same value: the two
    functions agree everywhere and are one fixpoint here. *)
Fixpoint value_input (value : LogicalValue) : io string :=
  match value with
  | VNull => Ok "NULL"%string
  | VBoolean b => Ok (if b then "true" else "false")%string
  | VUuid s | VEnum s | VNetwork _ s _ => Ok s
  | VInteger _ _ s => Ok s
  | VDecimal unscaled scale => render_decimal unscaled scale
  | VFloat bits hexadecimal => render_float bits hexadecimal
  | VText charset b _ =>
      if negb (utf8_charset charset) then refuse else
      let? bytes := decode_bytes b in supported (from_utf8 bytes)
  | VBinary b => let? bytes := decode_bytes b in Ok (hex bytes)
  | VBitString b len _ order => let? bytes := decode_bytes b in bit_string_text bytes len order
  | VDate y m d => Ok (postgres_date y m d)
  | VLocalTime h m s us => Ok (clock_text h m s us)
  | VLocalDatetime y mo d h m s us => Ok (postgres_date y mo d +:+ " " +:+ clock_text h m s us)
  | VSet members => Ok (array_literal members)
  | VArray elements => let? values := mapM value_input elements in Ok (array_literal values)
  | VArrayWithMetadata elements dimensions lower_bounds dimension_lengths =>
      shaped_array (value_input <$> elements) dimensions lower_bounds dimension_lengths
  | VStruct fields =>
      let? items := mapM (λ f, let? v := value_input (sf_value f) in Ok (composite_item v)) fields in
      Ok ("(" +:+ join "," items +:+ ")")
  | VRange empty lower upper lower_inclusive upper_inclusive =>
      if empty then Ok "empty"%string else
      let? l := optional (value_input <$> lower) in
      let? u := optional (value_input <$> upper) in
      Ok ((if lower_inclusive then "[" else "(") +:+ l +:+ "," +:+ u +:+ (if upper_inclusive then "]" else ")"))
  | VMultiRange ranges => let? texts := mapM value_input ranges in Ok (braces texts)
  | VXml b _ => let? bytes := decode_bytes b in supported (from_utf8 bytes)
  | VDomain value => value_input value
  | VJson value => render_json value
  | VRaw carrier => let? bytes := map_err (λ _, capability_failure) (carrier_raw_bytes carrier) in Ok (hex bytes)
  | VSpatial _ b _ _ _ _ => let? bytes := decode_bytes b in Ok (hex bytes)
  | VYear value => Ok (show_int value)
  | VDuration _ _ _ _ _ | VOffsetTime _ _ _ _ _ | VCalendarInterval _ _ _ | VTemporalInfinity _ _
  | VInstant _ _ | VMap _ | VInvalidTemporal _ _ => refuse
  end.
Definition structured_text (value : LogicalValue) : io string := value_input value.

(** ** Bound parameters *)
Inductive PostgisKind := Geometry | Geography.
#[export] Instance PostgisKind_eq_dec : EqDecision PostgisKind.
Proof. solve_decision. Defined.

Definition postgis_name (name : string) : option PostgisKind :=
  if bool_decide (name = "geometry"%string) then Some Geometry
  else if bool_decide (name = "geography"%string) then Some Geography else None.

Definition postgis_native_kind (native_type : string) : option PostgisKind :=
  let bytes := sbytes (trim native_type) in
  let '(quoted, type_end, last_dot) := scan_type bytes 0 false None in
  if quoted then None else
  let start := match last_dot with Some i => S i | None => 0%nat end in
  let name := trim (of_bytes (drop start (take type_end bytes))) in
  match strip_quotes name with
  | Some name => postgis_name name
  | None => if contains_byte QUOTE name then None else postgis_name (to_lower name)
  end.

Definition instant_text (unix_seconds : string) (nanoseconds : Z) : io string :=
  if negb (nanoseconds mod 1000 =? 0) then refuse else
  let? seconds := supported (parse_i64 unix_seconds) in
  let? timestamp := supported (chrono_utc seconds nanoseconds) in
  Ok (timestamp.1 +:+ "." +:+ padded 6 timestamp.2 +:+ "+00").

Definition parameter_for (value : LogicalValue) (native_type : string) : io SqlParameter :=
  match value with
  | VBoolean b => Ok (PBoolean b)
  | VUuid s => Ok (PUuid s)
  | VInteger signed _ v =>
      if signed then let? z := supported (parse_i64 v) in Ok (PInteger z)
      else let? z := supported (parse_u64 v) in
           Ok (if z <=? i64_max then PInteger z else PNumeric v)
  | VDecimal unscaled scale => let? s := render_decimal unscaled scale in Ok (PNumeric s)
  | VFloat bits hexadecimal =>
      if bits =? 32 then let? raw := parse_hex_bits hexadecimal 8 in Ok (PFloat32 (wrap_u 32 raw))
      else if bits =? 64 then let? raw := parse_hex_bits hexadecimal 16 in Ok (PFloat64 raw)
      else refuse
  | VText charset b _ =>
      if negb (utf8_charset charset) then refuse else
      let? bytes := decode_bytes b in
      let? text := supported (from_utf8 bytes) in Ok (PText text)
  | VBinary b => let? bytes := decode_bytes b in Ok (PBinary bytes)
  | VBitString b len _ order =>
      let? bytes := decode_bytes b in
      let? text := bit_string_text bytes len order in Ok (PText text)
  | VDate y m d => Ok (PDate (postgres_date y m d))
  | VLocalTime h m s us => Ok (PTime (clock_text h m s us))
  | VLocalDatetime y mo d h m s us =>
      Ok (PTimestamp (postgres_date y mo d +:+ " " +:+ clock_text h m s us))
  | VDuration negative h m s us =>
      Ok (PInterval ((if negative then "-" else "") +:+ show_nat h +:+ ":" +:+ padded 2 m
                     +:+ ":" +:+ padded 2 s +:+ "." +:+ padded 6 us))
  | VInstant seconds nanoseconds => let? s := instant_text seconds nanoseconds in Ok (PTimestamptz s)
  | VYear value => Ok (PInteger value)
  | VEnum label => Ok (PText label)
  | VSet members => Ok (PStructured (array_literal members))
  | VSpatial format b _ _ srid _ =>
      if is_none (postgis_native_kind native_type) then refuse else
      let? bytes := decode_bytes b in Ok (PSpatial bytes srid format)
  | VArray _ | VArrayWithMetadata _ _ _ _ | VStruct _ | VRange _ _ _ _ _ | VMultiRange _
  | VNetwork _ _ _ | VXml _ _ | VDomain _ =>
      let? s := structured_text value in Ok (PStructured s)
  | VRaw carrier =>
      let? bytes := map_err (λ _, capability_failure) (carrier_raw_bytes carrier) in Ok (PCustomBinary bytes)
  | VMap _ | VNull | VInvalidTemporal _ _ | VOffsetTime _ _ _ _ _ | VCalendarInterval _ _ _
  | VTemporalInfinity _ _ => refuse
  | VJson value => let? s := render_json value in Ok (PJson s)
  end.

(** [candidate.contains(needle)] *)
Fixpoint contains_text (needle value : string) : bool :=
  is_some (strip_prefix needle value)
  || match value with String _ rest => contains_text needle rest | EmptyString => false end.

Definition type_byte (c : byte) : bool :=
  is_ascii_alphanumeric c
  || bool_decide (c ∈ ["_"; "."; "$"; "["; "]"; "("; ")"; ","; " "]%char).

Definition safe_target_type (native_type fallback : string) : io string :=
  let candidate :=
    if sempty (trim native_type)
       || bool_decide (to_lower (trim native_type) ∈ ["user-defined"; "set"]%string)
    then fallback else trim native_type in
  if sempty candidate || contains_byte ";"%char candidate || contains_text "--" candidate
     || contains_text "/*" candidate || negb (all_bytes type_byte candidate)
  then refuse else Ok candidate.

Definition cast (placeholder type : string) : string := "CAST(" +:+ placeholder +:+ " AS " +:+ type +:+ ")".

Definition parameter_expression (index : Z) (parameter : SqlParameter) (native_type : string) : io string :=
  let placeholder := "$" +:+ show_nat index in
  match parameter with
  | PNumeric _ => Ok (cast placeholder "numeric")
  | PDate _ => Ok (cast placeholder "date")
  | PTime _ => Ok (cast placeholder "time")
  | PTimestamp _ => Ok (cast placeholder "timestamp")
  | PTimestamptz _ => Ok (cast placeholder "timestamptz")
  | PInterval _ => Ok (cast placeholder "interval")
  | PUuid _ => Ok (cast placeholder "uuid")
  | PJson _ => Ok (cast placeholder "jsonb")
  | PStructured _ => let? type := safe_target_type native_type "text" in Ok (cast placeholder type)
  | PCustomBinary _ => let? type := safe_target_type native_type "bytea" in Ok (cast placeholder type)
  | PSpatial _ srid format =>
      let? target := supported (postgis_native_kind native_type) in
      let? expression :=
        match format with
        | Ewkb => Ok ("ST_GeomFromEWKB(" +:+ placeholder +:+ ")")
        | Wkb => let? srid := supported srid in
                 Ok ("ST_GeomFromWKB(" +:+ placeholder +:+ ", " +:+ show_int srid +:+ ")")
        end in
      Ok (match target with Geography => expression +:+ "::geography" | Geometry => expression end)
  | PInteger _ | PFloat32 _ | PFloat64 _ | PBoolean _ | PText _ | PBinary _ => Ok placeholder
  end.

(** ** Literals of the diagnostic script *)
Definition decode_call (bytes : list byte) : string := "decode('" +:+ hex bytes +:+ "', 'hex')".

Definition render_logical_value (value : LogicalValue) : io string :=
  match value with
  | VBoolean b => Ok (if b then "TRUE" else "FALSE")%string
  | VUuid s => Ok ("UUID " +:+ quote_literal s)
  | VInteger _ _ s => Ok s
  | VDecimal unscaled scale => render_decimal unscaled scale
  | VFloat bits hexadecimal => render_float bits hexadecimal
  | VText charset b _ =>
      if eq_ignore_case charset "utf8" || eq_ignore_case charset "utf8mb4" then
        let? bytes := decode_bytes b in Ok ("convert_from(" +:+ decode_call bytes +:+ ", 'UTF8')")
      else refuse
  | VBinary b => let? bytes := decode_bytes b in Ok (decode_call bytes)
  | VBitString b len _ order =>
      let? bytes := decode_bytes b in
      let? text := bit_string_text bytes len order in Ok ("B'" +:+ text +:+ "'")
  | VDate y m d => Ok ("DATE '" +:+ postgres_date y m d +:+ "'")
  | VLocalTime h m s us => Ok ("TIME '" +:+ clock_text h m s us +:+ "'")
  | VLocalDatetime y mo d h m s us =>
      Ok ("TIMESTAMP '" +:+ postgres_date y mo d +:+ " " +:+ clock_text h m s us +:+ "'")
  | VDuration negative h m s us =>
      Ok ("(" +:+ (if negative then "-1 * " else "") +:+ "(" +:+ show_nat h +:+ " * INTERVAL '1 hour' + "
          +:+ show_nat m +:+ " * INTERVAL '1 minute' + " +:+ show_nat s +:+ " * INTERVAL '1 second' + "
          +:+ show_nat us +:+ " * INTERVAL '1 microsecond'))")
  | VInstant seconds nanoseconds =>
      if negb (nanoseconds mod 1000 =? 0) then refuse else
      Ok ("(TIMESTAMPTZ 'epoch' + " +:+ seconds +:+ " * INTERVAL '1 second' + "
          +:+ show_nat (nanoseconds / 1000) +:+ " * INTERVAL '1 microsecond')")
  | VYear value => Ok (show_int value)
  | VEnum label => Ok (quote_literal label)
  | VSet _ | VArray _ | VArrayWithMetadata _ _ _ _ | VStruct _ | VRange _ _ _ _ _ | VMultiRange _
  | VNetwork _ _ _ | VXml _ _ | VDomain _ =>
      let? s := structured_text value in Ok (quote_literal s)
  | VSpatial format b _ _ srid _ =>
      let? bytes := decode_bytes b in
      match format with
      | Ewkb => Ok ("ST_GeomFromEWKB(" +:+ decode_call bytes +:+ ")")
      | Wkb => let? srid := supported srid in
               Ok ("ST_GeomFromWKB(" +:+ decode_call bytes +:+ ", " +:+ show_int srid +:+ ")")
      end
  | VRaw carrier =>
      let? bytes := map_err (λ _, capability_failure) (carrier_raw_bytes carrier) in Ok (decode_call bytes)
  | VMap _ | VNull | VInvalidTemporal _ _ | VOffsetTime _ _ _ _ _ | VCalendarInterval _ _ _
  | VTemporalInfinity _ _ => refuse
  | VJson value => let? s := render_json value in Ok (quote_literal s +:+ "::jsonb")
  end.
End values.

(** ** What the texts say *)
Module Spec.
Import Plan.Spec.

(** *** Quoting *)

(** The lexical rule of SQL for quoted identifiers and literals: the text runs
    to the next quote that is not doubled. *)
Fixpoint read_quoted (q : byte) (l : list byte) : option (list byte * list byte) :=
  match l with
  | [] => None
  | c :: l' =>
      if bool_decide (c = q) then
        match l' with
        | d :: l'' => if bool_decide (d = q) then r ← read_quoted q l''; Some (q :: r.1, r.2)
                      else Some ([], l')
        | [] => Some ([], [])
        end
      else r ← read_quoted q l'; Some (c :: r.1, r.2)
  end.

Definition doubled (q c : byte) : list byte := if bool_decide (c = q) then [q; q] else [c].

Lemma read_doubled q s rest :
  hd_error rest ≠ Some q → read_quoted q (concat (doubled q <$> s) ++ q :: rest) = Some (s, rest).
Proof.
  intros Hr. induction s as [|c s IH]; cbn.
  - rewrite bool_decide_eq_true_2 by done. destruct rest as [|d rest]; [done|].
    rewrite bool_decide_eq_false_2; [done|]. intros ->. by apply Hr.
  - unfold doubled at 1. case_bool_decide as Hc; cbn; [subst c|].
    + rewrite !bool_decide_eq_true_2 by done. by rewrite IH.
    + rewrite bool_decide_eq_false_2 by done. by rewrite IH.
Qed.

Lemma quoted_bytes (q : byte) f s :
  sbytes (String q (of_bytes (concat (f <$> sbytes s))) +:+ String q "")
  = q :: concat (f <$> sbytes s) ++ [q].
Proof.
  rewrite sbytes_app. change (sbytes (String q ?t)) with (q :: sbytes t).
  cbn [app]. by rewrite sbytes_of.
Qed.

(** C22: No identifier and no literal can leave its quotes: whatever bytes the name
    or the value has, and whatever follows (short of another quote), the SQL
    lexer reads back exactly that name or value and then continues after it. *)
Theorem quoting_exact (identifier literal : string) (rest : list byte) :
  (hd_error rest ≠ Some QUOTE →
   ∃ body, sbytes (quote_identifier identifier) ++ rest = QUOTE :: body
           ∧ read_quoted QUOTE body = Some (sbytes identifier, rest))
  ∧ (hd_error rest ≠ Some SINGLE →
     ∃ body, sbytes (quote_literal literal) ++ rest = SINGLE :: body
             ∧ read_quoted SINGLE body = Some (sbytes literal, rest)).
Proof.
  split; intros Hr; eexists; (split;
    [unfold quote_identifier, quote_literal; rewrite quoted_bytes; cbn [app];
     rewrite <- (assoc_L (++)); reflexivity|]); by apply read_doubled.
Qed.

(** *** Hexadecimal *)
Definition unhex_digit (c : byte) : option Z := digit_val 16 c.
Fixpoint unhex (l : list byte) : option (list byte) :=
  match l with
  | [] => Some []
  | a :: b :: l' =>
      high ← unhex_digit a; low ← unhex_digit b; rest ← unhex l'; Some (byte_of (16 * high + low) :: rest)
  | _ => None
  end.

Lemma unhex_hex l : unhex (sbytes (hex l)) = Some l.
Proof.
  unfold hex. rewrite sbytes_of. induction l as [|b l IH]; [done|].
  assert (unhex_digit (hex_digit (bval b / 16)) = Some (bval b / 16)
          ∧ unhex_digit (hex_digit (bval b mod 16)) = Some (bval b mod 16)) as [H1 H2].
  { destruct b as [[] [] [] [] [] [] [] []]; split; reflexivity. }
  cbn [fmap list_fmap concat app unhex]. rewrite H1, H2. cbn [mbind option_bind]. rewrite IH. cbn.
  rewrite <- Z.div_mod by lia. by rewrite byte_of_bval.
Qed.

(** *** Bit strings *)
Lemma bit_string_exact bytes len order text :
  bit_string_text bytes len order = Ok text → 0 ≤ len →
  slen text = len
  ∧ ∀ i, (i < Z.to_nat len)%nat →
      sbytes text !! i = Some (if bit order bytes i then "049"%char else "048"%char).
Proof.
  unfold bit_string_text. destruct (_ || _) eqn:E; [done|]. intros [= <-] Hl.
  apply orb_false_iff in E as [E1 E2]. bool_simpl. rewrite slen_bytes, sbytes_of. split.
  - rewrite length_fmap, length_seq. lia.
  - intros i Hi. rewrite list_lookup_fmap, lookup_seq_lt by done. cbn. f_equal.
    unfold bit_at, bit. assert (i / 8 < length bytes)%nat as Hlt.
    { apply Nat.Div0.div_lt_upper_bound. lia. }
    destruct (lookup_lt_is_Some_2 bytes (i / 8)%nat Hlt) as [b Hb].
    by rewrite (nth_lookup_Some _ _ _ _ Hb), Hb, mask_test, negb_involutive.
Qed.

(** *** Decimals *)

(** The text is a sign, an integer part and as many fraction digits as the
    scale; read together they are the coefficient (times ten for every unit of
    a negative scale): the number denoted does not change. *)
Theorem decimal_exact unscaled scale text :
  render_decimal unscaled scale = Ok text → special_name unscaled = false →
  ∃ whole fraction,
    text = minus unscaled +:+ of_bytes whole
           +:+ (if scale <=? 0 then "" else "." +:+ of_bytes fraction)
    ∧ whole ≠ [] ∧ all_digits (whole ++ fraction)
    ∧ Z.of_nat (length fraction) = Z.max 0 scale
    ∧ value_of (whole ++ fraction)
      = value_of (sbytes (strip_sign unscaled)) * 10 ^ Z.max 0 (- scale).
Proof.
  unfold render_decimal. intros H Hs. rewrite Hs in H.
  destruct (sempty _ || _) eqn:Hc; [done|]. apply JsonText.Spec.digits_of_checks in Hc as [Hd Hne].
  set (digits := sbytes (strip_sign unscaled)) in *.
  assert (slen (strip_sign unscaled) = Z.of_nat (length digits)) as Hlen by apply slen_bytes.
  assert (digits ≠ []) as Hdn by (unfold digits; by destruct (strip_sign unscaled)).
  assert (strip_sign unscaled = of_bytes digits) as Ho by (symmetry; apply of_sbytes).
  destruct (16383 <? scale); [done|]. destruct (Z.ltb_spec scale 0) as [Hn|Hn].
  { destruct (131072 <? _); [done|]. injection H as <-.
    exists (digits ++ replicate (Z.to_nat (- scale)) ZERO), [].
    rewrite (proj2 (Z.leb_le scale 0)) by lia. rewrite app_nil_r, value_app, length_replicate, !Z2Nat.id by lia.
    rewrite (Z.max_l 0 scale), (Z.max_r 0 (- scale)) by lia. split_and!.
    - unfold zeros. rewrite Ho, JsonText.Spec.string_app_nil. f_equal. by rewrite of_bytes_app.
    - by destruct digits.
    - apply digits_app. split; [done|apply replicate_digits].
    - cbn. lia.
    - pose proof (value_zeros (Z.to_nat (- scale)) []) as Hz. rewrite app_nil_r in Hz. rewrite Hz. cbn. lia. }
  destruct (131072 <? _); [done|]. injection H as <-. rewrite (Z.max_l 0 (- scale)) by lia.
  rewrite Z.pow_0_r, Z.mul_1_r, (Z.max_r 0 scale) by lia. destruct (Z.eqb_spec scale 0) as [->|H0].
  { exists digits, []. rewrite app_nil_r. split_and!; try done.
    by rewrite Ho, JsonText.Spec.string_app_nil. }
  rewrite (proj2 (Z.leb_gt scale 0)), Hlen by lia. destruct (Z.ltb_spec scale (Z.of_nat (length digits))) as [Hs'|Hs'].
  - assert (String.length (strip_sign unscaled) = length digits) as -> by (unfold slen in Hlen; lia).
    exists (take (length digits - Z.to_nat scale) digits), (drop (length digits - Z.to_nat scale) digits).
    rewrite take_drop, length_drop. split_and!; try done; try lia.
    intros E. apply (f_equal length) in E. rewrite length_take in E. cbn in E. lia.
  - exists [ZERO], (replicate (Z.to_nat (scale - Z.of_nat (length digits))) ZERO ++ digits).
    rewrite length_app, length_replicate. split_and!; try done.
    + unfold zeros. rewrite Ho. f_equal. cbn. do 2 f_equal. by rewrite of_bytes_app.
    + cbn. constructor; [done|]. apply digits_app. split; [apply replicate_digits|done].
    + lia.
    + change ([ZERO] ++ ?l) with (replicate 1 ZERO ++ l). by rewrite !value_zeros.
Qed.

(** *** Array literals *)

(** PostgreSQL's reading of a one-dimensional array literal: items separated
    by commas between braces; a quoted item runs to the next bare quote, a
    backslash taking the next byte literally; an unquoted [NULL] is the null
    element. *)
Fixpoint read_escaped (l : list byte) : option (list byte * list byte) :=
  match l with
  | [] => None
  | c :: l' =>
      if bool_decide (c = QUOTE) then Some ([], l')
      else if bool_decide (c = BACKSLASH) then
        match l' with
        | d :: l'' => r ← read_escaped l''; Some (d :: r.1, r.2)
        | [] => None
        end
      else r ← read_escaped l'; Some (c :: r.1, r.2)
  end.

Fixpoint read_bare (l : list byte) : list byte * list byte :=
  match l with
  | c :: l' => if bool_decide (c ∈ [","; "}"]%char) then ([], l)
               else let r := read_bare l' in (c :: r.1, r.2)
  | [] => ([], [])
  end.

Definition read_item (l : list byte) : option (option string * list byte) :=
  match l with
  | c :: l' =>
      if bool_decide (c = QUOTE) then r ← read_escaped l'; Some (Some (of_bytes r.1), r.2)
      else let r := read_bare l in
           Some (if bool_decide (r.1 = sbytes "NULL") then None else Some (of_bytes r.1), r.2)
  | [] => None
  end.

Fixpoint read_items (fuel : nat) (l : list byte) : option (list (option string)) :=
  match fuel with
  | O => None
  | S fuel =>
      r ← read_item l;
      match r.2 with
      | [c] => if bool_decide (c = "}"%char) then Some [r.1] else None
      | c :: l' => if bool_decide (c = ","%char) then rest ← read_items fuel l'; Some (r.1 :: rest) else None
      | [] => None
      end
  end.

Definition read_array (s : string) : option (list (option string)) :=
  match sbytes s with
  | c :: l => if bool_decide (c = "{"%char) then read_items (length l) l else None
  | [] => None
  end.

Lemma read_escape s rest :
  read_escaped (concat (escape_byte <$> s) ++ QUOTE :: rest) = Some (s, rest).
Proof.
  induction s as [|c s IH]; cbn; [done|].
  unfold escape_byte at 1. case_bool_decide as H1; [subst c|case_bool_decide as H2; [subst c|]]; cbn.
  - by rewrite IH.
  - by rewrite IH.
  - rewrite !bool_decide_eq_false_2 by done. by rewrite IH.
Qed.

Lemma quoted_item_bytes v : sbytes (quoted_item v) = QUOTE :: concat (escape_byte <$> sbytes v) ++ [QUOTE].
Proof. apply quoted_bytes. Qed.

Definition as_element (v : string) : option string :=
  if bool_decide (v = "NULL"%string) then None else Some v.

Lemma read_array_item v rest :
  starts_with_byte "{"%char v = false → (∃ c l, rest = c :: l ∧ c ∈ [","; "}"]%char) →
  read_item (sbytes (array_item v) ++ rest) = Some (as_element v, rest).
Proof.
  intros Hb (c & l & -> & Hc). unfold array_item, as_element. rewrite Hb. cbn [orb].
  case_bool_decide as Hn.
  - subst v. cbn. repeat (apply elem_of_cons in Hc as [->|Hc]; [done|]). by apply elem_of_nil in Hc.
  - rewrite quoted_item_bytes. cbn [app read_item]. rewrite bool_decide_eq_true_2 by done.
    rewrite <- (assoc_L (++)). cbn [app]. rewrite read_escape. cbn. by rewrite of_sbytes.
Qed.

Lemma join_bytes a l : sbytes (join "," (a :: l)) = sbytes a ++ concat ((λ b, ","%char :: sbytes b) <$> l).
Proof.
  revert a. induction l as [|b l IH]; intros a; [cbn; by rewrite app_nil_r|].
  rewrite join_cons2, !sbytes_app, IH. done.
Qed.

Lemma array_item_nonempty v : starts_with_byte "{"%char v = false → sbytes (array_item v) ≠ [].
Proof.
  intros H. unfold array_item. rewrite H. cbn [orb]. case_bool_decide; [by subst|]. by rewrite quoted_item_bytes.
Qed.

Lemma read_joined v values fuel :
  Forall (λ v, starts_with_byte "{"%char v = false) (v :: values) →
  (length values < fuel)%nat →
  read_items fuel (sbytes (array_item v) ++ concat ((λ b, ","%char :: sbytes b) <$> (array_item <$> values)) ++ ["}"%char])
  = Some (as_element <$> v :: values).
Proof.
  revert v fuel. induction values as [|w values IH]; intros v fuel H Hf; apply Forall_cons in H as [Hv H];
    destruct fuel as [|fuel]; try (cbn in Hf; lia); cbn [read_items fmap list_fmap concat app].
  - rewrite read_array_item; [done|done|]. exists "}"%char, []. split; [done|set_solver].
  - rewrite read_array_item; [|done|eexists _, _; split; [reflexivity|set_solver]].
    cbn [mbind option_bind fst snd]. rewrite <- (assoc_L (++)).
    pose proof (array_item_nonempty w (Forall_inv H)) as Hne.
    rewrite IH; [|done|cbn in Hf; lia].
    destruct (sbytes (array_item w)); [done|]. cbn. done.
Qed.

(** An array literal denotes its elements: whatever commas, braces, quotes,
    backslashes or spaces they contain, PostgreSQL reads back the same texts in
    the same order, with one exception: an element whose text is the word NULL
    is read as the null element, whether it was null or that very text. *)
Theorem array_literal_exact (values : list string) :
  values ≠ [] → Forall (λ v, starts_with_byte "{"%char v = false) values →
  read_array (array_literal values) = Some (as_element <$> values).
Proof.
  destruct values as [|v values]; [done|]. intros _ H. unfold read_array, array_literal, braces.
  cbn [fmap list_fmap]. rewrite !sbytes_app, join_bytes.
  change (sbytes "{") with ["{"%char]. change (sbytes "}") with ["}"%char]. cbn [app].
  rewrite bool_decide_eq_true_2 by done. rewrite <- (assoc_L (++)). apply read_joined; [done|].
  pose proof (array_item_nonempty v (Forall_inv H)) as Hne.
  destruct (sbytes (array_item v)) as [|c l]; [done|]. rewrite !length_app. cbn.
  rewrite ?length_app. cbn.
  assert (length values ≤ length (concat ((λ b, ","%char :: sbytes b) <$> (array_item <$> values))))%nat; [|lia].
  clear. induction values as [|w values IH]; [done|]. cbn. rewrite length_app. cbn. lia.
Qed.
End Spec.

(** ** Collisions of nested values *)
Section collisions.
Context `{B64 : Base64, BL : !Base64Laws B64, SHA : Sha256, JP : JsonPrinter, PT : PgText}.
Definition utf8_text (s : string) : LogicalValue := VText "utf8" (b64_encode (sbytes s)) (Some s).

Lemma text_input s : rust_string s → value_input (utf8_text s) = Ok s.
Proof.
  intros Hs. cbn. unfold decode_bytes. rewrite b64_roundtrip. cbn.
  unfold supported. by rewrite (proj2 (from_utf8_some (sbytes s) s)) by (by rewrite of_sbytes).
Qed.

(** The text NULL inside an array is sent as the null element. *)
Theorem null_text_becomes_null :
  value_input (VArray [utf8_text "NULL"]) = value_input (VArray [VNull]).
Proof. cbn -[value_input utf8_text]. cbn [value_input mapM]. by rewrite (text_input "NULL"). Qed.

(** A null field of a composite is sent as the empty text. *)
Theorem null_field_becomes_empty :
  value_input (VStruct [mkField "f" VNull]) = value_input (VStruct [mkField "f" (utf8_text "")]).
Proof. cbn [value_input mapM sf_value]. by rewrite (text_input ""). Qed.

(** A binary element of an array is sent as bare hexadecimal digits, the same
    text as those digits as characters ([bytea] input without a leading
    backslash and [x] takes the characters themselves). *)
Theorem binary_element_is_its_digits :
  value_input (VArray [VBinary (b64_encode ["222"; "173"]%char)]) = value_input (VArray [utf8_text "DEAD"]).
Proof.
  cbn [value_input mapM]. rewrite (text_input "DEAD") by done. unfold decode_bytes. by rewrite b64_roundtrip.
Qed.
End collisions.

Lemma decimal_exact_witness :
  render_decimal "-1234" 2 = Ok "-12.34"%string
  ∧ ∃ whole fraction,
      "-12.34"%string = minus "-1234" +:+ of_bytes whole +:+ (if 2 <=? 0 then "" else "." +:+ of_bytes fraction)
      ∧ whole ≠ [] ∧ Spec.all_digits (whole ++ fraction)
      ∧ Z.of_nat (length fraction) = Z.max 0 2
      ∧ Plan.Spec.value_of (whole ++ fraction)
        = Plan.Spec.value_of (sbytes (strip_sign "-1234")) * 10 ^ Z.max 0 (- 2).
Proof.
  split; [vm_compute; reflexivity|]. apply (Spec.decimal_exact "-1234" 2); vm_compute; reflexivity.
Defined.

Lemma array_literal_exact_witness :
  Spec.read_array (array_literal ["a,b"; "null"; ""; "c d"]%string)
  = Some (Spec.as_element <$> ["a,b"; "null"; ""; "c d"]%string).
Proof. apply Spec.array_literal_exact; [discriminate|repeat constructor]. Defined.
