(* ===== verification/PgSql.v ===== *)
(** * Planning SQL for PostgreSQL ([crates/postgresql_15/src/sql.rs])

    From a validated transaction and its saved plans to the parameterised
    statements that Target.v executes: the checks of the plans, the rendering
    of each row change with its locator probe, the observation of generated
    columns, and the read-back of carrier columns.  [sql_with_plans_for_version]
    is the planner that the sink of PgSink.v takes as a parameter. *)
From S2P Require Import Prelude Text Codec Model Representation Outcome Validate Plan JsonText Convert RowSql Target PgRender.

(** ** Helpers *)
Record RenderedDatum := mkRendered { rd_sql : string; rd_diagnostic_sql : string }.
Definition null_datum : RenderedDatum := mkRendered "NULL" "NULL".

Definition column_list (columns : list ColumnDatum) : string :=
  join ", " ((λ c, quote_identifier (col_name c)) <$> columns).

Definition column_plan (schema table : string) (column : ColumnDatum)
    (plans : option (list ColumnConversionPlan)) : option ColumnConversionPlan :=
  plans ← plans; find_plan plans (lineage schema table (col_name column)).

Section planner.
Context `{B64 : Base64, SHA : Sha256, JP : JsonPrinter, PS : PlanSerde, PT : PgText}.
Context (input_json : PlanDigestInput → list byte).

(** ** One datum *)
Definition push_parameter (parameters : list SqlParameter) (parameter : SqlParameter)
    (target_type diagnostic_sql : string) : io (RenderedDatum * list SqlParameter) :=
  let parameters := parameters ++ [parameter] in
  let? sql := parameter_expression (Z.of_nat (length parameters)) parameter target_type in
  Ok (mkRendered sql diagnostic_sql, parameters).

Definition envelope_diagnostic (envelope : SourceRepresentationEnvelope) : string :=
  "decode('', 'hex') /* Source Representation Envelope omitted: "
  +:+ show_nat (env_payload_length envelope) +:+ " payload bytes, sha256="
  +:+ env_payload_sha256 envelope +:+ " */".
Definition carrier_diagnostic : string :=
  String SINGLE (String QUOTE "<tagged LogicalValue carrier>" +:+ String QUOTE (String SINGLE "")).

Definition datum_with_plan (parameters : list SqlParameter) (column : ColumnDatum)
    (plan : option ColumnConversionPlan) : io (RenderedDatum * list SqlParameter) :=
  match col_datum column, plan, carrier_kind (conversion_kind plan) with
  | Value value, Some plan, Some LogicalCarrier =>
      check_value plan value ;?
      (let? json := supported (ps_value_json value) in
       push_parameter parameters (PText (of_bytes json)) (tr_native_type (pl_target plan)) carrier_diagnostic)
  | EnvelopeDatum envelope, Some plan, Some SourceCarrier =>
      check_envelope plan envelope ;?
      (let? bytes := supported (ps_envelope_json envelope) in
       push_parameter parameters (PBinary bytes) (tr_native_type (pl_target plan)) (envelope_diagnostic envelope))
  | DNull, _, _ => Ok (null_datum, parameters)
  | Unchanged, _, _ | Unavailable, _, _ => refuse
  | EnvelopeDatum _, _, _ => refuse
  | Value value, _, _ =>
      let target_type :=
        match plan with Some plan => tr_native_type (pl_target plan) | None => col_native_type column end in
      let? parameter := parameter_for value target_type in
      let? diagnostic_sql := render_logical_value value in
      push_parameter parameters parameter target_type diagnostic_sql
  end.

(** Rendering several data into the same builder, in order. *)
Fixpoint data_with_plan (parameters : list SqlParameter)
    (columns : list (ColumnDatum * option ColumnConversionPlan)) :
    io (list RenderedDatum * list SqlParameter) :=
  match columns with
  | [] => Ok ([], parameters)
  | (column, plan) :: columns =>
      let? r := datum_with_plan parameters column plan in
      let? rs := data_with_plan r.2 columns in
      Ok (r.1 :: rs.1, rs.2)
  end.

(** ** Row changes *)
Section change.
Context (change : RowChange) (plans : option (list ColumnConversionPlan)).
Notation schema := (chg_schema change).
Notation table := (chg_table change).
Definition table_name : string := qualified_table schema table.
Definition with_plans (columns : list ColumnDatum) : list (ColumnDatum * option ColumnConversionPlan) :=
  (λ c, (c, column_plan schema table c plans)) <$> columns.

(** One conjunct of the locator per key column, in key order. *)
Definition key_predicate (parameters : list SqlParameter) (column : ColumnDatum) :
    io (RenderedDatum * list SqlParameter) :=
  let name := quote_identifier (col_name column) in
  match col_datum column with
  | DNull => Ok (mkRendered (name +:+ " IS NULL") (name +:+ " IS NULL"), parameters)
  | Unavailable | Unchanged => refuse
  | Value _ =>
      let? r := datum_with_plan parameters column (column_plan schema table column plans) in
      Ok (mkRendered (name +:+ " = " +:+ rd_sql r.1) (name +:+ " = " +:+ rd_diagnostic_sql r.1), r.2)
  | EnvelopeDatum _ => refuse
  end.

Fixpoint key_conjuncts (parameters : list SqlParameter) (keys : list ColumnDatum) :
    io (list RenderedDatum * list SqlParameter) :=
  match keys with
  | [] => Ok ([], parameters)
  | column :: keys =>
      let? r := key_predicate parameters column in
      let? rs := key_conjuncts r.2 keys in
      Ok (r.1 :: rs.1, rs.2)
  end.

Definition key_predicates (parameters : list SqlParameter) (row : list ColumnDatum) :
    io (string * string * list SqlParameter) :=
  let keys := key_columns row in
  if lempty keys then refuse else
  let? r := key_conjuncts parameters keys in
  Ok (join " AND " (rd_sql <$> r.1), join " AND " (rd_diagnostic_sql <$> r.1), r.2).

Record RenderedStatement := mkStatement { rs_sql : string; rs_diagnostic_sql : string; rs_parameters : list SqlParameter }.

Definition insert_text (columns : list ColumnDatum) (values : list string) : string :=
  "INSERT INTO " +:+ table_name +:+ " (" +:+ column_list columns +:+ ") VALUES (" +:+ join ", " values +:+ ");".

Definition render_insert : io RenderedStatement :=
  let? after := supported (chg_after change) in
  let columns := writable_columns after in
  if lempty columns then refuse else
  let? r := data_with_plan [] (with_plans columns) in
  Ok (mkStatement (insert_text columns (rd_sql <$> r.1)) (insert_text columns (rd_diagnostic_sql <$> r.1)) r.2).

Definition assignments (columns : list ColumnDatum) (values : list string) : string :=
  join ", " (zip_with (λ c v, quote_identifier (col_name c) +:+ " = " +:+ v) columns values).
Definition update_text (columns : list ColumnDatum) (values : list string) (predicates : string) : string :=
  "UPDATE " +:+ table_name +:+ " SET " +:+ assignments columns values +:+ " WHERE " +:+ predicates +:+ ";".

Definition render_update : io RenderedStatement :=
  let? before := supported (chg_before change) in
  let? after := supported (chg_after change) in
  let columns := writable_columns after in
  if lempty columns then refuse else
  let? r := data_with_plan [] (with_plans columns) in
  let? k := key_predicates r.2 before in
  Ok (mkStatement (update_text columns (rd_sql <$> r.1) k.1.1)
        (update_text columns (rd_diagnostic_sql <$> r.1) k.1.2) k.2).

Definition render_delete : io RenderedStatement :=
  let? before := supported (chg_before change) in
  let? k := key_predicates [] before in
  Ok (mkStatement ("DELETE FROM " +:+ table_name +:+ " WHERE " +:+ k.1.1 +:+ ";")
        ("DELETE FROM " +:+ table_name +:+ " WHERE " +:+ k.1.2 +:+ ";") k.2).

Definition render_change : io RenderedStatement :=
  match chg_operation change with
  | Insert => render_insert
  | Update => render_update
  | Delete => render_delete
  end.

Definition probe_text (selected predicates : string) : string :=
  "SELECT " +:+ selected +:+ " FROM " +:+ table_name +:+ " WHERE " +:+ predicates +:+ " LIMIT 2 FOR UPDATE".

Definition render_probe : io (option PreparedQuery) :=
  match chg_operation change with
  | Insert => Ok None
  | _ =>
      let? before := supported (chg_before change) in
      let? k := key_predicates [] before in
      Ok (Some (mkQuery (probe_text "1" k.1.1) k.2))
  end.

(** The observation of one generated column. *)
Definition generated_predicate (parameters : list SqlParameter) (column : ColumnDatum) :
    io (string * list SqlParameter) :=
  let name := quote_identifier (col_name column) in
  match col_datum column with
  | DNull => Ok (name +:+ " IS NULL", parameters)
  | Value _ =>
      let? r := datum_with_plan parameters column (column_plan schema table column plans) in
      Ok (name +:+ " IS NOT DISTINCT FROM " +:+ rd_sql r.1, r.2)
  | Unavailable | Unchanged | EnvelopeDatum _ => refuse
  end.

Fixpoint generated_conjuncts (parameters : list SqlParameter) (columns : list ColumnDatum) :
    io (list string * list SqlParameter) :=
  match columns with
  | [] => Ok ([], parameters)
  | column :: columns =>
      let? r := generated_predicate parameters column in
      let? rs := generated_conjuncts r.2 columns in
      Ok (r.1 :: rs.1, rs.2)
  end.

Definition render_verification : io (option PreparedQuery) :=
  match chg_operation change with
  | Delete => Ok None
  | _ =>
      let? after := supported (chg_after change) in
      let generated := filter (λ c, col_generated c = true) after in
      if lempty generated then Ok None else
      let? k := key_predicates [] after in
      let? g := generated_conjuncts k.2 generated in
      Ok (Some (mkQuery (probe_text "1" (join " AND " (k.1.1 :: g.1))) g.2))
  end.
End change.

(** ** Carrier read-back *)
Section readback.
Context (change : RowChange) (plans : list ColumnConversionPlan).

Definition readback_expected (plan : ColumnConversionPlan) (datum : Datum) :
    io (option CarrierReadbackExpected) :=
  match datum, carrier_kind (conversion_kind (Some plan)) with
  | Value value, Some LogicalCarrier => check_value plan value ;? Ok (Some (ExpectLogicalValue value))
  | EnvelopeDatum envelope, Some SourceCarrier =>
      check_envelope plan envelope ;?
      (let? bytes := supported (ps_envelope_json envelope) in Ok (Some (ExpectSourceRepresentation bytes)))
  | DNull, Some LogicalCarrier => Ok (Some (ExpectSqlNull true))
  | DNull, Some SourceCarrier => Ok (Some (ExpectSqlNull false))
  | _, _ => Ok None
  end.

Definition selected_text (column : ColumnDatum) (expected : CarrierReadbackExpected) : string :=
  match expected with
  | ExpectLogicalValue _ | ExpectSqlNull true => quote_identifier (col_name column) +:+ "::text"
  | _ => quote_identifier (col_name column)
  end.

Definition column_readback (locator : list ColumnDatum) (column : ColumnDatum) :
    io (option CarrierReadbackCheck) :=
  match column_plan (chg_schema change) (chg_table change) column (Some plans) with
  | None => Ok None
  | Some plan =>
      let? expected := readback_expected plan (col_datum column) in
      match expected with
      | None => Ok None
      | Some expected =>
          let? k := key_predicates change (Some plans) [] locator in
          Ok (Some (mkReadback (mkQuery (probe_text change (selected_text column expected) k.1.1) k.2)
                      (col_name column) expected))
      end
  end.

Definition render_carrier_readbacks : io (list CarrierReadbackCheck) :=
  match chg_operation change with
  | Delete => Ok []
  | _ =>
      let? after := supported (chg_after change) in
      let? locator := mapM (resolve_key change) (filter (λ c, is_key c = true) after) in
      if lempty locator then refuse else
      let locator := sort_by key_order col_primary_key_ordinal locator in
      let? readbacks := mapM (column_readback locator) (filter (λ c, col_generated c = false) after) in
      Ok (omap id readbacks)
  end.
End readback.

(** ** What the sink supports *)
Definition ensure_supported_column (change : RowChange) (plans : list ColumnConversionPlan)
    (column : ColumnDatum) : io () :=
  if col_generated column && is_absent (col_datum column) then refuse else
  let plan := column_plan (chg_schema change) (chg_table change) column (Some plans) in
  match col_datum column, plan, carrier_kind (conversion_kind plan) with
  | Value value, Some plan, Some LogicalCarrier => check_value plan value
  | EnvelopeDatum envelope, Some plan, Some SourceCarrier => check_envelope plan envelope
  | DNull, _, _ | Unchanged, _, _ | Unavailable, _, _ => Ok ()
  | EnvelopeDatum _, _, _ => refuse
  | Value value, _, _ =>
      let target_type :=
        match plan with Some plan => tr_native_type (pl_target plan) | None => col_native_type column end in
      (let? _ := map_err (λ _, capability_failure) (parameter_for value target_type) in Ok ())
  end.

Definition ensure_supported_image_with_plans (change : RowChange) (plans : list ColumnConversionPlan)
    (image : list ColumnDatum) : io () :=
  if lempty image || negb (existsb is_key image) then refuse
  else each (ensure_supported_column change plans) image.

Definition each_image (change : RowChange) (check : list ColumnDatum → io ()) : io () :=
  (let? identity := supported (match chg_after change with Some r => Some r | None => chg_before change end) in
   check identity) ;?
  match chg_before change with Some before => check before | None => Ok () end ;?
  match chg_after change with Some after => check after | None => Ok () end.

Definition ensure_supported_change_with_plans (change : RowChange) (plans : list ColumnConversionPlan) : io () :=
  each_image change (ensure_supported_image_with_plans change plans).

Definition ensure_supported_image (image : list ColumnDatum) : io () :=
  if lempty image || negb (existsb is_key image) then refuse else
  each (λ column,
          if col_generated column && is_absent (col_datum column) then refuse else
          match col_datum column with
          | Value value =>
              let? _ := map_err (λ _, capability_failure) (parameter_for value (col_native_type column)) in
              Ok ()
          | _ => Ok ()
          end) image.

Definition ensure_supported_change (change : RowChange) : io () :=
  each_image change ensure_supported_image.

(** ** The plans *)
Definition is_covered (change : RowChange) (plans : list ColumnConversionPlan) (column : ColumnDatum) : bool :=
  existsb (λ plan, bool_decide (df_lineage_id (pl_source_field plan)
                                = lineage (chg_schema change) (chg_table change) (col_name column))) plans.

Definition validate_plan_coverage (validated : ValidatedTransaction) (plans : list ColumnConversionPlan) : io () :=
  each (λ change,
    each (λ column, if is_covered change plans column then Ok ()
                    else capability_code "plan_missing_for_column")
      (filter (λ c, col_generated c = false) (change_columns change)))
    (tx_changes (vt_transaction validated)).

(** The qualified physical representation of a carrier. *)
Definition carrier_storage (kind : CarrierKind) : string * string :=
  match kind with
  | LogicalCarrier => ("text", "postgresql_text_tagged_json")
  | SourceCarrier => ("bytea", "postgresql_bytea")
  end%string.

Definition validate_carrier_plan (plan : ColumnConversionPlan) (kind : CarrierKind) : io () :=
  let '(native_type, storage) := carrier_storage kind in
  if negb (eq_ignore_case (tr_native_type (pl_target plan)) native_type)
     || negb (equals (target_parameter plan "target_storage") storage)
  then capability_code "carrier_representation_mismatch" else
  match target_parameter plan "target_capacity_bytes" ≫= parse_usize with
  | Some capacity =>
      if 0 <? capacity then
        if 1073741823 <? capacity then capability_code "carrier_capacity_exceeds_postgresql_limit"
        else match pl_locator_impact plan with
             | Preserved | Blocked => capability_code "carrier_key_forbidden"
             | _ => Ok ()
             end
      else capability_code "carrier_capacity_missing"
  | None => capability_code "carrier_capacity_missing"
  end.

(** One turn of the loop: [expected] is the build of the plans before. *)
Definition validate_plan_header (target_version : string) (expected : option ServerBuildIdentity)
    (plan : ColumnConversionPlan) : io (option ServerBuildIdentity) :=
  if negb (verify_digest input_json plan) then capability_code "plan_digest_invalid"
  else if negb (bool_decide (pl_sink_connector plan = mkConnector "postgresql" target_version))
  then capability_code "sink_connector_mismatch" else
  match pl_target_build plan with
  | None => capability_code "target_build_missing"
  | Some build =>
      if negb (bool_decide (bld_product build = "postgresql"%string))
         || negb (starts_with target_version (bld_version build))
      then capability_code "target_build_mismatch"
      else if match expected with Some e => negb (bool_decide (e = build)) | None => false end
      then capability_code "target_build_mismatch"
      else if bool_decide (pl_qualification plan = Unsupported) then capability_code "unsupported_plan"
      else match pl_confirmation plan with
           | ConfirmationRequired => capability_code "confirmation_required"
           | _ =>
               match carrier_kind (conversion_kind (Some plan)) with
               | Some kind => validate_carrier_plan plan kind
               | None => Ok ()
               end ;?
               Ok (Some (default build expected))
           end
  end.

Fixpoint validate_plan_headers_from (target_version : string) (expected : option ServerBuildIdentity)
    (plans : list ColumnConversionPlan) : io () :=
  match plans with
  | [] => Ok ()
  | plan :: plans =>
      let? expected := validate_plan_header target_version expected plan in
      validate_plan_headers_from target_version expected plans
  end.

Definition validate_plan_headers (plans : list ColumnConversionPlan) (target_version : string) : io () :=
  if lempty plans then capability_code "plans_missing"
  else validate_plan_headers_from target_version None plans.

(** ** Transactions *)
Definition sql_transaction (target_version : string) (t : ChangeTransaction)
    (statements : list PlannedStatement) : SqlTransaction :=
  mkSqlTransaction (src_id (tx_source t)) (tx_id t) (tx_commit_cursor t) target_version
    (table_set ((λ c, (chg_schema c, chg_table c)) <$> tx_changes t)) statements.

Definition planned_statement (change : RowChange) (plans : list ColumnConversionPlan) : io PlannedStatement :=
  ensure_supported_change_with_plans change plans ;?
  if eq_ignore_case (chg_schema change) "cdc" then refuse else
  let? rendered := render_change change (Some plans) in
  let? probe := render_probe change (Some plans) in
  let? verification := render_verification change (Some plans) in
  let? carrier_readbacks := render_carrier_readbacks change plans in
  Ok (mkPlanned (rs_sql rendered) (rs_diagnostic_sql rendered) (rs_parameters rendered)
        probe verification carrier_readbacks).

Definition planned_sql_for_version (target_version : string) (validated : ValidatedTransaction)
    (plans : list ColumnConversionPlan) : io SqlTransaction :=
  let transaction := vt_transaction validated in
  let? statements := mapM (λ change, planned_statement change plans) (tx_changes transaction) in
  Ok (sql_transaction target_version transaction statements).

(** The conversion's panic is unreachable ([Convert.Spec.convert_transaction_exact]). *)
Definition sql_with_plans_for_version (target_version : string) (validated : ValidatedTransaction)
    (plans : list ColumnConversionPlan) : io SqlTransaction :=
  validate_plan_headers plans target_version ;?
  validate_plan_coverage validated plans ;?
  (let? converted :=
     match convert_transaction_with_plans (vt_transaction validated) plans with
     | Some m => planned_io m
     | None => refuse
     end in
   let? converted := map_err (λ _, other "invalid transaction") (validate converted) in
   planned_sql_for_version target_version converted plans).

Definition plain_statement (change : RowChange) : io PlannedStatement :=
  ensure_supported_change change ;?
  if eq_ignore_case (chg_schema change) "cdc" then refuse else
  let? rendered := render_change change None in
  let? probe := render_probe change None in
  let? verification := render_verification change None in
  Ok (mkPlanned (rs_sql rendered) (rs_diagnostic_sql rendered) (rs_parameters rendered)
        probe verification []).

Definition sql_for_version (target_version : string) (validated : ValidatedTransaction) : io SqlTransaction :=
  let transaction := vt_transaction validated in
  let? statements := mapM plain_statement (tx_changes transaction) in
  Ok (sql_transaction target_version transaction statements).
End planner.
