(* ===== verification/PgSqlSpec.v ===== *)
(** * What planned SQL is

    The theorems on PgSql.v: a rendered statement addresses exactly the row its
    change names and binds exactly its values, the transaction that reaches the
    sink keeps its identity and position and never touches the control schema,
    and only plans that match the target are applied. *)
From S2P Require Import Prelude Text Codec Model Representation Outcome Validate Plan LogicalTypes Floats JsonText Convert RowSql Target PgRender PgSql.

(** ** Rendering without a builder *)

(** What a datum binds, independently of its position: nothing, or a parameter,
    the type its expression names and the diagnostic text. *)
Definition binding := option (SqlParameter * string * string).

Section bindings.
Context `{B64 : Base64, SHA : Sha256, JP : JsonPrinter, PS : PlanSerde, PT : PgText}.

Definition datum_binding (column : ColumnDatum) (plan : option ColumnConversionPlan) : io binding :=
  match col_datum column, plan, carrier_kind (conversion_kind plan) with
  | Value value, Some plan, Some LogicalCarrier =>
      check_value plan value ;?
      (let? json := supported (ps_value_json value) in
       Ok (Some (PText (of_bytes json), tr_native_type (pl_target plan), carrier_diagnostic)))
  | EnvelopeDatum envelope, Some plan, Some SourceCarrier =>
      check_envelope plan envelope ;?
      (let? bytes := supported (ps_envelope_json envelope) in
       Ok (Some (PBinary bytes, tr_native_type (pl_target plan), envelope_diagnostic envelope)))
  | DNull, _, _ => Ok None
  | Unchanged, _, _ | Unavailable, _, _ | EnvelopeDatum _, _, _ => refuse
  | Value value, _, _ =>
      let target_type :=
        match plan with Some plan => tr_native_type (pl_target plan) | None => col_native_type column end in
      let? parameter := parameter_for value target_type in
      let? diagnostic_sql := render_logical_value value in
      Ok (Some (parameter, target_type, diagnostic_sql))
  end.

(** The texts of a list of bindings after [used] parameters: the placeholder of
    a bound datum is the number of parameters bound so far, itself included. *)
Fixpoint numbered (used : nat) (bs : list binding) : io (list RenderedDatum) :=
  match bs with
  | [] => Ok []
  | None :: bs => let? rs := numbered used bs in Ok (null_datum :: rs)
  | Some (parameter, type, diagnostic) :: bs =>
      let? sql := parameter_expression (Z.of_nat (S used)) parameter type in
      let? rs := numbered (S used) bs in
      Ok (mkRendered sql diagnostic :: rs)
  end.
Definition parameters_of (bs : list binding) : list SqlParameter := omap (fmap (λ b, b.1.1)) bs.

(** The builder's step for a binding. *)
Definition push (ps : list SqlParameter) (b : binding) : io (RenderedDatum * list SqlParameter) :=
  match b with
  | None => Ok (null_datum, ps)
  | Some (parameter, type, diagnostic) => push_parameter ps parameter type diagnostic
  end.

Lemma datum_with_plan_push ps column plan :
  datum_with_plan ps column plan = (let? b := datum_binding column plan in push ps b).
Proof.
  unfold datum_with_plan, datum_binding.
  assert (∀ ty v, (let? p := parameter_for v ty in
             let? d := render_logical_value v in push_parameter ps p ty d)
           = (let? b := (let? p := parameter_for v ty in
             let? d := render_logical_value v in Ok (Some (p, ty, d))) in push ps b)) as Hval.
  { intros ty v. destruct (parameter_for v ty); [|done]. cbn. by destruct (render_logical_value v). }
  destruct (col_datum column); try done.
  - destruct plan as [plan|]; [|apply Hval]. destruct (carrier_kind _) as [[]|]; try apply Hval.
    destruct (check_value plan v) as [[]|]; [|done]. cbn. by destruct (supported _).
  - destruct plan as [plan|]; [|done]. destruct (carrier_kind _) as [[]|]; try done.
    destruct (check_envelope plan e) as [[]|]; [|done]. cbn. by destruct (supported _).
Qed.

Lemma push_ok ps b r ps' :
  push ps b = Ok (r, ps') ↔ numbered (length ps) [b] = Ok [r] ∧ ps' = ps ++ parameters_of [b].
Proof.
  destruct b as [[[p ty] d]|]; cbn.
  - unfold push_parameter. rewrite length_app, Nat.add_1_r, !bind_ok. split.
    + intros (sql & -> & [= <- <-]). eauto.
    + intros [(sql & -> & [= <-]) ->]. eauto.
  - rewrite app_nil_r. split; [by intros [= <- <-]|by intros [[= <-] ->]].
Qed.

Lemma datum_with_plan_spec ps column plan r ps' :
  datum_with_plan ps column plan = Ok (r, ps') ↔
  ∃ b, datum_binding column plan = Ok b ∧ numbered (length ps) [b] = Ok [r]
       ∧ ps' = ps ++ parameters_of [b].
Proof. rewrite datum_with_plan_push, bind_ok. setoid_rewrite push_ok. done. Qed.

Lemma parameters_cons b bs : parameters_of (b :: bs) = parameters_of [b] ++ parameters_of bs.
Proof. by destruct b as [[[p ty] d]|]. Qed.

Lemma numbered_cons used b bs rs :
  numbered used (b :: bs) = Ok rs ↔
  ∃ r rs', rs = r :: rs' ∧ numbered used [b] = Ok [r]
           ∧ numbered (used + length (parameters_of [b])) bs = Ok rs'.
Proof.
  destruct b as [[[p ty] d]|]; cbn; rewrite ?Nat.add_1_r, ?Nat.add_0_r.
  - setoid_rewrite bind_ok. setoid_rewrite bind_ok. split.
    + intros (s & -> & rs' & -> & [= <-]). eexists _, _. eauto.
    + intros (r & rs' & -> & (s & -> & [= <-]) & ->). eauto.
  - rewrite bind_ok. split.
    + intros (rs' & -> & [= <-]). eauto 10.
    + intros (r & rs' & -> & [= <-] & ->). eauto.
Qed.

Lemma data_with_plan_spec ps columns rs ps' :
  data_with_plan ps columns = Ok (rs, ps') ↔
  ∃ bs, mapM (λ c, datum_binding c.1 c.2) columns = Ok bs ∧ numbered (length ps) bs = Ok rs
        ∧ ps' = ps ++ parameters_of bs.
Proof.
  revert ps rs ps'. induction columns as [|[c p] columns IH]; intros ps rs ps'; cbn [data_with_plan mapM].
  { split; [intros [= <- <-]; exists []; cbn; by rewrite app_nil_r|].
    intros (bs & [= <-] & [= <-] & ->). cbn. by rewrite app_nil_r. }
  rewrite bind_ok. setoid_rewrite bind_ok. setoid_rewrite bind_ok. cbn [fst snd].
  split.
  - intros ([r ps1] & (b & Hb & Hr & ->)%datum_with_plan_spec & [rs2 ps2] & (bs & Hbs & Hrs & ->)%IH & [= <- <-]).
    exists (b :: bs). split; [eauto 10|]. cbn [fst snd] in Hrs |- *. rewrite length_app in Hrs. split.
    + apply numbered_cons. eauto.
    + rewrite (parameters_cons b bs). by rewrite (assoc_L (++)).
  - intros (bs' & (b & Hb & bs & Hbs & [= <-]) & Hn & ->).
    apply numbered_cons in Hn as (r & rs' & -> & Hr & Hrs).
    exists (r, ps ++ parameters_of [b]). split; [apply datum_with_plan_spec; eauto|].
    exists (rs', (ps ++ parameters_of [b]) ++ parameters_of bs). cbn [fst snd]. split.
    + apply IH. exists bs. by rewrite length_app.
    + rewrite (parameters_cons b bs). by rewrite (assoc_L (++)).
Qed.

(** ** Row locators *)

(** A key column binds its value, or nothing when it is NULL. *)
Definition key_binding (change : RowChange) (plans : option (list ColumnConversionPlan))
    (column : ColumnDatum) : io binding :=
  match col_datum column with
  | DNull => Ok None
  | Value _ => datum_binding column (column_plan (chg_schema change) (chg_table change) column plans)
  | _ => refuse
  end.

Definition conjunct (text : RenderedDatum → string) (column : ColumnDatum) (d : RenderedDatum) : string :=
  match col_datum column with
  | DNull => quote_identifier (col_name column) +:+ " IS NULL"
  | _ => quote_identifier (col_name column) +:+ " = " +:+ text d
  end.
Definition locator (text : RenderedDatum → string) (keys : list ColumnDatum) (ds : list RenderedDatum) : string :=
  join " AND " (zip_with (conjunct text) keys ds).

Lemma key_predicate_spec change plans ps c r ps' :
  key_predicate change plans ps c = Ok (r, ps') ↔
  ∃ b d, key_binding change plans c = Ok b ∧ numbered (length ps) [b] = Ok [d]
         ∧ r = mkRendered (conjunct rd_sql c d) (conjunct rd_diagnostic_sql c d)
         ∧ ps' = ps ++ parameters_of [b].
Proof.
  unfold key_predicate, key_binding, conjunct. destruct (col_datum c); try (split; [done|by intros (? & ? & ? & _)]).
  - split.
    + intros [= <- <-]. exists None, null_datum. cbn. by rewrite app_nil_r.
    + intros (b & d & [= <-] & [= <-] & -> & ->). cbn. by rewrite app_nil_r.
  - rewrite bind_ok. split.
    + intros ([d ps1] & (b & Hb & Hn & ->)%datum_with_plan_spec & [= <- <-]). eauto 10.
    + intros (b & d & Hb & Hn & -> & ->). exists (d, ps ++ parameters_of [b]).
      split; [apply datum_with_plan_spec; eauto|done].
Qed.

Lemma key_conjuncts_spec change plans ps keys rs ps' :
  key_conjuncts change plans ps keys = Ok (rs, ps') ↔
  ∃ bs ds, mapM (key_binding change plans) keys = Ok bs ∧ numbered (length ps) bs = Ok ds
    ∧ rs = zip_with (λ c d, mkRendered (conjunct rd_sql c d) (conjunct rd_diagnostic_sql c d)) keys ds
    ∧ ps' = ps ++ parameters_of bs.
Proof.
  revert ps rs ps'. induction keys as [|c keys IH]; intros ps rs ps'; cbn [key_conjuncts mapM].
  { split; [intros [= <- <-]; exists [], []; cbn; by rewrite app_nil_r|].
    intros (bs & ds & [= <-] & [= <-] & -> & ->). cbn. by rewrite app_nil_r. }
  rewrite bind_ok. setoid_rewrite bind_ok. setoid_rewrite bind_ok. split.
  - intros ([r ps1] & (b & d & Hb & Hd & -> & ->)%key_predicate_spec & [rs2 ps2]
            & (bs & ds & Hbs & Hds & -> & ->)%IH & [= <- <-]).
    cbn [fst snd] in *. rewrite length_app in Hds. exists (b :: bs), (d :: ds).
    split_and!; [eauto 10|apply numbered_cons; eauto|done|].
    rewrite (parameters_cons b bs). by rewrite (assoc_L (++)).
  - intros (bs' & ds' & (b & Hb & bs & Hbs & [= <-]) & Hn & -> & ->).
    apply numbered_cons in Hn as (d & ds & -> & Hd & Hds).
    eexists (_, ps ++ parameters_of [b]). split; [apply key_predicate_spec; eauto 10|].
    eexists (_, (ps ++ parameters_of [b]) ++ parameters_of bs). cbn [fst snd]. split.
    + apply IH. exists bs, ds. split_and!; [done|by rewrite length_app|reflexivity|done].
    + rewrite (parameters_cons b bs). by rewrite (assoc_L (++)).
Qed.

Lemma zip_with_fmap_r {A B C D} (f : A → B → C) (g : C → D) l k :
  g <$> zip_with f l k = zip_with (λ a b, g (f a b)) l k.
Proof. revert k. induction l as [|a l IH]; intros [|b k]; cbn; [done..|]. by rewrite IH. Qed.

Lemma key_predicates_spec change plans ps row k :
  key_predicates change plans ps row = Ok k ↔
  key_columns row ≠ [] ∧ ∃ bs ds,
    mapM (key_binding change plans) (key_columns row) = Ok bs ∧ numbered (length ps) bs = Ok ds
    ∧ k = (locator rd_sql (key_columns row) ds, locator rd_diagnostic_sql (key_columns row) ds,
           ps ++ parameters_of bs).
Proof.
  unfold key_predicates, locator. destruct (key_columns row) as [|c keys]; [cbn; by split; [|intros []]|].
  generalize (c :: keys). clear c keys. intros keys.
  assert (lempty keys = true ∨ lempty keys = false) as [E|E] by (by destruct keys; auto); rewrite E.
  { destruct keys; [|done]. split; [done|by intros []]. }
  assert (keys ≠ []) as Hne by by destruct keys.
  rewrite bind_ok. split.
  - intros ([rs ps'] & (bs & ds & Hb & Hd & -> & ->)%key_conjuncts_spec & [= <-]).
    split; [done|]. exists bs, ds. by rewrite !zip_with_fmap_r.
  - intros [_ (bs & ds & Hb & Hd & ->)]. eexists (_, _). split; [apply key_conjuncts_spec; eauto 10|].
    cbn. by rewrite !zip_with_fmap_r.
Qed.
End bindings.

(** ** The theorems *)
Module Spec.
Section spec.
Context `{B64 : Base64, SHA : Sha256, JP : JsonPrinter, PS : PlanSerde, PT : PgText}.

(** What the columns of a change bind, in order. *)
Definition bindings (change : RowChange) (plans : option (list ColumnConversionPlan))
    (columns : list ColumnDatum) : io (list binding) :=
  mapM (λ c, datum_binding c.1 c.2) (with_plans change plans columns).
Definition key_bindings (change : RowChange) (plans : option (list ColumnConversionPlan))
    (row : list ColumnDatum) : io (list binding) :=
  mapM (key_binding change plans) (key_columns row).

(** The statement of a change, written as one statement and its parameters:
    the SET or VALUES parameters first, the locator's after them, numbered in
    that order. *)
Inductive statement_of (change : RowChange) (plans : option (list ColumnConversionPlan)) :
    RenderedStatement → Prop :=
| insert_statement after bs ds :
    chg_operation change = Insert → chg_after change = Some after →
    writable_columns after ≠ [] →
    bindings change plans (writable_columns after) = Ok bs → numbered 0 bs = Ok ds →
    statement_of change plans
      (mkStatement (insert_text change (writable_columns after) (rd_sql <$> ds))
         (insert_text change (writable_columns after) (rd_diagnostic_sql <$> ds)) (parameters_of bs))
| update_statement before after bs ks ds es :
    chg_operation change = Update → chg_before change = Some before → chg_after change = Some after →
    writable_columns after ≠ [] → key_columns before ≠ [] →
    bindings change plans (writable_columns after) = Ok bs → key_bindings change plans before = Ok ks →
    numbered 0 bs = Ok ds → numbered (length (parameters_of bs)) ks = Ok es →
    statement_of change plans
      (mkStatement (update_text change (writable_columns after) (rd_sql <$> ds) (locator rd_sql (key_columns before) es))
         (update_text change (writable_columns after) (rd_diagnostic_sql <$> ds)
            (locator rd_diagnostic_sql (key_columns before) es))
         (parameters_of bs ++ parameters_of ks))
| delete_statement before ks es :
    chg_operation change = Delete → chg_before change = Some before → key_columns before ≠ [] →
    key_bindings change plans before = Ok ks → numbered 0 ks = Ok es →
    statement_of change plans
      (mkStatement ("DELETE FROM " +:+ table_name change +:+ " WHERE " +:+ locator rd_sql (key_columns before) es +:+ ";")
         ("DELETE FROM " +:+ table_name change +:+ " WHERE " +:+ locator rd_diagnostic_sql (key_columns before) es +:+ ";")
         (parameters_of ks)).

(** Rendering a change succeeds exactly when its images are there, something is
    writable, the row has a key and every value binds; the statement then writes
    exactly the writable columns, addresses the row by every key column of the
    image before it in key order, and binds the values first and the key after
    them, each placeholder naming its own parameter. *)
Theorem render_change_exact (change : RowChange) (plans : option (list ColumnConversionPlan)) st :
  render_change change plans = Ok st ↔ statement_of change plans st.
Proof.
  unfold render_change, render_insert, render_update, render_delete. split.
  - destruct (chg_operation change) eqn:Eop; intros H.
    + apply bind_ok in H as (after & Ha%supported_ok & [Hne H]%refuse_empty).
      apply bind_ok in H as ([rs ps] & (bs & Hbs & Hn & ->)%data_with_plan_spec & [= <-]).
      by apply (insert_statement _ _ after bs rs).
    + apply bind_ok in H as (before & Hb%supported_ok & H).
      apply bind_ok in H as (after & Ha%supported_ok & [Hne H]%refuse_empty).
      apply bind_ok in H as ([rs ps] & (bs & Hbs & Hn & ->)%data_with_plan_spec & H).
      apply bind_ok in H as (k & (Hk & ks & es & Hks & Hes & ->)%key_predicates_spec & [= <-]).
      by apply (update_statement _ _ before after bs ks rs es).
    + apply bind_ok in H as (before & Hb%supported_ok & H).
      apply bind_ok in H as (k & (Hk & ks & es & Hks & Hes & ->)%key_predicates_spec & [= <-]).
      by apply (delete_statement _ _ before ks es).
  - destruct 1 as [after bs ds Hop Ha Hne Hbs Hn|before after bs ks ds es Hop Hb Ha Hne Hk Hbs Hks Hn Hes
                  |before ks es Hop Hb Hk Hks Hes]; rewrite Hop.
    + apply bind_ok. exists after. rewrite supported_ok, refuse_empty. split_and!; [done..|].
      apply bind_ok. exists (ds, parameters_of bs). rewrite data_with_plan_spec. split; [eauto|done].
    + apply bind_ok. exists before. rewrite supported_ok. split; [done|].
      apply bind_ok. exists after. rewrite supported_ok, refuse_empty. split_and!; [done..|].
      apply bind_ok. exists (ds, parameters_of bs). rewrite data_with_plan_spec. split; [eauto|].
      apply bind_ok. eexists (_, _, _). rewrite key_predicates_spec. split; [eauto 10|done].
    + apply bind_ok. exists before. rewrite supported_ok. split; [done|].
      apply bind_ok. eexists (_, _, _). rewrite key_predicates_spec. split; [eauto 10|done].
Qed.

(** *** Values never reach the statement text *)

(** A parameter without its payload.  The SRID of a [ST_GeomFromWKB] call is
    part of the expression. *)
Definition erase (p : SqlParameter) : SqlParameter :=
  match p with
  | PInteger _ => PInteger 0
  | PNumeric _ => PNumeric ""
  | PFloat32 _ => PFloat32 0
  | PFloat64 _ => PFloat64 0
  | PBoolean _ => PBoolean false
  | PText _ => PText ""
  | PBinary _ => PBinary []
  | PDate _ => PDate ""
  | PTime _ => PTime ""
  | PTimestamp _ => PTimestamp ""
  | PTimestamptz _ => PTimestamptz ""
  | PInterval _ => PInterval ""
  | PUuid _ => PUuid ""
  | PJson _ => PJson ""
  | PStructured _ => PStructured ""
  | PCustomBinary _ => PCustomBinary []
  | PSpatial _ srid format => PSpatial [] srid format
  end.
Definition form (b : binding) : option (SqlParameter * string) := (λ b, (erase b.1.1, b.1.2)) <$> b.

(** Two data of the same column that bind parameters of the same form. *)
Record similar (change : RowChange) (plans : option (list ColumnConversionPlan)) (c c' : ColumnDatum) : Prop := {
  sim_definition : col_definition c = col_definition c';
  sim_null : col_datum c = DNull ↔ col_datum c' = DNull;
  sim_absent : is_absent (col_datum c) = is_absent (col_datum c');
  sim_form : ∀ b b', datum_binding c (column_plan (chg_schema change) (chg_table change) c plans) = Ok b →
                     datum_binding c' (column_plan (chg_schema change) (chg_table change) c plans) = Ok b' →
                     form b = form b'
}.

Lemma parameter_expression_erase index p ty :
  parameter_expression index p ty = parameter_expression index (erase p) ty.
Proof. by destruct p. Qed.

Lemma numbered_form used (bs bs' : list binding) ds ds' :
  form <$> bs = form <$> bs' → numbered used bs = Ok ds → numbered used bs' = Ok ds' →
  rd_sql <$> ds = rd_sql <$> ds' ∧ length (parameters_of bs) = length (parameters_of bs').
Proof.
  revert used bs' ds ds'. induction bs as [|[[[p ty] d]|] bs IH]; intros used [|[[[p' ty'] d']|] bs'] ds ds' Hf;
    try discriminate Hf; cbn [numbered]; intros H H'.
  - by simplify_eq.
  - cbn in Hf. injection Hf as Hp -> Hf.
    apply bind_ok in H as (s & Hs & (rs & Hrs & [= <-])%bind_ok).
    apply bind_ok in H' as (s' & Hs' & (rs' & Hrs' & [= <-])%bind_ok).
    rewrite parameter_expression_erase, Hp, <- parameter_expression_erase, Hs' in Hs. injection Hs as ->.
    destruct (IH _ _ _ _ Hf Hrs Hrs') as [E El]. split; [cbn; by rewrite E|].
    rewrite (parameters_cons _ bs), (parameters_cons _ bs'), !length_app, El. done.
  - cbn in Hf. injection Hf as Hf.
    apply bind_ok in H as (rs & Hrs & [= <-]). apply bind_ok in H' as (rs' & Hrs' & [= <-]).
    destruct (IH _ _ _ _ Hf Hrs Hrs') as [E El]. split; [cbn; by rewrite E|exact El].
Qed.

Section similar.
Context (change : RowChange) (plans : option (list ColumnConversionPlan)).
Notation similar := (similar change plans).

Lemma similar_meta c c' :
  similar c c' → col_name c = col_name c' ∧ is_key c = is_key c' ∧ col_generated c = col_generated c'
                 ∧ col_primary_key_ordinal c = col_primary_key_ordinal c'.
Proof.
  intros [H _ _ _]. unfold col_definition, is_key in *. injection H as _ H1 _ H2 H3 _.
  by rewrite H1, H2, H3.
Qed.

Lemma similar_names l k : Forall2 similar l k → col_name <$> l = col_name <$> k.
Proof. induction 1 as [|c c' l k Hc _ IH]; cbn; [done|]. destruct (similar_meta _ _ Hc) as [-> _]. by rewrite IH. Qed.

Lemma similar_writable l k : Forall2 similar l k → Forall2 similar (writable_columns l) (writable_columns k).
Proof.
  apply Forall2_filter. intros c c' Hc. destruct (similar_meta _ _ Hc) as (_ & _ & -> & _).
  by rewrite (sim_absent _ _ _ _ Hc).
Qed.

Lemma similar_keys l k : Forall2 similar l k → Forall2 similar (key_columns l) (key_columns k).
Proof.
  intros H. apply sort_by_Forall2; [intros c c' Hc; by destruct (similar_meta _ _ Hc) as (_ & _ & _ & ->)|].
  apply Forall2_filter; [|done]. intros c c' Hc. by destruct (similar_meta _ _ Hc) as (_ & -> & _).
Qed.

Lemma similar_bindings change' l k (bs bs' : list binding) :
  chg_schema change = chg_schema change' → chg_table change = chg_table change' →
  Forall2 similar l k →
  bindings change plans l = Ok bs → bindings change' plans k = Ok bs' → form <$> bs = form <$> bs'.
Proof.
  intros Hs Ht H. revert bs bs'. unfold bindings, with_plans. rewrite <- Hs, <- Ht.
  induction H as [|c c' l k Hc _ IH]; intros bs bs'; cbn [fmap list_fmap mapM fst snd].
  { by intros [= <-] [= <-]. }
  intros (b & Hb & (rs & Hrs & [= <-])%bind_ok)%bind_ok (b' & Hb' & (rs' & Hrs' & [= <-])%bind_ok)%bind_ok.
  destruct (similar_meta _ _ Hc) as [En _]. unfold column_plan in Hb'. rewrite <- En in Hb'.
  cbn. rewrite (sim_form _ _ _ _ Hc b b' Hb Hb'). by rewrite (IH rs rs').
Qed.

Lemma similar_key_bindings change' l k (bs bs' : list binding) :
  chg_schema change = chg_schema change' → chg_table change = chg_table change' →
  Forall2 similar l k →
  mapM (key_binding change plans) l = Ok bs → mapM (key_binding change' plans) k = Ok bs' →
  form <$> bs = form <$> bs'.
Proof.
  intros Hs Ht H. revert bs bs'.
  induction H as [|c c' l k Hc _ IH]; intros bs bs'; cbn [mapM].
  { by intros [= <-] [= <-]. }
  intros (b & Hb & (rs & Hrs & [= <-])%bind_ok)%bind_ok (b' & Hb' & (rs' & Hrs' & [= <-])%bind_ok)%bind_ok.
  cbn. rewrite (IH rs rs') by done. f_equal. clear IH Hrs Hrs'.
  destruct (similar_meta _ _ Hc) as [En _]. unfold key_binding in Hb, Hb'. rewrite <- Hs, <- Ht in Hb'.
  unfold column_plan in Hb'. rewrite <- En in Hb'. pose proof (sim_null _ _ _ _ Hc) as Hn.
  pose proof (sim_form _ _ _ _ Hc b b') as Hf. unfold column_plan in Hf.
  destruct (col_datum c), (col_datum c'); try discriminate Hb; try discriminate Hb'; try (by apply Hf);
    first [by simplify_eq|by (exfalso; destruct Hn as [Hn Hn'];
      first [discriminate (Hn eq_refl)|discriminate (Hn' eq_refl)])].
Qed.

Lemma similar_locator l k es es' :
  Forall2 similar l k → rd_sql <$> es = rd_sql <$> es' →
  locator rd_sql l es = locator rd_sql k es'.
Proof.
  intros H He. unfold locator. f_equal. revert es es' He.
  induction H as [|c c' l k Hc _ IH]; intros [|e es] [|e' es'] He; try discriminate He; cbn; [done..|].
  cbn in He. injection He as E He. rewrite (IH es es') by done. f_equal. unfold conjunct.
  destruct (similar_meta _ _ Hc) as [-> _]. rewrite E. pose proof (sim_null _ _ _ _ Hc) as Hn.
  destruct (col_datum c), (col_datum c'); try reflexivity; destruct Hn as [Hn Hn'];
    first [discriminate (Hn eq_refl)|discriminate (Hn' eq_refl)].
Qed.

Lemma assignments_names l k values :
  col_name <$> l = col_name <$> k → assignments l values = assignments k values.
Proof.
  intros H. unfold assignments. f_equal. revert k values H.
  induction l as [|c l IH]; intros [|c' k] [|v values] H; try discriminate H; cbn; [done..|].
  cbn in H. injection H as -> H. by rewrite (IH k).
Qed.
Lemma column_list_names l k : col_name <$> l = col_name <$> k → column_list l = column_list k.
Proof.
  intros H. unfold column_list. f_equal.
  pose proof (λ k, Convert.Spec.fmap_through (λ c, quote_identifier (col_name c)) quote_identifier
    col_name k (λ c, eq_refl)) as Hf. by rewrite (Hf l), (Hf k), H.
Qed.
End similar.

Definition similar_rows change plans (a b : option (list ColumnDatum)) : Prop :=
  option_Forall2 (Forall2 (similar change plans)) a b.

(** C18: The text of a rendered statement is fixed before any value is looked at: two
    changes of one table whose columns agree up to values of the same form
    render the same SQL, so a value can only reach the server as a bound
    parameter, never as a piece of a statement. *)
Theorem values_stay_out_of_statements (c c' : RowChange) (plans : option (list ColumnConversionPlan)) st st' :
  chg_operation c = chg_operation c' → chg_schema c = chg_schema c' → chg_table c = chg_table c' →
  similar_rows c plans (chg_before c) (chg_before c') → similar_rows c plans (chg_after c) (chg_after c') →
  render_change c plans = Ok st → render_change c' plans = Ok st' →
  rs_sql st = rs_sql st' ∧ length (rs_parameters st) = length (rs_parameters st').
Proof.
  intros Eop Es Et Hb Ha H H'. apply render_change_exact in H, H'.
  assert (table_name c = table_name c') as En by (unfold table_name; by rewrite Es, Et).
  destruct H as [after bs ds Hop Haf _ Hbs Hn|before after bs ks ds es Hop Hbe Haf _ _ Hbs Hks Hn Hes
                |before ks es Hop Hbe _ Hks Hes];
  destruct H' as [after' bs' ds' Hop' Haf' _ Hbs' Hn'|before' after' bs' ks' ds' es' Hop' Hbe' Haf' _ _ Hbs' Hks' Hn' Hes'
                |before' ks' es' Hop' Hbe' _ Hks' Hes']; try congruence; cbn [rs_sql rs_parameters].
  - rewrite Haf, Haf' in Ha. inversion Ha as [? ? Hrow|]; subst. apply similar_writable in Hrow.
    pose proof (similar_bindings _ _ _ _ _ _ _ Es Et Hrow Hbs Hbs') as Hf.
    destruct (numbered_form _ _ _ _ _ Hf Hn Hn') as [E El]. split; [|done].
    unfold insert_text. rewrite En, E. by rewrite (column_list_names _ _ (similar_names _ _ _ _ Hrow)).
  - rewrite Haf, Haf' in Ha. rewrite Hbe, Hbe' in Hb. inversion Ha as [? ? Hrow|]; inversion Hb as [? ? Hkey|]; subst.
    apply similar_writable in Hrow. apply similar_keys in Hkey.
    pose proof (similar_bindings _ _ _ _ _ _ _ Es Et Hrow Hbs Hbs') as Hf.
    destruct (numbered_form _ _ _ _ _ Hf Hn Hn') as [E El].
    pose proof (similar_key_bindings _ _ _ _ _ _ _ Es Et Hkey Hks Hks') as Hfk. rewrite El in Hes.
    destruct (numbered_form _ _ _ _ _ Hfk Hes Hes') as [Ek Ekl].
    split; [|by rewrite !length_app, El, Ekl].
    unfold update_text. rewrite En, E, (similar_locator _ _ _ _ _ _ Hkey Ek).
    by rewrite (assignments_names _ _ _ (similar_names _ _ _ _ Hrow)).
  - rewrite Hbe, Hbe' in Hb. inversion Hb as [? ? Hkey|]; subst. apply similar_keys in Hkey.
    pose proof (similar_key_bindings _ _ _ _ _ _ _ Es Et Hkey Hks Hks') as Hfk.
    destruct (numbered_form _ _ _ _ _ Hfk Hes Hes') as [Ek Ekl]. split; [|done].
    by rewrite En, (similar_locator _ _ _ _ _ _ Hkey Ek).
Qed.

(** *** Plan headers *)
Section headers.
Context (input_json : PlanDigestInput → list byte).

(** The plan of a carrier column names the carrier's storage, has room for
    something PostgreSQL can hold, and is no part of a locator. *)
Definition carrier_plan_ok (plan : ColumnConversionPlan) : Prop :=
  ∀ kind, carrier_kind (conversion_kind (Some plan)) = Some kind →
    eq_ignore_case (tr_native_type (pl_target plan)) (carrier_storage kind).1 = true
    ∧ target_parameter plan "target_storage" = Some (carrier_storage kind).2
    ∧ (∃ capacity, (target_parameter plan "target_capacity_bytes" ≫= parse_usize) = Some capacity
                   ∧ 0 < capacity ≤ 1073741823)
    ∧ pl_locator_impact plan ∈ [NotUsed; ValueOnly].

Record header_ok (target_version : string) (build : ServerBuildIdentity) (plan : ColumnConversionPlan) : Prop := {
  ho_digest : verify_digest input_json plan = true;
  ho_connector : pl_sink_connector plan = mkConnector "postgresql" target_version;
  ho_build : pl_target_build plan = Some build;
  ho_qualification : pl_qualification plan ≠ Unsupported;
  ho_confirmation : pl_confirmation plan ≠ ConfirmationRequired;
  ho_carrier : carrier_plan_ok plan
}.

Lemma validate_carrier_plan_ok plan kind :
  validate_carrier_plan plan kind = Ok () ↔
  eq_ignore_case (tr_native_type (pl_target plan)) (carrier_storage kind).1 = true
  ∧ target_parameter plan "target_storage" = Some (carrier_storage kind).2
  ∧ (∃ capacity, (target_parameter plan "target_capacity_bytes" ≫= parse_usize) = Some capacity
                 ∧ 0 < capacity ≤ 1073741823)
  ∧ pl_locator_impact plan ∈ [NotUsed; ValueOnly].
Proof.
  unfold validate_carrier_plan. destruct (carrier_storage kind) as [native storage]. cbn [fst snd].
  rewrite guarded, orb_false_iff, !negb_false_iff. unfold equals at 1. rewrite bool_decide_eq_true.
  destruct (_ ≫= parse_usize) as [capacity|]; [|naive_solver].
  assert (pl_locator_impact plan ∈ [NotUsed; ValueOnly] ↔
          match pl_locator_impact plan with
          | Preserved | Blocked => capability_code "carrier_key_forbidden"
          | _ => Ok ()
          end = Ok ()) as Hl.
  { rewrite !elem_of_cons, elem_of_nil. destruct (pl_locator_impact plan); naive_solver. }
  rewrite Hl. destruct (0 <? capacity) eqn:E0; [|split; [naive_solver|]; intros (_ & _ & (c & [= <-] & ?) & _); lia].
  rewrite guarded. split.
  - intros ((? & ?) & E1 & ?). split_and!; try done. exists capacity. split; [done|]. lia.
  - intros (? & ? & (c & [= <-] & ?) & ?). split_and!; try done. lia.
Qed.

Lemma carrier_plan_checked plan :
  match carrier_kind (conversion_kind (Some plan)) with
  | Some kind => validate_carrier_plan plan kind
  | None => Ok ()
  end = Ok () ↔ carrier_plan_ok plan.
Proof.
  unfold carrier_plan_ok. destruct (carrier_kind _) as [kind|]; [|naive_solver].
  rewrite validate_carrier_plan_ok. split; [|auto]. intros H k [= <-]. exact H.
Qed.

(** The build the plans share is a PostgreSQL server of the target version. *)
Definition build_ok (target_version : string) (build : ServerBuildIdentity) : Prop :=
  bld_product build = "postgresql"%string ∧ starts_with target_version (bld_version build) = true.

Lemma validate_plan_header_ok tv expected plan r :
  validate_plan_header input_json tv expected plan = Ok r ↔
  ∃ build, header_ok tv build plan ∧ build_ok tv build ∧ default build expected = build ∧ r = Some build.
Proof.
  unfold validate_plan_header. rewrite !guarded, !negb_false_iff, bool_decide_eq_true.
  destruct (pl_target_build plan) as [build|] eqn:Eb.
  2:{ split; [by intros (_ & _ & ?)|]. intros (b & [] & _). congruence. }
  rewrite !guarded, orb_false_iff, !negb_false_iff, bool_decide_eq_true, bool_decide_eq_false.
  assert (match expected with Some e => negb (bool_decide (e = build)) | None => false end = false
          ↔ default build expected = build) as ->.
  { destruct expected as [e|]; cbn; [|done]. by rewrite negb_false_iff, bool_decide_eq_true. }
  split.
  - intros (Hd & Hs & Hb & He & Hq & H). destruct (pl_confirmation plan) eqn:Ec; [..|];
      try discriminate H; apply seq_ok in H as [H%carrier_plan_checked [= <-]];
      exists build; rewrite He; (split_and!; [split; first [done|congruence]|done..]).
  - intros (b & [Hd Hs Hb' Hq Hc Hk%carrier_plan_checked] & Hb & He & ->).
    assert (b = build) as -> by congruence. destruct Hb as [Hb1 Hb2]. split_and!; try done.
    destruct (pl_confirmation plan); try done; apply seq_ok; rewrite He; by split.
Qed.

Lemma validate_plan_headers_from_ok tv plans build :
  build_ok tv build →
  validate_plan_headers_from input_json tv (Some build) plans = Ok () ↔ Forall (header_ok tv build) plans.
Proof.
  intros Hb. induction plans as [|plan plans IH]; cbn [validate_plan_headers_from]; [by split|].
  rewrite bind_ok, Forall_cons, <- IH. setoid_rewrite validate_plan_header_ok. cbn [default from_option id]. split.
  - by intros (r & (b & Hh & _ & -> & ->) & H).
  - intros (Hh & H). eauto 10.
Qed.

(** The header checks accept exactly the non-empty plans that were all made for
    one server: intact digests, this sink and target version, the same
    PostgreSQL build of that version, none unsupported or awaiting a
    confirmation, and carriers only where PostgreSQL can store them and no
    locator uses them. *)
Theorem plan_headers_exact (plans : list ColumnConversionPlan) (tv : string) :
  validate_plan_headers input_json plans tv = Ok () ↔
  plans ≠ [] ∧ ∃ build, build_ok tv build ∧ Forall (header_ok tv build) plans.
Proof.
  unfold validate_plan_headers. rewrite guarded. destruct plans as [|plan plans]; [by split; [intros []|intros []]|].
  cbn [validate_plan_headers_from lempty]. rewrite bind_ok. setoid_rewrite validate_plan_header_ok.
  cbn [default from_option id]. split.
  - intros (_ & r & (b & Hh & Hb & _ & ->) & H). apply validate_plan_headers_from_ok in H; [|done].
    split; [done|]. exists b. by rewrite Forall_cons.
  - intros (_ & b & Hb & [Hh H]%Forall_cons). split; [done|]. exists (Some b).
    split; [|by apply validate_plan_headers_from_ok]. by exists b.
Qed.

End headers.

(** *** Transactions *)
(** A planned statement of a change: its text and parameters as
    [statement_of] says, a probe for the row unless it inserts one. *)
Record planned_change (plans : list ColumnConversionPlan) (change : RowChange) (p : PlannedStatement) : Prop := {
  pc_statement : statement_of change (Some plans)
                   (mkStatement (ps_sql p) (ps_diagnostic_sql p) (ps_parameters p));
  pc_user_table : eq_ignore_case (chg_schema change) "cdc" = false;
  pc_supported : ensure_supported_change_with_plans change plans = Ok ();
  pc_probe : match chg_operation change with
             | Insert => ps_probe p = None
             | _ => ∃ before ks es, chg_before change = Some before ∧ key_bindings change (Some plans) before = Ok ks
                     ∧ numbered 0 ks = Ok es
                     ∧ ps_probe p = Some (mkQuery (probe_text change "1" (locator rd_sql (key_columns before) es))
                                           (parameters_of ks))
             end;
  pc_verification : render_verification change (Some plans) = Ok (ps_verification p);
  pc_readbacks : render_carrier_readbacks change plans = Ok (ps_carrier_readbacks p)
}.

Lemma render_probe_ok change plans q :
  render_probe change plans = Ok q ↔
  match chg_operation change with
  | Insert => q = None
  | _ => ∃ before ks es, chg_before change = Some before ∧ key_columns before ≠ []
          ∧ key_bindings change plans before = Ok ks ∧ numbered 0 ks = Ok es
          ∧ q = Some (mkQuery (probe_text change "1" (locator rd_sql (key_columns before) es)) (parameters_of ks))
  end.
Proof.
  unfold render_probe. destruct (chg_operation change); [split; [by intros [= <-]|by intros ->]|..].
  all: rewrite bind_ok; setoid_rewrite supported_ok; setoid_rewrite bind_ok; setoid_rewrite key_predicates_spec;
    split; [intros (before & Hb & k & (Hk & ks & es & Hks & Hes & ->) & [= <-]); eauto 10|];
    intros (before & ks & es & Hb & Hk & Hks & Hes & ->); exists before; split; [done|];
    eexists (_, _, _); split; [split; [done|]; exists ks, es; split_and!; [done..|reflexivity]|done].
Qed.

Lemma planned_statement_ok plans change p :
  planned_statement change plans = Ok p → planned_change plans change p.
Proof.
  unfold planned_statement. rewrite seq_ok, refuse_if. intros (Hs & Hu & H).
  apply bind_ok in H as (st & Hst%render_change_exact & H).
  apply bind_ok in H as (probe & Hp%render_probe_ok & H).
  apply bind_ok in H as (v & Hv & H). apply bind_ok in H as (rb & Hrb & [= <-]).
  split; cbn; try done; [by destruct st|]. destruct (chg_operation change); [done|..]; naive_solver.
Qed.

Lemma validate_plan_coverage_ok v plans :
  validate_plan_coverage v plans = Ok () ↔ covered plans (vt_transaction v).
Proof.
  unfold validate_plan_coverage, covered. rewrite each_ok. apply Forall_iff. intros change. rewrite each_ok.
  rewrite !Forall_forall. setoid_rewrite list_elem_of_filter.
  assert (∀ c, (if is_covered change plans c then Ok () else capability_code "plan_missing_for_column") = Ok ()
          ↔ ∃ plan, plan ∈ plans ∧ df_lineage_id (pl_source_field plan)
                                   = lineage (chg_schema change) (chg_table change) (col_name c)) as Hc.
  { intros c. trans (is_covered change plans c = true); [by destruct (is_covered _ _ _)|].
    unfold is_covered. rewrite existsb_exists. setoid_rewrite bool_decide_eq_true.
    setoid_rewrite list_elem_of_In. done. }
  setoid_rewrite Hc. naive_solver.
Qed.

(** The planned SQL of a transaction. *)
Lemma planned_transaction (input_json : PlanDigestInput → list byte) (tv : string)
    (v : ValidatedTransaction) (plans : list ColumnConversionPlan) (p : SqlTransaction) :
  sql_with_plans_for_version input_json tv v plans = Ok p →
  let t := vt_transaction v in
  validate_plan_headers input_json plans tv = Ok () ∧ covered plans t
  ∧ (sq_source_uuid p = src_id (tx_source t) ∧ sq_source_transaction_id p = tx_id t
     ∧ sq_commit_cursor p = tx_commit_cursor t ∧ sq_target_version p = tv)
  ∧ (∀ table, table ∈ sq_tables p ↔ ∃ change, change ∈ tx_changes t ∧ table = (chg_schema change, chg_table change))
  ∧ Sorted table_le (sq_tables p) ∧ NoDup (sq_tables p)
  ∧ Forall (λ table, eq_ignore_case table.1 "cdc" = false) (sq_tables p)
  ∧ ∃ t', Convert.Spec.transaction_converted plans t t' ∧ Validate.Spec.transaction_ok t'
     ∧ Forall2 (planned_change plans) (tx_changes t') (sq_statements p).
Proof.
  unfold sql_with_plans_for_version. rewrite !seq_ok, validate_plan_coverage_ok.
  intros (Hh & Hc & (t' & Ht & (v' & Hv%map_err_ok & H)%bind_ok)%bind_ok). cbn zeta.
  destruct (Convert.Spec.transaction_answers (vt_transaction v) plans) as (r & Hr & Hspec).
  rewrite Hr in Ht. apply map_err_ok, Hspec in Ht. apply Validate.Spec.validate_spec in Hv as [-> Ht'].
  unfold planned_sql_for_version in H. cbn [vt_transaction] in H.
  apply bind_ok in H as (sts & Hsts & [= <-]). unfold sql_transaction. cbn.
  apply (mapM_ok_Forall2 _ (planned_change plans)) in Hsts; [|intros; by apply planned_statement_ok].
  pose proof Ht as [(-> & -> & _ & ->) Hch].
  assert ((λ c, (chg_schema c, chg_table c)) <$> tx_changes t'
          = (λ c, (chg_schema c, chg_table c)) <$> tx_changes (vt_transaction v)) as Hnames.
  { clear -Hch. induction Hch as [|c c' l l' [E _] _ IH]; cbn; [done|]. by rewrite IH, E. }
  destruct (table_set_spec ((λ c, (chg_schema c, chg_table c)) <$> tx_changes t')) as (Hsort & Hnd & Hin).
  split_and!; try done.
  - intros table. rewrite Hin, Hnames, list_elem_of_fmap. naive_solver.
  - apply Forall_forall. intros table. rewrite Hin, list_elem_of_fmap. intros (c & -> & Hc').
    apply list_elem_of_lookup in Hc' as [i Hi]. destruct (Forall2_lookup_l _ _ _ _ _ Hsts Hi) as (st & _ & Hst).
    by destruct Hst.
  - by exists t'.
Qed.

(** C16: What the sink executes for a transaction is that transaction: the planned
    SQL keeps its source, identity and position, has one statement per change
    in the order of the changes, each the exact statement of the converted
    change, locks exactly the tables it changes, and leaves the schema of the
    checkpoint alone; and it exists only if the plans all pass the header checks
    and cover every column that is written. *)
Theorem planned_transaction_exact (input_json : PlanDigestInput → list byte) (tv : string)
    (v : ValidatedTransaction) (plans : list ColumnConversionPlan) (p : SqlTransaction) :
  sql_with_plans_for_version input_json tv v plans = Ok p →
  let t := vt_transaction v in
  validate_plan_headers input_json plans tv = Ok () ∧ covered plans t
  ∧ (sq_source_uuid p = src_id (tx_source t) ∧ sq_source_transaction_id p = tx_id t
     ∧ sq_commit_cursor p = tx_commit_cursor t ∧ sq_target_version p = tv)
  ∧ (∀ table, table ∈ sq_tables p ↔ ∃ change, change ∈ tx_changes t ∧ table = (chg_schema change, chg_table change))
  ∧ Sorted table_le (sq_tables p) ∧ NoDup (sq_tables p)
  ∧ Forall (λ table, eq_ignore_case table.1 "cdc" = false) (sq_tables p)
  ∧ ∃ t', Convert.Spec.transaction_converted plans t t' ∧ Validate.Spec.transaction_ok t'
     ∧ Forall2 (planned_change plans) (tx_changes t') (sq_statements p).
Proof. exact (planned_transaction input_json tv v plans p). Qed.

(** *** Carriers *)
Section carriers.
Context {D : Type} `{Server : PgServer D}.
Context (json_logical_value : string → option LogicalValue)
        (json_envelope : list byte → option SourceRepresentationEnvelope).

(** The data that a plan stores in a carrier column. *)
Definition carried (plan : ColumnConversionPlan) (d : Datum) : bool :=
  match d, carrier_kind (conversion_kind (Some plan)) with
  | Value _, Some LogicalCarrier | EnvelopeDatum _, Some SourceCarrier | DNull, Some _ => true
  | _, _ => false
  end.

(** A cell that holds the carrier of a datum. *)
Definition stored (d : Datum) (x : Cell) : Prop :=
  match d with
  | Value v => ∃ text, x = CText text ∧ json_logical_value text = Some v
  | EnvelopeDatum e => ∃ bytes e', x = CBytes bytes ∧ ps_envelope_json e = Some bytes
                         ∧ json_envelope bytes = Some e' ∧ envelope_validate e' = Ok ()
  | DNull => x = CNull
  | _ => False
  end.

Lemma readback_expected_stored plan d expected row :
  readback_expected plan d = Ok expected → carried plan d = true →
  ∃ e, expected = Some e ∧
    (readback_matches json_logical_value json_envelope e row = Ok true → stored d (cell 0 row)).
Proof.
  unfold readback_expected, carried. destruct d; try done.
  - destruct (carrier_kind _) as [[]|]; [..|done]; intros [= <-] _; eexists; (split; [done|]);
      cbn; destruct (cell 0 row); try discriminate; try (by intros _); intros [= H]; apply bool_decide_eq_true in H; done.
  - destruct (carrier_kind _) as [[]|]; [|done..]. rewrite seq_ok. intros [_ [= <-]] _. eexists. split; [done|].
    cbn. destruct (cell 0 row) as [|text| | |]; try discriminate. intros [= H]. apply bool_decide_eq_true in H. eauto.
  - destruct (carrier_kind _) as [[]|]; [done| |done]. rewrite seq_ok.
    intros [_ (bytes & Hb%supported_ok & [= <-])%bind_ok] _. eexists. split; [done|].
    unfold readback_matches, stored. destruct (cell 0 row) as [| |b| |]; try discriminate.
    cbn [get_opt_bytes mbind result_bind]. intros [= H].
    destruct (json_envelope b) as [e'|] eqn:Ee; [|done]. apply andb_true_iff in H as [Hv ->%bool_decide_eq_true].
    exists bytes, e'. split_and!; try done. by destruct (envelope_validate e') as [[]|].
Qed.

Lemma omap_id_in {A B E} (f : A → result E (option B)) (l : list A) (k : list (option B)) a :
  mapM f l = Ok k → a ∈ l → ∃ r, f a = Ok r ∧ ∀ b : B, r = Some b → b ∈ omap id k.
Proof.
  revert k. induction l as [|x l IH]; intros k; cbn [mapM]; [by intros _ ?%not_elem_of_nil|].
  intros (r & Hr & (rs & Hrs & [= <-])%bind_ok)%bind_ok [->|Ha]%elem_of_cons.
  - exists r. split; [done|]. intros b ->. cbn. apply list_elem_of_here.
  - destruct (IH _ Hrs Ha) as (r' & Hr' & Hin). exists r'. split; [done|]. intros b Hb. cbn.
    destruct r as [y|]; cbn; [apply list_elem_of_further|]; by apply Hin.
Qed.

(** C19: Executing a planned statement verifies its carriers: afterwards the row
    that the change's key addresses holds, in each carrier column, the very
    value, envelope or NULL the change carried (or the execution failed). *)
Theorem executed_carriers_stored (change : RowChange) (plans : list ColumnConversionPlan)
    (p : PlannedStatement) (d d' : D) (after : list ColumnDatum) (c : ColumnDatum) (plan : ColumnConversionPlan) :
  planned_change plans change p → execute_statement json_logical_value json_envelope d p = Ok d' →
  chg_operation change ≠ Delete → chg_after change = Some after →
  c ∈ after → col_generated c = false →
  column_plan (chg_schema change) (chg_table change) c (Some plans) = Some plan →
  carried plan (col_datum c) = true →
  ∃ keys predicates diagnostics ps selected row,
    mapM (resolve_key change) (filter (λ c, is_key c = true) after) = Ok keys
    ∧ key_predicates change (Some plans) []
        (sort_by key_order col_primary_key_ordinal keys) = Ok (predicates, diagnostics, ps)
    ∧ selected ∈ [quote_identifier (col_name c); quote_identifier (col_name c) +:+ "::text"]
    ∧ pg_fetch (probe_text change selected predicates) ps d' = Ok [row]
    ∧ stored (col_datum c) (cell 0 row).
Proof.
  intros [_ _ _ _ _ Hrb] He Hop Ha Hc Hg Hplan Hcar. unfold render_carrier_readbacks in Hrb.
  assert (∀ A (x y : A), match chg_operation change with Delete => x | _ => y end = y) as Hdel
    by (by intros A x y; destruct (chg_operation change)).
  rewrite Hdel, Ha in Hrb. cbn [supported ok_or mbind result_bind] in Hrb.
  apply bind_ok in Hrb as (keys & Hkeys & [Hne (rbs & Hrbs & [= Hps])%bind_ok]%refuse_empty).
  destruct (omap_id_in _ _ _ c Hrbs) as (r & Hr & Hin); [by apply list_elem_of_filter|].
  unfold column_readback in Hr. rewrite Hplan in Hr. apply bind_ok in Hr as (expected & Hex & Hr).
  apply execute_statement_ok in He as (_ & _ & _ & Hall).
  assert (∃ e, expected = Some e) as [e ->].
  { destruct (readback_expected_stored _ _ _ [] Hex Hcar) as (e & -> & _). by exists e. }
  apply bind_ok in Hr as ([[predicates diagnostics] ps] & Hk & [= <-]). specialize (Hin _ eq_refl).
  rewrite Hps in Hin. rewrite Forall_forall in Hall. specialize (Hall _ Hin).
  unfold verify_carrier_readback in Hall. cbn [rb_query pq_sql pq_parameters rb_expected fst snd] in Hall.
  apply bind_ok in Hall as (rows & Hrows%sqlx_io_ok & Hm). destruct rows as [|row [|? ?]]; try done.
  apply bind_ok in Hm as (b & Hb & ->%ensure_ok).
  destruct (readback_expected_stored _ _ _ row Hex Hcar) as (e' & [= <-] & Hst).
  exists keys, predicates, diagnostics, ps, (selected_text c e), row. split_and!; auto.
  unfold selected_text. rewrite !elem_of_cons. destruct e as [[]| |]; auto.
Qed.
End carriers.
End spec.
End Spec.

(** ** An instance: an upsert table with a carrier column *)
Module Example12.
#[local] Existing Instance Rfc4648.base64.
#[local] Existing Instance SumDigest.sha256.
#[local] Existing Instance JsonText.Example10.plain_printer.
#[export] Instance serde12 : PlanSerde := {|
  ps_type _ := Some LogicalTypes.TBoolean;
  ps_members s := Some (split "," s);
  ps_metadata _ := None;
  ps_keys _ := None;
  ps_type_json _ := sbytes "boolean";
  ps_metadata_json _ := [];
  ps_keys_json _ := [];
  ps_value_json v := match v with VBoolean true => Some (sbytes "true") | _ => None end;
  ps_envelope_json _ := None
|}.
#[export] Instance text12 : PgText := {| pg_float_text := {| display_float _ _ := "0"%string |}; chrono_utc _ _ := None |}.

Definition json12 (_ : PlanDigestInput) : list byte := [].
Definition plan12 (column native : string) (target : list (string * string)) : ColumnConversionPlan :=
  mkPlan "cdc.column-conversion-plan.v1" "route" "1"
    (mkDefinition (lineage "public" "t" column) "s") (mkDefinition "target" "t")
    (mkConnector "mysql" "8.0") (mkConnector "postgresql" "15") None
    (Some (mkBuild "postgresql" "pgdg" "15.4" "15.4")) "mapping" "1"
    (mkTarget native (list_to_map target)) (mkRule "rule" "1") "" "capability" "" None
    RangeChecked RiskNone None (mkLoss false false false false "") [] NotUsed NotRequired
    ∅ Reject "" (sha256_hex []).
Definition carrier_plan12 : ColumnConversionPlan :=
  plan12 "flag" "text"
    [("conversion_kind", "logical_value_json"); ("target_storage", "postgresql_text_tagged_json");
     ("target_capacity_bytes", "1000"); ("logical_value_schema", "change_event.logical_value.v0_3");
     ("value_strategy", "tagged_json_v0_3"); ("source_logical_type_json", "t");
     ("source_logical_type_digest", sha256_hex (sbytes "boolean"))]%string.
Definition plans12 : list ColumnConversionPlan := [plan12 "id" "integer" []; carrier_plan12].

Definition row12 (id : string) (flag : Datum) : list ColumnDatum :=
  [mkColumn 1 "id" "integer" (Some 0) false None (Value (VInteger true 32 id));
   mkColumn 2 "flag" "text" None false None flag].
Definition update12 (id : string) : RowChange :=
  mkChange None Update "public" "t" (mkCursor "f" "1" "") 0 "basis"
    (Some (row12 id DNull)) (Some (row12 id (Value (VBoolean true)))).
Definition transaction12 (id : string) : ChangeTransaction :=
  mkTransaction (mkSource "mysql" "8.0" "s") "gtid:1" (mkCursor "f" "1" "") (mkCursor "f" "2" "")
    [update12 id].

(** A server that finds the row and reads its carrier back. *)
Definition store12 : PgServer () :=
  {| pg_fetch _ _ _ := Ok [[CText "true"]]; pg_execute _ _ d := Ok (d, 1) |}.
Definition decode12 (text : string) : option LogicalValue :=
  if bool_decide (text = "true"%string) then Some (VBoolean true) else None.

Definition probe12 : PreparedQuery :=
  mkQuery (probe_text (update12 "7") "1" (quote_identifier "id" +:+ " = $1")) [PInteger 7].
Definition readback12 : CarrierReadbackCheck :=
  mkReadback (mkQuery (probe_text (update12 "7") (quote_identifier "flag" +:+ "::text")
                         (quote_identifier "id" +:+ " = $1")) [PInteger 7])
    "flag" (ExpectLogicalValue (VBoolean true)).
Definition update_sql12 (id flag key : string) : string :=
  update_text (update12 "7") (row12 "7" (Value (VBoolean true))) [id; flag] (quote_identifier "id" +:+ " = " +:+ key).
Definition statement12 : PlannedStatement :=
  mkPlanned (update_sql12 "$1" "$2" "$3") (update_sql12 "7" carrier_diagnostic "7")
    [PInteger 7; PText "true"; PInteger 7] (Some probe12) None [readback12].
Definition sql12 : SqlTransaction :=
  mkSqlTransaction "s" "gtid:1" (mkCursor "f" "2" "") "15" [("public", "t")]%string [statement12].

Lemma planned_transaction_exact_witness :
  sql_with_plans_for_version json12 "15" (mkValidated (transaction12 "7")) plans12 = Ok sql12
  ∧ (validate_plan_headers json12 plans12 "15" = Ok () ∧ covered plans12 (transaction12 "7")
     ∧ ("s"%string = "s"%string ∧ "gtid:1"%string = "gtid:1"%string
        ∧ mkCursor "f" "2" "" = mkCursor "f" "2" "" ∧ "15"%string = "15"%string)
     ∧ (∀ table, table ∈ sq_tables sql12
                 ↔ ∃ change, change ∈ [update12 "7"] ∧ table = (chg_schema change, chg_table change))
     ∧ Sorted table_le (sq_tables sql12) ∧ NoDup (sq_tables sql12)
     ∧ Forall (λ table, eq_ignore_case table.1 "cdc" = false) (sq_tables sql12)
     ∧ ∃ t', Convert.Spec.transaction_converted plans12 (transaction12 "7") t'
             ∧ Validate.Spec.transaction_ok t'
             ∧ Forall2 (Spec.planned_change plans12) (tx_changes t') [statement12]).
Proof.
  assert (sql_with_plans_for_version json12 "15" (mkValidated (transaction12 "7")) plans12 = Ok sql12)
    as H by (vm_compute; reflexivity).
  split; [exact H|]. exact (Spec.planned_transaction_exact json12 "15" _ plans12 sql12 H).
Defined.

Lemma executed_carriers_stored_witness :
  execute_statement (Server := store12) decode12 no_envelope () statement12 = Ok ()
  ∧ ∃ keys predicates diagnostics ps selected row,
      mapM (resolve_key (update12 "7")) (filter (λ c, is_key c = true) (row12 "7" (Value (VBoolean true)))) = Ok keys
      ∧ key_predicates (update12 "7") (Some plans12) []
          (sort_by key_order col_primary_key_ordinal keys) = Ok (predicates, diagnostics, ps)
      ∧ selected ∈ [quote_identifier "flag"; quote_identifier "flag" +:+ "::text"]
      ∧ pg_fetch (PgServer := store12) (probe_text (update12 "7") selected predicates) ps () = Ok [row]
      ∧ Spec.stored decode12 no_envelope (Value (VBoolean true)) (cell 0 row).
Proof.
  assert (planned_statement (update12 "7") plans12 = Ok statement12) as Hp by (vm_compute; reflexivity).
  assert (execute_statement (Server := store12) decode12 no_envelope () statement12 = Ok ()) as He
    by (vm_compute; reflexivity).
  split; [exact He|].
  apply (Spec.executed_carriers_stored (Server := store12) decode12 no_envelope (update12 "7") plans12 statement12 () ()
           (row12 "7" (Value (VBoolean true)))
           (mkColumn 2 "flag" "text" None false None (Value (VBoolean true))) carrier_plan12);
    [by apply Spec.planned_statement_ok|exact He|discriminate|reflexivity| |reflexivity|vm_compute; reflexivity..].
  apply list_elem_of_further, list_elem_of_here.
Defined.

(** Two updates that differ in the value of the key render one text. *)
Lemma similar_row12 id id' flag :
  is_Some (parse_i64 id) → is_Some (parse_i64 id') →
  Forall2 (Spec.similar (update12 id) (Some plans12)) (row12 id flag) (row12 id' flag).
Proof.
  intros [z Hz] [z' Hz']. repeat constructor; try done.
  - intros b b'. unfold datum_binding. cbn -[parse_i64]. rewrite Hz, Hz'. cbn. by intros [= <-] [= <-].
  - intros b b' Hb Hb'. rewrite Hb in Hb'. by injection Hb' as ->.
Qed.

Definition update_statement12 (id : Z) (text : string) : RenderedStatement :=
  mkStatement (update_sql12 "$1" "$2" "$3") (update_sql12 text carrier_diagnostic text)
    [PInteger id; PText "true"; PInteger id].

Lemma values_stay_out_of_statements_witness :
  render_change (update12 "7") (Some plans12) = Ok (update_statement12 7 "7")
  ∧ render_change (update12 "-8") (Some plans12) = Ok (update_statement12 (-8) "-8")
  ∧ rs_sql (update_statement12 7 "7") = rs_sql (update_statement12 (-8) "-8")
  ∧ length (rs_parameters (update_statement12 7 "7")) = length (rs_parameters (update_statement12 (-8) "-8")).
Proof.
  assert (render_change (update12 "7") (Some plans12) = Ok (update_statement12 7 "7")) as H by (vm_compute; reflexivity).
  assert (render_change (update12 "-8") (Some plans12) = Ok (update_statement12 (-8) "-8")) as H' by (vm_compute; reflexivity).
  split; [exact H|]. split; [exact H'|].
  apply (Spec.values_stay_out_of_statements (update12 "7") (update12 "-8") (Some plans12));
    [reflexivity..| | |exact H|exact H']; constructor; apply similar_row12; vm_compute; eauto.
Defined.
End Example12.
