(* ===== verification/MyRender.v ===== *)
(** * Binding values for MySQL ([crates/mysql_8_0/src/sql.rs])

    How a logical value becomes a driver [Value] ([bind_logical_value]), the
    texts of decimals and JSON, spatial and zero dates.  The crates mysql_5_7,
    mysql_8_0 and mysql_8_4 hold the same code with another [TARGET_VERSION],
    which is a variable here. *)
From S2P Require Import Prelude Text Utf8 Codec Model Representation Outcome Validate Plan Floats JsonText.

(** [mysql_driver::Value]; floats by their bit pattern. *)
Inductive MyValue :=
| MyNull
| MyBytes (l : list byte)
| MyInt (z : Z)
| MyUInt (z : Z)
| MyFloat (bits : Z)
| MyDouble (bits : Z)
| MyDate (year month day hour minute second microsecond : Z)
| MyTime (negative : bool) (days hours minutes seconds microsecond : Z).
#[export] Instance MyValue_eq_dec : EqDecision MyValue.
Proof. solve_decision. Defined.

Definition u16_max : Z := 2 ^ 16 - 1.

(** ** Numbers *)
Definition validate_integer (value : string) (signed : bool) : io string :=
  let digits := if signed then strip_sign value else value in
  if sempty digits || negb (all_bytes is_ascii_digit digits) then Err invalid_data
  else if negb signed && is_some (strip_byte "-"%char value) then Err invalid_data
  else Ok value.

Definition zero_text (n : Z) : string := of_bytes (replicate (Z.to_nat n) ZERO).

Definition render_decimal (unscaled : string) (scale : Z) : io string :=
  let digits := strip_sign unscaled in
  if sempty digits || negb (all_bytes is_ascii_digit digits) then Err invalid_data
  else if scale =? 0 then Ok (minus unscaled +:+ digits)
  else
    let value :=
      if scale <? slen digits then
        let split := (String.length digits - Z.to_nat scale)%nat in
        of_bytes (take split (sbytes digits)) +:+ "." +:+ of_bytes (drop split (sbytes digits))
      else "0." +:+ zero_text (scale - slen digits) +:+ digits in
    Ok (minus unscaled +:+ value).

Definition mysql_year (year : Z) : io Z := supported (if in_range 0 u16_max year then Some year else None).

Definition parse_hex_bits (value : string) (width : Z) : io Z :=
  if negb (slen value =? width) || negb (all_bytes is_ascii_hexdigit value) then Err invalid_data
  else ok_or invalid_data (parse_hex_u64 value).

(** [f32::from_bits(raw).is_finite()] *)
Definition is_finite32 (raw : Z) : bool := negb (Z.land (Z.shiftr raw 23) 0xff =? 0xff).

(** ** Calendar *)

(** All divisions are of numbers that are not negative, except the
    [div_euclid] ones. *)
Definition unix_instant_value (seconds : string) (nanoseconds : Z) : io MyValue :=
  if (999999999 <? nanoseconds) || negb (nanoseconds mod 1000 =? 0) then refuse else
  let? text := validate_integer seconds true in
  let? seconds := supported (parse_i64 text) in
  let days := seconds / 86400 in
  let day_seconds := seconds mod 86400 in
  let z := days + 719468 in
  let era := z / 146097 in
  let doe := z - era * 146097 in
  let yoe := Z.quot (doe - Z.quot doe 1460 + Z.quot doe 36524 - Z.quot doe 146096) 365 in
  let year := yoe + era * 400 in
  let doy := doe - (365 * yoe + Z.quot yoe 4 - Z.quot yoe 100) in
  let month_part := Z.quot (5 * doy + 2) 153 in
  let day := doy - Z.quot (153 * month_part + 2) 5 + 1 in
  let month := month_part + (if month_part <? 10 then 3 else -9) in
  let year := year + (if month <=? 2 then 1 else 0) in
  if negb (in_range 1 65535 year) then refuse else
  Ok (MyDate year month day (Z.quot day_seconds 3600) (Z.quot (Z.rem day_seconds 3600) 60)
        (Z.rem day_seconds 60) (nanoseconds / 1000)).

(** The separators of a raw spelling, by position. *)
Definition separators (kind : string) : option (list (nat * byte)) :=
  if bool_decide (kind = "mysql.date"%string) then Some [(4%nat, "-"%char); (7%nat, "-"%char)]
  else if bool_decide (kind ∈ ["mysql.datetime"; "mysql.timestamp"]%string) then
    Some [(4%nat, "-"%char); (7%nat, "-"%char); (10%nat, " "%char); (13%nat, ":"%char);
          (16%nat, ":"%char); (19%nat, "."%char)]
  else None.
Definition temporal_byte (seps : list (nat * byte)) (index : nat) (c : byte) : bool :=
  match List.find (λ s : nat * byte, bool_decide (s.1 = index)) seps with
  | Some (_, separator) => bool_decide (c = separator)
  | None => is_ascii_digit c
  end.
Definition mysql_invalid_temporal_value (kind raw : string) : io MyValue :=
  let? seps := supported (separators kind) in
  let expected_len := if bool_decide (kind = "mysql.date"%string) then 10 else 26 in
  if negb (slen raw =? expected_len)
     || negb (forallb (λ ic : nat * byte, temporal_byte seps ic.1 ic.2) (imap pair (sbytes raw)))
  then refuse else Ok (MyBytes (sbytes raw)).

Definition mysql_charset_name (charset : string) : io string :=
  if sempty charset || negb (all_bytes (λ c, is_ascii_alphanumeric c || bool_decide (c = "_"%char)) charset)
  then refuse else Ok charset.

Definition validate_uuid (value : string) : io () :=
  if negb (slen value =? 36)
     || negb (forallb (λ ic : nat * byte,
                (if bool_decide (ic.1 ∈ [8; 13; 18; 23])%nat then bool_decide (ic.2 = "-"%char)
                 else is_ascii_hexdigit ic.2)) (imap pair (sbytes value)))
  then refuse else Ok ().

Section values.
Context `{B64 : Base64, SHA : Sha256, JP : JsonPrinter, FT : FloatText}.

Definition decode_bytes (value : string) : io (list byte) := ok_or invalid_data (b64_decode value).

(** ** JSON text *)
Definition render_float (bits : Z) (hexadecimal : string) : io string :=
  if bits =? 32 then
    let? raw := parse_hex_bits hexadecimal 8 in
    let raw := wrap_u 32 raw in
    if negb (is_finite32 raw) then Err (other "non-finite FLOAT")
    else Ok (if raw =? 2 ^ 31 then "-0.0"%string else display_float 32 raw)
  else if bits =? 64 then
    let? raw := parse_hex_bits hexadecimal 16 in
    if negb (is_finite (from_bits raw)) then Err (other "non-finite DOUBLE")
    else Ok (if raw =? 2 ^ 63 then "-0.0"%string else display_float 64 raw)
  else Err (other "unsupported floating point width").

Definition render_json_double (value : string) : io string :=
  let? rendered := render_float 64 value in
  Ok (if contains_byte "."%char rendered || contains_byte "e"%char rendered || contains_byte "E"%char rendered
      then rendered else rendered +:+ ".0").

Fixpoint render_json (value : JsonValue) : io string :=
  match value with
  | JNull => Ok "null"%string
  | JBoolean b => Ok (if b then "true" else "false")%string
  | JString s => Ok (json_string s)
  | JSignedInteger v => validate_integer v true
  | JUnsignedInteger v => validate_integer v false
  | JDoubleBits v => render_json_double v
  | JDecimal unscaled scale => render_decimal unscaled scale
  | JArray values =>
      let? items := mapM render_json values in
      Ok ("[" +:+ join "," items +:+ "]")
  | JObject entries =>
      let? items := mapM (λ e, let? value := render_json (je_value e) in
                               Ok (json_string (je_key e) +:+ ":" +:+ value)) entries in
      Ok ("{" +:+ join "," items +:+ "}")
  end.

(** ** Driver values *)
Definition bind_logical_value (value : LogicalValue) : io MyValue :=
  match value with
  | VBoolean b => Ok (MyInt (if b then 1 else 0))
  | VUuid s => validate_uuid s ;? Ok (MyBytes (sbytes s))
  | VInteger signed _ v =>
      if signed then let? z := supported (parse_i64 v) in Ok (MyInt z)
      else let? z := supported (parse_u64 v) in Ok (MyUInt z)
  | VDecimal unscaled scale =>
      if (65 <? slen (strip_sign unscaled)) || negb (in_range 0 30 scale) then refuse else
      let? text := render_decimal unscaled scale in Ok (MyBytes (sbytes text))
  | VFloat bits hexadecimal =>
      if bits =? 32 then
        let? raw := map_err (λ _, capability_failure) (parse_hex_bits hexadecimal 8) in
        let raw := wrap_u 32 raw in
        if is_finite32 raw then Ok (MyFloat raw) else refuse
      else if bits =? 64 then
        let? raw := map_err (λ _, capability_failure) (parse_hex_bits hexadecimal 16) in
        if is_finite (from_bits raw) then Ok (MyDouble raw) else refuse
      else refuse
  | VText charset b _ =>
      if negb (bool_decide (to_lower charset ∈ ["utf8"; "utf8mb4"]%string)) then refuse else
      let? bytes := decode_bytes b in Ok (MyBytes bytes)
  | VBinary b | VBitString b _ _ _ => let? bytes := decode_bytes b in Ok (MyBytes bytes)
  | VDate y m d => let? year := mysql_year y in Ok (MyDate year m d 0 0 0 0)
  | VLocalDatetime y mo d h m s us => let? year := mysql_year y in Ok (MyDate year mo d h m s us)
  | VLocalTime h m s us => Ok (MyTime false 0 h m s us)
  | VDuration negative h m s us =>
      let? days := supported (if h / 24 <=? u32_max then Some (h / 24) else None) in
      Ok (MyTime negative days (h mod 24) m s us)
  | VInstant seconds nanoseconds => unix_instant_value seconds nanoseconds
  | VYear value => let? z := supported (if 0 <=? value then Some value else None) in Ok (MyUInt z)
  | VInvalidTemporal kind raw => mysql_invalid_temporal_value kind raw
  | VEnum label => Ok (MyBytes (sbytes label))
  | VSet members => Ok (MyBytes (sbytes (join "," members)))
  | VSpatial _ _ _ _ _ _ | VArray _ | VArrayWithMetadata _ _ _ _ | VStruct _ | VMap _ | VRange _ _ _ _ _
  | VMultiRange _ | VNull | VOffsetTime _ _ _ _ _ | VCalendarInterval _ _ _ | VTemporalInfinity _ _
  | VNetwork _ _ _ | VXml _ _ | VDomain _ | VRaw _ => refuse
  | VJson value =>
      let? json := map_err (λ _, capability_failure) (render_json value) in Ok (MyBytes (sbytes json))
  end.

Definition bind_datum (datum : Datum) : io MyValue :=
  match datum with
  | Unavailable | Unchanged => refuse
  | DNull => Ok MyNull
  | Value value => bind_logical_value value
  | EnvelopeDatum _ => refuse
  end.

(** [u32::to_le_bytes] *)
Definition u32_to_le (z : Z) : list byte :=
  (λ i, byte_of (Z.shiftr z (8 * Z.of_nat i) mod 256)) <$> seq 0 4.

Context (target_version : string).
Notation is_5_7 := (bool_decide (target_version = "5.7"%string)).

(** The native form of 5.7 is the WKB after the SRID; later servers take the
    WKB and the SRID apart. *)
Definition mysql_spatial_value (value : LogicalValue) : io MyValue :=
  match value with
  | VSpatial format b _ _ srid _ =>
      match format with
      | Wkb =>
          let? srid := supported srid in
          let? srid := supported (if in_range 0 u32_max srid then Some srid else None) in
          let? wkb := decode_bytes b in
          Ok (MyBytes ((if is_5_7 then u32_to_le srid else []) ++ wkb))
      | Ewkb => refuse
      end
  | _ => refuse
  end.

(** Only a Boolean column takes a Boolean, only a UUID column a UUID, and
    neither can be a key. *)
Definition ensure_source_value_type (native_type : string) (value : LogicalValue) (key : option Z) : io () :=
  let native_type := to_lower (trim native_type) in
  match value with
  | VBoolean _ =>
      if negb (bool_decide (native_type = "boolean"%string)) then refuse
      else if is_some key then refuse else Ok ()
  | VUuid _ =>
      if negb (bool_decide (native_type = "uuid"%string)) then refuse
      else if is_some key then refuse else Ok ()
  | _ => Ok ()
  end.
End values.
