(* ===== verification/MySql.v ===== *)
(** * Planning SQL for MySQL ([crates/mysql_8_0/src/sql.rs])

    From a validated transaction, with or without saved plans, to parameterised
    statements with their locator probe and carrier read-back, and from a
    snapshot batch to its inserts.  The crates mysql_5_7, mysql_8_0 and mysql_8_4
    hold the same code with another [TARGET_VERSION]. *)
From S2P Require Import Prelude Text Codec Model Representation Outcome Validate Snapshot Plan Floats JsonText Convert RowSql MyRender.

(** ** Planned statements *)
Record MyQuery := mkMyQuery { mq_sql : string; mq_params : list MyValue }.

Inductive ReadbackExpected :=
| RbSqlNull
| RbLogicalValue (v : LogicalValue)
| RbEnvelope (bytes : list byte).

Record ReadbackCheck := mkCheck { rc_query : MyQuery; rc_column : string; rc_expected : ReadbackExpected }.

Record MyStatement := mkMyStatement {
  ms_sql : string;
  ms_params : list MyValue;
  ms_probe : option MyQuery;
  ms_operation : Operation;
  ms_verification : list ReadbackCheck
}.

Record MyTransaction := mkMyTransaction {
  mt_source_transaction_id : string;
  mt_source_uuid : string;
  mt_target_build : option ServerBuildIdentity;
  mt_commit_cursor : SourceCursor;
  mt_tables : list (string * string);
  mt_statements : list MyStatement
}.

Record MySnapshotSql := mkMySnapshotSql { mss_statements : list string; mss_parameters : list (list MyValue) }.

(** ** Identifiers *)
Definition BACKTICK : byte := "096"%char.
Definition quote_identifier (identifier : string) : string :=
  String BACKTICK (of_bytes (concat ((λ c, if bool_decide (c = BACKTICK) then [BACKTICK; BACKTICK] else [c])
                                      <$> sbytes identifier)))
  +:+ String BACKTICK "".
Definition qualified_table (schema table : string) : string :=
  quote_identifier schema +:+ "." +:+ quote_identifier table.
Definition column_list (columns : list ColumnDatum) : string :=
  join ", " ((λ c, quote_identifier (col_name c)) <$> columns).

Section planner.
Context `{B64 : Base64, SHA : Sha256, JP : JsonPrinter, PS : PlanSerde, FT : FloatText}.
Context (target_version : string) (input_json : PlanDigestInput → list byte).
Notation is_5_7 := (bool_decide (target_version = "5.7"%string)).

Definition column_plan (schema table : string) (column : ColumnDatum) (plans : list ColumnConversionPlan) :
    option ColumnConversionPlan := find_plan plans (lineage schema table (col_name column)).

(** [expect("validated image")]: the panic is unreachable on a validated
    transaction. *)
Definition validated_image {A} (o : option A) : io A := ok_or (other "validated image") o.
Definition image_of {A} (o : option A) : io A := ok_or (other "ChangeEvent is missing an image") o.

(** ** Placeholders *)
Definition charset_placeholder (charset : string) : string :=
  "CONVERT(CAST(? AS BINARY) USING " +:+ charset +:+ ")".

Definition planned_placeholder (plan : option ColumnConversionPlan) : string :=
  match plan with
  | None => "?"
  | Some plan =>
      if is_5_7 || negb (equals (target_parameter plan "conversion_kind") "spatial") then "?" else
      match target_parameter plan "target_srid" with
      | Some srid => if is_some (parse_i32 srid) then "ST_GeomFromWKB(?, " +:+ srid +:+ ")"
                     else "ST_GeomFromWKB(?)"
      | None => "ST_GeomFromWKB(?)"
      end
  end.

Definition value_placeholder_for_key (schema table : string) (column : ColumnDatum)
    (plans : list ColumnConversionPlan) : string :=
  match col_datum column with
  | Value (VText charset _ _) =>
      match mysql_charset_name charset with
      | Ok charset => charset_placeholder charset
      | Err _ => planned_placeholder (column_plan schema table column plans)
      end
  | _ => planned_placeholder (column_plan schema table column plans)
  end.
Definition value_placeholder (change : RowChange) (column : ColumnDatum) (plans : list ColumnConversionPlan) : string :=
  value_placeholder_for_key (chg_schema change) (chg_table change) column plans.

(** ** Values under a plan *)
Definition is_logical_carrier (kind : option string) : bool :=
  equals kind "recursive" || equals kind "logical_value_json".

Definition logical_value_json (value : LogicalValue) : io string :=
  let? json := ok_or invalid_data (ps_value_json value) in Ok (of_bytes json).

Definition bind_datum_with_plan (schema table : string) (column : ColumnDatum)
    (plans : list ColumnConversionPlan) : io MyValue :=
  let plan := column_plan schema table column plans in
  match col_datum column with
  | Unavailable | Unchanged => refuse
  | DNull => Ok MyNull
  | Value value =>
      match plan with
      | Some plan =>
          let kind := target_parameter plan "conversion_kind" in
          if is_logical_carrier kind then
            check_value plan value ;?
            (let? json := logical_value_json value in Ok (MyBytes (sbytes json)))
          else match value with
               | VText charset b _ =>
                   let? _ := mysql_charset_name charset in
                   let? bytes := decode_bytes b in Ok (MyBytes bytes)
               | _ => if equals kind "spatial" then mysql_spatial_value target_version value
                      else bind_logical_value value
               end
      | None => bind_logical_value value
      end
  | EnvelopeDatum envelope =>
      match plan with
      | Some plan =>
          if equals (target_parameter plan "conversion_kind") "source_representation" then
            check_envelope plan envelope ;?
            (let? bytes := ok_or (other "invalid JSON") (ps_envelope_json envelope) in Ok (MyBytes bytes))
          else refuse
      | None => refuse
      end
  end.
Definition bind_column_with_plan (change : RowChange) (column : ColumnDatum)
    (plans : list ColumnConversionPlan) : io MyValue :=
  bind_datum_with_plan (chg_schema change) (chg_table change) column plans.

(** ** Locators: conjunct and parameter of each key column, in key order *)
Definition key_conjunct (placeholder : string) (name : string) (datum : Datum) (bound : io MyValue) :
    io (string * list MyValue) :=
  match datum with
  | Unavailable | Unchanged => refuse
  | DNull => Ok (name +:+ " IS NULL", [])
  | Value (VText _ _ _) | Value (VBinary _) =>
      let? v := bound in
      Ok ("CAST(" +:+ name +:+ " AS BINARY) = CAST(" +:+ placeholder +:+ " AS BINARY)", [v])
  | Value _ => let? v := bound in Ok (name +:+ " = " +:+ placeholder, [v])
  | EnvelopeDatum _ => refuse
  end.
Definition all_predicates (conjunct : ColumnDatum → io (string * list MyValue)) (row : list ColumnDatum) :
    io (string * list MyValue) :=
  let keys := key_columns row in
  if lempty keys then refuse else
  let? predicates := mapM conjunct keys in
  Ok (join " AND " (fst <$> predicates), concat (snd <$> predicates)).

Definition key_predicates (row : list ColumnDatum) : io (string * list MyValue) :=
  all_predicates (λ c, key_conjunct "?" (quote_identifier (col_name c)) (col_datum c) (bind_datum (col_datum c))) row.
Definition key_predicates_with_plans (schema table : string) (row : list ColumnDatum)
    (plans : list ColumnConversionPlan) : io (string * list MyValue) :=
  all_predicates (λ c,
    key_conjunct (value_placeholder_for_key schema table c plans) (quote_identifier (col_name c)) (col_datum c)
      (bind_datum_with_plan schema table c plans)) row.

(** ** Row changes *)
Definition ensure_non_empty_row (row : list ColumnDatum) : io () := if lempty row then refuse else Ok ().

Definition insert_text (change : RowChange) (columns : list ColumnDatum) (values : list string) : string :=
  "INSERT INTO " +:+ qualified_table (chg_schema change) (chg_table change) +:+ " (" +:+ column_list columns
  +:+ ") VALUES (" +:+ join ", " values +:+ ");".
Definition assignments (columns : list ColumnDatum) (values : list string) : string :=
  join ", " (zip_with (λ c v, quote_identifier (col_name c) +:+ " = " +:+ v) columns values).
Definition update_text (change : RowChange) (columns : list ColumnDatum) (values : list string) (predicates : string) : string :=
  "UPDATE " +:+ qualified_table (chg_schema change) (chg_table change) +:+ " SET " +:+ assignments columns values
  +:+ " WHERE " +:+ predicates +:+ ";".
Definition delete_text (change : RowChange) (predicates : string) : string :=
  "DELETE FROM " +:+ qualified_table (chg_schema change) (chg_table change) +:+ " WHERE " +:+ predicates +:+ ";".

(** [write_change] and [write_change_with_plans] differ in the placeholder and
    the binding of a column, and in the locator. *)
Definition write_insert (placeholder : ColumnDatum → string) (bind : ColumnDatum → io MyValue)
    (change : RowChange) : io (string * list MyValue) :=
  let? after := image_of (chg_after change) in
  ensure_non_empty_row after ;?
  let writable := writable_columns after in
  if lempty writable then refuse else
  let? params := mapM bind writable in
  Ok (insert_text change writable (placeholder <$> writable), params).

Definition write_update (placeholder : ColumnDatum → string) (bind : ColumnDatum → io MyValue)
    (locate : list ColumnDatum → io (string * list MyValue)) (change : RowChange) : io (string * list MyValue) :=
  let? before := image_of (chg_before change) in
  let? after := image_of (chg_after change) in
  ensure_non_empty_row before ;?
  ensure_non_empty_row after ;?
  let writable := writable_columns after in
  if lempty writable then refuse else
  let? params := mapM bind writable in
  let? k := locate before in
  Ok (update_text change writable (placeholder <$> writable) k.1, params ++ k.2).

Definition write_delete (locate : list ColumnDatum → io (string * list MyValue)) (change : RowChange) :
    io (string * list MyValue) :=
  let? before := image_of (chg_before change) in
  ensure_non_empty_row before ;?
  (let? k := locate before in Ok (delete_text change k.1, k.2)).

Definition write_change (change : RowChange) : io (string * list MyValue) :=
  match chg_operation change with
  | Insert => write_insert (λ _, "?"%string) (λ c, bind_datum (col_datum c)) change
  | Update => write_update (λ _, "?"%string) (λ c, bind_datum (col_datum c)) key_predicates change
  | Delete => write_delete key_predicates change
  end.

Definition locate_with_plans (change : RowChange) (plans : list ColumnConversionPlan) (row : list ColumnDatum) :
    io (string * list MyValue) :=
  key_predicates_with_plans (chg_schema change) (chg_table change) row plans.
Definition write_change_with_plans (change : RowChange) (plans : list ColumnConversionPlan) :
    io (string * list MyValue) :=
  match chg_operation change with
  | Insert => write_insert (λ c, value_placeholder change c plans) (λ c, bind_column_with_plan change c plans) change
  | Update => write_update (λ c, value_placeholder change c plans) (λ c, bind_column_with_plan change c plans)
                (locate_with_plans change plans) change
  | Delete => write_delete (locate_with_plans change plans) change
  end.

Definition probe_text (change : RowChange) (selected predicates : string) : string :=
  "SELECT " +:+ selected +:+ " FROM " +:+ qualified_table (chg_schema change) (chg_table change)
  +:+ " WHERE " +:+ predicates +:+ " LIMIT 2 FOR UPDATE".
Definition probe (locate : list ColumnDatum → io (string * list MyValue)) (change : RowChange) : io (option MyQuery) :=
  match chg_operation change with
  | Insert => Ok None
  | _ =>
      let? before := validated_image (chg_before change) in
      let? k := locate before in
      Ok (Some (mkMyQuery (probe_text change "1" k.1) k.2))
  end.

(** ** Carrier read-back *)
Definition readback_expected (plan : ColumnConversionPlan) (datum : Datum) : io (option ReadbackExpected) :=
  let kind := target_parameter plan "conversion_kind" in
  if negb (is_logical_carrier kind || equals kind "source_representation") then Ok None else
  match datum with
  | DNull => Ok (Some RbSqlNull)
  | Value value => if is_logical_carrier kind then check_value plan value ;? Ok (Some (RbLogicalValue value)) else refuse
  | EnvelopeDatum envelope =>
      if equals kind "source_representation" then
        check_envelope plan envelope ;?
        (let? bytes := ok_or (other "invalid JSON") (ps_envelope_json envelope) in Ok (Some (RbEnvelope bytes)))
      else refuse
  | Unchanged | Unavailable => Ok None
  end.

Definition column_readback (change : RowChange) (plans : list ColumnConversionPlan) (after : list ColumnDatum)
    (column : ColumnDatum) : io (option ReadbackCheck) :=
  match column_plan (chg_schema change) (chg_table change) column plans with
  | None => Ok None
  | Some plan =>
      let? expected := readback_expected plan (col_datum column) in
      match expected with
      | None => Ok None
      | Some expected =>
          let? locator := mapM (resolve_key change) (filter (λ c, is_key c = true) after) in
          let? k := locate_with_plans change plans locator in
          Ok (Some (mkCheck (mkMyQuery (probe_text change (quote_identifier (col_name column)) k.1) k.2)
                      (col_name column) expected))
      end
  end.

Definition readback_checks (change : RowChange) (plans : list ColumnConversionPlan) : io (list ReadbackCheck) :=
  match chg_operation change with
  | Delete => Ok []
  | _ =>
      let? after := supported (chg_after change) in
      let? checks := mapM (column_readback change plans after) after in
      Ok (omap id checks)
  end.

(** ** What the sink supports *)
Definition each_image (change : RowChange) (check : list ColumnDatum → io ()) : io () :=
  (let? identity := validated_image (match chg_after change with Some r => Some r | None => chg_before change end) in
   check identity) ;?
  match chg_before change with Some before => check before | None => Ok () end ;?
  match chg_after change with Some after => check after | None => Ok () end.

Definition supported_image (check : ColumnDatum → io ()) (image : list ColumnDatum) : io () :=
  if negb (existsb is_key image) then refuse
  else each check (filter (λ c, col_generated c = false) image).

(** [bind_logical_value(value).map_err(capability_failure)] after the type test. *)
Definition ensure_bindable (column : ColumnDatum) (value : LogicalValue) : io () :=
  ensure_source_value_type (col_native_type column) value (col_primary_key_ordinal column) ;?
  (let? _ := map_err (λ _, capability_failure) (bind_logical_value value) in Ok ()).

Definition ensure_supported_image (image : list ColumnDatum) : io () :=
  supported_image (λ column,
    match col_datum column with Value value => ensure_bindable column value | _ => Ok () end) image.
Definition ensure_supported_change (change : RowChange) : io () := each_image change ensure_supported_image.

Definition is_text (d : Datum) : bool := match d with Value (VText _ _ _) => true | _ => false end.
Definition is_envelope (d : Datum) : bool := match d with EnvelopeDatum _ => true | _ => false end.

Definition ensure_supported_image_with_plans (change : RowChange) (plans : list ColumnConversionPlan)
    (image : list ColumnDatum) : io () :=
  supported_image (λ column,
    if is_absent (col_datum column) then Ok () else
    let kind := conversion_kind (column_plan (chg_schema change) (chg_table change) column plans) in
    if is_logical_carrier kind || equals kind "source_representation" || equals kind "spatial"
       || is_envelope (col_datum column) || is_text (col_datum column)
    then let? _ := bind_column_with_plan change column plans in Ok ()
    else match col_datum column with Value value => ensure_bindable column value | _ => Ok () end) image.
Definition ensure_supported_change_with_plans (change : RowChange) (plans : list ColumnConversionPlan) : io () :=
  each_image change (ensure_supported_image_with_plans change plans).

(** ** The plans *)
Definition validate_plan_coverage (validated : ValidatedTransaction) (plans : list ColumnConversionPlan) : io () :=
  each (λ change,
    each (λ column,
      if is_none (column_plan (chg_schema change) (chg_table change) column plans)
      then capability_code "plan_missing_for_column" else Ok ())
      (filter (λ c, col_generated c = false) (change_columns change)))
    (tx_changes (vt_transaction validated)).

Definition validate_plan_header (plan : ColumnConversionPlan) : io () :=
  if negb (verify_digest input_json plan) then capability_code "plan_digest_invalid"
  else if negb (bool_decide (pl_sink_connector plan = mkConnector "mysql" target_version))
  then capability_code "sink_connector_mismatch" else
  match pl_target_build plan with
  | None => capability_code "target_build_missing"
  | Some build =>
      if negb (bool_decide (bld_product build = "mysql"%string))
         || negb (starts_with target_version (bld_version build))
      then capability_code "target_build_mismatch"
      else if bool_decide (pl_qualification plan = Unsupported) then capability_code "unsupported_plan"
      else match pl_confirmation plan with
           | ConfirmationRequired => capability_code "confirmation_required"
           | _ => Ok ()
           end
  end.

Definition validate_plan_headers (plans : list ColumnConversionPlan) : io () :=
  match plans with
  | [] => capability_code "plans_missing"
  | first :: _ =>
      each validate_plan_header plans ;?
      (if existsb (λ plan, negb (bool_decide (pl_target_build plan = pl_target_build first))) plans
       then capability_code "target_build_mismatch" else Ok ())
  end.

(** ** Transactions *)
Definition sql_transaction (build : option ServerBuildIdentity) (t : ChangeTransaction)
    (statements : list MyStatement) : MyTransaction :=
  mkMyTransaction (tx_id t) (src_id (tx_source t)) build (tx_commit_cursor t)
    (table_set ((λ c, (chg_schema c, chg_table c)) <$> tx_changes t)) statements.

Definition plain_statement (change : RowChange) : io MyStatement :=
  ensure_supported_change change ;?
  (let? rendered := write_change change in
   let? probe := probe key_predicates change in
   Ok (mkMyStatement rendered.1 rendered.2 probe (chg_operation change) [])).
Definition sql (validated : ValidatedTransaction) : io MyTransaction :=
  let transaction := vt_transaction validated in
  let? statements := mapM plain_statement (tx_changes transaction) in
  Ok (sql_transaction None transaction statements).

Definition planned_statement (plans : list ColumnConversionPlan) (change : RowChange) : io MyStatement :=
  ensure_supported_change_with_plans change plans ;?
  (let? rendered := write_change_with_plans change plans in
   let? probe := probe (locate_with_plans change plans) change in
   let? verification := readback_checks change plans in
   Ok (mkMyStatement rendered.1 rendered.2 probe (chg_operation change) verification)).
Definition planned_sql (validated : ValidatedTransaction) (plans : list ColumnConversionPlan) : io MyTransaction :=
  let transaction := vt_transaction validated in
  let? statements := mapM (planned_statement plans) (tx_changes transaction) in
  Ok (sql_transaction (first ← head plans; pl_target_build first) transaction statements).

Definition sql_with_plans (validated : ValidatedTransaction) (plans : list ColumnConversionPlan) : io MyTransaction :=
  validate_plan_headers plans ;?
  validate_plan_coverage validated plans ;?
  (let? converted :=
     match convert_transaction_with_plans (vt_transaction validated) plans with
     | Some m => planned_io m
     | None => refuse
     end in
   let? converted := map_err (λ _, other "invalid transaction") (Validate.validate converted) in
   planned_sql converted plans).

(** ** Snapshots *)
Definition ensure_supported_snapshot_image (image : list ColumnDatum) : io () :=
  supported_image (λ column,
    match col_datum column with
    | Value value =>
        ensure_source_value_type (col_native_type column) value (col_primary_key_ordinal column) ;?
        match value with
        | VText charset b _ =>
            let? _ := mysql_charset_name charset in let? _ := decode_bytes b in Ok ()
        | VSpatial _ _ _ _ _ _ => let? _ := mysql_spatial_value target_version value in Ok ()
        | _ => let? _ := map_err (λ _, capability_failure) (bind_logical_value value) in Ok ()
        end
    | _ => Ok ()
    end) image.

Definition snapshot_placeholder (column : ColumnDatum) : io string :=
  match col_datum column with
  | Value (VSpatial _ _ _ _ srid _) =>
      Ok (if is_5_7 then "?" else
          match srid with
          | Some srid => "ST_GeomFromWKB(?, " +:+ show_int srid +:+ ")"
          | None => "ST_GeomFromWKB(?)"
          end)%string
  | Value (VText charset _ _) => let? charset := mysql_charset_name charset in Ok (charset_placeholder charset)
  | _ => Ok "?"%string
  end.

Definition bind_snapshot_column (column : ColumnDatum) : io MyValue :=
  match col_datum column with
  | Value (VSpatial _ _ _ _ _ _ as value) => mysql_spatial_value target_version value
  | Value (VText _ b _) => let? bytes := decode_bytes b in Ok (MyBytes bytes)
  | datum => bind_datum datum
  end.

Definition snapshot_row (schema table : string) (row : list ColumnDatum) : io (string * list MyValue) :=
  ensure_supported_snapshot_image row ;?
  let writable := writable_columns row in
  if lempty writable then refuse else
  let? placeholders := mapM snapshot_placeholder writable in
  let? params := mapM bind_snapshot_column writable in
  Ok ("INSERT INTO " +:+ qualified_table schema table +:+ " (" +:+ column_list writable
      +:+ ") VALUES (" +:+ join ", " placeholders +:+ ");", params).

Definition snapshot_sql (validated : ValidatedSnapshotBatch) : io MySnapshotSql :=
  let batch := vb_batch validated in
  if eq_ignore_case (bt_schema batch) "CDC" then refuse else
  let? rows := mapM (snapshot_row (bt_schema batch) (bt_table batch)) (bt_rows batch) in
  Ok (mkMySnapshotSql (fst <$> rows) (snd <$> rows)).
End planner.

(** ** The script shown to the operator *)
Definition MY_NL : string := String "010" "".
Definition my_sanitize_comment (value : string) : string :=
  of_bytes ((λ c : byte, if bool_decide (c ∈ ["013"; "010"]%char) then " "%char else c) <$> sbytes value).
Definition script (target_version : string) (p : MyTransaction) : string :=
  ("-- cdc transaction=" +:+ my_sanitize_comment (mt_source_transaction_id p) +:+ " target=mysql-"
   +:+ target_version +:+ MY_NL +:+ "START TRANSACTION;" +:+ MY_NL)
  +:+ foldr (λ st rest, ms_sql st +:+ MY_NL +:+ rest) ("COMMIT;" +:+ MY_NL) (mt_statements p).
