(* ===== verification/MySqlSpec.v ===== *)
(** * What the MySQL planner produces

    The theorems on MyRender.v and MySql.v: an instant is bound as its calendar
    date, placeholders are of four harmless forms, a statement binds one value
    per placeholder in order and addresses its row by the full key, the planned
    transaction keeps its identity and position, and only plans made for this
    server version are applied. *)
From S2P Require Import Prelude Text Codec Model Representation Outcome Calendar Validate Plan Floats JsonText Convert RowSql MyRender MySql.

Module Spec.

(** ** Instants *)

(** The date computed for an instant is the one of the calendar. *)
Lemma unix_instant_civil text seconds nanoseconds :
  validate_integer text true = Ok text → parse_i64 text = Some seconds →
  0 ≤ nanoseconds ≤ 999999999 → nanoseconds mod 1000 = 0 →
  unix_instant_value text nanoseconds =
    let '(y, m, d) := civil_from_days (seconds / 86400) in
    let s := seconds mod 86400 in
    if negb (in_range 1 65535 y) then refuse
    else Ok (MyDate y m d (Z.quot s 3600) (Z.quot (Z.rem s 3600) 60) (Z.rem s 60) (nanoseconds / 1000)).
Proof.
  intros Hv Hp Hn Hm. unfold unix_instant_value. rewrite Hv.
  assert ((999999999 <? nanoseconds) || negb (nanoseconds mod 1000 =? 0) = false) as ->.
  { rewrite orb_false_iff, negb_false_iff. lia. }
  cbn [mbind result_bind]. rewrite Hp. reflexivity.
Qed.

(** The calendar date and time of day, in UTC, of an instant. *)
Definition utc_date (seconds microseconds : Z) (v : MyValue) : Prop :=
  ∃ y mo d h mi s, v = MyDate y mo d h mi s microseconds
    ∧ valid_date y mo d ∧ 1 ≤ y ≤ 65535 ∧ 0 ≤ h < 24 ∧ 0 ≤ mi < 60 ∧ 0 ≤ s < 60
    ∧ days_from_civil y mo d * 86400 + h * 3600 + mi * 60 + s = seconds.

Lemma instant_utc (text : string) (seconds nanoseconds : Z) (v : MyValue) :
  validate_integer text true = Ok text → parse_i64 text = Some seconds →
  0 ≤ nanoseconds ≤ 999999999 → nanoseconds mod 1000 = 0 →
  unix_instant_value text nanoseconds = Ok v ↔ utc_date seconds (nanoseconds / 1000) v.
Proof.
  unfold utc_date.
  intros Hv Hp Hn Hm. rewrite (unix_instant_civil _ _ _ Hv Hp Hn Hm).
  pose proof (days_civil_roundtrip (seconds / 86400)) as Hd.
  destruct (civil_from_days (seconds / 86400)) as [[y m] d] eqn:Ec. destruct Hd as [Hvd Hd].
  pose proof (Z.mod_pos_bound seconds 86400 ltac:(lia)) as Hs.
  rewrite refuse_if, negb_false_iff, in_range_spec. split.
  - intros [Hy [= <-]]. eexists _, _, _, _, _, _. split; [reflexivity|].
    rewrite Hd. rewrite Z.quot_div_nonneg, !Z.rem_mod_nonneg, Z.quot_div_nonneg by (try apply Z.mod_pos_bound; lia).
    split_and!; try done; try lia; try (apply Z.div_pos; lia);
      try (apply Z.mod_pos_bound; lia); try (apply Z.div_lt_upper_bound; lia).
    + apply Z.div_pos; [apply Z.mod_pos_bound|]; lia.
    + apply Z.div_lt_upper_bound; [lia|]. pose proof (Z.mod_pos_bound (seconds mod 86400) 3600). lia.
    + pose proof (Z.div_mod seconds 86400). pose proof (Z.div_mod (seconds mod 86400) 3600).
      pose proof (Z.div_mod ((seconds mod 86400) mod 3600) 60).
      assert ((seconds mod 86400) mod 60 = ((seconds mod 86400) mod 3600) mod 60) as ->.
      { replace 3600 with (60 * 60) by lia. rewrite Z.rem_mul_r by lia.
        rewrite Z.add_mod, (Z.mul_comm 60), Z.mod_mul, Z.add_0_r, !Z.mod_mod by lia. done. }
      lia.
  - intros (y' & mo & d' & h & mi & s & -> & Hvd' & Hy & Hh & Hmi & Hsec & Hsum).
    assert (days_from_civil y' mo d' = seconds / 86400) as Hday.
    { apply (Z.div_unique seconds 86400 _ (h * 3600 + mi * 60 + s)); lia. }
    assert (seconds mod 86400 = h * 3600 + mi * 60 + s) as Hmod.
    { symmetry. apply (Z.mod_unique seconds 86400 (days_from_civil y' mo d')); lia. }
    rewrite <- Hday, civil_days_inverse in Ec by done. injection Ec as <- <- <-. split; [done|].
    rewrite Hmod. rewrite !Z.quot_div_nonneg, !Z.rem_mod_nonneg by (try apply Z.rem_nonneg; lia).
    assert ((h * 3600 + mi * 60 + s) / 3600 = h) as -> by (symmetry; apply (Z.div_unique _ _ _ (mi * 60 + s)); lia).
    assert ((h * 3600 + mi * 60 + s) mod 3600 = mi * 60 + s) as -> by (symmetry; apply (Z.mod_unique _ _ h); lia).
    assert ((mi * 60 + s) / 60 = mi) as -> by (symmetry; apply (Z.div_unique _ _ _ s); lia).
    assert ((h * 3600 + mi * 60 + s) mod 60 = s) as -> by (symmetry; apply (Z.mod_unique _ _ (h * 60 + mi)); lia).
    done.
Qed.

(** An instant with whole microseconds is bound as exactly its UTC calendar
    date and time of day, or refused when its year does not fit the driver. *)
Theorem instant_exact (text : string) (seconds nanoseconds : Z) (v : MyValue) :
  validate_integer text true = Ok text → parse_i64 text = Some seconds →
  0 ≤ nanoseconds ≤ 999999999 → nanoseconds mod 1000 = 0 →
  unix_instant_value text nanoseconds = Ok v ↔ utc_date seconds (nanoseconds / 1000) v.
Proof. apply instant_utc. Qed.

Lemma instant_exact_witness :
  unix_instant_value "1709210096" 250000000 = Ok (MyDate 2024 2 29 12 34 56 250000)
  ∧ (unix_instant_value "1709210096" 250000000 = Ok (MyDate 2024 2 29 12 34 56 250000)
     ↔ utc_date 1709210096 (250000000 / 1000) (MyDate 2024 2 29 12 34 56 250000)).
Proof.
  split; [vm_compute; reflexivity|].
  apply (instant_exact "1709210096" 1709210096 250000000); [vm_compute; reflexivity..|lia|vm_compute; reflexivity].
Defined.

(** ** Placeholders *)
Definition ident_byte (c : byte) : bool := is_ascii_alphanumeric c || bool_decide (c = "_"%char).

(** The four forms of a placeholder. *)
Inductive placeholder_form : string → Prop :=
| plain_form : placeholder_form "?"
| charset_form charset :
    sempty charset = false → all_bytes ident_byte charset = true → placeholder_form (charset_placeholder charset)
| wkb_form : placeholder_form "ST_GeomFromWKB(?)"
| srid_form srid :
    is_Some (parse_i32 srid) ∨ (∃ z, srid = show_int z) → placeholder_form ("ST_GeomFromWKB(?, " +:+ srid +:+ ")").

Lemma charset_name_ok charset name :
  mysql_charset_name charset = Ok name ↔
  name = charset ∧ sempty charset = false ∧ all_bytes ident_byte charset = true.
Proof.
  unfold mysql_charset_name. rewrite refuse_if, orb_false_iff, negb_false_iff. naive_solver.
Qed.

Section spec.
Context `{B64 : Base64, SHA : Sha256, JP : JsonPrinter, PS : PlanSerde, FT : FloatText}.
Context (target_version : string) (input_json : PlanDigestInput → list byte).

Lemma planned_placeholder_form plan : placeholder_form (planned_placeholder target_version plan).
Proof.
  unfold planned_placeholder. destruct plan as [plan|]; [|constructor]. case_match; [constructor|].
  destruct (target_parameter plan "target_srid") as [srid|]; [|constructor].
  destruct (parse_i32 srid) eqn:E; cbn; [|constructor]. constructor. left. eauto.
Qed.

(** Nothing of a plan or of a value but a character-set identifier and an SRID
    reaches the text of a placeholder. *)
Theorem placeholders_safe (schema table : string) (column : ColumnDatum) (plans : list ColumnConversionPlan) :
  placeholder_form (value_placeholder_for_key target_version schema table column plans)
  ∧ ∀ text, snapshot_placeholder target_version column = Ok text → placeholder_form text.
Proof.
  split.
  - unfold value_placeholder_for_key. destruct (col_datum column) as [| | |v|]; try apply planned_placeholder_form.
    destruct v; try apply planned_placeholder_form. destruct (mysql_charset_name charset) eqn:E.
    + apply charset_name_ok in E as (-> & ? & ?). by constructor.
    + apply planned_placeholder_form.
  - unfold snapshot_placeholder. intros text. destruct (col_datum column) as [| | |v|]; try (intros [= <-]; constructor).
    destruct v; try (intros [= <-]; constructor).
    + intros (name & (-> & ? & ?)%charset_name_ok & [= <-])%bind_ok. by constructor.
    + intros [= <-]. case_match; [constructor|]. destruct srid; constructor. eauto.
Qed.

(** ** Statements *)
Lemma nonempty_row row : ensure_non_empty_row row = Ok () ↔ row ≠ [].
Proof. by destruct row. Qed.

Lemma all_predicates_ok conjunct row text params :
  all_predicates conjunct row = Ok (text, params) ↔
  key_columns row ≠ [] ∧ ∃ ks, Forall2 (λ c k, conjunct c = Ok k) (key_columns row) ks
    ∧ text = join " AND " (fst <$> ks) ∧ params = concat (snd <$> ks).
Proof.
  unfold all_predicates. rewrite refuse_empty, bind_ok. setoid_rewrite mapM_ok. naive_solver.
Qed.

(** The conjunct and the parameters of a key column. *)
Definition key_part (change : RowChange) (plans : list ColumnConversionPlan) (c : ColumnDatum)
    (k : string * list MyValue) : Prop :=
  key_conjunct (value_placeholder target_version change c plans) (quote_identifier (col_name c)) (col_datum c)
    (bind_column_with_plan target_version change c plans) = Ok k.
Definition bound (change : RowChange) (plans : list ColumnConversionPlan) (c : ColumnDatum) (v : MyValue) : Prop :=
  bind_column_with_plan target_version change c plans = Ok v.
Notation placeholders change plans cs := ((λ c, value_placeholder target_version change c plans) <$> cs).

(** The statement of a change under its plans: a placeholder and a value for
    each writable column in row order, then the conjunct of each key column of
    the row before, in key order, with its value unless it is NULL. *)
Inductive written (change : RowChange) (plans : list ColumnConversionPlan) : string → list MyValue → Prop :=
| written_insert after vs :
    chg_operation change = Insert → chg_after change = Some after → after ≠ [] → writable_columns after ≠ [] →
    Forall2 (bound change plans) (writable_columns after) vs →
    written change plans
      (insert_text change (writable_columns after) (placeholders change plans (writable_columns after))) vs
| written_update before after vs ks :
    chg_operation change = Update → chg_before change = Some before → chg_after change = Some after →
    before ≠ [] → after ≠ [] → writable_columns after ≠ [] → key_columns before ≠ [] →
    Forall2 (bound change plans) (writable_columns after) vs →
    Forall2 (key_part change plans) (key_columns before) ks →
    written change plans
      (update_text change (writable_columns after) (placeholders change plans (writable_columns after))
         (join " AND " (fst <$> ks)))
      (vs ++ concat (snd <$> ks))
| written_delete before ks :
    chg_operation change = Delete → chg_before change = Some before → before ≠ [] → key_columns before ≠ [] →
    Forall2 (key_part change plans) (key_columns before) ks →
    written change plans (delete_text change (join " AND " (fst <$> ks))) (concat (snd <$> ks)).

Lemma image_ok {A} (o : option A) a : image_of o = Ok a ↔ o = Some a.
Proof. apply ok_or_ok. Qed.

Lemma locate_ok change plans row text params :
  locate_with_plans target_version change plans row = Ok (text, params) ↔
  key_columns row ≠ [] ∧ ∃ ks, Forall2 (key_part change plans) (key_columns row) ks
    ∧ text = join " AND " (fst <$> ks) ∧ params = concat (snd <$> ks).
Proof. apply all_predicates_ok. Qed.

Lemma write_change_ok (change : RowChange) (plans : list ColumnConversionPlan) (text : string) (params : list MyValue) :
  write_change_with_plans target_version change plans = Ok (text, params) ↔ written change plans text params.
Proof.
  unfold write_change_with_plans, write_insert, write_update, write_delete. split.
  - destruct (chg_operation change) eqn:Eop; intros H.
    + apply bind_ok in H as (after & Ha%image_ok & [Hne%nonempty_row [Hw H]%refuse_empty]%seq_ok).
      apply bind_ok in H as (vs & Hvs%mapM_ok & [= <- <-]). by constructor.
    + apply bind_ok in H as (before & Hb%image_ok & (after & Ha%image_ok & H)%bind_ok).
      apply seq_ok in H as [Hnb%nonempty_row [Hna%nonempty_row [Hw H]%refuse_empty]%seq_ok].
      apply bind_ok in H as (vs & Hvs%mapM_ok & ([t ps] & (Hk & ks & Hks & -> & ->)%locate_ok & [= <- <-])%bind_ok).
      by eapply written_update.
    + apply bind_ok in H as (before & Hb%image_ok & [Hnb%nonempty_row H]%seq_ok).
      apply bind_ok in H as ([t ps] & (Hk & ks & Hks & -> & ->)%locate_ok & [= <- <-]). by eapply written_delete.
  - destruct 1 as [after vs Hop Ha Hna Hw Hvs|before after vs ks Hop Hb Ha Hnb Hna Hw Hk Hvs Hks
                  |before ks Hop Hb Hnb Hk Hks]; rewrite Hop.
    + apply bind_ok. exists after. rewrite image_ok, seq_ok, nonempty_row, refuse_empty. split_and!; [done..|].
      apply bind_ok. exists vs. by rewrite mapM_ok.
    + apply bind_ok. exists before. rewrite image_ok. split; [done|].
      apply bind_ok. exists after. rewrite image_ok, !seq_ok, !nonempty_row, refuse_empty. split_and!; [done..|].
      apply bind_ok. exists vs. rewrite mapM_ok. split; [done|].
      apply bind_ok. eexists (_, _). rewrite locate_ok. split; [eauto|done].
    + apply bind_ok. exists before. rewrite image_ok, seq_ok, nonempty_row. split_and!; [done..|].
      apply bind_ok. eexists (_, _). rewrite locate_ok. split; [eauto|done].
Qed.

(** Writing a change succeeds exactly when its images are there, something is
    writable, the row before has a key and every value binds; the result is the
    statement of [written]. *)
Theorem write_change_exact (change : RowChange) (plans : list ColumnConversionPlan) (text : string) (params : list MyValue) :
  write_change_with_plans target_version change plans = Ok (text, params) ↔ written change plans text params.
Proof. apply write_change_ok. Qed.

(** ** Plan headers *)
Record header_ok (build : ServerBuildIdentity) (plan : ColumnConversionPlan) : Prop := {
  ho_digest : verify_digest input_json plan = true;
  ho_connector : pl_sink_connector plan = mkConnector "mysql" target_version;
  ho_build : pl_target_build plan = Some build;
  ho_qualification : pl_qualification plan ≠ Unsupported;
  ho_confirmation : pl_confirmation plan ≠ ConfirmationRequired
}.
Definition build_ok (build : ServerBuildIdentity) : Prop :=
  bld_product build = "mysql"%string ∧ starts_with target_version (bld_version build) = true.

Lemma my_header_ok plan :
  validate_plan_header target_version input_json plan = Ok () ↔ ∃ build, header_ok build plan ∧ build_ok build.
Proof.
  unfold validate_plan_header. rewrite !guarded, !negb_false_iff, bool_decide_eq_true.
  destruct (pl_target_build plan) as [build|] eqn:Eb.
  2:{ split; [by intros (_ & _ & ?)|]. intros (b & [] & _). congruence. }
  rewrite !guarded, orb_false_iff, !negb_false_iff, bool_decide_eq_true, bool_decide_eq_false.
  assert (match pl_confirmation plan with
          | ConfirmationRequired => capability_code "confirmation_required" | _ => Ok () end = Ok ()
          ↔ pl_confirmation plan ≠ ConfirmationRequired) as ->.
  { destruct (pl_confirmation plan); naive_solver. }
  split.
  - intros (Hd & Hs & Hb & Hq & Hc). by exists build.
  - intros (b & [Hd Hs Hb' Hq Hc] & Hb). assert (b = build) as -> by congruence. done.
Qed.

Lemma my_headers_ok (plans : list ColumnConversionPlan) :
  validate_plan_headers target_version input_json plans = Ok () ↔
  plans ≠ [] ∧ ∃ build, build_ok build ∧ Forall (header_ok build) plans.
Proof.
  unfold validate_plan_headers. destruct plans as [|first plans]; [by split; [|intros []]|].
  rewrite seq_ok, each_ok, guarded. set (all := first :: plans). split.
  - intros (Hall & Hsame & _). split; [done|].
    assert (Forall (λ plan, pl_target_build plan = pl_target_build first) all) as Hs.
    { apply Forall_forall. intros plan Hin. apply not_true_iff_false in Hsame. apply dec_stable. intros Hne.
      apply Hsame, existsb_exists. exists plan. rewrite <- list_elem_of_In. split; [done|].
      by rewrite bool_decide_eq_false_2. }
    rewrite Forall_forall in Hall. setoid_rewrite my_header_ok in Hall.
    destruct (Hall first) as (build & [_ _ Hb _ _] & Hok); [apply list_elem_of_here|].
    exists build. split; [done|]. apply Forall_forall. intros plan Hin.
    destruct (Hall plan Hin) as (b & Hh & _). rewrite Forall_forall in Hs. specialize (Hs plan Hin).
    assert (b = build) as -> by (destruct Hh; congruence). done.
  - intros (_ & build & Hb & Hall). split_and!.
    + eapply Forall_impl; [exact Hall|]. intros plan Hh. apply my_header_ok. eauto.
    + apply not_true_iff_false. intros (plan & Hin & Hne)%existsb_exists. rewrite <- list_elem_of_In in Hin.
      rewrite Forall_forall in Hall. destruct (Hall plan Hin) as [_ _ H1 _ _].
      destruct (Hall first (list_elem_of_here _ _)) as [_ _ H2 _ _].
      rewrite H1, H2, bool_decide_eq_true_2 in Hne by done. done.
    + done.
Qed.

(** Plans pass the header checks exactly when there is one and they were all
    made for one build of this MySQL version: digests intact, this sink, none
    unsupported or awaiting a confirmation. *)
Theorem my_headers_exact (plans : list ColumnConversionPlan) :
  validate_plan_headers target_version input_json plans = Ok () ↔
  plans ≠ [] ∧ ∃ build, build_ok build ∧ Forall (header_ok build) plans.
Proof. apply my_headers_ok. Qed.

(** ** Transactions *)
Lemma validate_coverage_ok v plans :
  validate_plan_coverage v plans = Ok () ↔ covered plans (vt_transaction v).
Proof.
  unfold validate_plan_coverage, covered. rewrite each_ok. apply Forall_iff. intros change. rewrite each_ok.
  rewrite !Forall_forall. setoid_rewrite list_elem_of_filter.
  assert (∀ c, (if is_none (column_plan (chg_schema change) (chg_table change) c plans)
                then capability_code "plan_missing_for_column" else Ok ()) = Ok ()
          ↔ ∃ plan, plan ∈ plans ∧ df_lineage_id (pl_source_field plan)
                                   = lineage (chg_schema change) (chg_table change) (col_name c)) as Hc.
  { intros c. unfold column_plan, find_plan. destruct (List.find _ plans) as [plan|] eqn:E; cbn.
    - apply List.find_some in E as [Hin H%bool_decide_eq_true]. rewrite <- list_elem_of_In in Hin. naive_solver.
    - split; [done|]. intros (plan & Hin & H). rewrite list_elem_of_In in Hin.
      pose proof (List.find_none _ _ E plan Hin) as Hn. cbn in Hn. by rewrite bool_decide_eq_true_2 in Hn. }
  setoid_rewrite Hc. naive_solver.
Qed.

(** A planned statement of a change. *)
Record planned_change (plans : list ColumnConversionPlan) (change : RowChange) (p : MyStatement) : Prop := {
  pc_written : written change plans (ms_sql p) (ms_params p);
  pc_operation : ms_operation p = chg_operation change;
  pc_supported : ensure_supported_change_with_plans target_version change plans = Ok ();
  pc_probe : match chg_operation change with
             | Insert => ms_probe p = None
             | _ => ∃ before ks, chg_before change = Some before ∧ Forall2 (key_part change plans) (key_columns before) ks
                     ∧ ms_probe p = Some (mkMyQuery (probe_text change "1" (join " AND " (fst <$> ks))) (concat (snd <$> ks)))
             end;
  pc_readbacks : readback_checks target_version change plans = Ok (ms_verification p)
}.

Lemma my_planned_statement_ok plans change p :
  planned_statement target_version plans change = Ok p → planned_change plans change p.
Proof.
  unfold planned_statement. rewrite seq_ok. intros (Hs & ([text params] & Hw & H)%bind_ok).
  apply write_change_ok in Hw.
  apply bind_ok in H as (q & Hq & (rb & Hrb & [= <-])%bind_ok). split; cbn; try done.
  unfold probe in Hq. destruct (chg_operation change); [by injection Hq as <-|..];
    apply bind_ok in Hq as (before & Hb%ok_or_ok & ([t ps] & (_ & ks & Hks & -> & ->)%locate_ok & [= <-])%bind_ok); eauto.
Qed.

Lemma my_planned_transaction (v : ValidatedTransaction) (plans : list ColumnConversionPlan) (p : MyTransaction) :
  sql_with_plans target_version input_json v plans = Ok p →
  let t := vt_transaction v in
  validate_plan_headers target_version input_json plans = Ok () ∧ covered plans t
  ∧ (mt_source_uuid p = src_id (tx_source t) ∧ mt_source_transaction_id p = tx_id t
     ∧ mt_commit_cursor p = tx_commit_cursor t)
  ∧ (∀ plan, plan ∈ plans → pl_target_build plan = mt_target_build p)
  ∧ (∀ table, table ∈ mt_tables p ↔ ∃ change, change ∈ tx_changes t ∧ table = (chg_schema change, chg_table change))
  ∧ NoDup (mt_tables p)
  ∧ ∃ t', Convert.Spec.transaction_converted plans t t' ∧ Validate.Spec.transaction_ok t'
     ∧ Forall2 (planned_change plans) (tx_changes t') (mt_statements p).
Proof.
  unfold sql_with_plans. rewrite !seq_ok, validate_coverage_ok.
  intros (Hh & Hc & (t' & Ht & (v' & Hv%map_err_ok & H)%bind_ok)%bind_ok). cbn zeta.
  destruct (Convert.Spec.transaction_answers (vt_transaction v) plans) as (r & Hr & Hspec).
  rewrite Hr in Ht. apply map_err_ok, Hspec in Ht. apply Validate.Spec.validate_spec in Hv as [-> Ht'].
  unfold planned_sql in H. cbn [vt_transaction] in H.
  apply bind_ok in H as (sts & Hsts & [= <-]). unfold sql_transaction. cbn.
  apply (mapM_ok_Forall2 _ (planned_change plans)) in Hsts; [|intros; by apply my_planned_statement_ok].
  pose proof Ht as [(-> & -> & _ & ->) Hch].
  assert ((λ c, (chg_schema c, chg_table c)) <$> tx_changes t'
          = (λ c, (chg_schema c, chg_table c)) <$> tx_changes (vt_transaction v)) as Hnames.
  { clear -Hch. induction Hch as [|c c' l l' [E _] _ IH]; cbn; [done|]. by rewrite IH, E. }
  destruct (table_set_spec ((λ c, (chg_schema c, chg_table c)) <$> tx_changes t')) as (_ & Hnd & Hin).
  split_and!; try done.
  - apply my_headers_ok in Hh as (Hne & build & _ & Hall). rewrite Forall_forall in Hall.
    intros plan Hp. destruct (Hall plan Hp) as [_ _ -> _ _]. destruct plans as [|first plans]; [done|].
    cbn. by destruct (Hall first (list_elem_of_here _ _)) as [_ _ -> _ _].
  - intros table. rewrite Hin, Hnames, list_elem_of_fmap. naive_solver.
  - by exists t'.
Qed.

(** C17: What the MySQL sink executes for a transaction is that transaction: its
    source, identity and position, one statement per change in order, each the
    statement of the converted change, on exactly the tables it changes, for the
    build the plans were made for. *)
Theorem my_transaction_exact (v : ValidatedTransaction) (plans : list ColumnConversionPlan) (p : MyTransaction) :
  sql_with_plans target_version input_json v plans = Ok p →
  let t := vt_transaction v in
  validate_plan_headers target_version input_json plans = Ok () ∧ covered plans t
  ∧ (mt_source_uuid p = src_id (tx_source t) ∧ mt_source_transaction_id p = tx_id t
     ∧ mt_commit_cursor p = tx_commit_cursor t)
  ∧ (∀ plan, plan ∈ plans → pl_target_build plan = mt_target_build p)
  ∧ (∀ table, table ∈ mt_tables p ↔ ∃ change, change ∈ tx_changes t ∧ table = (chg_schema change, chg_table change))
  ∧ NoDup (mt_tables p)
  ∧ ∃ t', Convert.Spec.transaction_converted plans t t' ∧ Validate.Spec.transaction_ok t'
     ∧ Forall2 (planned_change plans) (tx_changes t') (mt_statements p).
Proof. apply my_planned_transaction. Qed.
End spec.
End Spec.

(** ** An update replayed from PostgreSQL to MySQL 8.0 *)
Module Example14.
#[local] Existing Instance Rfc4648.base64.
#[local] Existing Instance SumDigest.sha256.
#[local] Existing Instance JsonText.Example10.plain_printer.
#[export] Instance serde14 : PlanSerde := {|
  ps_type _ := Some LogicalTypes.TBoolean;
  ps_members s := Some (split "," s);
  ps_metadata _ := None;
  ps_keys _ := None;
  ps_type_json _ := sbytes "boolean";
  ps_metadata_json _ := [];
  ps_keys_json _ := [];
  ps_value_json _ := None;
  ps_envelope_json _ := None
|}.
#[export] Instance floats14 : FloatText := {| display_float _ _ := "0"%string |}.

Definition json14 (_ : PlanDigestInput) : list byte := [].
Definition plan14 (column native : string) : ColumnConversionPlan :=
  mkPlan "cdc.column-conversion-plan.v1" "route" "1"
    (mkDefinition (lineage "public" "t" column) "s") (mkDefinition "target" "t")
    (mkConnector "postgresql" "15") (mkConnector "mysql" "8.0") None
    (Some (mkBuild "mysql" "oracle" "8.0.36" "8.0.36")) "mapping" "1"
    (mkTarget native ∅) (mkRule "rule" "1") "" "capability" "" None
    RangeChecked RiskNone None (mkLoss false false false false "") [] NotUsed NotRequired
    ∅ Reject "" (sha256_hex []).
Definition plans14 : list ColumnConversionPlan := [plan14 "id" "int"; plan14 "name" "text"].

Definition abc14 : list byte := ["097"; "098"; "099"]%char.
Definition row14 (name : Datum) : list ColumnDatum :=
  [mkColumn 1 "id" "integer" (Some 0) false None (Value (VInteger true 32 "7"));
   mkColumn 2 "name" "text" None false None name].
Definition name14 : Datum := Value (VText "utf8" (b64_encode abc14) None).
Definition update14 : RowChange :=
  mkChange None Update "public" "t" (mkCursor "f" "1" "") 0 "basis" (Some (row14 DNull)) (Some (row14 name14)).
Definition transaction14 : ChangeTransaction :=
  mkTransaction (mkSource "postgresql" "15" "s") "tx" (mkCursor "f" "1" "") (mkCursor "f" "2" "") [update14].

Definition statement14 : MyStatement :=
  let key := quote_identifier "id" +:+ " = ?" in
  mkMyStatement
    (update_text update14 (row14 name14) ["?"; charset_placeholder "utf8"]%string key)
    [MyInt 7; MyBytes abc14; MyInt 7]
    (Some (mkMyQuery (probe_text update14 "1" key) [MyInt 7])) Update [].
Definition sql14 : MyTransaction :=
  mkMyTransaction "tx" "s" (Some (mkBuild "mysql" "oracle" "8.0.36" "8.0.36")) (mkCursor "f" "2" "")
    [("public", "t")]%string [statement14].

Lemma my_transaction_exact_witness :
  sql_with_plans "8.0" json14 (mkValidated transaction14) plans14 = Ok sql14
  ∧ (validate_plan_headers "8.0" json14 plans14 = Ok () ∧ covered plans14 transaction14
     ∧ ("s"%string = "s"%string ∧ "tx"%string = "tx"%string ∧ mkCursor "f" "2" "" = mkCursor "f" "2" "")
     ∧ (∀ plan, plan ∈ plans14 → pl_target_build plan = mt_target_build sql14)
     ∧ (∀ table, table ∈ mt_tables sql14
                 ↔ ∃ change, change ∈ [update14] ∧ table = (chg_schema change, chg_table change))
     ∧ NoDup (mt_tables sql14)
     ∧ ∃ t', Convert.Spec.transaction_converted plans14 transaction14 t'
             ∧ Validate.Spec.transaction_ok t'
             ∧ Forall2 (Spec.planned_change "8.0" plans14) (tx_changes t') [statement14]).
Proof.
  assert (sql_with_plans "8.0" json14 (mkValidated transaction14) plans14 = Ok sql14)
    as H by (vm_compute; reflexivity).
  split; [exact H|]. exact (Spec.my_transaction_exact "8.0" json14 _ plans14 sql14 H).
Defined.
End Example14.
