(* ===== verification/Session.v ===== *)
(** * Database sessions of the sinks

    The state the checkpoint writers work on: the durable database (control
    table, sink identity, advisory locks, business data), the writer's own memory
    and the faults the connection will meet.  An operation is a function on this
    state that may fail; a failed operation keeps the state reached so far, and a
    database transaction that is not committed is lost with its handle, as both
    drivers roll back a dropped transaction.  What differs between the drivers
    is the class [Driver]. *)
From S2P Require Import Prelude Text Outcome.

(** The row of [cdc.log_info]. *)
Record ReplicationCheckpoint := mkCheckpoint {
  cp_task_id : string;
  cp_source_uuid : string;
  cp_sink_uuid : string;
  cp_binding : string;
  cp_mode : string;
  cp_file : string;
  cp_position : Z;
  cp_gtid_set : option string;
  cp_last_transaction_id : option string;
  cp_revision : Z;
  cp_applied_transactions : Z;
  cp_applied_rows : Z;
  cp_phase : string;
  cp_snapshot_rows : Z;
  cp_snapshot_gtids : option string
}.
#[export] Instance ReplicationCheckpoint_eq_dec : EqDecision ReplicationCheckpoint.
Proof. solve_decision. Defined.

Record CheckpointApplyResult := mkApplyResult {
  ar_checkpoint : ReplicationCheckpoint;
  ar_statements_executed : Z;
  ar_already_applied : bool
}.

(** [CheckpointWriter], its connection aside. *)
Record CheckpointWriter := mkWriter {
  w_task_id : string;
  w_source_uuid : string;
  w_sink_uuid : string;
  w_binding : string;
  w_checkpoint : option ReplicationCheckpoint;
  w_observed_gtids : option string;
  w_observed_position : option (string * Z)
}.

(** A database driver: its errors, how the sink reports them outside and at a
    COMMIT ([io::Error::other], [commit_error], [unknown_commit]), and the error
    of a connection that went away, which leaves the outcome of a COMMIT open. *)
Class Driver := {
  DriverError : Type;
  call_error : DriverError → IoError;
  commit_error : DriverError → IoError;
  connection_lost : string → DriverError;
  lost_commit_unknown message : commit_outcome_unknown (commit_error (connection_lost message)) = true
}.

(** What can happen to a call over the connection: nothing, an error before it
    took effect, or (for a COMMIT) a lost acknowledgement, the commit having
    taken effect or not. *)
Inductive Fault `{Driver} :=
| NoFault
| SqlFault (e : DriverError)
| CommitLost (applied : bool) (message : string).

(** The durable state of the server. *)
Record Db (D : Type) := mkDb {
  db_log_info : gmap string ReplicationCheckpoint;
  db_sink_uuid : option string;
  db_locks : gset string;
  db_data : D
}.
Arguments mkDb {D}. Arguments db_log_info {D}. Arguments db_sink_uuid {D}.
Arguments db_locks {D}. Arguments db_data {D}.

(** The server and the faults to come; an exhausted list means no more faults. *)
Record Env `{Driver} (D : Type) := mkEnv { env_db : Db D; env_faults : list Fault }.
Arguments mkEnv {_ D}. Arguments env_db {_ D}. Arguments env_faults {_ D}.

(** ** Computations over the server *)
Definition M `{Driver} (D A : Type) : Type := Env D → io A * Env D.

#[export] Instance M_ret `{Driver} {D} : MRet (M D) := λ A a s, (Ok a, s).
#[export] Instance M_bind `{Driver} {D} : MBind (M D) := λ A B f m s,
  match m s with
  | (Ok a, s') => f a s'
  | (Err e, s') => (Err e, s')
  end.

Section session.
Context `{DR : Driver} {D : Type}.

Definition fail {A} (e : IoError) : M D A := λ s, (Err e, s).
Definition lift {A} (m : io A) : M D A := λ s, (m, s).

(** The next fault of the connection. *)
Definition pop_fault : M D Fault := λ s,
  match env_faults s with
  | [] => (Ok NoFault, s)
  | f :: fs => (Ok f, mkEnv (env_db s) fs)
  end.

(** A call that is not a COMMIT: it fails or it runs. *)
Definition call {A} (m : io A) : M D A :=
  let? f := pop_fault in
  match f with
  | NoFault => lift m
  | SqlFault e => fail (call_error e)
  | CommitLost _ message => fail (call_error (connection_lost message))
  end.

(** [conn.begin()]: the transaction works on its own copy. *)
Definition get_db : M D (Db D) := λ s, (Ok (env_db s), s).
Definition begin : M D (Db D) := let? _ := call (Ok ()) in get_db.
Definition rollback (tx : Db D) : M D () := call (Ok ()).

Definition set_db (db : Db D) : M D () := λ s, (Ok (), mkEnv db (env_faults s)).

(** [tx.commit()] with its error mapped. *)
Definition commit (tx : Db D) : M D () :=
  let? f := pop_fault in
  match f with
  | NoFault => set_db tx
  | SqlFault e => fail (commit_error e)
  | CommitLost applied message =>
      let? _ := (if applied then set_db tx else mret ()) in
      fail (commit_error (connection_lost message))
  end.

(** ** Reasoning: what holds after a computation *)
Definition wp {A} (m : M D A) (Q : io A → Env D → Prop) (s : Env D) : Prop :=
  Q (m s).1 (m s).2.

Lemma wp_bind {A B} (m : M D A) (f : A → M D B) Q s :
  wp m (λ r s', match r with Ok a => wp (f a) Q s' | Err e => Q (Err e) s' end) s →
  wp (m ≫= f) Q s.
Proof.
  unfold wp. change ((m ≫= f) s) with
    (match m s with (Ok a, s') => f a s' | (Err e, s') => (Err e, s') end).
  by destruct (m s) as [[a|e] s'].
Qed.
Lemma wp_ret {A} (a : A) Q s : Q (Ok a) s → wp (mret a : M D A) Q s.
Proof. done. Qed.
Lemma wp_fail {A} e (Q : io A → Env D → Prop) s : Q (Err e) s → wp (fail e) Q s.
Proof. done. Qed.
Lemma wp_lift {A} (m : io A) Q s : Q m s → wp (lift m) Q s.
Proof. done. Qed.

(** A call keeps the durable state; it may fail for the connection's sake. *)
Lemma wp_call {A} (m : io A) (Q : io A → Env D → Prop) s :
  (∀ fs r, (r = m ∨ ∃ e, r = Err (call_error e)) → Q r (mkEnv (env_db s) fs)) →
  wp (call m) Q s.
Proof.
  intros H. destruct s as [db fs]. apply wp_bind. unfold wp, pop_fault. cbn.
  destruct fs as [|[|e|a msg] fs]; cbn; apply H; eauto.
Qed.
Lemma wp_begin Q s :
  (∀ fs, Q (Ok (env_db s)) (mkEnv (env_db s) fs)) →
  (∀ fs e, Q (Err (call_error e)) (mkEnv (env_db s) fs)) →
  wp begin Q s.
Proof.
  intros Hok Herr. apply wp_bind, wp_call. intros fs r [->|[e ->]]; [|apply Herr].
  apply Hok.
Qed.

(** A commit installs the transaction, or reports a failure: one that names the
    server means the transaction is gone, one that does not leaves both cases. *)
Lemma wp_commit tx (Q : io () → Env D → Prop) s :
  (∀ fs, Q (Ok ()) (mkEnv tx fs)) →
  (∀ fs e, Q (Err (commit_error e)) (mkEnv (env_db s) fs)) →
  (∀ fs m, Q (Err (commit_error (connection_lost m))) (mkEnv tx fs)) →
  wp (commit tx) Q s.
Proof.
  intros Hok Hno Hyes. destruct s as [db fs]. apply wp_bind. unfold wp, pop_fault. cbn.
  destruct fs as [|[|e|[] msg] fs]; cbn.
  - apply Hok.
  - apply Hok.
  - apply (Hno _ e).
  - apply Hyes.
  - apply (Hno _ (connection_lost msg)).
Qed.

(** Runs without faults. *)
Lemma run_lift {A B} (a : A) (f : A → M D B) s : (lift (Ok a) ≫= f) s = f a s.
Proof. done. Qed.
Lemma run_call {A B} (a : A) (f : A → M D B) db :
  (call (Ok a) ≫= f) (mkEnv db []) = f a (mkEnv db []).
Proof. done. Qed.
Lemma run_begin {B} (f : Db D → M D B) db : (begin ≫= f) (mkEnv db []) = f db (mkEnv db []).
Proof. done. Qed.
Lemma run_rollback {B} tx (f : () → M D B) db :
  (rollback tx ≫= f) (mkEnv db []) = f () (mkEnv db []).
Proof. done. Qed.
Lemma run_commit {B} tx (f : () → M D B) db :
  (commit tx ≫= f) (mkEnv db []) = f () (mkEnv tx []).
Proof. done. Qed.

Lemma wp_mono {A} (m : M D A) (P Q : io A → Env D → Prop) s :
  wp m P s → (∀ r s', P r s' → Q r s') → wp m Q s.
Proof. unfold wp. auto. Qed.
End session.
