(* ===== verification/ControlRow.v ===== *)
(** * The control row and what its writers share

    The PostgreSQL and the MySQL checkpoint writers
    ([crates/*/src/checkpoint.rs]) keep the same row, check the same identities
    and advance it in the same way; these are the definitions both files hold a
    copy of, and what they mean. *)
From S2P Require Import Prelude Text Codec Model Representation Validate Snapshot Outcome Position Session.

(** [serde_json::Value], as far as the boundary decoder looks into it. *)
Inductive SerdeValue :=
| SvNumber (as_u64 : option Z)
| SvString (s : string)
| SvObject (fields : list (string * SerdeValue))
| SvOther.

Definition sv_get (name : string) (v : SerdeValue) : option SerdeValue :=
  match v with
  | SvObject fields => snd <$> List.find (λ kv : string * SerdeValue, bool_decide (kv.1 = name)) fields
  | _ => None
  end.
Definition sv_str (v : SerdeValue) : option string :=
  match v with SvString s => Some s | _ => None end.
Definition sv_u64 (v : SerdeValue) : option Z :=
  match v with SvNumber n => n | _ => None end.

Definition decode_snapshot_boundary (from_str : string → option SerdeValue) (cursor : SourceCursor) :
    io (string * string * Z * string) :=
  if negb (bool_decide (cur_format cursor = "mysql.snapshot-boundary.v1"%string))
  then Err (other "unsupported snapshot boundary cursor") else
  let? value := ok_or (other "invalid JSON") (from_str (cur_value cursor)) in
  let field name := ok_or (other "snapshot boundary is missing a field") (sv_get name value) in
  let? mode := field "mode"%string in
  let? mode := ok_or (other "snapshot boundary mode is not text") (sv_str mode) in
  let? file := field "file"%string in
  let? file := ok_or (other "snapshot boundary file is not text") (sv_str file) in
  let? position := field "position"%string in
  let? position := ok_or (other "snapshot boundary position is not an integer") (sv_u64 position) in
  let? gtids := field "executed_gtids"%string in
  let? gtids := ok_or (other "snapshot boundary GTID set is not text") (sv_str gtids) in
  Ok (mode, file, position, gtids).

(** ** Identity, numbers and modes *)
Definition validate_identity (task source binding : string) : io () :=
  if sempty task || (128 <? slen task)
     || negb (all_bytes (λ c, is_ascii_alphanumeric c || bool_decide (c = "_"%char)
                              || bool_decide (c = "-"%char)) task)
     || sempty source || (255 <? slen source) || negb (is_ascii source)
     || negb (slen binding =? 64) || negb (all_bytes is_ascii_hexdigit binding)
  then Err (other "invalid task identity or configuration binding") else Ok ().

Definition known_mode (mode : string) : bool :=
  bool_decide (mode ∈ ["gtid"; "binlog"; "postgresql_lsn"]%string).

(** [!known || (mode == "gtid") != gtid_set.is_some() || (lsn && gtid_set.is_some())] *)
Definition mode_disagrees (mode : string) (gtid_set : option string) : bool :=
  negb (known_mode mode)
  || negb (Bool.eqb (bool_decide (mode = "gtid"%string)) (is_some gtid_set))
  || (bool_decide (mode = "postgresql_lsn"%string) && is_some gtid_set).

Definition check_binding (cp : ReplicationCheckpoint) (source sink binding : string) : io () :=
  if negb (bool_decide (cp_source_uuid cp = source)) || negb (bool_decide (cp_sink_uuid cp = sink))
     || negb (bool_decide (cp_binding cp = binding))
  then Err (other "saved checkpoint belongs to a different source, sink or task configuration") else
  if negb (bool_decide (cp_phase cp ∈ ["snapshot"; "incremental"]%string))
  then Err (other "invalid checkpoint phase") else
  validate_checkpoint_position (cp_mode cp) (cp_file cp) (cp_position cp) ;?
  if mode_disagrees (cp_mode cp) (cp_gtid_set cp)
  then Err (other "invalid saved checkpoint mode") else Ok ().

Section row.
Context `{DR : Driver} {D : Type} `{B64 : Base64, SHA : Sha256}.

(** ** The control table *)
Definition with_log_info (tx : Db D) (m : gmap string ReplicationCheckpoint) : Db D :=
  mkDb m (db_sink_uuid tx) (db_locks tx) (db_data tx).
Definition with_data (tx : Db D) (d : D) : Db D :=
  mkDb (db_log_info tx) (db_sink_uuid tx) (db_locks tx) d.

(** [SELECT ... WHERE task_id=? FOR UPDATE]; [read] decodes the columns. *)
Definition load_row (read : ReplicationCheckpoint → io ReplicationCheckpoint) (tx : Db D) (task_id : string) :
    M D (option ReplicationCheckpoint) :=
  call (match db_log_info tx !! task_id with
        | Some row => let? cp := read row in Ok (Some cp)
        | None => Ok None
        end).

(** [INSERT INTO cdc.log_info(...)]: the table's defaults for the other columns. *)
Definition insert_row (duplicate_key : IoError) (tx : Db D) (row : ReplicationCheckpoint) : M D (Db D) :=
  call (match db_log_info tx !! cp_task_id row with
        | Some _ => Err duplicate_key
        | None => Ok (with_log_info tx (<[cp_task_id row := row]> (db_log_info tx)))
        end).
(** [UPDATE cdc.log_info SET ... WHERE task_id=$n]; [bigint] arithmetic of the
    server may be out of range. *)
Definition update_row (tx : Db D) (task_id : string)
    (f : ReplicationCheckpoint → io ReplicationCheckpoint) : M D (Db D) :=
  call (match db_log_info tx !! task_id with
        | Some row => let? row := f row in Ok (with_log_info tx (<[task_id := row]> (db_log_info tx)))
        | None => Ok tx
        end).
(** ** Writer fields *)
Definition set_checkpoint (w : CheckpointWriter) (cp : ReplicationCheckpoint) : CheckpointWriter :=
  mkWriter (w_task_id w) (w_source_uuid w) (w_sink_uuid w) (w_binding w) (Some cp)
    (w_observed_gtids w) (w_observed_position w).
Definition clear_observed (w : CheckpointWriter) : CheckpointWriter :=
  mkWriter (w_task_id w) (w_source_uuid w) (w_sink_uuid w) (w_binding w) (w_checkpoint w) None None.
Definition checkpoint (w : CheckpointWriter) : option ReplicationCheckpoint := w_checkpoint w.

(** ** The task lock *)

(** Dropping the connection releases the task's advisory lock. *)
Definition unlock (task_id : string) (db : Db D) : Db D :=
  mkDb (db_log_info db) (db_sink_uuid db) (db_locks db ∖ {[task_id]}) (db_data db).
Definition lock (task_id : string) (db : Db D) : Db D :=
  mkDb (db_log_info db) (db_sink_uuid db) ({[task_id]} ∪ db_locks db) (db_data db).
Definition drop_writer (task_id : string) (s : Env D) : Env D :=
  mkEnv (unlock task_id (env_db s)) (env_faults s).
Definition dropping_on_error {A} (task_id : string) (m : M D A) : M D A := λ s,
  match m s with
  | (Err e, s') => (Err e, drop_writer task_id s')
  | r => r
  end.

(** [pg_try_advisory_lock], [GET_LOCK(..., 0)]: a lock of the session. *)
Definition try_lock (name : string) : M D bool :=
  let? _ := call (Ok ()) in
  let? db := get_db in
  if bool_decide (name ∈ db_locks db) then mret false
  else (let? _ := set_db (lock name db) in mret true).

(** ** Filtered transactions *)

(** A filtered transaction must be later than the one observed before it. *)
Definition in_source_order (w : CheckpointWriter) (file : string) (position : Z) : io () :=
  match w_observed_position w with
  | Some (old_file, old_position) =>
      let? o := compare_checkpoint_position (cp_mode <$> w_checkpoint w) file position old_file old_position in
      if bool_decide (o = Gt) then Ok ()
      else Err (other "filtered transactions must be observed in source order")
  | None => Ok ()
  end.
(** A transaction may not be committed with observations that are ahead of it. *)
Definition not_behind_observed (w : CheckpointWriter) (cp : ReplicationCheckpoint) (file : string) (position : Z) : io () :=
  match w_observed_position w with
  | Some (observed_file, observed_position) =>
      let? o := compare_checkpoint_position (Some (cp_mode cp)) file position observed_file observed_position in
      if bool_decide (o = Lt)
      then Err (other "cannot commit ahead-of-cursor GTID observations") else Ok ()
  | None => Ok ()
  end.

(** ** The initial snapshot *)
Definition is_snapshot_phase (cp : ReplicationCheckpoint) : bool :=
  bool_decide (cp_phase cp = "snapshot"%string).

(** The loop of [copy_snapshot]: the table being copied, the rows so far, the
    data of the open transaction; [copy] renders and executes one batch. *)
Fixpoint copy_batches (copy : ValidatedSnapshotBatch → D → M D D) (w : CheckpointWriter) (tables : list SnapshotTable)
    (progress : SnapshotBatch → Z → io ()) (batches : list (io SnapshotBatch))
    (table_index : nat) (row_count : Z) (data : D) : M D (nat * Z * D) :=
  match batches with
  | [] => mret (table_index, row_count, data)
  | item :: batches' =>
      let? batch := lift item in
      let? scope := lift (ok_or (other "unexpected extra snapshot table") (tables !! table_index)) in
      if negb (bool_decide (src_id (bt_source batch) = w_source_uuid w))
         || negb (bool_decide (bt_schema batch = st_schema scope))
         || negb (bool_decide (bt_table batch = st_table scope))
      then fail (other "snapshot batch identity/order mismatch") else
      let? validated := lift (map_err (λ _, other "invalid snapshot batch") (validate_snapshot batch)) in
      let? data := copy validated data in
      let batch := vb_batch validated in
      let? row_count :=
        lift (ok_or (other "snapshot row count overflow")
                (checked_add_u64 row_count (Z.of_nat (length (bt_rows batch))))) in
      let? _ := lift (progress batch row_count) in
      copy_batches copy w tables progress batches'
        (if bt_last_in_table batch then S table_index else table_index) row_count data
  end.

(** ** Applying a transaction *)
(** The row after [rows] statements of the transaction; [add] is the
    addition of the counters. *)
Definition advanced (add : Z → Z → Z) (cp : ReplicationCheckpoint) (file : string) (position : Z)
    (gtid_set : option string) (transaction_id : string) (rows : Z) : ReplicationCheckpoint :=
  mkCheckpoint (cp_task_id cp) (cp_source_uuid cp) (cp_sink_uuid cp) (cp_binding cp)
    (cp_mode cp) file position gtid_set (Some transaction_id) (cp_revision cp + 1)
    (add (cp_applied_transactions cp) (if 0 <? rows then 1 else 0)) (add (cp_applied_rows cp) rows)
    (cp_phase cp) (cp_snapshot_rows cp) (cp_snapshot_gtids cp).

(** [UPDATE cdc.log_info SET binlog_file=$1, ..., applied_rows=$7]: the columns
    the statement assigns. *)
Definition store_progress (cp row : ReplicationCheckpoint) : io ReplicationCheckpoint :=
  Ok (mkCheckpoint (cp_task_id row) (cp_source_uuid row) (cp_sink_uuid row) (cp_binding row)
        (cp_mode row) (cp_file cp) (cp_position cp) (cp_gtid_set cp) (cp_last_transaction_id cp)
        (cp_revision cp) (cp_applied_transactions cp) (cp_applied_rows cp)
        (cp_phase row) (cp_snapshot_rows row) (cp_snapshot_gtids row)).

Definition identity_mismatch (w : CheckpointWriter) (source_uuid transaction_id : string) : bool :=
  negb (bool_decide (source_uuid = w_source_uuid w)) || sempty transaction_id
  || (512 <? slen transaction_id) || negb (is_ascii transaction_id).

End row.
