(* ===== verification/Contract.v ===== *)
(** * The contract of a checkpoint writer

    What every sink's checkpoint writer promises, stated once over a [Dialect]:
    business rows and control row change together or not at all, a transaction at
    or before the row changes nothing, a lost COMMIT is resolved by the row
    alone, and over any history a task's row only moves forward.  The PostgreSQL
    and the MySQL writer are shown to implement it (CheckpointSpec.v,
    SnapshotSpec.v and MyCheckpointSpec.v). *)
From S2P Require Import Prelude Text Codec Model Representation Validate Snapshot Outcome Position Session ControlRow.

(** ** Symbolic execution of session computations *)
Ltac wp_unfold := fail.
(** One step; [wp_unfold] is extended with the names of a dialect. *)
Ltac wp_step :=
  lazymatch goal with
  | |- wp (mbind _ _) _ _ => apply wp_bind; wp_step
  | |- wp (fail _) _ _ => apply wp_fail
  | |- wp (mret _) _ _ => apply wp_ret
  | |- wp begin _ _ => apply wp_begin; [intros ?fs|intros ?fs ?e]; cbn [env_db]
  | |- wp (rollback _) _ _ => unfold rollback; wp_step
  | |- wp (load_row _ _ _) _ _ => unfold load_row; wp_step
  | |- wp (insert_row _ _ _) _ _ => unfold insert_row; wp_step
  | |- wp (update_row _ _ _) _ _ => unfold update_row; wp_step
  | |- wp (if ?b then _ else _) _ _ => let E := fresh "E" in destruct b eqn:E
  | |- wp (lift ?m) _ _ =>
      let E := fresh "E" in apply wp_lift; destruct m eqn:E
  | |- wp (call ?m) _ _ =>
      let E := fresh "E" in
      apply wp_call; intros ?fs ?r [->|[?e ->]]; cbn [env_db];
        [lazymatch m with Ok _ => idtac | Err _ => idtac | _ => destruct m eqn:E end|]
  | |- wp (commit _) _ _ =>
      apply wp_commit; [intros ?fs|intros ?fs ?e|intros ?fs ?m]; cbn [env_db]
  | |- _ => wp_unfold; wp_step
  end.

(** ** Rows *)
Lemma bool_decide_negb (P : Prop) `{Decision P} : negb (bool_decide P) = false → P.
Proof. rewrite negb_false_iff. apply bool_decide_eq_true. Qed.

Lemma check_binding_ok cp source sink binding :
  check_binding cp source sink binding = Ok ()
  ↔ (cp_source_uuid cp = source ∧ cp_sink_uuid cp = sink ∧ cp_binding cp = binding)
    ∧ cp_phase cp ∈ ["snapshot"; "incremental"]%string
    ∧ validate_checkpoint_position (cp_mode cp) (cp_file cp) (cp_position cp) = Ok ()
    ∧ mode_disagrees (cp_mode cp) (cp_gtid_set cp) = false.
Proof.
  unfold check_binding. case_match eqn:E1.
  { split; [done|]. intros ((H1 & H2 & H3) & _).
    rewrite !bool_decide_eq_true_2 in E1 by done. done. }
  rewrite !orb_false_iff, !negb_false_iff, !bool_decide_eq_true in E1.
  case_match eqn:E2.
  { apply negb_true_iff, bool_decide_eq_false in E2. naive_solver. }
  apply negb_false_iff, bool_decide_eq_true in E2. rewrite seq_ok.
  case_match; naive_solver.
Qed.

(** The result of a read of the task's row. *)
Lemma load_row_ok (read : ReplicationCheckpoint → io ReplicationCheckpoint) (row : option ReplicationCheckpoint) o :
  (∀ cp cp', read cp = Ok cp' → cp' = cp) →
  match row with Some row => let? cp := read row in Ok (Some cp) | None => Ok None end = Ok o →
  row = o ∧ ∀ cp, o = Some cp → read cp = Ok cp.
Proof.
  intros Hread. destruct row as [row|]; [|by intros [= <-]].
  intros (cp & H & [= <-])%bind_ok. pose proof (Hread _ _ H) as ->. naive_solver.
Qed.

Lemma not_behind_none w cp file position :
  w_observed_position w = None → not_behind_observed w cp file position = Ok ().
Proof. unfold not_behind_observed. by intros ->. Qed.

Section sessions.
Context `{DR : Driver} {D : Type}.

Lemma wp_dropping {A} task (m : M D A) Q s :
  wp m (λ r s', match r with Ok a => Q (Ok a) s' | Err e => Q (Err e) (drop_writer task s') end) s →
  wp (dropping_on_error task m) Q s.
Proof. unfold wp, dropping_on_error. by destruct (m s) as [[a|e] s']. Qed.
Lemma wp_get_db (Q : io (Db D) → Env D → Prop) s : Q (Ok (env_db s)) s → wp get_db Q s.
Proof. done. Qed.
Lemma wp_set_db db (Q : io () → Env D → Prop) s :
  Q (Ok ()) (mkEnv db (env_faults s)) → wp (set_db db) Q s.
Proof. done. Qed.

(** A computation that leaves the database alone and, if it answers, answers
    what the server would. *)
Definition answers {A} (m : M D A) (a : io A) (s : Env D) : Prop :=
  wp m (λ r s', env_db s' = env_db s ∧ ∀ x, r = Ok x → a = Ok x) s.

Lemma wp_answers {A B} (m : M D A) (a : io A) (f : A → M D B) (Q : io B → Env D → Prop) s :
  answers m a s →
  (∀ x fs, a = Ok x → wp (f x) Q (mkEnv (env_db s) fs)) →
  (∀ e fs, Q (Err e) (mkEnv (env_db s) fs)) →
  wp (m ≫= f) Q s.
Proof.
  unfold answers. intros Hm Hok Herr. apply wp_bind. eapply wp_mono; [exact Hm|].
  intros [x|e] [db fs] [Hdb Hx]; cbn in Hdb; subst db; [by apply Hok, Hx|apply Herr].
Qed.

(** The control table and the business data, unlike locks and identity. *)
Definition same_content (db db' : Db D) : Prop :=
  db_log_info db' = db_log_info db ∧ db_data db' = db_data db.
#[export] Instance same_content_equiv : Equivalence same_content.
Proof.
  unfold same_content. split; [done|intros ?? []; done|].
  intros ??? [] []. split; congruence.
Qed.

Lemma try_lock_wp task (s : Env D) :
  wp (try_lock task)
     (λ r s', same_content (env_db s) (env_db s')
        ∧ (r = Ok true → task ∉ db_locks (env_db s) ∧ db_locks (env_db s') = {[task]} ∪ db_locks (env_db s))
        ∧ (r ≠ Ok true → db_locks (env_db s') = db_locks (env_db s))
        ∧ db_sink_uuid (env_db s') = db_sink_uuid (env_db s)) s.
Proof.
  unfold try_lock. wp_step; [|done]. apply wp_bind, wp_get_db. cbn [env_db].
  case_bool_decide.
  - by wp_step.
  - apply wp_bind, wp_set_db. wp_step. cbn. done.
Qed.
End sessions.

(** ** What distinguishes one sink from another *)
Class Dialect (D Plan : Type) := {
  (** the source position a cursor names *)
  dl_file_position : SourceCursor → io (string * Z);
  (** what a row read from the control table satisfies *)
  dl_row_ok : ReplicationCheckpoint → Prop;
  (** is the transaction in the applied history of the row, given its order *)
  dl_already_applied : ReplicationCheckpoint → string → comparison → io bool;
  (** the applied set of the row with the observed transactions and this one *)
  dl_next_gtid_set : ReplicationCheckpoint → option string → string → io (option string);
  (** addition of the row's counters *)
  dl_add : Z → Z → Z;
  (** the business effect of a plan, and the number of its statements *)
  dl_execute : Plan → D → io D;
  dl_statements : Plan → Z;
  (** the checks of the targets of a snapshot, and the copy of one batch *)
  dl_snapshot_targets : list SnapshotTable → D → io D;
  dl_copy_batch : ValidatedSnapshotBatch → D → io D
}.

Class DialectLaws `(DL : Dialect D Plan) := {
  law_position_range cursor file position :
    dl_file_position cursor = Ok (file, position) → 0 ≤ position ≤ u64_max;
  law_comparable mode cursor file position file0 position0 o :
    dl_file_position cursor = Ok (file, position) →
    validate_checkpoint_position mode file0 position0 = Ok () →
    compare_checkpoint_position (Some mode) file position file0 position0 = Ok o →
    validate_checkpoint_position mode file position = Ok ();
  law_applied_gt cp id order : dl_already_applied cp id order = Ok false → order = Gt;
  law_next_gtid_mode cp observed id gtids :
    dl_next_gtid_set cp observed id = Ok gtids →
    mode_disagrees (cp_mode cp) (cp_gtid_set cp) = false → mode_disagrees (cp_mode cp) gtids = false;
  law_row_advanced cp file position gtids id rows :
    dl_row_ok cp → 0 ≤ position ≤ u64_max → 0 ≤ rows →
    dl_row_ok (advanced dl_add cp file position gtids id rows);
  law_statements plan : 0 ≤ dl_statements plan
}.

(** A transaction is recognised once its row is written, whatever was observed. *)
Class DialectHistory `(DL : Dialect D Plan) :=
  law_advanced_applied cp file position observed gtids id rows :
    dl_already_applied cp id Gt = Ok false → dl_next_gtid_set cp observed id = Ok gtids →
    dl_already_applied (advanced dl_add cp file position gtids id rows) id Eq = Ok true.

(** ** Applying a transaction *)
Section applying.
Context `{DR : Driver} `{DL : Dialect D Plan}.

Definition plan_effect (plan : option Plan) (d : D) : io D :=
  match plan with Some p => dl_execute p d | None => Ok d end.
Definition plan_rows (plan : option Plan) : Z :=
  match plan with Some p => dl_statements p | None => 0 end.

(** The business statements of a transaction, or none. *)
Lemma plan_wp {A} plan d (f : D → M D A) (Q : io A → Env D → Prop) (s : Env D) :
  (∀ data fs, plan_effect plan d = Ok data → wp (f data) Q (mkEnv (env_db s) fs)) →
  (∀ e fs, Q (Err e) (mkEnv (env_db s) fs)) →
  wp (match plan with Some p => call (dl_execute p d) | None => mret d end ≫= f) Q s.
Proof.
  intros Hf He. destruct plan as [p|]; cbn in Hf.
  - wp_step; [by apply Hf|apply He..].
  - destruct s as [db fs]. apply wp_bind, wp_ret. by apply Hf.
Qed.

Lemma run_plan_effect {B} plan (db : Db D) data (f : D → M D B) :
  plan_effect plan (db_data db) = Ok data →
  (match plan with Some p => call (dl_execute p (db_data db)) | None => mret (db_data db) end ≫= f) (mkEnv db [])
  = f data (mkEnv db []).
Proof. destruct plan; cbn; [by intros ->|by intros [= ->]]. Qed.

(** The database after a transaction took effect: the data and the row of the
    task change together, everything else is untouched. *)
Definition takes_effect (w : CheckpointWriter) (transaction_id : string) (cursor : SourceCursor)
    (plan : option Plan) (db db' : Db D) : Prop :=
  ∃ cp file position data gtids,
    w_checkpoint w = Some cp ∧ db_log_info db !! w_task_id w = Some cp
    ∧ identity_mismatch w (w_source_uuid w) transaction_id = false
    ∧ cp_phase cp = "incremental"%string ∧ dl_row_ok cp
    ∧ check_binding cp (w_source_uuid w) (w_sink_uuid w) (w_binding w) = Ok ()
    ∧ dl_file_position cursor = Ok (file, position)
    ∧ compare_checkpoint_position (Some (cp_mode cp)) file position (cp_file cp) (cp_position cp)
      = Ok Gt
    ∧ dl_already_applied cp transaction_id Gt = Ok false
    ∧ plan_effect plan (db_data db) = Ok data
    ∧ dl_next_gtid_set cp (w_observed_gtids w) transaction_id = Ok gtids
    ∧ db' = with_data (with_log_info db
              (<[w_task_id w := advanced dl_add cp file position gtids transaction_id (plan_rows plan)]>
                 (db_log_info db))) data.

(** The row of the task already includes the transaction. *)
Definition included (w : CheckpointWriter) (id : string) (cursor : SourceCursor) (db : Db D) : Prop :=
  ∃ cp file position order, db_log_info db !! w_task_id w = Some cp
    ∧ dl_file_position cursor = Ok (file, position)
    ∧ compare_checkpoint_position (Some (cp_mode cp)) file position (cp_file cp) (cp_position cp)
      = Ok order
    ∧ dl_already_applied cp id order = Ok true.

(** The outcomes of an application. *)
Definition apply_post (w : CheckpointWriter) (id : string) (cursor : SourceCursor)
    (plan : option Plan) (db : Db D)
    (r : io (CheckpointApplyResult * CheckpointWriter)) (s' : Env D) : Prop :=
  match r with
  | Ok (res, w') =>
      if ar_already_applied res
      then env_db s' = db ∧ w' = w ∧ ar_statements_executed res = 0 ∧ included w id cursor db
           ∧ db_log_info db !! w_task_id w = Some (ar_checkpoint res)
      else takes_effect w id cursor plan db (env_db s')
           ∧ ar_statements_executed res = plan_rows plan
           ∧ db_log_info (env_db s') !! w_task_id w = Some (ar_checkpoint res)
           ∧ w' = clear_observed (set_checkpoint w (ar_checkpoint res))
  | Err e =>
      env_db s' = db
      ∨ takes_effect w id cursor plan db (env_db s') ∧ commit_outcome_unknown e = true
  end.

(** The same task, source, sink and binding. *)
Definition same_task (w w' : CheckpointWriter) : Prop :=
  w_task_id w' = w_task_id w ∧ w_source_uuid w' = w_source_uuid w
  ∧ w_sink_uuid w' = w_sink_uuid w ∧ w_binding w' = w_binding w.

(** The row is at the transaction's position, names it as the last one and
    includes it. *)
Definition recorded (w : CheckpointWriter) (id : string) (cursor : SourceCursor) (db : Db D) : Prop :=
  ∃ cp file position,
    db_log_info db !! w_task_id w = Some cp
    ∧ identity_mismatch w (w_source_uuid w) id = false
    ∧ cp_phase cp = "incremental"%string ∧ dl_row_ok cp
    ∧ check_binding cp (w_source_uuid w) (w_sink_uuid w) (w_binding w) = Ok ()
    ∧ dl_file_position cursor = Ok (file, position)
    ∧ compare_checkpoint_position (Some (cp_mode cp)) file position (cp_file cp) (cp_position cp)
      = Ok Eq
    ∧ dl_already_applied cp id Eq = Ok true
    ∧ cp_last_transaction_id cp = Some id.

(** The part of [recorded] that only depends on the row of the task. *)
Definition settled (w : CheckpointWriter) (id : string) (cursor : SourceCursor) (db : Db D) : Prop :=
  ∃ cp file position,
    db_log_info db !! w_task_id w = Some cp ∧ cp_last_transaction_id cp = Some id
    ∧ dl_file_position cursor = Ok (file, position)
    ∧ compare_checkpoint_position (Some (cp_mode cp)) file position (cp_file cp) (cp_position cp)
      = Ok Eq.

(** The transaction is later than the row and the row does not know it. *)
Definition pending (w : CheckpointWriter) (id : string) (cursor : SourceCursor) (db : Db D) : Prop :=
  ∃ cp file position,
    db_log_info db !! w_task_id w = Some cp
    ∧ cp_last_transaction_id cp ≠ Some id
    ∧ dl_file_position cursor = Ok (file, position)
    ∧ compare_checkpoint_position (Some (cp_mode cp)) file position (cp_file cp) (cp_position cp)
      = Ok Gt
    ∧ dl_already_applied cp id Gt = Ok false.

(** The outcomes of resolving a lost COMMIT: nothing changes, and a transaction
    that is in the row, or is later than it, is recognised. *)
Definition resolve_post (w : CheckpointWriter) (id : string) (cursor : SourceCursor) (db : Db D)
    (r : io CommitResolution) (s' : Env D) : Prop :=
  env_db s' = db
  ∧ (settled w id cursor db → ∀ x, r = Ok x → x = Applied)
  ∧ (pending w id cursor db → ∀ x, r = Ok x → x = NotApplied).

Lemma recorded_settled w id cursor db : recorded w id cursor db → settled w id cursor db.
Proof. intros (cp & f & p & H). exists cp, f, p. tauto. Qed.

Lemma recorded_same w w' id cursor db :
  same_task w w' → recorded w id cursor db → recorded w' id cursor db.
Proof.
  intros (H1 & H2 & H3 & H4) (cp & file & position & H).
  exists cp, file, position. unfold identity_mismatch in *. rewrite H1, H2, H3, H4. exact H.
Qed.

Lemma settled_content w w' id cursor (db db' : Db D) :
  w_task_id w = w_task_id w' → same_content db db' →
  settled w id cursor db → settled w' id cursor db'.
Proof. intros Ht [Hl _] (cp & f & p & H). exists cp, f, p. by rewrite Hl, <- Ht. Qed.
Lemma pending_content w w' id cursor (db db' : Db D) :
  w_task_id w = w_task_id w' → same_content db db' →
  pending w id cursor db → pending w' id cursor db'.
Proof. intros Ht [Hl _] (cp & f & p & H). exists cp, f, p. by rewrite Hl, <- Ht. Qed.

Lemma pending_not_included w id cursor db : pending w id cursor db → ¬ included w id cursor db.
Proof.
  intros (cp & f & p & Hrow & _ & Hf & Hc & Ha) (cp' & f' & p' & o & Hrow' & Hf' & Hc' & Ha').
  rewrite Hrow in Hrow'. injection Hrow' as <-. rewrite Hf in Hf'. injection Hf' as <- <-. congruence.
Qed.

Lemma settled_no_effect w id cursor plan db db' :
  settled w id cursor db → takes_effect w id cursor plan db db' → False.
Proof.
  intros (cp & f & p & Hrow & _ & Hf & Hc)
    (cp' & f' & p' & data & gtids & _ & Hrow' & _ & _ & _ & _ & Hf' & Hc' & _).
  rewrite Hrow in Hrow'. injection Hrow' as <-. rewrite Hf in Hf'. injection Hf' as <- <-.
  congruence.
Qed.

Context `{!DialectLaws DL}.

Lemma plan_rows_nonneg plan : 0 ≤ plan_rows plan.
Proof. unfold plan_rows. destruct plan; [apply law_statements|lia]. Qed.

Lemma advanced_valid w cp cursor file position observed gtids id rows :
  check_binding cp (w_source_uuid w) (w_sink_uuid w) (w_binding w) = Ok () →
  dl_row_ok cp →
  dl_file_position cursor = Ok (file, position) →
  compare_checkpoint_position (Some (cp_mode cp)) file position (cp_file cp) (cp_position cp) = Ok Gt →
  dl_next_gtid_set cp observed id = Ok gtids → 0 ≤ rows →
  let cp' := advanced dl_add cp file position gtids id rows in
  check_binding cp' (w_source_uuid w) (w_sink_uuid w) (w_binding w) = Ok ()
  ∧ dl_row_ok cp'
  ∧ compare_checkpoint_position (Some (cp_mode cp')) file position (cp_file cp') (cp_position cp')
    = Ok Eq.
Proof.
  intros Hb Hrow Hf Hc Hg Hrows. apply check_binding_ok in Hb as (Hid & Hp & Hv & Hm).
  pose proof (law_comparable _ _ _ _ _ _ _ Hf Hv Hc) as Hv'. cbn zeta.
  split; [apply check_binding_ok; cbn; split_and!; try naive_solver; by eapply law_next_gtid_mode|].
  split; [|by apply compare_same].
  apply law_row_advanced; [done| |done]. by eapply law_position_range.
Qed.

Lemma effect_settled w id cursor plan db db' :
  takes_effect w id cursor plan db db' → settled w id cursor db'.
Proof.
  intros (cp & file & position & data & gtids & _ & _ & _ & _ & Hr & Hb & Hf & Hc & _ & _ & Hg & ->).
  destruct (advanced_valid w cp cursor file position _ gtids id (plan_rows plan) Hb Hr Hf Hc Hg
              (plan_rows_nonneg plan)) as (_ & _ & Hc').
  exists (advanced dl_add cp file position gtids id (plan_rows plan)), file, position. cbn.
  by rewrite lookup_insert_eq.
Qed.

(** The row moves to a strictly later position of the same task. *)
Lemma effect_forward w id cursor plan db db' :
  takes_effect w id cursor plan db db' →
  ∃ cp cp', db_log_info db !! w_task_id w = Some cp ∧ db_log_info db' !! w_task_id w = Some cp'
    ∧ compare_checkpoint_position (Some (cp_mode cp)) (cp_file cp') (cp_position cp')
        (cp_file cp) (cp_position cp) = Ok Gt
    ∧ cp_revision cp' = cp_revision cp + 1
    ∧ cp_applied_rows cp' = dl_add (cp_applied_rows cp) (plan_rows plan)
    ∧ (cp_source_uuid cp', cp_sink_uuid cp', cp_binding cp', cp_mode cp', cp_phase cp',
       cp_snapshot_rows cp', cp_snapshot_gtids cp')
      = (cp_source_uuid cp, cp_sink_uuid cp, cp_binding cp, cp_mode cp, cp_phase cp,
         cp_snapshot_rows cp, cp_snapshot_gtids cp)
    ∧ (∀ t, t ≠ w_task_id w → db_log_info db' !! t = db_log_info db !! t)
    ∧ dl_next_gtid_set cp (w_observed_gtids w) id = Ok (cp_gtid_set cp').
Proof.
  intros (cp & file & position & data & gtids & _ & Hrow & _ & _ & _ & _ & _ & Hc & _ & _ & Hg & ->).
  exists cp, (advanced dl_add cp file position gtids id (plan_rows plan)). cbn.
  rewrite lookup_insert_eq. split_and!; try done.
  intros t Ht. by apply lookup_insert_ne.
Qed.

(** What resolving says after an application that may have been lost. *)
Lemma resolution_agrees w w' id cursor plan db r s r' s'' :
  pending w id cursor db → same_task w w' → apply_post w id cursor plan db r s →
  resolve_post w' id cursor (env_db s) r' s'' →
  env_db s'' = env_db s
  ∧ (r' = Ok Applied → takes_effect w id cursor plan db (env_db s))
  ∧ (r' = Ok NotApplied → env_db s = db)
  ∧ r' ≠ Ok Unprovable.
Proof.
  intros Hp (Ht & _) Ha (Hsame & Happ & Hno). split; [done|].
  assert (env_db s = db ∨ takes_effect w id cursor plan db (env_db s)) as [Hdb|He].
  { unfold apply_post in Ha. destruct r as [[res w1]|e]; [destruct (ar_already_applied res)|]; tauto. }
  - assert (∀ y, r' = Ok y → y = NotApplied) as Hy.
    { apply Hno. by eapply pending_content; [symmetry; apply Ht|rewrite Hdb; reflexivity|]. }
    split_and!; [|done|]; intros Hx; by apply Hy in Hx.
  - assert (∀ y, r' = Ok y → y = Applied) as Hy.
    { apply Happ. eapply settled_content; [symmetry; apply Ht|reflexivity|by eapply effect_settled]. }
    split_and!; [done| |]; intros Hx; by apply Hy in Hx.
Qed.

(** A settled transaction has no second effect. *)
Lemma settled_no_replay w id cursor plan db r s :
  settled w id cursor db → apply_post w id cursor plan db r s →
  env_db s = db ∧ ∀ res w', r = Ok (res, w') → ar_already_applied res = true.
Proof.
  intros Hs Ha. unfold apply_post in Ha. destruct r as [[res w']|e].
  - destruct (ar_already_applied res) eqn:E; [naive_solver|].
    destruct Ha as [He _]. exfalso. by eapply settled_no_effect.
  - destruct Ha as [->|[He _]]; [done|]. exfalso. by eapply settled_no_effect.
Qed.

Context `{!DialectHistory DL}.

Lemma effect_recorded w id cursor plan db db' :
  takes_effect w id cursor plan db db' → recorded w id cursor db'.
Proof.
  intros (cp & file & position & data & gtids & _ & _ & Hid & Hp & Hr & Hb & Hf & Hc & Ha & _ & Hg & ->).
  destruct (advanced_valid w cp cursor file position _ gtids id (plan_rows plan) Hb Hr Hf Hc Hg
              (plan_rows_nonneg plan)) as (Hb' & Hr' & Hc').
  exists (advanced dl_add cp file position gtids id (plan_rows plan)), file, position. cbn.
  rewrite lookup_insert_eq. split_and!; try done. by eapply law_advanced_applied.
Qed.
End applying.

(** ** Copying a snapshot *)
Section copying.
Context `{DR : Driver} `{B64 : Base64, SHA : Sha256} `{DL : Dialect D Plan}.

Definition batch_rows (b : SnapshotBatch) : Z := Z.of_nat (length (bt_rows b)).

(** Copying a list of batches, table after table: [i] tables are complete and
    [n] rows copied before, [i'] and [n'] after. *)
Inductive copied (w : CheckpointWriter) (tables : list SnapshotTable) :
    list SnapshotBatch → nat → Z → D → nat → Z → D → Prop :=
| copied_nil i n d : copied w tables [] i n d i n d
| copied_cons b l i n d scope v d1 i' n' d' :
    tables !! i = Some scope →
    src_id (bt_source b) = w_source_uuid w →
    bt_schema b = st_schema scope → bt_table b = st_table scope →
    validate_snapshot b = Ok v → dl_copy_batch v d = Ok d1 →
    copied w tables l (if bt_last_in_table b then S i else i) (n + batch_rows b) d1 i' n' d' →
    copied w tables (b :: l) i n d i' n' d'.

Lemma checked_add_ok a b n : checked_add_u64 a b = Some n → n = a + b.
Proof. unfold checked_add_u64. case_match; naive_solver. Qed.

Lemma copy_batches_wp copy w tables progress items i n d s :
  (∀ v d s, wp (copy v d) (λ r s', env_db s' = env_db s ∧ ∀ d', r = Ok d' → dl_copy_batch v d = Ok d') s) →
  wp (copy_batches copy w tables progress items i n d)
     (λ r s', env_db s' = env_db s
        ∧ ∀ i' n' d', r = Ok (i', n', d') →
            ∃ l, items = Ok <$> l ∧ copied w tables l i n d i' n' d') s.
Proof.
  intros Hcopy.
  revert i n d s. induction items as [|item items IH]; intros i n d s; cbn [copy_batches].
  { wp_step. split; [done|]. intros i' n' d' [= <- <- <-]. exists []. split; [done|constructor]. }
  wp_step; [|done]. rename a into batch.
  wp_step; [|done]. apply ok_or_ok in E0. rename a into scope.
  wp_step; [by wp_step|].
  wp_step; [|done]. apply map_err_ok in E2. rename a into v.
  apply wp_bind. eapply wp_mono; [apply Hcopy|]. intros [d1|e] s1 [Hs1 Hd1]; [|done].
  specialize (Hd1 d1 eq_refl). apply wp_bind.
  eapply (wp_mono _ (λ r s', env_db s' = env_db s ∧ ∀ m, r = Ok m → m = n + batch_rows (vb_batch v))).
  { wp_step; (split; [done|]); [|done]. intros m [= <-]. by apply ok_or_ok, checked_add_ok in E3. }
  intros [m|e] s2 [Hs2 Hm]; [|done]. specialize (Hm m eq_refl) as ->.
  wp_step; [|done]. eapply wp_mono; [apply IH|].
  intros r s' [Hs Hr]. split; [congruence|]. intros i' n' d' Hok.
  destruct (Hr _ _ _ Hok) as (l & -> & Hl). subst item. exists (batch :: l). split; [done|].
  rewrite !orb_false_iff in E1. destruct E1 as [[H1 H2] H3].
  apply bool_decide_negb in H1, H2, H3.
  rewrite (validate_snapshot_same _ _ E2) in Hl. by econstructor.
Qed.

Lemma copied_rows w tables l i n d i' n' d' :
  copied w tables l i n d i' n' d' → n' = n + foldr (λ b acc, batch_rows b + acc) 0 l.
Proof. induction 1; cbn; lia. Qed.

(** The row after a committed snapshot. *)
Definition snapshot_done (cp : ReplicationCheckpoint) (rows : Z) : ReplicationCheckpoint :=
  mkCheckpoint (cp_task_id cp) (cp_source_uuid cp) (cp_sink_uuid cp) (cp_binding cp)
    (cp_mode cp) (cp_file cp) (cp_position cp) (cp_gtid_set cp) (cp_last_transaction_id cp)
    (cp_revision cp + 1) (cp_applied_transactions cp) (cp_applied_rows cp) "incremental" rows
    (cp_snapshot_gtids cp).

(** The database after a snapshot was committed: all tables copied into targets
    that were checked empty, and the row turned incremental. *)
Definition snapshot_effect (w : CheckpointWriter) (tables : list SnapshotTable)
    (items : list (io SnapshotBatch)) (db db' : Db D) : Prop :=
  ∃ cp d0 l n d, db_log_info db !! w_task_id w = Some cp ∧ cp_phase cp = "snapshot"%string
    ∧ dl_snapshot_targets tables (db_data db) = Ok d0
    ∧ items = Ok <$> l
    ∧ copied w tables l 0 0 d0 (length tables) n d
    ∧ db' = with_data (with_log_info db (<[w_task_id w := snapshot_done cp n]> (db_log_info db))) d.

(** The outcomes of a copy. *)
Definition copy_post (w : CheckpointWriter) (tables : list SnapshotTable) (items : list (io SnapshotBatch))
    (db : Db D) (r : io (ReplicationCheckpoint * CheckpointWriter)) (s' : Env D) : Prop :=
  match r with
  | Ok (cp, w') => snapshot_effect w tables items db (env_db s')
      ∧ db_log_info (env_db s') !! w_task_id w = Some cp ∧ w' = set_checkpoint w cp
  | Err e => env_db s' = db ∨ snapshot_effect w tables items db (env_db s') ∧ commit_outcome_unknown e = true
  end.

(** What a committed snapshot left in the row. *)
Lemma snapshot_effect_row w tables items db db' cp :
  snapshot_effect w tables items db db' → db_log_info db' !! w_task_id w = Some cp →
  cp_phase cp = "incremental"%string
  ∧ ∃ l, items = Ok <$> l ∧ cp_snapshot_rows cp = foldr (λ b acc, batch_rows b + acc) 0 l.
Proof.
  intros (cp0 & d0 & l & n & d & Hrow0 & _ & _ & Hl & Hc & ->). cbn. rewrite lookup_insert_eq. intros [= <-].
  split; [done|]. exists l. split; [done|]. apply copied_rows in Hc. cbn. lia.
Qed.

(** ** Histories *)

(** What any operation of any writer may do to the database. *)
Inductive row_step (db db' : Db D) : Prop :=
| row_kept : same_content db db' → row_step db db'
| row_created task cp :
    db_log_info db !! task = None → cp_phase cp = "incremental"%string → cp_revision cp = 0 →
    db' = with_log_info db (<[task := cp]> (db_log_info db)) → row_step db db'
| row_marked task cp :
    (∀ old, db_log_info db !! task = Some old → cp_phase old = "snapshot"%string) →
    cp_phase cp = "snapshot"%string →
    db' = with_log_info db (<[task := cp]> (db_log_info db)) → row_step db db'
| row_copied w tables items : snapshot_effect w tables items db db' → row_step db db'
| row_applied w id cursor plan : takes_effect w id cursor plan db db' → row_step db db'.

Lemma row_step_same db db' : db' = db → row_step db db'.
Proof. intros ->. by apply row_kept. Qed.
Lemma apply_post_step w id cursor plan db r s : apply_post w id cursor plan db r s → row_step db (env_db s).
Proof.
  unfold apply_post. destruct r as [[res w']|e]; [destruct (ar_already_applied res)|];
    naive_solver eauto using row_step_same, row_applied.
Qed.
Lemma copy_post_step w tables items db r s : copy_post w tables items db r s → row_step db (env_db s).
Proof.
  unfold copy_post. destruct r as [[cp w']|e]; naive_solver eauto using row_step_same, row_copied.
Qed.

(** [cp'] is at or after [cp] in the source history, with at least its revision. *)
Definition at_or_after (cp cp' : ReplicationCheckpoint) : Prop :=
  cp_mode cp' = cp_mode cp ∧ cp_revision cp ≤ cp_revision cp'
  ∧ ∃ o, compare_checkpoint_position (Some (cp_mode cp)) (cp_file cp') (cp_position cp')
           (cp_file cp) (cp_position cp) = Ok o ∧ o ≠ Lt.

Definition live (cp : ReplicationCheckpoint) : Prop :=
  cp_phase cp = "incremental"%string
  ∧ validate_checkpoint_position (cp_mode cp) (cp_file cp) (cp_position cp) = Ok ().

Lemma at_or_after_refl cp : live cp → at_or_after cp cp.
Proof. intros [_ Hv]. split_and!; [done|lia|]. exists Eq. by rewrite compare_same. Qed.

Lemma at_or_after_trans a b c : at_or_after a b → at_or_after b c → at_or_after a c.
Proof.
  intros (Hm & Hr & o & Ho & Hlt) (Hm' & Hr' & o' & Ho' & Hlt').
  split_and!; [congruence|lia|]. rewrite Hm in Ho'.
  apply (compare_order _ _ _ EmptyString _ _ 0 _ Eq) in Ho as [Hab _].
  apply (compare_order _ _ _ EmptyString _ _ 0 _ Eq) in Ho' as [Hbc _].
  destruct (compare_order (Some (cp_mode a)) (cp_file a) (cp_file b) (cp_file c) (cp_position a)
    (cp_position b) (cp_position c) (CompOpp o) (CompOpp o') Hab) as [_ Hac].
  destruct (Hac Hbc) as (r & Hr3 & Hgt & _); [by destruct o|by destruct o'|].
  apply (compare_order _ _ _ EmptyString _ _ 0 _ Eq) in Hr3 as [Hca _].
  exists (CompOpp r). split; [done|by destruct r].
Qed.

Context `{!DialectLaws DL}.

(** The row of a live task is untouched by a step, or advanced by a transaction. *)
Lemma live_step task cp db db' :
  db_log_info db !! task = Some cp → live cp → row_step db db' →
  ∃ cp', db_log_info db' !! task = Some cp' ∧ live cp' ∧ at_or_after cp cp'.
Proof.
  intros Hrow Hlive Hstep. pose proof (proj1 Hlive) as Hphase.
  assert (db_log_info db' !! task = Some cp →
    ∃ cp', db_log_info db' !! task = Some cp' ∧ live cp' ∧ at_or_after cp cp') as Hkeep.
  { intros H. exists cp. split_and!; [done..|]. by apply at_or_after_refl. }
  assert (∀ other v (m : gmap string ReplicationCheckpoint), other ≠ task → <[other := v]> m !! task = m !! task) as Hother.
  { intros other v m Hne. by apply lookup_insert_ne. }
  destruct Hstep as [[Hl _]|other cp' Hn _ _ ->|other cp' Hs _ ->
    |w tables items (cp' & d0 & l & n & d & Hrow' & Hp & _ & _ & _ & ->)|w id cursor plan He].
  - apply Hkeep. by rewrite Hl.
  - apply Hkeep. cbn. rewrite Hother; [done|]. intros ->. congruence.
  - apply Hkeep. cbn. rewrite Hother; [done|]. intros ->. apply Hs in Hrow. congruence.
  - apply Hkeep. cbn. rewrite Hother; [done|]. intros <-. congruence.
  - destruct (decide (w_task_id w = task)) as [<-|Hne].
    + destruct (effect_forward _ _ _ _ _ _ He) as (cp0 & cp' & Hrow0 & Hrow' & Hc & Hr & _ & Hsame & _).
      rewrite Hrow in Hrow0. injection Hrow0 as <-. injection Hsame as _ _ _ Hm Hp _ _.
      exists cp'. split; [done|]. split.
      * split; [congruence|].
        destruct He as (cp0 & file & position & data & gtids & _ & Hrow0 & _ & _ & Hok & Hb & Hf & Hgt & _ & _ & Hg & ->).
        rewrite Hrow in Hrow0. injection Hrow0 as <-. cbn in Hrow'. rewrite lookup_insert_eq in Hrow'. injection Hrow' as <-.
        destruct (advanced_valid w cp cursor file position _ gtids id (plan_rows plan) Hb Hok Hf Hgt Hg
                    (plan_rows_nonneg plan)) as (Hb' & _).
        by apply check_binding_ok in Hb' as (_ & _ & Hv & _).
      * split_and!; [done|lia|]. by exists Gt.
    + destruct (effect_forward _ _ _ _ _ _ He) as (_ & _ & _ & _ & _ & _ & _ & _ & Hk & _).
      apply Hkeep. rewrite Hk; [done|congruence].
Qed.

Lemma row_history task cp db db' :
  db_log_info db !! task = Some cp → live cp → rtc row_step db db' →
  ∃ cp', db_log_info db' !! task = Some cp' ∧ live cp' ∧ at_or_after cp cp'.
Proof.
  intros Hrow Hlive Hsteps. revert cp Hrow Hlive.
  induction Hsteps as [db|db db1 db' Hstep _ IH]; intros cp Hrow Hlive.
  - exists cp. split_and!; [done..|]. by apply at_or_after_refl.
  - destruct (live_step task cp db db1 Hrow Hlive Hstep) as (cp1 & Hrow1 & Hlive1 & Hle).
    destruct (IH cp1 Hrow1 Hlive1) as (cp' & ? & ? & ?). exists cp'.
    split_and!; [done..|]. by eapply at_or_after_trans.
Qed.
End copying.
