(* ===== verification/Checkpoint.v ===== *)
(** * The PostgreSQL checkpoint writer ([crates/postgresql_15/src/checkpoint.rs])

    One row of [cdc.log_info] per task records how far the source history has been
    applied; it is written in the same database transaction as the business rows.
    The definitions follow [CheckpointWriter] method by method; a method takes the
    writer and returns the writer it leaves behind (every method assigns its
    fields only after its last fallible step, so a failed call leaves the writer
    as it was).  The theorems are in CheckpointSpec.v. *)
From S2P Require Import Prelude Text Codec Model Representation Validate Snapshot Outcome.
From S2P Require Import Gtid Position Target Session ControlRow.

(** [sqlx] as a driver of the session: a server error at COMMIT rolls the
    transaction back, any other leaves its outcome open. *)
#[export] Program Instance sqlx_driver : Driver := {|
  DriverError := SqlxError;
  call_error e := other_cause (Sqlx e);
  commit_error := Outcome.Postgres.commit_error;
  connection_lost := SqlxDriver
|}.
Next Obligation. done. Qed.

(** ** Numbers *)
Definition to_i64 (value : Z) : io Z :=
  if value <=? i64_max then Ok value else Err (other "checkpoint exceeds PostgreSQL bigint").
Definition to_u64 (value : Z) : io Z :=
  if 0 <=? value then Ok value else Err (other "negative checkpoint number").

(** A stored row read back: its [bigint] columns must not be negative. *)
Definition checkpoint_from_row (row : ReplicationCheckpoint) : io ReplicationCheckpoint :=
  let? _ := to_u64 (cp_position row) in
  let? _ := to_u64 (cp_revision row) in
  let? _ := to_u64 (cp_applied_transactions row) in
  let? _ := to_u64 (cp_applied_rows row) in
  let? _ := to_u64 (cp_snapshot_rows row) in
  Ok row.

Section writer.
Context {D : Type} `{Server : PgServer D} `{B64 : Base64, SHA : Sha256}.
Context (json_logical_value : string → option LogicalValue)
        (json_envelope : list byte → option SourceRepresentationEnvelope)
        (serde_from_str : string → option SerdeValue)
        (snapshot_sql : ValidatedSnapshotBatch → io SnapshotSql).

Notation M := (M D).

(** ** The control table *)
(** [SELECT ... WHERE task_id=$1 FOR UPDATE] *)
Definition load (tx : Db D) (task_id : string) : M (option ReplicationCheckpoint) :=
  load_row checkpoint_from_row tx task_id.

Definition duplicate_key : IoError := other_cause (Sqlx (SqlxDatabase (Some "23505"%string))).
Definition out_of_range : IoError := other_cause (Sqlx (SqlxDatabase (Some "22003"%string))).

Definition next_revision (row : ReplicationCheckpoint) : io Z :=
  if cp_revision row + 1 <=? i64_max then Ok (cp_revision row + 1) else Err out_of_range.

(** ** Opening *)

(** [connect_for_version]: the major version of the server must match. *)
Definition connect_for_version (server_version target_version : string) : M () :=
  call (if bool_decide (head (split "." server_version) = Some target_version)
        then Ok () else Err capability_failure).

(** The schema transaction: creates the control tables and the identity of the
    sink, [fresh_uuid] being the server's [gen_random_uuid()]. *)
Definition ensure_schema (fresh_uuid : string) : M string :=
  let? tx := begin in
  let? _ := call (Ok ()) in  (* pg_advisory_xact_lock *)
  let? _ := call (Ok ()) in  (* CREATE SCHEMA, CREATE TABLE sink_identity *)
  let? tx := call (Ok (mkDb (db_log_info tx) (Some (default fresh_uuid (db_sink_uuid tx)))
                         (db_locks tx) (db_data tx))) in
  let? _ := call (Ok ()) in  (* CREATE TABLE log_info, widening of old columns *)
  let? sink_uuid :=
    call (ok_or (other_cause (Sqlx (SqlxDriver "RowNotFound"))) (db_sink_uuid tx)) in
  let? _ := commit tx in
  mret sink_uuid.

Definition load_conn (task_id : string) : M (option ReplicationCheckpoint) :=
  let? db := get_db in load db task_id.

Definition open_for_version (server_version fresh_uuid task_id source_uuid binding target_version : string) :
    M CheckpointWriter :=
  let? _ := lift (validate_identity task_id source_uuid binding) in
  let? _ := connect_for_version server_version target_version in
  let? sink_uuid := ensure_schema fresh_uuid in
  let? owned := try_lock task_id in
  if negb owned then fail (other "task is already owned by another writer") else
  dropping_on_error task_id (
    let? cp := load_conn task_id in
    if bool_decide (sink_uuid = source_uuid)
    then fail (other "source and sink identities must differ") else
    let? _ := lift (match cp with
                    | Some cp => check_binding cp source_uuid sink_uuid binding
                    | None => Ok ()
                    end) in
    mret (mkWriter task_id source_uuid sink_uuid binding cp None None)).

(** ** Filtered transactions *)
Definition observe (w : CheckpointWriter) (transaction : ChangeTransaction) : io CheckpointWriter :=
  if negb (lempty (tx_changes transaction))
     || negb (bool_decide (src_id (tx_source transaction) = w_source_uuid w))
  then Err (other "observe requires an empty projection from this source") else
  let? fp := Postgres.file_position (tx_commit_cursor transaction) in
  in_source_order w fp.1 fp.2 ;?
  (let? gtids :=
     (if bool_decide ((cp_mode <$> w_checkpoint w) = Some "gtid"%string) then
        let? merged := merge_gtids (w_observed_gtids w) (tx_id transaction) in Ok (Some merged)
      else Ok (w_observed_gtids w)) in
   Ok (mkWriter (w_task_id w) (w_source_uuid w) (w_sink_uuid w) (w_binding w) (w_checkpoint w)
         gtids (Some fp))).

(** ** The starting boundary *)
Definition initialize (w : CheckpointWriter) (mode file : string) (position : Z)
    (gtid_set : option string) : M (ReplicationCheckpoint * CheckpointWriter) :=
  match w_checkpoint w with
  | Some cp => mret (cp, w)
  | None =>
      let? _ := lift (validate_checkpoint_position mode file position) in
      if mode_disagrees mode gtid_set
      then fail (other "checkpoint mode and GTID set disagree") else
      let? gtid_set :=
        lift (match gtid_set with
              | Some g => let? c := canonical_gtids g in Ok (Some c)
              | None => Ok None
              end) in
      let? tx := begin in
      let? position := lift (to_i64 position) in
      let? tx := insert_row duplicate_key tx
        (mkCheckpoint (w_task_id w) (w_source_uuid w) (w_sink_uuid w) (w_binding w) mode file
           position gtid_set None 0 0 0 "incremental" 0 None) in
      let? row := load tx (w_task_id w) in
      let? cp := lift (ok_or (other "checkpoint insert failed") row) in
      let? _ := commit tx in
      mret (cp, set_checkpoint w cp)
  end.

(** ** The initial snapshot *)
Definition check_snapshot_targets (tables : list SnapshotTable) : M () :=
  let? tx := begin in
  let? _ := call (snapshot_targets tables false (db_data tx)) in
  rollback tx.

Definition prepare_snapshot (w : CheckpointWriter) (boundary : SnapshotBoundary) :
    M (ReplicationCheckpoint * CheckpointWriter) :=
  if negb (bool_decide (src_id (sb_source boundary) = w_source_uuid w))
  then fail (other "snapshot source identity mismatch") else
  let? b := lift (decode_snapshot_boundary serde_from_str (sb_cursor boundary)) in
  let '(mode, file, position, executed_gtids) := b in
  let? _ := lift (validate_position file position) in
  if negb (bool_decide (mode ∈ ["gtid"; "binlog"]%string))
  then fail (other "invalid snapshot mode") else
  if match w_checkpoint w with Some cp => negb (is_snapshot_phase cp) | None => false end
  then fail (other "incremental checkpoint cannot be replaced by a snapshot") else
  let? executed := lift (canonical_gtids executed_gtids) in
  let gtids := if bool_decide (mode = "gtid"%string) then Some executed else None in
  let? tx := begin in
  let? actual := load tx (w_task_id w) in
  if negb (bool_decide (actual = w_checkpoint w))
  then fail (other "snapshot checkpoint changed outside its owner") else
  let? position := lift (to_i64 position) in
  let? tx :=
    (if is_some actual then
       update_row tx (w_task_id w) (λ row,
         let? revision := next_revision row in
         Ok (mkCheckpoint (cp_task_id row) (cp_source_uuid row) (cp_sink_uuid row) (cp_binding row)
               mode file position gtids (cp_last_transaction_id row) revision
               (cp_applied_transactions row) (cp_applied_rows row) (cp_phase row)
               (cp_snapshot_rows row) (Some executed)))
     else
       insert_row duplicate_key tx
         (mkCheckpoint (w_task_id w) (w_source_uuid w) (w_sink_uuid w) (w_binding w)
            mode file position gtids None 0 0 0 "snapshot" 0 (Some executed))) in
  let? row := load tx (w_task_id w) in
  let? cp := lift (ok_or (other "snapshot checkpoint missing") row) in
  let? _ := commit tx in
  mret (cp, set_checkpoint w cp).

(** One batch: rendered, then executed in the open transaction. *)
Definition copy_batch (validated : ValidatedSnapshotBatch) (data : D) : M D :=
  let? plan := lift (snapshot_sql validated) in call (execute_snapshot plan data).

Definition copy_snapshot (w : CheckpointWriter) (tables : list SnapshotTable)
    (batches : list (io SnapshotBatch)) (progress : SnapshotBatch → Z → io ()) :
    M (ReplicationCheckpoint * CheckpointWriter) :=
  let? expected := lift (ok_or (other "snapshot was not prepared") (w_checkpoint w)) in
  if negb (is_snapshot_phase expected) then fail (other "snapshot phase required") else
  let? tx := begin in
  let? row := load tx (w_task_id w) in
  if negb (bool_decide (row = Some expected)) then fail (other "snapshot checkpoint changed") else
  let? data := call (snapshot_targets tables true (db_data tx)) in
  let? r := copy_batches copy_batch w tables progress batches 0 0 data in
  let '(table_index, row_count, data) := r in
  if negb (bool_decide (table_index = length tables))
  then fail (other "snapshot stream ended before all tables completed") else
  let tx := with_data tx data in
  let? rows := lift (to_i64 row_count) in
  let? tx := update_row tx (w_task_id w) (λ row,
    let? revision := next_revision row in
    Ok (mkCheckpoint (cp_task_id row) (cp_source_uuid row) (cp_sink_uuid row) (cp_binding row)
          (cp_mode row) (cp_file row) (cp_position row) (cp_gtid_set row)
          (cp_last_transaction_id row) revision (cp_applied_transactions row)
          (cp_applied_rows row) "incremental" rows (cp_snapshot_gtids row))) in
  let? row := load tx (w_task_id w) in
  let? cp := lift (ok_or (other "snapshot checkpoint disappeared") row) in
  let? _ := commit tx in
  mret (cp, set_checkpoint w cp).

(** ** Applying a transaction *)

(** Is the transaction included in the applied history of the row? *)
Definition already_applied (cp : ReplicationCheckpoint) (transaction_id : string)
    (order : comparison) : io bool :=
  if bool_decide (cp_mode cp = "gtid"%string) then
    let? one := canonical_single_gtid transaction_id in
    let? included := gtid_contains (default ""%string (cp_gtid_set cp)) one in
    if negb included && negb (bool_decide (order = Gt))
    then Err (other "GTID and binlog history disagree")
    else Ok included
  else Ok (negb (bool_decide (order = Gt))).

(** The applied set of the row, the observed transactions and this one. *)
Definition next_gtid_set (cp : ReplicationCheckpoint) (observed : option string)
    (transaction_id : string) : io (option string) :=
  if bool_decide (cp_mode cp = "gtid"%string) then
    let? merged := merge_gtids (cp_gtid_set cp) (default ""%string observed) in
    let? merged := merge_gtids (Some merged) transaction_id in
    Ok (Some merged)
  else Ok (cp_gtid_set cp).

Definition apply_inner (w : CheckpointWriter) (source_uuid transaction_id : string)
    (cursor : SourceCursor) (plan : option SqlTransaction) :
    M (CheckpointApplyResult * CheckpointWriter) :=
  if identity_mismatch w source_uuid transaction_id then fail (other "transaction source identity mismatch") else
  if match w_checkpoint w with
     | Some cp => negb (bool_decide (cp_phase cp = "incremental"%string))
     | None => false
     end
  then fail (other "snapshot is not committed yet") else
  let? fp := lift (Postgres.file_position cursor) in
  let '(file, position) := fp in
  let? expected := lift (ok_or (other "initialize checkpoint before apply") (w_checkpoint w)) in
  let? tx := begin in
  let? row := load tx (w_task_id w) in
  let? cp := lift (ok_or (other "cdc.log_info checkpoint is missing") row) in
  let? _ := lift (check_binding cp (w_source_uuid w) (w_sink_uuid w) (w_binding w)) in
  if negb (bool_decide (cp = expected))
  then fail (other "checkpoint changed outside this writer") else
  let? order := lift (compare_checkpoint_position (Some (cp_mode cp)) file position
                        (cp_file cp) (cp_position cp)) in
  let? already := lift (already_applied cp transaction_id order) in
  if (already : bool) then
    let? _ := rollback tx in mret (mkApplyResult cp 0 true, w)
  else
  let? _ := lift (not_behind_observed w cp file position) in
  let? data :=
    (match plan with
     | Some plan => call (execute_statements json_logical_value json_envelope plan (db_data tx))
     | None => mret (db_data tx)
     end) in
  let rows := match plan with Some plan => Z.of_nat (length (sq_statements plan)) | None => 0 end in
  let tx := with_data tx data in
  let? gtid_set := lift (next_gtid_set cp (w_observed_gtids w) transaction_id) in
  let? _ := lift (ok_or (other "checkpoint revision overflow") (checked_add_u64 (cp_revision cp) 1)) in
  let cp := advanced Z.add cp file position gtid_set transaction_id rows in
  let? _ := lift (to_i64 (cp_position cp)) in
  let? _ := lift (to_i64 (cp_revision cp)) in
  let? _ := lift (to_i64 (cp_applied_transactions cp)) in
  let? _ := lift (to_i64 (cp_applied_rows cp)) in
  let? tx := update_row tx (w_task_id w) (store_progress cp) in
  let? _ := commit tx in
  mret (mkApplyResult cp rows false, clear_observed (set_checkpoint w cp)).

Definition apply (w : CheckpointWriter) (plan : SqlTransaction) :
    M (CheckpointApplyResult * CheckpointWriter) :=
  apply_inner w (sq_source_uuid plan) (sq_source_transaction_id plan) (sq_commit_cursor plan)
    (Some plan).

Definition advance (w : CheckpointWriter) (transaction : ChangeTransaction) :
    M (CheckpointApplyResult * CheckpointWriter) :=
  if negb (lempty (tx_changes transaction))
  then fail (other "advance requires an empty route projection") else
  apply_inner w (src_id (tx_source transaction)) (tx_id transaction)
    (tx_commit_cursor transaction) None.

(** ** After a lost COMMIT *)
Definition resolve_commit_unknown (w : CheckpointWriter) (transaction : ChangeTransaction) :
    M CommitResolution :=
  if negb (bool_decide (src_id (tx_source transaction) = w_source_uuid w))
     || sempty (tx_id transaction)
  then fail (other "commit resolution source identity mismatch") else
  let? fp := lift (Postgres.file_position (tx_commit_cursor transaction)) in
  let? tx := begin in
  let? row := load tx (w_task_id w) in
  let? cp := lift (ok_or (other "cdc.log_info checkpoint is missing") row) in
  let? _ := lift (check_binding cp (w_source_uuid w) (w_sink_uuid w) (w_binding w)) in
  if bool_decide (cp_last_transaction_id cp = Some (tx_id transaction)) then
    let? _ := rollback tx in mret Applied
  else
  let? order := lift (compare_checkpoint_position (Some (cp_mode cp)) fp.1 fp.2
                        (cp_file cp) (cp_position cp)) in
  let? applied_by_gtid :=
    lift (if bool_decide (cp_mode cp = "gtid"%string) then
            let? one := canonical_single_gtid (tx_id transaction) in
            gtid_contains (default ""%string (cp_gtid_set cp)) one
          else Ok false) in
  let result :=
    if applied_by_gtid || bool_decide (order = Lt) then Applied
    else if bool_decide (order = Gt) then NotApplied else Unprovable in
  let? _ := rollback tx in
  mret result.
End writer.
