(* ===== verification/CheckpointSpec.v ===== *)
(** * What the PostgreSQL checkpoint writer promises

    The writer of [Checkpoint.v] implements the contract of [Contract.v]: business
    rows and checkpoint change together or not at all; a transaction at or before
    the checkpoint changes nothing; the position only moves forward; a lost COMMIT
    is resolved by the row alone. *)
From S2P Require Import Prelude Text Codec Model Representation Validate Snapshot Outcome.
From S2P Require Import Gtid Position Target Session ControlRow Contract Checkpoint.

Ltac wp_unfold ::= lazymatch goal with |- wp (load _ _) _ _ => unfold load end.

(** ** Rows *)
Lemma checkpoint_from_row_ok row cp : checkpoint_from_row row = Ok cp → cp = row.
Proof.
  unfold checkpoint_from_row.
  do 5 (intros (z & _ & Hz)%bind_ok; revert Hz; clear z). by intros [= <-].
Qed.

(** The result of a read of the task's row. *)
Lemma load_ok (m : gmap string ReplicationCheckpoint) (task : string) o :
  match m !! task with
  | Some row => let? cp := checkpoint_from_row row in Ok (Some cp)
  | None => Ok None
  end = Ok o → m !! task = o ∧ ∀ cp, o = Some cp → checkpoint_from_row cp = Ok cp.
Proof. apply load_row_ok. intros. by apply checkpoint_from_row_ok. Qed.

Lemma already_applied_gt cp id order :
  already_applied cp id order = Ok false → order = Gt.
Proof.
  unfold already_applied. case_bool_decide as Hm; [|by destruct order].
  intros (one & _ & Hx)%bind_ok. apply bind_ok in Hx as (b & _ & Hx).
  destruct b, order; cbn in Hx; done.
Qed.

(** ** The row a transaction leaves behind *)

(** In GTID mode the new set contains the transaction. *)
Lemma next_gtid_contains cp observed id gtids :
  cp_mode cp = "gtid"%string →
  (∃ b, already_applied cp id Gt = Ok b) →
  next_gtid_set cp observed id = Ok gtids →
  ∃ one g, canonical_single_gtid id = Ok one ∧ gtids = Some g ∧ gtid_contains g one = Ok true.
Proof.
  intros Hm [b Ha] Hn. unfold already_applied in Ha. unfold next_gtid_set in Hn.
  rewrite Hm, bool_decide_eq_true_2 in Ha by done. rewrite Hm, bool_decide_eq_true_2 in Hn by done.
  apply bind_ok in Ha as (one & Hone & _). apply bind_ok in Hn as (m1 & _ & Hn).
  apply bind_ok in Hn as (g & Hg & [= <-]). exists one, g. split_and!; [done..|].
  destruct (Gtid.Spec.gtid_contains_spec id one Hone) as (key & n & Hid & Hc).
  pose proof (Gtid.Spec.merge_gtids_spec (Some m1) id) as Hu. rewrite Hg in Hu.
  specialize (Hc g). destruct (gtid_contains g one) as [c|e].
  - f_equal. apply Hc, Hu. right. by apply Hid.
  - exfalso. apply Hc. unfold merge_gtids in Hg. by apply Gtid.Spec.canonical_text in Hg as [? _].
Qed.

(** A transaction is recognised once its row is written, whatever is observed. *)
Lemma advanced_already cp file position observed gtids id rows :
  already_applied cp id Gt = Ok false →
  next_gtid_set cp observed id = Ok gtids →
  already_applied (advanced Z.add cp file position gtids id rows) id Eq = Ok true.
Proof.
  intros Ha Hn. unfold already_applied. cbn [cp_mode advanced Z.add cp_gtid_set].
  case_bool_decide as Hm; [|done].
  destruct (next_gtid_contains cp observed id gtids Hm) as (one & g & Hone & -> & Hc); eauto.
  rewrite Hone. change (default ""%string (Some g)) with g.
  cbn [mbind result_bind]. by rewrite Hc.
Qed.

Lemma next_gtid_some cp observed id gtids :
  next_gtid_set cp observed id = Ok gtids →
  mode_disagrees (cp_mode cp) (cp_gtid_set cp) = false →
  mode_disagrees (cp_mode cp) gtids = false.
Proof.
  unfold next_gtid_set. case_bool_decide as Hm; [|by intros [= <-]].
  intros (m1 & _ & Hn)%bind_ok. apply bind_ok in Hn as (g & _ & [= <-]). rewrite Hm. done.
Qed.

Lemma to_u64_ok z y : to_u64 z = Ok y ↔ 0 ≤ z ∧ y = z.
Proof.
  unfold to_u64. destruct (0 <=? z) eqn:E; bool_simpl.
  - split; [by intros [= <-]|by intros [_ ->]].
  - split; [done|lia].
Qed.

Lemma row_nonneg row :
  checkpoint_from_row row = Ok row
  ↔ 0 ≤ cp_position row ∧ 0 ≤ cp_revision row ∧ 0 ≤ cp_applied_transactions row
    ∧ 0 ≤ cp_applied_rows row ∧ 0 ≤ cp_snapshot_rows row.
Proof.
  unfold checkpoint_from_row. rewrite bind_ok. setoid_rewrite to_u64_ok. split.
  - intros (? & [? _] & Hx). do 4 (apply bind_ok in Hx as (? & [? _]%to_u64_ok & Hx)). done.
  - intros (H1 & H2 & H3 & H4 & H5). eexists. split; [done|].
    do 4 (apply bind_ok; eexists; split; [by apply to_u64_ok|]). done.
Qed.

(** ** The dialect *)
Section dialect.
Context {D : Type} `{Server : PgServer D} `{B64 : Base64, SHA : Sha256}.
Context (json_logical_value : string → option LogicalValue)
        (json_envelope : list byte → option SourceRepresentationEnvelope)
        (snapshot_sql : ValidatedSnapshotBatch → io SnapshotSql).

Definition pg_dialect : Dialect D SqlTransaction := {|
  dl_file_position := Postgres.file_position;
  dl_row_ok cp := checkpoint_from_row cp = Ok cp;
  dl_already_applied := already_applied;
  dl_next_gtid_set := next_gtid_set;
  dl_add := Z.add;
  dl_execute := execute_statements json_logical_value json_envelope;
  dl_statements p := Z.of_nat (length (sq_statements p));
  dl_snapshot_targets tables d := snapshot_targets tables true d;
  dl_copy_batch v d := let? plan := snapshot_sql v in execute_snapshot plan d
|}.

#[export] Instance pg_dialect_laws : DialectLaws pg_dialect.
Proof.
  split; cbn.
  - intros cursor file position. apply file_position_range.
  - intros mode cursor file position file0 position0 o. apply comparable_valid.
  - apply already_applied_gt.
  - apply next_gtid_some.
  - intros cp file position gtids id rows Hr Hp Hrows. apply row_nonneg in Hr. apply row_nonneg. cbn.
    destruct (0 <? rows); intuition lia.
  - intros plan. lia.
Qed.
#[export] Instance pg_dialect_history : DialectHistory pg_dialect.
Proof. intros cp file position observed gtids id rows. apply advanced_already. Qed.
End dialect.

(** The operations of the dialect by their names. *)
Ltac pg_names :=
  cbn [dl_file_position dl_row_ok dl_already_applied dl_next_gtid_set dl_add dl_execute dl_statements
       dl_snapshot_targets dl_copy_batch pg_dialect] in *.

Section spec.
Context {D : Type} `{Server : PgServer D} `{B64 : Base64, SHA : Sha256}.
Context (json_logical_value : string → option LogicalValue)
        (json_envelope : list byte → option SourceRepresentationEnvelope)
        (snapshot_sql : ValidatedSnapshotBatch → io SnapshotSql).
Notation apply_inner := (apply_inner json_logical_value json_envelope).
Notation apply := (apply json_logical_value json_envelope).
Notation advance := (advance json_logical_value json_envelope).
Notation execute_statements := (execute_statements json_logical_value json_envelope).
#[local] Hint Extern 0 (Dialect D _) =>
  exact (pg_dialect json_logical_value json_envelope snapshot_sql) : typeclass_instances.
Notation plan_rows := (Contract.plan_rows (DL := pg_dialect json_logical_value json_envelope snapshot_sql)).

(** The contract's effect of a transaction, and its outcomes, on PostgreSQL. *)
Definition pg_effect (w : CheckpointWriter) (id : string) (cursor : SourceCursor) (plan : option SqlTransaction)
    (db db' : Db D) : Prop := takes_effect w id cursor plan db db'.
Definition pg_outcome (w : CheckpointWriter) (id : string) (cursor : SourceCursor) (plan : option SqlTransaction)
    (db : Db D) (r : io (CheckpointApplyResult * CheckpointWriter)) (s' : Env D) : Prop :=
  apply_post w id cursor plan db r s'.

Lemma apply_inner_wp w source id cursor plan s :
  wp (apply_inner w source id cursor plan) (apply_post w id cursor plan (env_db s)) s.
Proof.
  unfold Checkpoint.apply_inner.
  wp_step; [wp_step; by left|]. wp_step; [wp_step; by left|].
  wp_step; [|by left]. destruct a as [file position].
  wp_step; [|by left]. apply ok_or_ok in E2.
  wp_step; [|by left]. wp_step; [|by left..]. apply load_ok in E3 as [E4 Hload].
  wp_step; [|by left]. apply ok_or_ok in E3 as ->. rename a1 into cp. specialize (Hload cp eq_refl).
  wp_step; [|by left]. wp_step; [wp_step; by left|].
  match goal with Hx : negb (bool_decide (cp = a)) = false |- _ =>
    apply bool_decide_negb in Hx as <- end.
  rewrite E2 in E0. destruct a0.
  wp_step; [|by left]. rename a into order. rename E5 into Eorder.
  wp_step; [|by left]. rename E5 into Ealready. destruct a.
  { wp_step; [|by left..]. wp_step. cbn [apply_post ar_already_applied]. split_and!; try done.
    by exists cp, file, position, order. }
  pose proof (already_applied_gt _ _ _ Ealready) as ->.
  wp_step; [|by left].
  eapply (plan_wp (DL := pg_dialect json_logical_value json_envelope snapshot_sql)); [|by left].
  intros data fs' Hdata. cbn [env_db].
  wp_step; [|by left]. wp_step; [|by left]. wp_step; [|by left]. wp_step; [|by left].
  wp_step; [|by left]. wp_step; [|by left].
  apply wp_bind. unfold update_row, with_data. cbn [db_log_info]. rewrite E4.
  cbn [mbind result_bind store_progress].
  change (mkCheckpoint _ _ _ _ _ _ _ _ _ _ _ _ _ _ _)
    with (advanced Z.add cp file position a0 id (plan_rows plan)).
  assert (takes_effect w id cursor plan (env_db s)
            (with_data (with_log_info (env_db s)
              (<[w_task_id w := advanced Z.add cp file position a0 id (plan_rows plan)]>
                 (db_log_info (env_db s)))) data)) as Heff.
  { exists cp, file, position, data, a0. split_and!; try done.
    - revert E. unfold identity_mismatch. rewrite !orb_false_iff.
      rewrite (bool_decide_eq_true_2 (w_source_uuid w = w_source_uuid w)) by done. tauto.
    - by apply bool_decide_negb in E0. }
  wp_step; [|by left]. wp_step; [|by left|by right].
  wp_step. cbn [ar_already_applied apply_post]. split_and!; [exact Heff|done| |done].
  cbn. by rewrite lookup_insert_eq.
Qed.

Lemma load_found (db : Db D) task cp :
  db_log_info db !! task = Some cp → checkpoint_from_row cp = Ok cp →
  load db task = call (Ok (Some cp)).
Proof. intros Hrow Hr. unfold load, load_row. by rewrite Hrow, Hr. Qed.

Lemma replay_returns w id cursor (plan : option SqlTransaction) (db : Db D) cp :
  recorded w id cursor db → db_log_info db !! w_task_id w = Some cp → w_checkpoint w = Some cp →
  apply_inner w (w_source_uuid w) id cursor plan (mkEnv db [])
  = (Ok (mkApplyResult cp 0 true, w), mkEnv db []).
Proof.
  intros (cp' & f & p & Hrow & Hid & Hp & Hr & Hb & Hf & Hc & Ha & _) Hrow' Hw.
  rewrite Hrow in Hrow'. injection Hrow' as ->.
  pg_names. unfold Checkpoint.apply_inner. rewrite Hid, Hw, Hp, bool_decide_eq_true_2 by done. cbn [negb].
  rewrite Hf, !run_lift. cbn [ok_or]. rewrite run_lift, run_begin.
  rewrite (load_found _ _ _ Hrow Hr), run_call. cbn [ok_or]. rewrite run_lift, Hb, run_lift.
  rewrite bool_decide_eq_true_2 by done. cbn [negb]. by rewrite Hc, run_lift, Ha, run_lift.
Qed.

(** C3: A call to [apply] or [advance] is atomic under every sequence of
    connection faults: it ends with the database it started from, or with the
    business statements executed and the row advanced together.  Success of a
    new transaction means the latter; an error other than an unknown COMMIT
    means the former; "already applied" changes nothing. *)
Theorem apply_atomic (w : CheckpointWriter) (source id : string) (cursor : SourceCursor)
    (plan : option SqlTransaction) (s : Env D) :
  let '(r, s') := apply_inner w source id cursor plan s in
  pg_outcome w id cursor plan (env_db s) r s'.
Proof.
  pose proof (apply_inner_wp w source id cursor plan s) as H. unfold wp in H.
  by destruct (apply_inner w source id cursor plan s).
Qed.

Lemma checked_revision cp :
  0 ≤ cp_revision cp → cp_revision cp + 1 ≤ i64_max →
  ok_or (other "checkpoint revision overflow") (checked_add_u64 (cp_revision cp) 1)
  = Ok (cp_revision cp + 1).
Proof. unfold checked_add_u64, i64_max, u64_max. intros. case_match; bool_simpl; [done|lia]. Qed.

Lemma to_i64_le z : z ≤ i64_max → to_i64 z = Ok z.
Proof. intros. unfold to_i64. case_match; bool_simpl; [done|lia]. Qed.


(** C5: Replaying is idempotent: once a transaction took effect, no writer of
    the task executes any business statement for it again, whatever plan it is
    given and whatever faults occur; a writer that has loaded the row and meets
    no fault reports it as already applied. *)
Theorem replay_is_noop (w w' : CheckpointWriter) (id : string) (cursor : SourceCursor)
    (plan plan' : option SqlTransaction) (db db' : Db D) (faults : list Fault) :
  pg_effect w id cursor plan db db' →
  same_task w w' →
  (let '(r, s') := apply_inner w' (w_source_uuid w') id cursor plan' (mkEnv db' faults) in
   env_db s' = db' ∧ ∀ res w'', r = Ok (res, w'') → ar_already_applied res = true)
  ∧ (w_checkpoint w' = db_log_info db' !! w_task_id w' →
     ∃ cp, apply_inner w' (w_source_uuid w') id cursor plan' (mkEnv db' [])
           = (Ok (mkApplyResult cp 0 true, w'), mkEnv db' [])).
Proof.
  intros He Hs. apply effect_recorded in He. apply (recorded_same _ _ _ _ _ Hs) in He.
  split.
  - pose proof (apply_inner_wp w' (w_source_uuid w') id cursor plan' (mkEnv db' faults)) as H.
    unfold wp in H. apply recorded_settled in He.
    destruct (apply_inner w' _ id cursor plan' _) as [r s']. by apply (settled_no_replay _ _ _ _ _ _ _ He H).
  - intros Hw. pose proof He as (cp & _ & _ & Hrow & _). exists cp.
    apply replay_returns; [done|done|congruence].
Qed.

(** C7: Progress is monotone: a transaction that takes effect moves the row to
    a strictly later position of the same task, raises the revision by one,
    counts the executed statements, keeps the identity, mode, phase and
    snapshot columns, and in GTID mode keeps every transaction already in the
    applied set and adds the observed ones and itself. *)
Theorem effect_moves_forward (w : CheckpointWriter) (id : string) (cursor : SourceCursor)
    (plan : option SqlTransaction) (db db' : Db D) :
  pg_effect w id cursor plan db db' →
  ∃ cp cp', db_log_info db !! w_task_id w = Some cp ∧ db_log_info db' !! w_task_id w = Some cp'
    ∧ compare_checkpoint_position (Some (cp_mode cp)) (cp_file cp') (cp_position cp')
        (cp_file cp) (cp_position cp) = Ok Gt
    ∧ cp_revision cp' = cp_revision cp + 1
    ∧ cp_applied_rows cp' = cp_applied_rows cp + plan_rows plan
    ∧ (cp_source_uuid cp', cp_sink_uuid cp', cp_binding cp', cp_mode cp', cp_phase cp',
       cp_snapshot_rows cp', cp_snapshot_gtids cp')
      = (cp_source_uuid cp, cp_sink_uuid cp, cp_binding cp, cp_mode cp, cp_phase cp,
         cp_snapshot_rows cp, cp_snapshot_gtids cp)
    ∧ (∀ t, t ≠ w_task_id w → db_log_info db' !! t = db_log_info db !! t)
    ∧ (cp_mode cp = "gtid"%string →
       ∀ key n, Gtid.Spec.text_member (default ""%string (cp_gtid_set cp')) key n
         ↔ Gtid.Spec.text_member (default ""%string (cp_gtid_set cp)) key n
           ∨ Gtid.Spec.text_member (default ""%string (w_observed_gtids w)) key n
           ∨ Gtid.Spec.text_member id key n).
Proof.
  intros He. destruct (effect_forward _ _ _ _ _ _ He) as (cp & cp' & Hrow & Hrow' & Hc & Hr & Hn & Hsame & Hk & Hg).
  exists cp, cp'. split_and!; try done.
  intros Hm key n. cbn [dl_next_gtid_set pg_dialect] in Hg. unfold next_gtid_set in Hg.
  rewrite Hm, bool_decide_eq_true_2 in Hg by done.
  apply bind_ok in Hg as (m1 & H1 & Hg). apply bind_ok in Hg as (m2 & H2 & [= <-]).
  pose proof (Gtid.Spec.merge_gtids_spec (cp_gtid_set cp) (default ""%string (w_observed_gtids w))) as U1.
  rewrite H1 in U1. pose proof (Gtid.Spec.merge_gtids_spec (Some m1) id) as U2. rewrite H2 in U2.
  change (default ""%string (Some ?x)) with x in *. rewrite U2. change (default ""%string (Some m1)) with m1.
  rewrite U1. tauto.
Qed.

(** ** Lost COMMITs *)
Lemma resolve_wp w tx (s : Env D) :
  wp (resolve_commit_unknown w tx)
     (resolve_post w (tx_id tx) (tx_commit_cursor tx) (env_db s)) s.
Proof.
  unfold resolve_commit_unknown, resolve_post. wp_step; [by wp_step|].
  wp_step; [|done]. rename a into fp. wp_step; [|done].
  wp_step; [|done..]. apply load_ok in E1 as [E1 _]. wp_step; [|done]. apply ok_or_ok in E2. subst a.
  rename a0 into cp. wp_step; [|done]. wp_step.
  { wp_step; [|done]. wp_step. split_and!; [done|by intros _ x [= <-]|].
    intros (cp' & f & p & Hrow & Hl & _). exfalso. rewrite E2 in Hrow. injection Hrow as <-.
    by apply bool_decide_eq_true in E3. }
  apply bool_decide_eq_false in E3. wp_step; [|done]. rename a0 into order.
  wp_step; [|done]. rename a0 into by_gtid. wp_step; [|done]. wp_step.
  split_and!; [done| |].
  - intros (cp' & f & p & Hrow & Hl & _). exfalso.
    rewrite E2 in Hrow. injection Hrow as <-. done.
  - intros (cp' & f & p & Hrow & _ & Hf & Hc & Ha) x [= <-].
    rewrite E2 in Hrow. injection Hrow as <-. pg_names. rewrite Hf in E0. injection E0 as <-.
    cbn [fst snd dl_already_applied pg_dialect] in *. rewrite Hc in E4. injection E4 as <-.
    assert (by_gtid = false) as ->; [|done].
    unfold already_applied in Ha. destruct (bool_decide (cp_mode cp = "gtid"%string)); [|naive_solver].
    apply bind_ok in Ha as (one & Hone & Ha). apply bind_ok in Ha as (b & Hb & Ha).
    rewrite Hone in E5. cbn [mbind result_bind] in E5. rewrite Hb in E5. injection E5 as <-.
    by destruct b.
Qed.

(** C6: A lost COMMIT acknowledgement is resolved correctly: whatever happened
    to an [apply] of a transaction later than the row, a fresh writer of the
    task answers [Applied] only if it took effect, [NotApplied] only if it did
    not, never [Unprovable], and changes nothing. *)
Theorem resolution_correct (w w' : CheckpointWriter) (source : string) (tx : ChangeTransaction)
    (plan : option SqlTransaction) (s : Env D) (faults : list Fault) :
  pending w (tx_id tx) (tx_commit_cursor tx) (env_db s) →
  same_task w w' →
  let db := env_db s in
  let db' := env_db (apply_inner w source (tx_id tx) (tx_commit_cursor tx) plan s).2 in
  let '(x, s'') := resolve_commit_unknown w' tx (mkEnv db' faults) in
  env_db s'' = db'
  ∧ (x = Ok Applied → pg_effect w (tx_id tx) (tx_commit_cursor tx) plan db db')
  ∧ (x = Ok NotApplied → db' = db)
  ∧ x ≠ Ok Unprovable.
Proof.
  intros Hp Hs db db'.
  pose proof (apply_inner_wp w source (tx_id tx) (tx_commit_cursor tx) plan s) as Ha. unfold wp in Ha.
  pose proof (resolve_wp w' tx (mkEnv db' faults)) as Hr. unfold wp in Hr.
  destruct (resolve_commit_unknown w' tx (mkEnv db' faults)) as [x s''].
  exact (resolution_agrees _ _ _ _ _ _ _ _ _ _ Hp Hs Ha Hr).
Qed.
End spec.

(** ** A concrete task *)
Module Example1.
#[local] Existing Instance Rfc4648.base64.
#[local] Existing Instance SumDigest.sha256.
#[local] Existing Instance ListServer.server.

Definition no_snapshot_sql (_ : ValidatedSnapshotBatch) : io SnapshotSql := Err (other "none").
Definition dialect0 : Dialect ListServer.db SqlTransaction :=
  pg_dialect no_logical_value no_envelope no_snapshot_sql.

Definition binding64 : string := of_bytes (repeat "a"%char 64).
Definition cp0 : ReplicationCheckpoint :=
  mkCheckpoint "task" "src" "sink" binding64 "gtid" "bin.000007" 154 (Some (uuid_a +:+ ":1-5"))
    (Some (uuid_a +:+ ":5")) 3 2 9 "incremental" 0 None.
Definition w0 : CheckpointWriter :=
  mkWriter "task" "src" "sink" binding64 (Some cp0) (Some (uuid_a +:+ ":7")) None.
Definition db0 : Db ListServer.db := mkDb {[ "task" := cp0 ]} (Some "sink") {[ "task" ]} [].
Definition cur1 : SourceCursor := Capture.cursor "bin.000007" 400.
Definition id1 : string := uuid_a +:+ ":6".
Definition plan1 : SqlTransaction := ListServer.example_plan id1 cur1.
Definition tx1 : ChangeTransaction :=
  mkTransaction (mkSource "mysql" "8.0.36" "src") id1 cur1 cur1 [].
Definition rows1 : ListServer.db :=
  [("INSERT INTO t VALUES ($1)", [PInteger 1]); ("UPDATE t SET v=v WHERE id=$1", [PInteger 1])]%string.
Definition cp1 : ReplicationCheckpoint :=
  mkCheckpoint "task" "src" "sink" binding64 "gtid" "bin.000007" 400 (Some (uuid_a +:+ ":1-7"))
    (Some id1) 4 3 11 "incremental" 0 None.
Definition db1 : Db ListServer.db :=
  with_data (with_log_info db0 (<["task" := cp1]> (db_log_info db0))) rows1.
Definition w1 : CheckpointWriter := mkWriter "task" "src" "sink" binding64 (Some cp1) None None.

Lemma effect1 :
  takes_effect (DL := dialect0) w0 id1 cur1 (Some plan1) db0 db1.
Proof.
  exists cp0, "bin.000007"%string, 400, rows1, (Some (uuid_a +:+ ":1-7")).
  split_and!; try (vm_compute; reflexivity).
Defined.

Lemma same_task01 : same_task w0 w1.
Proof. by split_and!. Defined.

Lemma pending0 : pending (DL := dialect0) w0 id1 cur1 db0.
Proof.
  exists cp0, "bin.000007"%string, 400. split_and!; try (vm_compute; reflexivity).
  vm_compute. congruence.
Defined.
End Example1.

Import Example1.

Lemma replay_is_noop_witness :
  (let '(r, s') := apply_inner (Server := ListServer.server) (B64 := Rfc4648.base64)
                     (SHA := SumDigest.sha256) no_logical_value no_envelope
                     w1 (w_source_uuid w1) id1 cur1 None
                     (mkEnv db1 [SqlFault (SqlxDriver "reset")]) in
   env_db s' = db1 ∧ ∀ res w'', r = Ok (res, w'') → ar_already_applied res = true)
  ∧ (w_checkpoint w1 = db_log_info db1 !! w_task_id w1 →
     ∃ cp, apply_inner (Server := ListServer.server) (B64 := Rfc4648.base64)
             (SHA := SumDigest.sha256) no_logical_value no_envelope
             w1 (w_source_uuid w1) id1 cur1 None (mkEnv db1 [])
           = (Ok (mkApplyResult cp 0 true, w1), mkEnv db1 [])).
Proof.
  exact (replay_is_noop no_logical_value no_envelope no_snapshot_sql w0 w1 id1 cur1 (Some plan1) None db0 db1
    [SqlFault (SqlxDriver "reset")] effect1 same_task01).
Defined.

Lemma effect_moves_forward_witness :
  ∃ cp cp', db_log_info db0 !! w_task_id w0 = Some cp ∧ db_log_info db1 !! w_task_id w0 = Some cp'
    ∧ compare_checkpoint_position (Some (cp_mode cp)) (cp_file cp') (cp_position cp')
        (cp_file cp) (cp_position cp) = Ok Gt
    ∧ cp_revision cp' = cp_revision cp + 1
    ∧ cp_applied_rows cp' = cp_applied_rows cp + plan_rows (DL := dialect0) (Some plan1)
    ∧ (cp_source_uuid cp', cp_sink_uuid cp', cp_binding cp', cp_mode cp', cp_phase cp',
       cp_snapshot_rows cp', cp_snapshot_gtids cp')
      = (cp_source_uuid cp, cp_sink_uuid cp, cp_binding cp, cp_mode cp, cp_phase cp,
         cp_snapshot_rows cp, cp_snapshot_gtids cp)
    ∧ (∀ t, t ≠ w_task_id w0 → db_log_info db1 !! t = db_log_info db0 !! t)
    ∧ (cp_mode cp = "gtid"%string →
       ∀ key n, Gtid.Spec.text_member (default ""%string (cp_gtid_set cp')) key n
         ↔ Gtid.Spec.text_member (default ""%string (cp_gtid_set cp)) key n
           ∨ Gtid.Spec.text_member (default ""%string (w_observed_gtids w0)) key n
           ∨ Gtid.Spec.text_member id1 key n).
Proof. exact (effect_moves_forward no_logical_value no_envelope no_snapshot_sql w0 id1 cur1 (Some plan1) db0 db1 effect1). Defined.

Lemma resolution_correct_witness :
  let s := mkEnv db0 [NoFault; NoFault; NoFault; NoFault; CommitLost true "reset"] in
  let db' := env_db (apply_inner (Server := ListServer.server) (B64 := Rfc4648.base64)
                       (SHA := SumDigest.sha256) no_logical_value no_envelope
                       w0 "src" id1 cur1 (Some plan1) s).2 in
  let '(x, s'') := resolve_commit_unknown (B64 := Rfc4648.base64) w1 tx1 (mkEnv db' []) in
  env_db s'' = db'
  ∧ (x = Ok Applied → takes_effect (DL := dialect0) w0 id1 cur1 (Some plan1) db0 db')
  ∧ (x = Ok NotApplied → db' = db0)
  ∧ x ≠ Ok Unprovable.
Proof.
  exact (resolution_correct no_logical_value no_envelope no_snapshot_sql w0 w1 "src" tx1 (Some plan1)
    (mkEnv db0 [NoFault; NoFault; NoFault; NoFault; CommitLost true "reset"]) [] pending0 same_task01).
Defined.

