(* ===== verification/SnapshotSpec.v ===== *)
(** * The initial snapshot and the life of a checkpoint row

    What the other operations of the checkpoint writer do to the control table:
    creating the row, marking a snapshot, committing the copied rows together with
    the change of phase.  The history theorem puts all operations of all writers
    together: once a task is incremental it stays so, and its position never
    moves back. *)
From S2P Require Import Prelude Text Codec Model Representation Validate Snapshot Outcome.
From S2P Require Import Gtid Position Target Session ControlRow Contract Checkpoint CheckpointSpec.

(** ** Opening a writer *)
Section opening.
Context {D : Type}.

(** A writer of the task is open. *)
Definition owned (task : string) (db : Db D) : Prop := task ∈ db_locks db.

Lemma connect_wp v t (s : Env D) :
  wp (connect_for_version v t) (λ r s', env_db s' = env_db s) s.
Proof. unfold connect_for_version. case_match; by wp_step. Qed.

Lemma ensure_schema_wp fresh_uuid (s : Env D) :
  wp (ensure_schema fresh_uuid)
     (λ r s', same_content (env_db s) (env_db s') ∧ db_locks (env_db s') = db_locks (env_db s)
        ∧ ∀ u, r = Ok u → db_sink_uuid (env_db s') = Some u) s.
Proof.
  unfold ensure_schema. do 5 (wp_step; [|done]). cbn [db_sink_uuid ok_or]. wp_step; [|done].
  wp_step; [|done|done]. wp_step. split; [done|]. split; [done|]. by intros u [= <-].
Qed.

Lemma open_wp server_version fresh_uuid task source binding target_version (s : Env D) :
  wp (open_for_version server_version fresh_uuid task source binding target_version)
     (λ r s', same_content (env_db s) (env_db s')
        ∧ match r with
          | Ok w =>
              w_task_id w = task ∧ w_source_uuid w = source ∧ w_binding w = binding
              ∧ w_observed_gtids w = None ∧ w_observed_position w = None
              ∧ w_checkpoint w = db_log_info (env_db s) !! task
              ∧ (∀ cp, w_checkpoint w = Some cp →
                   check_binding cp source (w_sink_uuid w) binding = Ok ())
              ∧ task ∉ db_locks (env_db s) ∧ task ∈ db_locks (env_db s')
          | Err _ => db_locks (env_db s') = db_locks (env_db s)
          end) s.
Proof.
  unfold open_for_version. wp_step; [|done].
  apply wp_bind. eapply wp_mono; [apply connect_wp|]. intros [?|e] s1 H1; [|by rewrite H1].
  apply wp_bind. eapply wp_mono; [apply ensure_schema_wp|].
  intros [sink|e] s2 (Hc2 & Hl2 & _); rewrite H1 in *; [|done].
  apply wp_bind. eapply wp_mono; [apply try_lock_wp|].
  assert (∀ db, same_content (env_db s2) db → same_content (env_db s) db) as Htrans.
  { unfold same_content in *. intuition congruence. }
  intros [[]|e] s3 (Hc3 & Hyes & Hno & _); apply Htrans in Hc3; cbn [negb].
  2-3: try wp_step; rewrite Hno by done; done.
  destruct (Hyes eq_refl) as [Hfree Hl3]. clear Hyes Hno. rewrite Hl2 in Hfree, Hl3.
  assert (db_locks (unlock task (env_db s3)) = db_locks (env_db s)) as Hun.
  { cbn. rewrite Hl3. set_solver. }
  apply wp_dropping. unfold load_conn.
  apply wp_bind, wp_bind, wp_get_db. wp_step; [|done..].
  apply load_ok in E0 as [E0 _]. rewrite (proj1 Hc3) in E0.
  wp_step; [by wp_step|]. wp_step; [|done].
  wp_step. split; [done|]. cbn. split_and!; try done.
  - intros cp Hcp. rewrite Hcp in E2. by destruct a2.
  - rewrite Hl3. set_solver.
Qed.

End opening.

(** ** Copying *)
Section snapshots.
Context {D : Type} `{Server : PgServer D} `{B64 : Base64, SHA : Sha256}.
Context (json_logical_value : string → option LogicalValue)
        (json_envelope : list byte → option SourceRepresentationEnvelope)
        (serde_from_str : string → option SerdeValue)
        (snapshot_sql : ValidatedSnapshotBatch → io SnapshotSql).
Notation copy_snapshot := (copy_snapshot snapshot_sql).
Notation prepare_snapshot := (prepare_snapshot serde_from_str).
#[local] Hint Extern 0 (Dialect D _) =>
  exact (pg_dialect json_logical_value json_envelope snapshot_sql) : typeclass_instances.

(** The contract's effect of a snapshot on PostgreSQL. *)
Definition pg_copied (w : CheckpointWriter) (tables : list SnapshotTable) (items : list (io SnapshotBatch))
    (db db' : Db D) : Prop := snapshot_effect w tables items db db'.

Lemma copy_batch_wp v d (s : Env D) :
  wp (copy_batch snapshot_sql v d)
     (λ r s', env_db s' = env_db s ∧ ∀ d', r = Ok d' → dl_copy_batch v d = Ok d') s.
Proof.
  unfold copy_batch. wp_step; [|done]. wp_step; (split; [done|]); intros d'; [|done..]. intros [= <-].
  pg_names. by rewrite E.
Qed.

Lemma to_i64_ok z y : to_i64 z = Ok y → y = z.
Proof. unfold to_i64. case_match; naive_solver. Qed.

Lemma copy_snapshot_wp w tables items progress (s : Env D) :
  wp (copy_snapshot w tables items progress)
     (copy_post w tables items (env_db s)) s.
Proof.
  unfold Checkpoint.copy_snapshot, copy_post.
  wp_step; [|by left]. apply ok_or_ok in E. rename a into expected.
  wp_step; [wp_step; by left|]. apply bool_decide_negb in E0.
  wp_step; [|by left]. wp_step; [|by left..]. apply load_ok in E1 as [E1 _].
  wp_step; [wp_step; by left|]. apply bool_decide_negb in E2. subst a.
  wp_step; [|by left..]. rename a into d0.
  apply wp_bind. eapply wp_mono; [apply copy_batches_wp, copy_batch_wp|]. cbn [env_db].
  intros [[[i n] d]|e] [db fs'] [Hdb Hr]; cbn [env_db] in Hdb; subst db; [|by left].
  destruct (Hr _ _ _ eq_refl) as (l & Hl & Hc). clear Hr.
  wp_step; [wp_step; by left|]. apply bool_decide_negb in E3. subst i.
  wp_step; [|by left]. apply to_i64_ok in E3. subst a.
  assert (Hrow : db_log_info (with_data (env_db s) d) !! w_task_id w = Some expected) by done.
  apply wp_bind. unfold update_row. rewrite Hrow.
  unfold next_revision.
  destruct (cp_revision expected + 1 <=? i64_max); cbn [mbind result_bind]; [|wp_step; by left].
  change (mkCheckpoint _ _ _ _ _ _ _ _ _ _ _ _ _ _ _) with (snapshot_done expected n).
  wp_step; [|by left].
  wp_step; [|by left..]. apply load_ok in E3 as [E3 _]. cbn in E3.
  rewrite lookup_insert_eq in E3. subst a.
  wp_step; [|by left]. apply ok_or_ok in E3 as [= <-].
  assert (snapshot_effect w tables items (env_db s)
    (with_log_info (with_data (env_db s) d)
       (<[w_task_id w := snapshot_done expected n]> (db_log_info (with_data (env_db s) d))))) as Heff.
  { exists expected, d0, l, n, d. split_and!; try done. }
  wp_step; [|by left|by right]. wp_step. split_and!; [done| |done].
  cbn. by rewrite lookup_insert_eq.
Qed.

(** C8: The snapshot is all or nothing: under every sequence of faults the copy
    ends with the database unchanged, or with every table copied completely and
    in order, the row counts recorded, and the phase switched to incremental in
    the same commit; success means the latter, and any error other than an
    unknown COMMIT means the former. *)
Theorem copy_snapshot_atomic (w : CheckpointWriter) (tables : list SnapshotTable)
    (items : list (io SnapshotBatch)) (progress : SnapshotBatch → Z → io ()) (s : Env D) :
  let '(r, s') := copy_snapshot w tables items progress s in
  match r with
  | Ok (cp, _) => pg_copied w tables items (env_db s) (env_db s')
      ∧ db_log_info (env_db s') !! w_task_id w = Some cp
      ∧ cp_phase cp = "incremental"%string
      ∧ ∃ l, items = Ok <$> l ∧ cp_snapshot_rows cp = foldr (λ b acc, batch_rows b + acc) 0 l
  | Err e => env_db s' = env_db s
      ∨ pg_copied w tables items (env_db s) (env_db s') ∧ commit_outcome_unknown e = true
  end.
Proof.
  pose proof (copy_snapshot_wp w tables items progress s) as H. unfold wp, copy_post in H.
  destruct (copy_snapshot w tables items progress s) as [[[cp w']|e] s']; [|done].
  cbn [fst snd] in H. destruct H as (He & Hrow & _). split; [done|]. split; [done|].
  by eapply snapshot_effect_row.
Qed.

(** ** Creating and marking the row *)
Lemma initialize_wp w mode file position gtid_set (s : Env D) :
  wp (initialize w mode file position gtid_set)
     (λ r s', env_db s' = env_db s
        ∨ db_log_info (env_db s) !! w_task_id w = None
          ∧ ∃ cp, cp_phase cp = "incremental"%string ∧ cp_revision cp = 0
            ∧ env_db s' = with_log_info (env_db s) (<[w_task_id w := cp]> (db_log_info (env_db s)))) s.
Proof.
  unfold initialize. destruct (w_checkpoint w); [wp_step; by left|].
  wp_step; [|by left]. wp_step; [wp_step; by left|].
  wp_step; [|by left]. wp_step; [|by left]. wp_step; [|by left].
  apply wp_bind. unfold insert_row. cbn [cp_task_id].
  destruct (db_log_info (env_db s) !! w_task_id w) eqn:Hrow; [wp_step; by left|].
  wp_step; [|by left]. wp_step; [|by left..]. wp_step; [|by left].
  assert (∀ fs, env_db (mkEnv (env_db s) fs : Env D) = env_db s) as Hs by done.
  wp_step; [|by left|]; [wp_step|]; right; (split; [done|]); eexists;
    refine (conj _ (conj _ eq_refl)); done.
Qed.

Lemma prepare_snapshot_wp w boundary (s : Env D) :
  wp (prepare_snapshot w boundary)
     (λ r s', env_db s' = env_db s
        ∨ (∀ cp, db_log_info (env_db s) !! w_task_id w = Some cp → cp_phase cp = "snapshot"%string)
          ∧ ∃ cp, cp_phase cp = "snapshot"%string
            ∧ env_db s' = with_log_info (env_db s) (<[w_task_id w := cp]> (db_log_info (env_db s)))) s.
Proof.
  unfold Checkpoint.prepare_snapshot.
  wp_step; [wp_step; by left|]. wp_step; [|by left].
  destruct a as [[[mode file] position] executed_gtids].
  wp_step; [|by left]. wp_step; [wp_step; by left|]. wp_step; [wp_step; by left|].
  wp_step; [|by left]. rename a0 into executed.
  wp_step; [|by left]. wp_step; [|by left..]. apply load_ok in E5 as [E5 _].
  wp_step; [wp_step; by left|]. apply bool_decide_negb in E6. subst a0.
  wp_step; [|by left]. rename a0 into position'.
  assert (∀ cp, db_log_info (env_db s) !! w_task_id w = Some cp → cp_phase cp = "snapshot"%string) as Hsnap.
  { intros cp Hcp. rewrite Hcp in E6. rewrite <- E6 in E3. by apply bool_decide_negb in E3. }
  apply wp_bind. eapply (wp_mono _ (λ r s', env_db s' = env_db s
      ∧ ∀ tx, r = Ok tx → ∃ cp, cp_phase cp = "snapshot"%string
          ∧ tx = with_log_info (env_db s) (<[w_task_id w := cp]> (db_log_info (env_db s))))).
  { wp_step; destruct (w_checkpoint w) as [cp|] eqn:Hw; rewrite E6 in E7; try discriminate.
    - unfold update_row. rewrite E6. unfold next_revision.
      destruct (cp_revision cp + 1 <=? i64_max); cbn [mbind result_bind];
        (wp_step; (split; [reflexivity|]); intros tx; [|done]); [|done].
      intros [= <-]. eexists. refine (conj _ eq_refl). cbn. by apply Hsnap.
    - unfold insert_row. cbn [cp_task_id]. rewrite E6.
      wp_step; (split; [reflexivity|]); intros tx; [|done].
      intros [= <-]. eexists. by refine (conj _ eq_refl). }
  intros [tx|e] [db fs'] [Hdb Htx]; cbn [env_db] in Hdb; subst db; [|by left].
  destruct (Htx _ eq_refl) as (cp & Hcp & ->).
  wp_step; [|by left..]. wp_step; [|by left].
  wp_step; [|by left|]; [wp_step|]; right; eauto.
Qed.

(** ** Histories *)

(** Any operation, by any writer, with any arguments and under any faults. *)
Inductive db_step : Db D → Db D → Prop :=
| step_open v u task source binding target db fs :
    db_step db (env_db (open_for_version v u task source binding target (mkEnv db fs)).2)
| step_drop task db fs :
    db_step db (env_db (drop_writer task (mkEnv db fs)))
| step_initialize w mode file position gtids db fs :
    db_step db (env_db (initialize w mode file position gtids (mkEnv db fs)).2)
| step_prepare w boundary db fs :
    db_step db (env_db (prepare_snapshot w boundary (mkEnv db fs)).2)
| step_copy w tables items progress db fs :
    db_step db (env_db (copy_snapshot w tables items progress (mkEnv db fs)).2)
| step_apply w source id cursor plan db fs :
    db_step db (env_db (apply_inner json_logical_value json_envelope w source id cursor plan
                          (mkEnv db fs)).2)
| step_resolve w tx db fs :
    db_step db (env_db (resolve_commit_unknown w tx (mkEnv db fs)).2).

(** Every operation is a step of the contract. *)
Lemma db_step_row (db db' : Db D) : db_step db db' → row_step db db'.
Proof.
  intros [v u task' source binding target db0 fs|task' db0 fs|w mode file position gtids db0 fs
    |w boundary db0 fs|w tables items progress db0 fs|w source id cursor plan db0 fs|w tx db0 fs].
  - apply row_kept. by apply (open_wp v u task' source binding target (mkEnv db0 fs)).
  - by apply row_kept.
  - destruct (initialize_wp w mode file position gtids (mkEnv db0 fs)) as [->|(Hn & cp & Hp & Hr & ->)];
      [by apply row_kept|by eapply row_created].
  - destruct (prepare_snapshot_wp w boundary (mkEnv db0 fs)) as [->|(Hs & cp & Hp & ->)];
      [by apply row_kept|by eapply row_marked].
  - exact (copy_post_step _ _ _ _ _ _ (copy_snapshot_wp w tables items progress (mkEnv db0 fs))).
  - exact (apply_post_step _ _ _ _ _ _ _
      (apply_inner_wp json_logical_value json_envelope snapshot_sql w source id cursor plan (mkEnv db0 fs))).
  - apply row_step_same.
    apply (resolve_wp json_logical_value json_envelope snapshot_sql w tx (mkEnv db0 fs)).
Qed.

(** C9: The life of a task's checkpoint: whatever sequence of operations runs
    against the database, by however many writers and under whatever faults,
    once the row is incremental it is never removed, never turned back into a
    snapshot, and its position and revision never move back. *)
Theorem history_monotone (task : string) (cp : ReplicationCheckpoint) (db db' : Db D) :
  db_log_info db !! task = Some cp → live cp → rtc db_step db db' →
  ∃ cp', db_log_info db' !! task = Some cp' ∧ live cp' ∧ at_or_after cp cp'.
Proof.
  intros Hrow Hlive Hsteps. eapply row_history; [done|done|].
  eapply rtc_subrel; [|exact Hsteps]. apply db_step_row.
Qed.
End snapshots.

(** ** Witnesses *)
Section witnesses.
Import Example1.
#[local] Existing Instance Rfc4648.base64.
#[local] Existing Instance SumDigest.sha256.
#[local] Existing Instance ListServer.server.

Definition no_serde (_ : string) : option SerdeValue := None.
Definition empty_db : Db ListServer.db := mkDb ∅ None ∅ [].


Lemma history_monotone_witness :
  ∃ cp', db_log_info db1 !! "task"%string = Some cp' ∧ live cp' ∧ at_or_after cp0 cp'.
Proof.
  apply (history_monotone no_logical_value no_envelope no_serde no_snapshot_sql "task" cp0 db0 db1);
    [vm_compute; reflexivity|split; vm_compute; reflexivity|].
  apply rtc_once.
  exact (step_apply no_logical_value no_envelope no_serde no_snapshot_sql w0 "src" id1 cur1
    (Some plan1) db0 []).
Defined.
End witnesses.
