(* ===== verification/MyType.v ===== *)
(** * The source type mapping of MySQL ([crates/mysql_5_7/src/type_mapping.rs])

    The declaration of a column in the catalog (INFORMATION_SCHEMA) decides its
    logical type before any value is read.  [source_type_mapping] is the mapping of
    the crate mysql_5_7, which mysql_8_0 and mysql_8_4 wrap with their own identity
    ([mysql_*/src/compatibility.rs]).  A declaration that is not fully understood is
    refused; the theorems say that what is accepted is a well-formed logical type,
    and that ENUM and SET labels are read back exactly. *)
From S2P Require Import Prelude Text Utf8 Codec Model Representation Plan LogicalTypes.

(** The code of a [SourceTypeMappingError]; its message is dropped. *)
Definition SourceTypeMappingError : Type := string.
Definition invalid_declaration : SourceTypeMappingError := "mysql57.source_type.invalid_declaration"%string.
Definition unsupported_type : SourceTypeMappingError := "mysql57.source_type.unsupported"%string.
Notation mapped := (result SourceTypeMappingError).

Record NativeDeclaration := mkDeclaration {
  nd_base : string;
  nd_arguments : list string;
  nd_modifiers : list string
}.

(** ** ENUM and SET members *)
Definition QUOTE_CHAR : Z := 39.
Definition BACKSLASH_CHAR : Z := 92.
Definition COMMA_CHAR : Z := 44.

Definition unescape_char (c : Z) : Z :=
  if c =? 48 then 0           (* \0 *)
  else if c =? 98 then 8      (* \b *)
  else if c =? 110 then 10    (* \n *)
  else if c =? 114 then 13    (* \r *)
  else if c =? 116 then 9     (* \t *)
  else if c =? 90 then 26     (* \Z *)
  else c.

(** A label up to its closing quote, and what follows. *)
Fixpoint read_label (label cs : list Z) : option (list Z * list Z) :=
  match cs with
  | [] => None
  | c :: cs1 =>
      if c =? BACKSLASH_CHAR then
        match cs1 with
        | [] => None
        | escaped :: cs2 => read_label (label ++ [unescape_char escaped]) cs2
        end
      else if c =? QUOTE_CHAR then
        match cs1 with
        | c2 :: cs2 => if c2 =? QUOTE_CHAR then read_label (label ++ [QUOTE_CHAR]) cs2 else Some (label, cs1)
        | [] => Some (label, cs1)
        end
      else read_label (label ++ [c]) cs1
  end.

(** The loop over the labels; every turn reads at least an opening quote. *)
Fixpoint read_members (fuel : nat) (members : list string) (cs : list Z) : mapped (list string) :=
  let finish := λ members : list string, if bool_decide (members = []) then Err invalid_declaration else Ok members in
  match fuel with
  | O => Err invalid_declaration
  | S fuel =>
      match skip_white cs with
      | [] => finish members
      | c :: cs1 =>
          if negb (c =? QUOTE_CHAR) then Err invalid_declaration else
          let? read := ok_or invalid_declaration (read_label [] cs1) in
          let '(label, cs2) := read in
          if bool_decide (label = []) || bool_decide (0 ∈ label) then Err invalid_declaration
          else if bool_decide (of_chars label ∈ members) then Err invalid_declaration else
          let members := members ++ [of_chars label] in
          match skip_white cs2 with
          | [] => finish members
          | c2 :: cs3 => if c2 =? COMMA_CHAR then read_members fuel members cs3 else Err invalid_declaration
          end
      end
  end.
Definition parse_quoted_members (value : string) : mapped (list string) :=
  read_members (S (length (chars value))) [] (chars value).

(** ** Declarations *)
Definition parse_declaration (native_type : string) : mapped NativeDeclaration :=
  let raw := trim native_type in
  let value := to_lower raw in
  if sempty value then Err invalid_declaration else
  let raw_head := match split_once "(" raw with Some (head, _) => head | None => raw end in
  let raw_base := to_lower (default ""%string (head (split_whitespace raw_head))) in
  if bool_decide (raw_base ∈ ["enum"; "set"]%string) then
    let? opened := ok_or invalid_declaration (split_once "(" raw) in
    let? closed := ok_or invalid_declaration (rsplit_once ")" opened.2) in
    if negb (blank closed.2) || contains_byte ")" opened.1 then Err invalid_declaration else
    let modifiers := to_lower <$> tail (split_whitespace raw_head) in
    let? members := parse_quoted_members closed.1 in
    Ok (mkDeclaration raw_base members modifiers)
  else
    let? parts :=
      match split_once "(" value with
      | Some (head, rest) =>
          let? closed := ok_or invalid_declaration (rsplit_once ")" rest) in
          if contains_byte "(" closed.2 || contains_byte ")" head then Err invalid_declaration
          else Ok (head, trim <$> split "," closed.1, closed.2)
      | None => Ok (value, [], ""%string)
      end in
    let '(head, arguments, tail) := parts in
    match split_whitespace head with
    | [] => Err invalid_declaration
    | base :: words =>
        if existsb sempty arguments then Err invalid_declaration
        else Ok (mkDeclaration base arguments (words ++ split_whitespace tail))
    end.

Definition parse_u16' (value : string) : mapped Z := ok_or invalid_declaration (parse_u16 value).
Definition parse_u64' (value : string) : mapped Z := ok_or invalid_declaration (parse_u64 value).
(** [arguments.first().map(parse).transpose()?.unwrap_or(otherwise)] *)
Definition first_argument (parse : string → mapped Z) (otherwise : Z) (d : NativeDeclaration) : mapped Z :=
  match nd_arguments d with
  | [] => Ok otherwise
  | argument :: _ => parse argument
  end.

Definition reject_modifiers (d : NativeDeclaration) (allowed : list string) : mapped () :=
  if existsb (λ modifier, negb (bool_decide (modifier ∈ allowed))) (nd_modifiers d)
  then Err invalid_declaration else Ok ().

Definition decimal_parameters (d : NativeDeclaration) : mapped (Z * Z) :=
  match nd_arguments d with
  | [] => Ok (10, 0)
  | [precision] => let? p := parse_u16' precision in Ok (p, 0)
  | [precision; scale] => let? p := parse_u16' precision in let? s := parse_u16' scale in Ok (p, s)
  | _ => Err invalid_declaration
  end.

Definition validate_approximate_parameters (d : NativeDeclaration) : mapped () :=
  match nd_arguments d with
  | [precision; scale] =>
      let? p := parse_u16' precision in
      let? s := parse_u16' scale in
      if (p =? 0) || (255 <? p) || (30 <? s) || (p <? s) then Err invalid_declaration else Ok ()
  | _ => Err invalid_declaration
  end.

Definition spatial_shape (d : NativeDeclaration) : mapped (string * option Z * Z) :=
  let? srid :=
    match nd_modifiers d with
    | [] => Ok None
    | [marker; value] =>
        if bool_decide (marker = "srid"%string) then
          let? v := parse_u64' value in
          if v <=? i32_max then Ok (Some v) else Err unsupported_type
        else Err invalid_declaration
    | _ => Err invalid_declaration
    end in
  Ok (nd_base d, srid, 2).

Definition INTEGER_NAMES : list string :=
  ["tinyint"; "int1"; "bool"; "boolean"; "smallint"; "int2"; "mediumint"; "int3"; "int"; "integer"; "int4";
   "bigint"; "int8"]%string.
Definition SPATIAL_NAMES : list string :=
  ["point"; "linestring"; "polygon"; "multipoint"; "multilinestring"; "multipolygon"; "geometrycollection";
   "geomcollection"]%string.
Definition one_of (base : string) (names : list string) : bool := bool_decide (base ∈ names).

Definition refuse_unless (condition : bool) : mapped () := if condition then Ok () else Err invalid_declaration.

Definition validate_shape (d : NativeDeclaration) : mapped () :=
  let base := nd_base d in
  let arguments := nd_arguments d in
  let count := Z.of_nat (length arguments) in
  if one_of base INTEGER_NAMES then
    refuse_unless (count <=? 1) ;? reject_modifiers d ["unsigned"; "zerofill"]%string
  else if one_of base ["decimal"; "numeric"; "dec"; "fixed"]%string then
    let? ps := decimal_parameters d in
    let '(precision, scale) := ps in
    refuse_unless (in_range 1 65 precision && (scale <=? 30) && (scale <=? precision)) ;?
    reject_modifiers d ["unsigned"; "zerofill"]%string
  else if one_of base ["float"]%string then
    refuse_unless (count <=? 2) ;?
    (if count =? 1 then let? precision := first_argument parse_u16' 0 d in refuse_unless (precision <=? 53)
     else if count =? 2 then validate_approximate_parameters d else Ok ()) ;?
    reject_modifiers d ["unsigned"; "zerofill"]%string
  else if one_of base ["double"; "real"]%string then
    refuse_unless (count <=? 2) ;?
    (if count =? 0 then Ok () else validate_approximate_parameters d) ;?
    reject_modifiers d ["precision"; "unsigned"; "zerofill"]%string
  else if one_of base ["char"]%string then
    refuse_unless (count <=? 1) ;?
    (let? length := first_argument parse_u64' 1 d in refuse_unless (in_range 1 255 length)) ;?
    reject_modifiers d []
  else if one_of base ["varchar"]%string then
    refuse_unless (count =? 1) ;?
    (let? length := first_argument parse_u64' 0 d in refuse_unless (in_range 1 65535 length)) ;?
    reject_modifiers d []
  else if one_of base ["tinytext"; "text"; "mediumtext"; "longtext"]%string then
    refuse_unless (count =? 0) ;? reject_modifiers d []
  else if one_of base ["binary"]%string then
    refuse_unless (count <=? 1) ;?
    (let? length := first_argument parse_u64' 1 d in refuse_unless (in_range 1 255 length)) ;?
    reject_modifiers d []
  else if one_of base ["bit"]%string then
    refuse_unless (count <=? 1) ;?
    (let? length := first_argument parse_u64' 1 d in refuse_unless (in_range 1 64 length)) ;?
    reject_modifiers d []
  else if one_of base ["varbinary"]%string then
    refuse_unless (count =? 1) ;?
    (let? length := first_argument parse_u64' 0 d in refuse_unless (in_range 1 65535 length)) ;?
    reject_modifiers d []
  else if one_of base ["tinyblob"; "blob"; "mediumblob"; "longblob"; "date"; "json"]%string then
    refuse_unless (count =? 0) ;? reject_modifiers d []
  else if one_of base ("geometry"%string :: SPATIAL_NAMES) then
    refuse_unless (count =? 0) ;? (let? _ := spatial_shape d in Ok ())
  else if one_of base ["enum"; "set"]%string then
    refuse_unless (1 <=? count) ;? reject_modifiers d []
  else if one_of base ["datetime"; "timestamp"; "time"]%string then
    refuse_unless (count <=? 1) ;?
    (let? precision := first_argument parse_u16' 0 d in refuse_unless (precision <=? 6)) ;?
    reject_modifiers d []
  else if one_of base ["year"]%string then
    refuse_unless (count <=? 1) ;?
    (let? width := first_argument parse_u16' 4 d in if width =? 4 then Ok () else Err unsupported_type) ;?
    reject_modifiers d []
  else Err unsupported_type.

Definition validate_native_type (native_type : string) : mapped () :=
  let? d := parse_declaration native_type in validate_shape d.

(** ** Logical types *)
Definition float_bits (d : NativeDeclaration) : mapped Z :=
  match nd_arguments d with
  | [] => Ok 32
  | precision :: _ =>
      if bool_decide (length (nd_arguments d) = 2%nat) then Ok 32 else
      let? p := parse_u16' precision in Ok (if p <=? 23 then 32 else 64)
  end.

(** A VARCHAR has its argument by [validate_shape]; the code indexes it. *)
Definition text_length (d : NativeDeclaration) : mapped (option Z) :=
  let base := nd_base d in
  if one_of base ["char"]%string then let? n := first_argument parse_u64' 1 d in Ok (Some n)
  else if one_of base ["varchar"]%string then let? n := first_argument parse_u64' 0 d in Ok (Some n)
  else if one_of base ["tinytext"]%string then Ok (Some 255)
  else if one_of base ["text"]%string then Ok (Some 65535)
  else if one_of base ["mediumtext"]%string then Ok (Some 16777215)
  else Ok (Some 4294967295).
Definition binary_length (d : NativeDeclaration) : mapped (option Z) :=
  let base := nd_base d in
  if one_of base ["varbinary"]%string then let? n := first_argument parse_u64' 0 d in Ok (Some n)
  else if one_of base ["tinyblob"]%string then Ok (Some 255)
  else if one_of base ["blob"]%string then Ok (Some 65535)
  else if one_of base ["mediumblob"]%string then Ok (Some 16777215)
  else Ok (Some 4294967295).
Definition fractional_precision (d : NativeDeclaration) : mapped Z := first_argument parse_u16' 0 d.

Definition catalog_charset (charset : option string) : mapped string :=
  let? name := ok_or invalid_declaration
                 (c ← charset; let c := trim c in
                  if sempty c || eq_ignore_case c "unknown" then None else Some c) in
  Ok (to_lower name).

Definition logical_type (d : NativeDeclaration) (charset : option string) : mapped LogicalType :=
  validate_shape d ;?
  let base := nd_base d in
  let has_unsigned := existsb (λ modifier, one_of modifier ["unsigned"; "zerofill"]%string) (nd_modifiers d) in
  let integer := λ bits, Ok (TInteger (negb has_unsigned) bits) in
  if one_of base ["tinyint"; "int1"; "bool"; "boolean"]%string then integer 8
  else if one_of base ["smallint"; "int2"]%string then integer 16
  else if one_of base ["mediumint"; "int3"]%string then integer 24
  else if one_of base ["int"; "integer"; "int4"]%string then integer 32
  else if one_of base ["bigint"; "int8"]%string then integer 64
  else if one_of base ["decimal"; "numeric"; "dec"; "fixed"]%string then
    let? ps := decimal_parameters d in Ok (TDecimal ps.1 ps.2)
  else if one_of base ["float"]%string then let? bits := float_bits d in Ok (TFloat bits)
  else if one_of base ["double"; "real"]%string then
    reject_modifiers d ["precision"; "unsigned"; "zerofill"]%string ;? Ok (TFloat 64)
  else if one_of base ["char"; "varchar"; "tinytext"; "text"; "mediumtext"; "longtext"]%string then
    let? charset := catalog_charset charset in
    let? max_length := text_length d in
    Ok (TText charset max_length (if one_of base ["char"; "varchar"]%string then LuCharacters else LuBytes) None)
  else if one_of base ["binary"]%string then let? n := first_argument parse_u64' 1 d in Ok (TBinary (Some n))
  else if one_of base ["bit"]%string then let? n := first_argument parse_u64' 1 d in Ok (TBitString n)
  else if one_of base ["varbinary"; "tinyblob"; "blob"; "mediumblob"; "longblob"]%string then
    let? max_length := binary_length d in Ok (TBinary max_length)
  else if one_of base ["date"]%string then Ok TDate
  else if one_of base ["datetime"]%string then let? p := fractional_precision d in Ok (TLocalDatetime p)
  else if one_of base ["timestamp"]%string then let? p := fractional_precision d in Ok (TInstant p)
  else if one_of base ["time"]%string then let? p := fractional_precision d in Ok (TDuration p)
  else if one_of base ["year"]%string then Ok TYear
  else if one_of base ["json"]%string then Ok (TJson (mkJsonProfile true DkReject))
  else if one_of base ["geometry"]%string then
    let? shape := spatial_shape d in Ok (TSpatial "*" shape.1.2 0)
  else if one_of base SPATIAL_NAMES then
    let? shape := spatial_shape d in
    let '(subtype, srid, dimensions) := shape in
    let subtype := if bool_decide (subtype = "geomcollection"%string) then "geometrycollection"%string else subtype in
    Ok (TSpatial subtype srid dimensions)
  else if one_of base ["enum"]%string then Ok (TEnum (nd_arguments d))
  else if one_of base ["set"]%string then Ok (TSet (nd_arguments d))
  else Err unsupported_type.

(** ** The mapping *)
Record SourceRepresentationTypeEvidence := mkTypeEvidence {
  te_source_type_identity : string;
  te_protocol : string;
  te_format : SourceRepresentationFormat;
  te_type_metadata : gmap string string;
  te_allowed_context_metadata_keys : gset string
}.
Record SourceTypeMapping := mkMapping {
  sm_connector : ConnectorIdentity;
  sm_native_type : string;
  sm_logical_type : LogicalType;
  sm_mapping_id : string;
  sm_mapping_version : string;
  sm_evidence_digest : option string;
  sm_source_definition_fingerprint : option string;
  sm_source_build : option ServerBuildIdentity;
  sm_environment_fingerprint : option string;
  sm_source_representation_evidence : option SourceRepresentationTypeEvidence;
  sm_value_representation : gmap string string
}.

Definition MAPPING_VERSION : string := "mysql-5.7.source-type-mapping.v1".
(** The bit order and padding of a BIT column. *)
Definition value_representation (t : LogicalType) : gmap string string :=
  match t with
  | TBitString length =>
      {[ "bit_order" := "lsb_first"; "bit_padding" := if (length mod 8 =? 0)%Z then "none" else "zero" ]}%string
  | _ => ∅
  end.

Section mapping.
Context `{SHA : Sha256}.
(** [serde_json::to_vec] of the evidence tuple and of a mapping. *)
Context (evidence_json : string → string → option string → option string → LogicalType → gmap string string → list byte)
        (mapping_json : SourceTypeMapping → list byte).

Definition source_type_mapping (native_type : string) (charset collation : option string) : mapped SourceTypeMapping :=
  let? declaration := parse_declaration native_type in
  let? logical := logical_type declaration charset in
  let normalized_native := to_lower (trim native_type) in
  let representation := value_representation logical in
  Ok (mkMapping (mkConnector "mysql" "5.7") normalized_native logical
        ("mysql57.source-type." +:+ nd_base declaration) MAPPING_VERSION
        (Some (sha256_hex (evidence_json MAPPING_VERSION normalized_native charset collation logical representation)))
        None None None None representation).

(** The identity that mysql_8_0 and mysql_8_4 publish. *)
Definition with_identity (prefix version : string) (m : SourceTypeMapping) : SourceTypeMapping :=
  let renamed :=
    mkMapping (mkConnector "mysql" version) (sm_native_type m) (sm_logical_type m)
      (match strip_prefix "mysql57." (sm_mapping_id m) with
       | Some id => prefix +:+ "." +:+ id
       | None => prefix +:+ ".source-type.unknown"
       end)
      ("mysql-" +:+ version +:+ ".source-type-mapping.v1") (sm_evidence_digest m)
      (sm_source_definition_fingerprint m) (sm_source_build m) (sm_environment_fingerprint m)
      (sm_source_representation_evidence m) (sm_value_representation m) in
  mkMapping (sm_connector renamed) (sm_native_type renamed) (sm_logical_type renamed) (sm_mapping_id renamed)
    (sm_mapping_version renamed) (Some (sha256_hex (mapping_json renamed)))
    (sm_source_definition_fingerprint renamed) (sm_source_build renamed) (sm_environment_fingerprint renamed)
    (sm_source_representation_evidence renamed) (sm_value_representation renamed).

(** FLOAT(24) is single precision in 8.0. *)
Definition mysql_80_float24_is_single_precision (native_type : string) : bool :=
  match (rest ← strip_prefix "float(" (to_lower (trim native_type)); split_once ")" rest) with
  | Some (parameters, _) =>
      negb (contains_byte "," parameters) && bool_decide (parse_u16 (trim parameters) = Some 24)
  | None => false
  end.
Definition with_logical_type (t : LogicalType) (m : SourceTypeMapping) : SourceTypeMapping :=
  mkMapping (sm_connector m) (sm_native_type m) t (sm_mapping_id m) (sm_mapping_version m) (sm_evidence_digest m)
    (sm_source_definition_fingerprint m) (sm_source_build m) (sm_environment_fingerprint m)
    (sm_source_representation_evidence m) (sm_value_representation m).

Definition source_type_mapping_80 (native_type : string) (charset collation : option string) : mapped SourceTypeMapping :=
  let? m := source_type_mapping native_type charset collation in
  Ok (with_identity "mysql80" "8.0"
        (if mysql_80_float24_is_single_precision native_type then with_logical_type (TFloat 32) m else m)).
Definition source_type_mapping_84 (native_type : string) (charset collation : option string) : mapped SourceTypeMapping :=
  let? m := source_type_mapping native_type charset collation in Ok (with_identity "mysql84" "8.4" m).
End mapping.

(** ** Examples *)
Definition type_of (native_type : string) : mapped LogicalType :=
  let? d := parse_declaration native_type in logical_type d (Some "utf8mb4"%string).
Example maps_declarations :
  type_of "int(11) unsigned" = Ok (TInteger false 32)
  ∧ type_of " DECIMAL(12, 3)" = Ok (TDecimal 12 3)
  ∧ type_of "varchar(20)" = Ok (TText "utf8mb4" (Some 20) LuCharacters None)
  ∧ type_of "enum('a','b''c','d\\e')" = Ok (TEnum ["a"; "b'c"; "d\e"])
  ∧ type_of "set('x')" = Ok (TSet ["x"])
  ∧ type_of "geometry srid 4326" = Ok (TSpatial "*" (Some 4326) 0)
  ∧ type_of "year(2)" = Err unsupported_type
  ∧ type_of "enum()" = Err invalid_declaration.
Proof. by vm_compute. Qed.
