(* ===== verification/MySource.v ===== *)
(** * The MySQL source contract ([crates/mysql_source_contract/src/lib.rs])

    [validate_source] is the check a captured transaction passes before it leaves
    the source adapter: the identity of the source, the transaction id (a GTID or an
    anonymous position), the order of the cursors, full row images in ordinal order
    with a primary key, and a value per column that the column's declared type can
    have on that server version ([validate_column]). *)
From S2P Require Import Prelude Text Utf8 Codec Model Validate Position.

(** [SourceContractError]: its message. *)
Notation contract := (result string).

Inductive MysqlVersion := V57 | V80 | V84.
#[export] Instance MysqlVersion_eq_dec : EqDecision MysqlVersion.
Proof. solve_decision. Defined.

(** ** Text *)
(** [value.strip_suffix(c)] *)
Definition strip_suffix_byte (c : byte) (value : string) : option string :=
  match rsplit_once c value with
  | Some (head, EmptyString) => Some head
  | _ => None
  end.
(** [value.contains(pattern)] *)
Fixpoint contains (pattern value : string) : bool :=
  Validate.is_some (strip_prefix pattern value)
  || match value with EmptyString => false | String _ rest => contains pattern rest end.
(** [native.split(['(', ' ', '\t']).next()] *)
Fixpoint base_name (native : string) : string :=
  match native with
  | EmptyString => EmptyString
  | String c rest =>
      if bool_decide (c ∈ ["("; " "; "009"]%char) then EmptyString else String c (base_name rest)
  end.
(** The text between the first parenthesis and the next closing one. *)
Definition parameter (native : string) : option string :=
  opened ← split_once "(" native; fst <$> split_once ")" opened.2.

Definition uuid_byte (i : nat) (c : byte) : bool :=
  if bool_decide (i ∈ [8; 13; 18; 23]%nat) then bool_decide (c = "-"%char) else is_ascii_hexdigit c.
Definition uuid (value : string) : bool :=
  (slen value =? 36) && forallb (λ ic : nat * byte, uuid_byte ic.1 ic.2) (imap pair (sbytes value)).

(** ** Columns *)
Definition integer_bits (base : string) : Z :=
  if bool_decide (base ∈ ["tinyint"; "int1"; "bool"; "boolean"]%string) then 8
  else if bool_decide (base ∈ ["smallint"; "int2"]%string) then 16
  else if bool_decide (base ∈ ["mediumint"; "int3"]%string) then 24
  else if bool_decide (base ∈ ["int"; "integer"; "int4"]%string) then 32
  else if bool_decide (base ∈ ["bigint"; "int8"]%string) then 64
  else 0.

Definition decimal_scale (native : string) : option Z :=
  parameters ← match strip_prefix "decimal(" native with
               | Some p => Some p
               | None => strip_prefix "numeric(" native
               end;
  parameters ← strip_suffix_byte ")" parameters;
  parts ← split_once "," parameters;
  parse_usize (trim parts.2).

Definition binary_length_matches (native base : string) (length : Z) : bool :=
  let declared := p ← parameter native; parse_usize (trim p) in
  if bool_decide (base = "binary"%string) then length =? default 1 declared
  else if bool_decide (base = "varbinary"%string) then match declared with Some maximum => length <=? maximum | None => true end
  else if bool_decide (base = "tinyblob"%string) then length <=? 255
  else if bool_decide (base = "blob"%string) then length <=? 65535
  else if bool_decide (base = "mediumblob"%string) then length <=? 16777215
  else bool_decide (base = "longblob"%string).

Definition float_bits (native : string) (version : MysqlVersion) : option Z :=
  let base := base_name native in
  if bool_decide (base = "float"%string) then
    let double_threshold := match version with V80 => 25 | _ => 24 end in
    match (p ← strip_prefix "float(" native; parts ← split_once ")" p; Some (trim parts.1)) with
    | None => Some 32
    | Some parameters =>
        if contains_byte "," parameters then Some 32 else
        precision ← parse_u16 parameters;
        Some (if double_threshold <=? precision then 64 else 32)
    end
  else if bool_decide (base ∈ ["double"; "real"]%string) then Some 64
  else None.

Definition KNOWN_SUBTYPES : list string :=
  ["point"; "linestring"; "polygon"; "multipoint"; "multilinestring"; "multipolygon"; "geometrycollection"]%string.
Definition TEXT_NAMES : list string := ["char"; "varchar"; "tinytext"; "text"; "mediumtext"; "longtext"]%string.

Section contract.
Context `{B64 : Base64}.

(** The [valid] of [validate_column]; the outer [Err] is a value that is not base64url. *)
Definition value_matches (native : string) (version : MysqlVersion) (value : LogicalValue) : contract bool :=
  let base := base_name native in
  match value with
  | VInteger signed bits _ =>
      Ok ((integer_bits base =? bits)
          && Bool.eqb signed (negb (contains " unsigned" native || contains " zerofill" native)))
  | VDecimal unscaled scale =>
      Ok (negb (bool_decide (unscaled ∈ ["NaN"; "Infinity"; "-Infinity"]%string))
          && bool_decide (base ∈ ["decimal"; "numeric"; "dec"; "fixed"]%string)
          && match decimal_scale native with
             | None => true
             | Some declared => (declared <=? i32_max) && (declared =? scale)
             end)
  | VFloat bits _ => Ok (bool_decide (float_bits native version = Some bits))
  | VText charset _ _ =>
      Ok (bool_decide (base ∈ TEXT_NAMES) && negb (sempty charset) && negb (bool_decide (charset = "unknown"%string)))
  | VBinary encoded =>
      let? bytes := ok_or "binary value is not valid base64url bytes"%string (b64_decode encoded) in
      Ok (binary_length_matches native base (Z.of_nat (length bytes)))
  | VBitString encoded bit_length _ _ =>
      let declared := parse_u64 (default "1"%string (parameter native)) in
      let? bytes := ok_or "BIT value is not valid base64url bytes"%string (b64_decode encoded) in
      Ok (bool_decide (base = "bit"%string) && bool_decide (declared = Some bit_length)
          && (Z.of_nat (length bytes) =? (bit_length + 7) / 8))
  | VDate _ _ _ => Ok (bool_decide (base = "date"%string))
  | VLocalDatetime _ _ _ _ _ _ _ => Ok (bool_decide (base = "datetime"%string))
  | VInstant _ _ => Ok (bool_decide (base = "timestamp"%string))
  | VDuration _ _ _ _ _ => Ok (bool_decide (base = "time"%string))
  | VYear _ => Ok (bool_decide (base = "year"%string))
  | VJson _ => Ok (bool_decide (base = "json"%string))
  | VEnum label => Ok (bool_decide (base = "enum"%string) && negb (sempty label) && negb (has_nul label))
  | VSet members =>
      Ok (bool_decide (base = "set"%string) && forallb (λ member, negb (sempty member) && negb (has_nul member)) members)
  | VSpatial _ _ geometry_type dimensions _ _ =>
      Ok (bool_decide (to_lower geometry_type ∈ KNOWN_SUBTYPES)
          && (bool_decide (base = "geometry"%string) || eq_ignore_case base geometry_type
              || bool_decide (base = "geomcollection"%string) && eq_ignore_case geometry_type "geometrycollection")
          && in_range 2 4 dimensions)
  | VInvalidTemporal kind raw =>
      Ok (bool_decide (base ∈ ["date"; "datetime"; "timestamp"]%string) && negb (blank kind) && negb (blank raw))
  | _ => Ok false
  end.

Definition validate_column (column : ColumnDatum) (version : MysqlVersion) : contract () :=
  match col_datum column with
  | Value value =>
      let native := to_lower (trim (col_native_type column)) in
      let? valid := value_matches native version value in
      ensure valid "MySQL column does not match its captured LogicalValue"%string
  | _ => Ok ()
  end.

(** ** Transactions *)
Definition validate_id (source_id id : string) (expected : MysqlVersion) : contract () :=
  match strip_prefix "anonymous:" id with
  | Some position =>
      ensure (match rsplit_once ":" position with
              | Some (file, p) =>
                  negb (sempty file) && match parse_u32 p with Some n => 4 <=? n | None => false end
              | None => false
              end) "invalid anonymous MySQL transaction id"%string
  | None =>
      let parts := split ":" id in
      let count := length parts in
      ensure (Nat.eqb count 2 || Nat.eqb count 3) "invalid MySQL GTID"%string ;?
      let first := List.nth 0 parts ""%string in
      ensure (uuid first) "invalid GTID source UUID"%string ;?
      ensure (eq_ignore_case first source_id) "MySQL GTID source UUID does not match source identity"%string ;?
      ensure (match parse_i64 (List.last parts ""%string) with Some n => 0 <? n | None => false end)
        "invalid GTID sequence"%string ;?
      if Nat.eqb count 3 then
        ensure (bool_decide (expected = V84)) "tagged GTID requires MySQL 8.4"%string ;?
        let tag := List.nth 1 parts ""%string in
        ensure (negb (sempty tag) && (slen tag <=? 32)
                && match sbytes tag with c :: _ => is_ascii_alphabetic c || bool_decide (c = "_"%char) | [] => false end
                && all_bytes (λ c, is_ascii_alphanumeric c || bool_decide (c = "_"%char)) tag)
          "invalid MySQL 8.4 GTID tag"%string
      else Ok ()
  end.

Definition validate_version (version : string) (expected : MysqlVersion) : contract () :=
  let numeric := List.hd ""%string (split "-" version) in
  let parts := split "." numeric in
  ensure (Nat.eqb (length parts) 3 && Validate.is_some (parse_u32 (List.nth 2 parts ""%string)))
    "invalid MySQL source version"%string ;?
  let expected_family := match expected with V57 => ["5"; "7"]%string | V80 => ["8"; "0"]%string | V84 => ["8"; "4"]%string end in
  ensure (bool_decide (take 2 parts = expected_family)) "unexpected MySQL source version"%string.

Definition concrete (datum : Datum) : bool := match datum with DNull | Value _ => true | _ => false end.

Definition validate_row_image (expected : MysqlVersion) (image : list ColumnDatum) : contract () :=
  ensure (forallb (λ c, concrete (col_datum c)) image)
    "MySQL FULL images cannot contain unavailable or unchanged values"%string ;?
  ensure (forallb (λ ic : nat * ColumnDatum, col_ordinal ic.2 =? Z.of_nat ic.1) (imap pair image))
    "MySQL FULL row image must contain every column in ordinal order"%string ;?
  ensure (existsb (λ c, Validate.is_some (col_primary_key_ordinal c)) image)
    "MySQL capture requires a primary key Row Locator"%string ;?
  each (λ c, validate_column c expected) image.

Fixpoint validate_changes (expected : MysqlVersion) (file : string) (begin commit previous : Z) (changes : list RowChange) :
    contract () :=
  match changes with
  | [] => Ok ()
  | change :: changes =>
      ensure (Validate.is_none (chg_database change)) "MySQL database is carried in schema"%string ;?
      let? at_ := Contract.position (chg_source_cursor change) in
      let '(row_file, row) := at_ in
      ensure (bool_decide (file = row_file) && (begin <? row) && (previous <=? row) && (row <? commit))
        "MySQL row cursor is outside its transaction or out of order"%string ;?
      each (validate_row_image expected) (option_list (chg_before change) ++ option_list (chg_after change)) ;?
      validate_changes expected file begin commit row changes
  end.

Definition validate_source (transaction : ValidatedTransaction) (expected : MysqlVersion) : contract () :=
  let tx := vt_transaction transaction in
  ensure (bool_decide (src_kind (tx_source tx) = "mysql"%string)) "MySQL Source Contract requires source kind mysql"%string ;?
  validate_version (src_version (tx_source tx)) expected ;?
  ensure (uuid (src_id (tx_source tx))) "invalid MySQL server UUID"%string ;?
  validate_id (src_id (tx_source tx)) (tx_id tx) expected ;?
  let? first := Contract.position (tx_begin_cursor tx) in
  let? last := Contract.position (tx_commit_cursor tx) in
  ensure (bool_decide (first.1 = last.1) && (first.2 <? last.2))
    "MySQL transaction must have ordered begin/commit positions in one file"%string ;?
  validate_changes expected first.1 first.2 last.2 first.2 (tx_changes tx).
End contract.
