(* ===== verification/MyTypeSpec.v ===== *)
(** * What the MySQL type mapping accepts

    The text of a member list against its grammar, and the range of the logical
    types: what [source_type_mapping] of MyType.v accepts is a type within MySQL's
    limits, and well formed for the planner except for a GEOMETRY column with an
    SRID. *)
From S2P Require Import Prelude Text Utf8 Codec Model Representation Plan LogicalTypes MySource MyType.

Module Spec.

(** ** Member lists *)

(** [text] is a spelling of [label] between quotes. *)
Inductive spells : list Z → list Z → Prop :=
| spells_nil : spells [] []
| spells_plain c text label :
    c ≠ QUOTE_CHAR → c ≠ BACKSLASH_CHAR → spells text label → spells (c :: text) (c :: label)
| spells_doubled text label : spells text label → spells (QUOTE_CHAR :: QUOTE_CHAR :: text) (QUOTE_CHAR :: label)
| spells_escaped c text label : spells text label → spells (BACKSLASH_CHAR :: c :: text) (unescape_char c :: label).

Definition white (cs : list Z) : Prop := Forall (λ c, white_space c = true) cs.

(** Quoted labels between commas, with white space around them; the code lets a
    comma end the list. *)
Inductive label_list : list Z → list (list Z) → Prop :=
| label_list_end w : white w → label_list w []
| label_list_last w text label w' :
    white w → spells text label → white w' → label_list (w ++ QUOTE_CHAR :: text ++ QUOTE_CHAR :: w') [label]
| label_list_more w text label w' rest labels :
    white w → spells text label → white w' → label_list rest labels →
    label_list (w ++ QUOTE_CHAR :: text ++ QUOTE_CHAR :: w' ++ COMMA_CHAR :: rest) (label :: labels).

Lemma skip_white_split cs :
  ∃ w, cs = w ++ skip_white cs ∧ white w ∧ ∀ c rest, skip_white cs = c :: rest → white_space c = false.
Proof.
  induction cs as [|c cs (w & Hcs & Hw & Hn)]; cbn.
  { exists []. split_and!; [done|constructor|done]. }
  destruct (white_space c) eqn:E.
  - exists (c :: w). split_and!; [cbn; by f_equal|by constructor|done].
  - exists []. split_and!; [done|constructor|]. by intros ? ? [= <- <-].
Qed.

Lemma skip_white_app w cs : white w → skip_white (w ++ cs) = skip_white cs.
Proof. induction 1 as [|c w Hc _ IH]; [done|]. cbn. by rewrite Hc. Qed.
Lemma skip_white_all w : white w → skip_white w = [].
Proof. intros H. rewrite <- (app_nil_r w). by rewrite skip_white_app. Qed.

Definition after_label (rest : list Z) : Prop := ∀ r, rest ≠ QUOTE_CHAR :: r.

Lemma read_label_spelled text label acc rest :
  spells text label → after_label rest →
  read_label acc (text ++ QUOTE_CHAR :: rest) = Some (acc ++ label, rest).
Proof.
  intros Hs Hr. revert acc. induction Hs as [|c text label H1 H2 _ IH|text label _ IH|c text label _ IH]; intros acc; cbn.
  - rewrite app_nil_r. destruct rest as [|c r]; [done|]. destruct (c =? QUOTE_CHAR) eqn:E; [|done].
    apply Z.eqb_eq in E as ->. by destruct (Hr r).
  - apply Z.eqb_neq in H1 as ->, H2 as ->. by rewrite IH, <- app_assoc.
  - by rewrite IH, <- app_assoc.
  - by rewrite IH, <- app_assoc.
Qed.

Lemma read_label_inv n cs acc label rest :
  (length cs ≤ n)%nat → read_label acc cs = Some (label, rest) →
  ∃ text l, cs = text ++ QUOTE_CHAR :: rest ∧ spells text l ∧ label = acc ++ l ∧ after_label rest.
Proof.
  revert cs acc. induction n as [|n IH]; intros cs acc Hn; [by destruct cs; [|cbn in Hn; lia]|].
  destruct cs as [|c cs]; [done|]. cbn in Hn. cbn [read_label].
  destruct (c =? BACKSLASH_CHAR) eqn:E1.
  { apply Z.eqb_eq in E1 as ->. destruct cs as [|e cs]; [done|]. cbn in Hn.
    intros (text & l & -> & Hs & -> & Ha)%IH; [|lia]. exists (BACKSLASH_CHAR :: e :: text), (unescape_char e :: l).
    split_and!; [done|by constructor|by rewrite <- app_assoc|done]. }
  destruct (c =? QUOTE_CHAR) eqn:E2.
  - apply Z.eqb_eq in E2 as ->. destruct cs as [|c2 cs].
    { intros [= <- <-]. exists [], []. split_and!; [done|constructor|by rewrite app_nil_r|done]. }
    destruct (c2 =? QUOTE_CHAR) eqn:E3.
    + apply Z.eqb_eq in E3 as ->. cbn in Hn. intros (text & l & -> & Hs & -> & Ha)%IH; [|lia].
      exists (QUOTE_CHAR :: QUOTE_CHAR :: text), (QUOTE_CHAR :: l).
      split_and!; [done|by constructor|by rewrite <- app_assoc|done].
    + intros [= <- <-]. exists [], []. split_and!; [done|constructor|by rewrite app_nil_r|].
      intros r [= ->]. done.
  - apply Z.eqb_neq in E1, E2. intros (text & l & -> & Hs & -> & Ha)%IH; [|lia].
    exists (c :: text), (c :: l). split_and!; [done|by constructor|by rewrite <- app_assoc|done].
Qed.

(** A label of the catalog. *)
Definition label_ok (label : list Z) : Prop := label ≠ [] ∧ 0 ∉ label.

Lemma after_white w rest : white w → (∀ r, rest ≠ QUOTE_CHAR :: r) → after_label (w ++ rest).
Proof. intros Hw Hr r. destruct Hw as [|c w Hc _]; [apply Hr|]. by intros [= ->]. Qed.
Lemma after_white_end w : white w → after_label w.
Proof. intros Hw r. destruct Hw as [|c w Hc _]; [done|]. by intros [= ->]. Qed.

Lemma finish_ok (members r : list string) :
  (if bool_decide (members = []) then Err invalid_declaration else Ok members) = Ok r ↔ r = members ∧ members ≠ [].
Proof. case_bool_decide; naive_solver. Qed.

(** Enough fuel: one turn per label, and every label takes characters. *)
Lemma read_members_ok fuel members cs r :
  (length cs < fuel)%nat → NoDup members →
  read_members fuel members cs = Ok r
  ↔ ∃ labels, label_list cs labels ∧ r = members ++ (of_chars <$> labels) ∧ r ≠ []
              ∧ Forall label_ok labels ∧ NoDup r.
Proof.
  revert members cs. induction fuel as [|fuel IH]; intros members cs Hf Hnd; [lia|]. cbn [read_members].
  destruct (skip_white_split cs) as (w & Hcs & Hw & Hhead). split.
  - destruct (skip_white cs) as [|c cs1] eqn:E.
    { intros [-> Hne]%finish_ok. exists []. cbn. rewrite app_nil_r in *. subst cs.
      split_and!; [by constructor|done|done|constructor|done]. }
    destruct (c =? QUOTE_CHAR) eqn:Eq; cbn [negb]; [|done]. apply Z.eqb_eq in Eq as ->.
    intros H. apply bind_ok in H as ([label cs2] & Hread%ok_or_ok & H).
    destruct (read_label_inv (length cs1) cs1 [] label cs2) as (text & l & -> & Hs & -> & Ha); [done|done|].
    cbn [app] in *. destruct (bool_decide (l = []) || bool_decide (0 ∈ l)) eqn:Eok; [done|].
    apply orb_false_iff in Eok as [H1%bool_decide_eq_false H2%bool_decide_eq_false].
    destruct (bool_decide (of_chars l ∈ members)) eqn:Ein; [done|]. apply bool_decide_eq_false in Ein.
    assert (NoDup (members ++ [of_chars l])) as Hnd'.
    { apply NoDup_app. split_and!; [done| |apply NoDup_singleton].
      intros x Hx ->%list_elem_of_singleton. done. }
    destruct (skip_white_split cs2) as (w' & Hcs2 & Hw' & _).
    destruct (skip_white cs2) as [|c2 cs3] eqn:E2.
    + apply finish_ok in H as [-> Hne]. exists [l]. rewrite app_nil_r in Hcs2. subst cs2.
      rewrite Hcs. split_and!; [by constructor|done|done|by repeat constructor|done].
    + destruct (c2 =? COMMA_CHAR) eqn:Ec; [|done]. apply Z.eqb_eq in Ec as ->.
      assert (length cs3 < fuel)%nat as Hlen.
      { rewrite Hcs, Hcs2 in Hf. rewrite !length_app in Hf. cbn in Hf. rewrite !length_app in Hf. cbn in Hf. rewrite length_app in Hf. cbn in Hf. lia. }
      apply IH in H as (labels & Hl & -> & Hne & Hok & Hnodup); [|done|done].
      exists (l :: labels). rewrite Hcs, Hcs2. rewrite <- app_assoc in *.
      split_and!; [by constructor|done|done|by constructor|done].
  - intros (labels & Hl & -> & Hne & Hok & Hnodup). destruct Hl as [w0 Hw0|w0 text l w1 Hw0 Hs Hw1|w0 text l w1 rest labels Hw0 Hs Hw1 Hl].
    + rewrite skip_white_all by done. cbn in *. rewrite app_nil_r in *. by apply finish_ok.
    + rewrite skip_white_app by done. cbn [skip_white]. change (white_space QUOTE_CHAR) with false. cbv iota.
      rewrite Z.eqb_refl. cbn [negb]. rewrite (read_label_spelled _ _ _ _ Hs (after_white_end _ Hw1)).
      cbn [ok_or mbind result_bind app]. inversion_clear Hok as [|? ? [H1 H2] _].
      rewrite !bool_decide_eq_false_2 by done. cbn [orb].
      assert (of_chars l ∉ members) as Hin.
      { cbn in Hnodup. apply NoDup_app in Hnodup as (_ & Hd & _). intros Hx. apply (Hd _ Hx). by constructor. }
      rewrite bool_decide_eq_false_2 by done. rewrite (skip_white_all w1) by done. by apply finish_ok.
    + rewrite skip_white_app by done. cbn [skip_white]. change (white_space QUOTE_CHAR) with false. cbv iota.
      rewrite Z.eqb_refl. cbn [negb].
      rewrite (read_label_spelled _ _ _ _ Hs (after_white _ (COMMA_CHAR :: rest) Hw1 (λ r, ltac:(done)))).
      cbn [ok_or mbind result_bind app]. inversion_clear Hok as [|? ? [H1 H2] Hok'].
      rewrite !bool_decide_eq_false_2 by done. cbn [orb].
      assert (of_chars l ∉ members) as Hin.
      { cbn in Hnodup. apply NoDup_app in Hnodup as (_ & Hd & _). intros Hx. apply (Hd _ Hx). by constructor. }
      rewrite bool_decide_eq_false_2 by done. rewrite skip_white_app by done. cbn [skip_white].
      change (white_space COMMA_CHAR) with false. cbv iota. rewrite Z.eqb_refl.
      cbn [fmap list_fmap] in *.
      assert (members ++ of_chars l :: (of_chars <$> labels) = (members ++ [of_chars l]) ++ (of_chars <$> labels))
        as Happ by (by rewrite <- app_assoc).
      rewrite Happ in *. apply IH.
      * rewrite length_app in Hf. cbn in Hf. rewrite length_app in Hf. cbn in Hf. rewrite length_app in Hf. cbn in Hf. lia.
      * by apply NoDup_app in Hnodup as (? & _).
      * by exists labels.
Qed.

(** Reading a member list is exact: it succeeds exactly on the label lists whose
    labels are non-empty, without NUL and distinct, and returns those labels in
    order, whatever their spelling and the white space. *)
Theorem parse_quoted_members_exact (value : string) (members : list string) :
  parse_quoted_members value = Ok members
  ↔ ∃ labels, label_list (chars value) labels ∧ members = of_chars <$> labels ∧ labels ≠ []
              ∧ Forall label_ok labels ∧ NoDup members.
Proof.
  unfold parse_quoted_members. rewrite read_members_ok; [|lia|constructor].
  split; intros (labels & Hl & -> & Hne & Hok & Hnd); exists labels; cbn in *; split_and!; try done; by destruct labels.
Qed.

(** ** The range of the mapping *)
Definition GEOMETRIES : list string :=
  ["point"; "linestring"; "polygon"; "multipoint"; "multilinestring"; "multipolygon"; "geometrycollection"]%string.

(** A logical type within MySQL's limits. *)
Definition qualified (t : LogicalType) : Prop :=
  match t with
  | TInteger _ bits => bits ∈ [8; 16; 24; 32; 64]
  | TDecimal p s => 1 ≤ p ≤ 65 ∧ 0 ≤ s ≤ 30 ∧ s ≤ p
  | TFloat bits => bits = 32 ∨ bits = 64
  | TText charset (Some n) unit None =>
      blank charset = false ∧ 1 ≤ n ≤ 4294967295 ∧ (unit = LuCharacters → n ≤ 65535)
  | TBinary (Some n) => 1 ≤ n ≤ 4294967295
  | TBitString n => 1 ≤ n ≤ 64
  | TLocalDatetime p | TInstant p | TDuration p => 0 ≤ p ≤ 6
  | TJson profile => profile = mkJsonProfile true DkReject
  | TSpatial subtype srid dimensions =>
      (subtype = "*"%string ∧ dimensions = 0 ∨ subtype ∈ GEOMETRIES ∧ dimensions = 2)
      ∧ ∀ n, srid = Some n → 0 ≤ n ≤ i32_max
  | TEnum members | TSet members => members ≠ []
  | TDate | TYear => True
  | _ => False
  end.

Lemma one_of_true base names : one_of base names = true ↔ base ∈ names.
Proof. apply bool_decide_eq_true. Qed.
Lemma refuse_unless_ok b : refuse_unless b = Ok () ↔ b = true.
Proof. by destruct b. Qed.

Lemma parse_unsigned_bounds max s n : parse_unsigned 10 max s = Some n → 0 ≤ n ≤ max.
Proof.
  unfold parse_unsigned. intros (v & Hv & Hm)%bind_Some. destruct (v <=? max) eqn:E; [|done].
  injection Hm as <-. split; [by apply parse_digits_nonneg in Hv|lia].
Qed.

(** Comparisons of a name with lists of names, once the name is known. *)
Ltac names :=
  repeat match goal with
         | H : context [one_of ?b ?l] |- _ =>
             let v := eval vm_compute in (one_of b l) in change (one_of b l) with v in H
         end;
  cbv iota in *.
(** The monadic steps of a successful check. *)
Ltac succeeds :=
  repeat match goal with
         | H : _ ≫= _ = Ok _ |- _ => let x := fresh "x" in let E := fresh "E" in apply bind_ok in H as (x & E & H)
         | H : refuse_unless _ = Ok _ |- _ => apply refuse_unless_ok in H
         | H : Ok _ = Ok _ |- _ => injection H as <-
         | H : () |- _ => destruct H
         end.
(** The names of a case of the mapping, one by one. *)
Ltac pick H :=
  apply one_of_true in H;
  repeat (apply elem_of_cons in H as [->|H]); [..|by apply elem_of_nil in H].

Lemma first_argument_bounds max otherwise d n :
  first_argument (λ s, ok_or invalid_declaration (parse_unsigned 10 max s)) otherwise d = Ok n →
  0 ≤ otherwise ≤ max → 0 ≤ n ≤ max.
Proof.
  unfold first_argument. destruct (nd_arguments d); [by intros [= <-]|].
  intros H%ok_or_ok _. by apply parse_unsigned_bounds in H.
Qed.
Lemma parse_u16_bounds s n : parse_u16' s = Ok n → 0 ≤ n.
Proof. intros H%ok_or_ok. apply parse_unsigned_bounds in H. lia. Qed.

Lemma decimal_parameters_bounds d ps : decimal_parameters d = Ok ps → 0 ≤ ps.1 ∧ 0 ≤ ps.2.
Proof.
  unfold decimal_parameters. destruct (nd_arguments d) as [|a [|b [|? ?]]]; intros H; succeeds; try done; cbn;
    repeat match goal with E : parse_u16' _ = Ok _ |- _ => apply parse_u16_bounds in E end; lia.
Qed.
Lemma spatial_shape_srid d shape : spatial_shape d = Ok shape → shape.1.1 = nd_base d ∧ shape.2 = 2 ∧ ∀ n, shape.1.2 = Some n → 0 ≤ n ≤ i32_max.
Proof.
  unfold spatial_shape. intros H. succeeds. cbn. split_and!; [done..|]. intros n ->.
  destruct (nd_modifiers d) as [|a [|b [|? ?]]]; [done..| |done]. case_bool_decide; [|done]. succeeds.
  apply ok_or_ok, parse_unsigned_bounds in E0. destruct (_ <=? _) eqn:El; [|done]. injection E as <-. lia.
Qed.
Lemma catalog_charset_not_blank charset name : catalog_charset charset = Ok name → blank name = false.
Proof.
  unfold catalog_charset. intros H. succeeds. apply ok_or_ok, bind_Some in E as (c & -> & E). cbn in E.
  destruct (sempty (trim c)) eqn:Ee; [done|]. cbn in E. case_match; [done|]. injection E as <-.
  apply trimmed_not_blank. intros Hn. by rewrite Hn in Ee.
Qed.
Lemma float_bits_width d bits : float_bits d = Ok bits → bits = 32 ∨ bits = 64.
Proof.
  unfold float_bits. destruct (nd_arguments d); [intros [= <-]; tauto|].
  intros Hf. case_bool_decide; succeeds; [tauto|]. case_match; tauto.
Qed.

(** What a successful mapping yields is a type within MySQL's limits. *)
Lemma logical_type_qualified d charset t : logical_type d charset = Ok t → qualified t.
Proof.
  destruct d as [base arguments modifiers]. unfold logical_type. intros H. succeeds. cbn [nd_base nd_arguments nd_modifiers] in *.
  repeat match type of H with
  | (if one_of ?b ?l then _ else _) = _ => destruct (one_of b l) eqn:Eb; [pick Eb; clear -E H|clear Eb]
  end; [..|done].
  all: unfold validate_shape in E; cbn [nd_base nd_arguments nd_modifiers] in E; names; succeeds; try done.
  all: try by (cbn; set_solver).
  all: try by (eapply float_bits_width).
  all: unfold fractional_precision in *.
  all: repeat match goal with
    | H1 : ?e = Ok ?a, H2 : ?e = Ok ?b |- _ => rewrite H1 in H2; injection H2 as <-
    | x : (_ * _)%type |- _ => destruct x
    | H : text_length _ = Ok _ |- _ => unfold text_length in H; cbn [nd_base] in H; names; succeeds
    | H : binary_length _ = Ok _ |- _ => unfold binary_length in H; cbn [nd_base] in H; names; succeeds
    end; succeeds.
  all: repeat match goal with
    | H : decimal_parameters _ = Ok _ |- _ => apply decimal_parameters_bounds in H
    | H : spatial_shape _ = Ok _ |- _ => apply spatial_shape_srid in H
    | H : catalog_charset _ = Ok _ |- _ => apply catalog_charset_not_blank in H
    | H : first_argument _ _ _ = Ok _ |- _ => apply first_argument_bounds in H; [|lia]
    | H : (_ && _) = true |- _ => apply andb_true_iff in H as [??]
    | H : in_range _ _ _ = true |- _ => apply in_range_spec in H
    | H : (_ <=? _) = true |- _ => apply Z.leb_le in H
    end; cbn in *; repeat match goal with H : _ ∧ _ |- _ => destruct H end; subst.
  all: try by (split_and!; try done; lia).
  all: split; [|done]; try by left.
  all: right; split; [|done]; set (b := bool_decide _); vm_compute in b; subst b; cbv iota; by apply (one_of_true _ GEOMETRIES).
Qed.

(** The declaration of [geometry] with an SRID: the one case that [validate] refuses. *)
Definition open_geometry_srid (t : LogicalType) : bool :=
  match t with TSpatial subtype (Some _) dimensions => dimensions =? 0 | _ => false end.
Definition nul_charset (t : LogicalType) : bool :=
  match t with TText charset _ _ _ => has_nul charset | _ => false end.

Lemma qualified_valid t :
  qualified t → nul_charset t = false → (LogicalTypes.validate t = Ok () ↔ open_geometry_srid t = false).
Proof.
  intros H.
  intros Hn. destruct t; cbn in *; try done.
  - assert (integer_width bits = true) as -> by (repeat (apply elem_of_cons in H as [->|H]; [done|]); by apply elem_of_nil in H). done.
  - rewrite (proj2 (Z.eqb_neq precision 0)) by lia. unfold decimal_scale_ok. rewrite (proj2 (in_range_spec _ _ _)) by lia. done.
  - destruct H as [-> | ->]; done.
  - destruct max_length, collation; [done| |done..]. unfold blank_or_nul. by rewrite Hn, (proj1 H).
  - rewrite (proj2 (Z.eqb_neq length 0)) by lia. done.
  - rewrite (proj2 (Z.ltb_ge 6 fractional_precision)) by lia. done.
  - rewrite (proj2 (Z.ltb_ge 6 fractional_precision)) by lia. done.
  - rewrite (proj2 (Z.ltb_ge 6 fractional_precision)) by lia. done.
  - destruct H as [[[-> ->]|[Hs ->]] _]; [by destruct srid|].
    assert (blank subtype = false) as -> by (repeat (apply elem_of_cons in Hs as [->|Hs]; [done|]); by apply elem_of_nil in Hs).
    by destruct srid.
Qed.

Section versions.
Context `{SHA : Sha256}.
Context (evidence_json : string → string → option string → option string → LogicalType → gmap string string → list byte)
        (mapping_json : SourceTypeMapping → list byte).

(** The mapping of each supported server version. *)
Definition published (version : MysqlVersion) : string → option string → option string → mapped SourceTypeMapping :=
  match version with
  | V57 => source_type_mapping evidence_json
  | V80 => source_type_mapping_80 evidence_json mapping_json
  | V84 => source_type_mapping_84 evidence_json mapping_json
  end.

Lemma published_type version native_type charset collation m :
  published version native_type charset collation = Ok m → qualified (sm_logical_type m).
Proof.
  assert (∀ m0, source_type_mapping evidence_json native_type charset collation = Ok m0 → qualified (sm_logical_type m0)) as H57.
  { intros m0 H. unfold source_type_mapping in H. succeeds. cbn. by eapply logical_type_qualified. }
  destruct version; cbn; [apply H57|unfold source_type_mapping_80|unfold source_type_mapping_84];
    intros H; succeeds; cbn; [case_match; cbn; [by left|]|]; by apply H57.
Qed.

(** C40: Every type a MySQL catalog declaration is mapped to, on each supported server
    version, lies within MySQL's limits, and the Change Event model accepts it as a
    logical type, except [geometry] with an SRID (and a charset name with a NUL,
    which no catalog has). *)
Theorem mapped_type_valid (version : MysqlVersion) (native_type : string) (charset collation : option string)
    (m : SourceTypeMapping) :
  published version native_type charset collation = Ok m →
  qualified (sm_logical_type m)
  ∧ (nul_charset (sm_logical_type m) = false →
     (LogicalTypes.validate (sm_logical_type m) = Ok () ↔ open_geometry_srid (sm_logical_type m) = false)).
Proof. intros H%published_type. split; [done|by apply qualified_valid]. Qed.
End versions.

(** ** A declaration written out *)
Definition quote_char (c : Z) : list Z :=
  if c =? QUOTE_CHAR then [QUOTE_CHAR; QUOTE_CHAR]
  else if c =? BACKSLASH_CHAR then [BACKSLASH_CHAR; BACKSLASH_CHAR] else [c].
Definition quote_label (label : list Z) : list Z := QUOTE_CHAR :: mjoin (quote_char <$> label) ++ [QUOTE_CHAR].
Fixpoint quote_labels (labels : list (list Z)) : list Z :=
  match labels with
  | [] => []
  | [label] => quote_label label
  | label :: labels => quote_label label ++ COMMA_CHAR :: quote_labels labels
  end.
(** [enum('a','b')] or [set('a','b')] as SHOW CREATE TABLE writes it. *)
Definition member_declaration (base : string) (labels : list (list Z)) : string :=
  base +:+ "(" +:+ of_chars (quote_labels labels) +:+ ")".

Lemma spells_quoted label : spells (mjoin (quote_char <$> label)) label.
Proof.
  induction label as [|c label IH]; cbn; [constructor|]. unfold quote_char at 1.
  destruct (c =? QUOTE_CHAR) eqn:E1; [apply Z.eqb_eq in E1 as ->; by constructor|].
  destruct (c =? BACKSLASH_CHAR) eqn:E2.
  - apply Z.eqb_eq in E2 as ->. change BACKSLASH_CHAR with (unescape_char BACKSLASH_CHAR) at 3. by constructor.
  - apply Z.eqb_neq in E1, E2. by constructor.
Qed.
Lemma label_list_quoted labels : labels ≠ [] → label_list (quote_labels labels) labels.
Proof.
  induction labels as [|label [|l labels] IH]; intros Hne; [done|..].
  - apply (label_list_last [] _ _ []); [constructor|apply spells_quoted|constructor].
  - change (quote_labels (label :: l :: labels)) with (quote_label label ++ COMMA_CHAR :: quote_labels (l :: labels)).
    unfold quote_label. cbn [app]. rewrite <- app_assoc.
    apply (label_list_more [] _ _ []); [constructor|apply spells_quoted|constructor|by apply IH].
Qed.
Lemma quoted_scalar labels :
  Forall (Forall (λ c, scalar c = true)) labels → Forall (λ c, scalar c = true) (quote_labels labels).
Proof.
  assert (∀ label, Forall (λ c, scalar c = true) label → Forall (λ c, scalar c = true) (quote_label label)) as Hq.
  { intros label H. unfold quote_label. constructor; [done|]. apply Forall_app. split; [|by repeat constructor].
    induction H as [|c label Hc _ IH]; cbn; [constructor|]. apply Forall_app. split; [|done].
    unfold quote_char. repeat case_match; by repeat constructor. }
  intros H. induction H as [|label [|l labels] Hl H IH]; [constructor|by apply Hq|].
  change (quote_labels (label :: l :: labels)) with (quote_label label ++ COMMA_CHAR :: quote_labels (l :: labels)).
  apply Forall_app. split; [by apply Hq|]. by constructor.
Qed.

Lemma member_declaration_fixed base labels :
  base ∈ ["enum"; "set"]%string → trim (member_declaration base labels) = member_declaration base labels.
Proof.
  intros Hb. apply (trim_fixed _ (sbytes (base +:+ "(" +:+ of_chars (quote_labels labels))) ")"); [| |done..].
  - unfold member_declaration. rewrite sbytes_app.
    repeat (apply elem_of_cons in Hb as [->|Hb]; [reflexivity|]). by apply elem_of_nil in Hb.
  - unfold member_declaration. rewrite !sbytes_app, <- !app_assoc. done.
Qed.

Lemma member_declaration_parsed base labels :
  base ∈ ["enum"; "set"]%string → labels ≠ [] → Forall (Forall (λ c, scalar c = true)) labels → Forall label_ok labels →
  NoDup (of_chars <$> labels) →
  parse_declaration (member_declaration base labels) = Ok (mkDeclaration base (of_chars <$> labels) []).
Proof.
  intros Hb Hne Hsc Hok Hnd. unfold parse_declaration. rewrite member_declaration_fixed by done.
  assert (sempty (to_lower (member_declaration base labels)) = false) as ->.
  { rewrite to_lower_empty. unfold member_declaration. by destruct base. }
  assert (split_once "(" (member_declaration base labels) = Some (base, of_chars (quote_labels labels) +:+ ")")) as ->.
  { apply (split_once_app "("). repeat (apply elem_of_cons in Hb as [->|Hb]; [done|]). by apply elem_of_nil in Hb. }
  assert (default ""%string (head (split_whitespace base)) = base ∧ tail (split_whitespace base) = [] ∧ to_lower base = base
          ∧ contains_byte ")" base = false) as (-> & -> & -> & Hclose).
  { repeat (apply elem_of_cons in Hb as [->|Hb]; [by vm_compute|]). by apply elem_of_nil in Hb. }
  rewrite bool_decide_eq_true_2 by done. cbn [ok_or mbind result_bind snd].
  rewrite (rsplit_once_app ")" _ ""%string) by done. cbn [ok_or mbind result_bind fst snd].
  rewrite Hclose. cbn [negb orb fmap list_fmap].
  assert (parse_quoted_members (of_chars (quote_labels labels)) = Ok (of_chars <$> labels)) as ->; [|done].
  unfold parse_quoted_members. rewrite (proj2 (chars_of_chars _ (quoted_scalar _ Hsc))).
  apply read_members_ok; [lia|constructor|]. exists labels. rewrite app_nil_l.
  split_and!; [by apply label_list_quoted|done|by destruct labels|done..].
Qed.

(** ENUM and SET labels survive the catalog: whatever characters the labels have
    (quotes, backslashes, commas, parentheses, white space), the declaration MySQL
    writes for them is mapped to the type with exactly those members, in order. *)
Theorem members_round_trip (labels : list (list Z)) (charset : option string) :
  labels ≠ [] → Forall (Forall (λ c, scalar c = true)) labels → Forall label_ok labels → NoDup (of_chars <$> labels) →
  (let? d := parse_declaration (member_declaration "enum" labels) in logical_type d charset) = Ok (TEnum (of_chars <$> labels))
  ∧ (let? d := parse_declaration (member_declaration "set" labels) in logical_type d charset) = Ok (TSet (of_chars <$> labels)).
Proof.
  intros Hne Hsc Hok Hnd. assert ((1 <=? Z.of_nat (length (of_chars <$> labels)))%Z = true) as Hlen.
  { apply Z.leb_le. destruct labels; [done|]. cbn. lia. }
  split; rewrite member_declaration_parsed by (done || set_solver); unfold logical_type, validate_shape; cbn;
    rewrite ?length_fmap in *; rewrite Hlen; reflexivity.
Qed.

(** ** Witnesses *)
Definition no_evidence (_ _ : string) (_ _ : option string) (_ : LogicalType) (_ : gmap string string) : list byte := [].
Definition geometry_mapping : mapped SourceTypeMapping :=
  published (SHA := SumDigest.sha256) no_evidence (λ _, []) V84 "geometry srid 4326" None None.

Example mapped_type_valid_witness :
  match geometry_mapping with
  | Ok m => sm_logical_type m = TSpatial "*" (Some 4326) 0 ∧ LogicalTypes.validate (sm_logical_type m) ≠ Ok ()
  | Err _ => False
  end.
Proof.
  destruct geometry_mapping as [m|e] eqn:E; [|by vm_compute in E].
  assert (sm_logical_type m = TSpatial "*" (Some 4326) 0) as Ht by (vm_compute in E; by injection E as <-).
  destruct (mapped_type_valid _ _ _ _ _ _ _ E) as [_ Hv]. rewrite Ht in *. split; [done|].
  intros H. by apply Hv in H.
Defined.

Example members_round_trip_witness :
  (let? d := parse_declaration (member_declaration "enum" [[97]; [98; 39; 99]; [44; 41; 92]]) in logical_type d None)
  = Ok (TEnum ["a"; "b'c"; ",)\"]%string).
Proof.
  apply (proj1 (members_round_trip [[97]; [98; 39; 99]; [44; 41; 92]] None ltac:(done)
           ltac:(by repeat constructor)
           ltac:(repeat constructor; try discriminate; apply (bool_decide_unpack (0 ∉ _)); by vm_compute)
           ltac:(apply (bool_decide_unpack (NoDup _)); by vm_compute))).
Defined.
End Spec.
