(* ===== verification/MyDecode.v ===== *)
(** * Value decoding of the MySQL capture ([crates/mysql_8_0/src/decoder.rs])

    A value of the driver, read from a binlog row image or a snapshot query, and the
    catalog description of its column ([ColumnInfo]) become a [LogicalValue].  The
    ENUM/SET, spatial and calendar decoders are those of the crate mysql_5_7, which
    mysql_8_0 calls.  Integers are kept at the width of the code; a shift takes its
    amount modulo the width, as compiled without overflow checks. *)
From S2P Require Import Prelude Text Utf8 Codec Model Representation Outcome Validate Calendar Plan LogicalTypes MySource MyType MyRender.

(** ** Formatting *)
(** [format!("{value:0width$}")] of a value that is not negative. *)
Definition padded (width : nat) (value : Z) : string :=
  let digits := show_nat value in
  of_bytes (replicate (width - String.length digits) "048"%char) +:+ digits.
Definition lower_hex_digit (d : Z) : byte := byte_of (if d <? 10 then 48 + d else 87 + d).
(** [format!("{value:0width$x}")] of a value of [width] nibbles. *)
Fixpoint lower_hex (width : nat) (value : Z) : string :=
  match width with
  | O => ""
  | S width => lower_hex width (value / 16) +:+ String (lower_hex_digit (value mod 16)) ""
  end.
Definition hex (bytes : list byte) : string :=
  of_bytes (mjoin ((λ b, [lower_hex_digit (bval b / 16); lower_hex_digit (bval b mod 16)]) <$> bytes)).
Definition format_gtid (sid : list byte) (gno : Z) : string :=
  hex (take 4 sid) +:+ "-" +:+ hex (take 2 (drop 4 sid)) +:+ "-" +:+ hex (take 2 (drop 6 sid)) +:+ "-"
  +:+ hex (take 2 (drop 8 sid)) +:+ "-" +:+ hex (take 6 (drop 10 sid)) +:+ ":" +:+ show_nat gno.

(** ** Columns *)
Record ColumnInfo := mkInfo {
  ci_name : string;
  ci_native_type : string;
  ci_data_type : string;
  ci_charset : option string;
  ci_collation : option string;
  ci_generated : bool;
  ci_primary_key_ordinal : option Z
}.

(** ** ENUM and SET *)
(** [1_u64 << index] *)
Definition bit64 (index : Z) : Z := wrap_u 64 (Z.shiftl 1 (index mod 64)).

Definition decode_enum_set_ordinal (t : LogicalType) (value : Z) : io LogicalValue :=
  match t with
  | TEnum members =>
      if (value =? 0) || (Z.of_nat (length members) <? value)
      then Err (other "ENUM ordinal is outside the declared label list")
      else
        let? label := ok_or (other "unreachable") (members !! Z.to_nat (value - 1)) in
        Ok (VEnum label)
  | TSet members =>
      if (Z.of_nat (length members) <? 64) && negb (Z.shiftr value (Z.of_nat (length members)) =? 0)
      then Err (other "SET bitmask contains a member outside the declared list")
      else
        Ok (VSet (snd <$> filter (λ im : nat * string, Z.land value (bit64 (Z.of_nat im.1)) ≠ 0) (imap pair members)))
  | _ => Err (other "native type is not ENUM or SET")
  end.

Definition mask_byte (index : nat) (b : byte) : Z :=
  wrap_u 64 (Z.shiftl (bval b) (Z.of_nat index * 8 mod 64)).
Definition bitmask (bytes : list byte) : Z :=
  foldl Z.lor 0 (imap mask_byte bytes).
Definition decode_set_bitmask (t : LogicalType) (bytes : list byte) : io LogicalValue :=
  if 64 <? Z.of_nat (length bytes)
  then Err (other "SET bitmask is wider than the portable 64-bit SET limit")
  else decode_enum_set_ordinal t (bitmask bytes).

(** ** Spatial values *)
Definition u32_le (bytes : list byte) : option Z :=
  match bytes with
  | [a; b; c; d] => Some (bval a + bval b * 2 ^ 8 + bval c * 2 ^ 16 + bval d * 2 ^ 24)
  | _ => None
  end.
Definition u32_be (bytes : list byte) : option Z := u32_le (rev bytes).

Definition WKB_NAMES : list string :=
  ["point"; "linestring"; "polygon"; "multipoint"; "multilinestring"; "multipolygon"; "geometrycollection"]%string.

Definition spatial_wire_header (bytes : list byte) : io (string * Z) :=
  match bytes with
  | order :: rest =>
      if Z.of_nat (length bytes) <? 5 then Err (other "spatial WKB header is truncated") else
      let? little_endian :=
        (if bval order =? 0 then Ok false else if bval order =? 1 then Ok true
         else Err (other "spatial WKB byte order marker is invalid")) in
      let? code := ok_or (other "unreachable") (if (little_endian : bool) then u32_le (take 4 rest) else u32_be (take 4 rest)) in
      if negb (Z.land code 0x20000000 =? 0) then Err (other "MySQL spatial value unexpectedly contains an EWKB SRID") else
      let has_z := negb (Z.land code 0x80000000 =? 0) in
      let has_m := negb (Z.land code 0x40000000 =? 0) in
      let base_code := Z.land code 0x0fffffff in
      let dimensions := 2 + (if has_z then 1 else 0) + (if has_m then 1 else 0) in
      let? shape :=
        (if 1000 <=? base_code then
           let suffix := base_code / 1000 in
           if (suffix =? 1) || (suffix =? 2) then Ok (base_code mod 1000, 3)
           else if suffix =? 3 then Ok (base_code mod 1000, 4)
           else Err (other "spatial WKB dimension code is invalid")
         else Ok (base_code, dimensions)) in
      let? name := ok_or (other "spatial WKB geometry type is unsupported")
                     (if shape.1 =? 0 then None : option string else WKB_NAMES !! Z.to_nat (shape.1 - 1)) in
      Ok (name, shape.2)
  | [] => Err (other "spatial WKB header is truncated")
  end.

Section decoding.
Context `{B64 : Base64}.

Definition decode_spatial_value (t : LogicalType) (bytes : list byte) : io LogicalValue :=
  match t with
  | TSpatial subtype expected_srid expected_dimensions =>
      if Z.of_nat (length bytes) <? 9 then Err (other "MySQL spatial value is missing its SRID or WKB header") else
      let? srid := ok_or (other "unreachable") (u32_le (take 4 bytes)) in
      if i32_max <? srid then Err (other "MySQL spatial SRID exceeds the portable range") else
      if match expected_srid with Some expected => negb (expected =? srid) | None => false end
      then Err (other "MySQL spatial value SRID differs from the column declaration") else
      let wkb := drop 4 bytes in
      let? header := spatial_wire_header wkb in
      let '(geometry_type, dimensions) := header in
      if negb (bool_decide (subtype = "*"%string)) && negb (eq_ignore_case geometry_type subtype)
         || negb (expected_dimensions =? 0) && negb (dimensions =? expected_dimensions)
      then Err (other "MySQL spatial WKB header differs from the column declaration")
      else Ok (VSpatial Wkb (b64_encode wkb) geometry_type dimensions (Some srid) (Some ("srid:" +:+ show_int srid)))
  | _ => Err (other "native type is not spatial")
  end.

(** ** Calendar values *)
Definition timestamp_from_components (year month day hour minute second microsecond : Z) : io LogicalValue :=
  if (year =? 0) || (day =? 0) || (days_in_month year month <? day) || (24 <=? hour) || (60 <=? minute)
     || (60 <=? second) || (1000000 <=? microsecond)
  then Err (other "invalid TIMESTAMP date value") else
  let y := year - (if month <=? 2 then 1 else 0) in
  let era := Z.quot (if 0 <=? y then y else y - 399) 400 in
  let yoe := y - era * 400 in
  let month_prime := month + (if 2 <? month then -3 else 9) in
  let day_of_year := Z.quot (153 * month_prime + 2) 5 + day - 1 in
  let day_of_era := yoe * 365 + Z.quot yoe 4 - Z.quot yoe 100 + day_of_year in
  let days := era * 146097 + day_of_era - 719468 in
  let unix_seconds := days * 86400 + hour * 3600 + minute * 60 + second in
  Ok (VInstant (show_int unix_seconds) (microsecond * 1000)).

Definition decode_temporal_components (data_type : string)
    (year month day hour minute second microsecond : Z) : io LogicalValue :=
  let kind := "mysql." +:+ to_lower data_type in
  let date_text := padded 4 year +:+ "-" +:+ padded 2 month +:+ "-" +:+ padded 2 day in
  let raw :=
    if eq_ignore_case data_type "date" then date_text
    else date_text +:+ " " +:+ padded 2 hour +:+ ":" +:+ padded 2 minute +:+ ":" +:+ padded 2 second +:+ "."
         +:+ padded 6 microsecond in
  let invalid :=
    (year =? 0) || (month =? 0) || (day =? 0) || (days_in_month year month <? day)
    || negb (eq_ignore_case data_type "date")
       && ((24 <=? hour) || (60 <=? minute) || (60 <=? second) || (1000000 <=? microsecond)) in
  if invalid then Ok (VInvalidTemporal kind raw)
  else if eq_ignore_case data_type "date" then Ok (VDate year month day)
  else if eq_ignore_case data_type "timestamp" then
    timestamp_from_components year month day hour minute second microsecond
  else Ok (VLocalDatetime year month day hour minute second microsecond).

Definition timestamp (value : string) : io LogicalValue :=
  let '(seconds, fraction) := default (value, ""%string) (split_once "." value) in
  if Validate.is_none (parse_u32 seconds) || (6 <? slen fraction) || negb (all_bytes is_ascii_digit fraction)
  then Err (other "invalid TIMESTAMP binlog value") else
  let? nanoseconds :=
    (if sempty fraction then Ok 0 else
     let? n := ok_or (other "invalid digit") (parse_u32 fraction) in
     Ok (wrap_u 32 (n * 10 ^ (9 - slen fraction)))) in
  Ok (VInstant seconds nanoseconds).

(** ** Numbers *)
Definition parse_decimal (text : string) : io LogicalValue :=
  let negative := bool_decide (is_Some (strip_byte "-" text)) in
  let unsigned := strip_sign text in
  let '(whole, fraction) := default (unsigned, ""%string) (split_once "." unsigned) in
  let digits := whole +:+ fraction in
  if sempty digits || negb (all_bytes is_ascii_digit digits) then Err invalid_data else
  if slen fraction <=? i32_max
  then Ok (VDecimal (if negative then "-" +:+ digits else digits) (slen fraction))
  else Err invalid_data.

Definition integer_bits (data_type : string) : Z :=
  let name := to_lower data_type in
  if bool_decide (name = "tinyint"%string) then 8
  else if bool_decide (name = "smallint"%string) then 16
  else if bool_decide (name = "mediumint"%string) then 24
  else if bool_decide (name ∈ ["int"; "integer"]%string) then 32
  else 64.

Definition decode_integer (value : Z) (info : ColumnInfo) : LogicalValue :=
  let bits := integer_bits (ci_data_type info) in
  let unsigned := contains "unsigned" (to_lower (ci_native_type info)) in
  let mask := Z.shiftr u64_max (64 - bits) in
  let raw := Z.land (wrap_u 64 value) mask in
  let text :=
    if unsigned then show_nat raw
    else if negb (Z.land raw (Z.shiftl 1 (bits - 1)) =? 0) then show_int (raw - Z.shiftl 1 bits)
    else show_nat raw in
  VInteger (negb unsigned) bits text.

Definition native_binary_width (native_type : string) : io Z :=
  ok_or invalid_data (parse_usize (default "1"%string (trim <$> parameter native_type))).
Definition native_bit_length (native_type : string) : io Z :=
  let? length := ok_or invalid_data (parse_u64 (trim (default "1"%string (parameter native_type)))) in
  if in_range 1 64 length then Ok length else Err invalid_data.

Definition is_binary_type (data_type : string) : bool :=
  bool_decide (data_type ∈ ["binary"; "varbinary"; "tinyblob"; "blob"; "mediumblob"; "longblob"; "geometry"]%string).

(** ** JSON: the driver's parsed document *)
Inductive JsonDom :=
| DomArray (values : list JsonDom)
| DomObject (values : list (string * JsonDom))
| DomNull
| DomBoolean (value : bool)
| DomString (value : string)
| DomInt (value : Z)
| DomUint (value : Z)
| DomDecimal (text : string)   (* by its [to_string] *)
| DomDouble (bits : Z)
| DomOther.                    (* temporal and opaque scalars *)

Fixpoint convert_json_dom (value : JsonDom) : io JsonValue :=
  match value with
  | DomArray values =>
      let? items := mapM convert_json_dom values in
      Ok (JArray items)
  | DomObject values =>
      let? items := mapM (λ kv : string * JsonDom, let? x := convert_json_dom kv.2 in Ok (mkJsonEntry kv.1 x)) values in
      Ok (JObject items)
  | DomNull => Ok JNull
  | DomBoolean b => Ok (JBoolean b)
  | DomString s => Ok (JString s)
  | DomInt v => Ok (JSignedInteger (show_int v))
  | DomUint v => Ok (JUnsignedInteger (show_nat v))
  | DomDecimal text =>
      let? decimal := parse_decimal text in
      match decimal with
      | VDecimal unscaled scale => Ok (JDecimal unscaled scale)
      | _ => Err (other "unreachable")
      end
  | DomDouble bits => Ok (JDoubleBits (lower_hex 16 bits))
  | DomOther => Err (other "JSON temporal/opaque scalar is unsupported; refusing lossy string conversion")
  end.
End decoding.

(** ** Rows *)

(** [mysql_common]'s row image: every column has its name there ([@] and an ordinal)
    and a value, or none when it was consumed. *)
Section rows.
Context `{B64 : Base64, SHA : Sha256}.
Context (evidence_json : string → string → option string → option string → LogicalType → gmap string string → list byte)
        (mapping_json : SourceTypeMapping → list byte).
(** The driver's JSONB values, and its parser of them. *)
Context {Jsonb : Type} (parse_jsonb : Jsonb → option JsonDom).

Inductive BinlogValue :=
| BvValue (value : MyValue)
| BvJsonb (value : Jsonb)
| BvJsonDiff.

Definition column_type (info : ColumnInfo) : io LogicalType :=
  match source_type_mapping_80 evidence_json mapping_json (ci_native_type info) (ci_charset info) (ci_collation info) with
  | Ok m => Ok (sm_logical_type m)
  | Err code => Err (other code)
  end.

Definition utf8_text (bytes : list byte) : io string := ok_or invalid_data (from_utf8 bytes).
Definition ZERO_TIMESTAMP : LogicalValue := VInvalidTemporal "mysql.timestamp" "0000-00-00 00:00:00.000000".

(** The arm of [Value::Bytes]. *)
Definition decode_value_bytes (t : LogicalType) (data_type : string) (bytes : list byte) (info : ColumnInfo) : io LogicalValue :=
  match t with
  | TSpatial _ _ _ => decode_spatial_value t bytes
  | _ =>
      if bool_decide (data_type = "set"%string) then decode_set_bitmask t bytes
      else if bool_decide (data_type = "enum"%string) then
        let? text := utf8_text bytes in
        match t with
        | TEnum members => if bool_decide (text ∈ members) then Ok (VEnum text) else Err invalid_data
        | _ => Err (other "enum native type mapped to another logical type")
        end
      else if bool_decide (data_type ∈ ["decimal"; "numeric"]%string) then
        let? text := utf8_text bytes in parse_decimal text
      else if bool_decide (data_type = "timestamp"%string) then
        let? text := utf8_text bytes in
        if bool_decide (text ∈ ["0"; "0.000000"]%string) then Ok ZERO_TIMESTAMP else timestamp text
      else if bool_decide (data_type = "year"%string) then
        let? text := utf8_text bytes in
        let? value := ok_or invalid_data (parse_i32 text) in Ok (VYear value)
      else if bool_decide (data_type = "bit"%string) then
        let? bit_length := native_bit_length (ci_native_type info) in
        Ok (VBitString (b64_encode bytes) bit_length (if bit_length mod 8 =? 0 then PadNone else PadZero) LsbFirst)
      else if is_binary_type data_type then
        if bool_decide (data_type = "binary"%string) then
          let? width := native_binary_width (ci_native_type info) in
          if width <? Z.of_nat (length bytes) then Err invalid_data
          else Ok (VBinary (b64_encode (Plan.resize bytes (Z.to_nat width) NUL)))
        else Ok (VBinary (b64_encode bytes))
      else Ok (VText (default "unknown"%string (ci_charset info)) (b64_encode bytes) (from_utf8 bytes))
  end.

Definition decode_mysql_value (value : MyValue) (info : ColumnInfo) : io LogicalValue :=
  let? t := column_type info in
  let data_type := to_lower (ci_data_type info) in
  let enum_or_set := bool_decide (data_type ∈ ["enum"; "set"]%string) in
  match value with
  | MyInt v =>
      if enum_or_set then if v <? 0 then Err invalid_data else decode_enum_set_ordinal t v
      else Ok (decode_integer v info)
  | MyUInt v =>
      if enum_or_set then decode_enum_set_ordinal t v
      else Ok (VInteger false (integer_bits (ci_data_type info)) (show_nat v))
  | MyBytes bytes => decode_value_bytes t data_type bytes info
  | _ =>
      if enum_or_set then Err invalid_data else
      match value with
      | MyFloat bits => Ok (VFloat 32 (lower_hex 8 bits))
      | MyDouble bits => Ok (VFloat 64 (lower_hex 16 bits))
      | MyDate year month day hour minute second microsecond =>
          decode_temporal_components (ci_data_type info) year month day hour minute second microsecond
      | MyTime negative days hours minutes seconds microsecond =>
          Ok (VDuration negative (days * 24 + hours) minutes seconds microsecond)
      | _ => Err (other "NULL must be represented by Datum::Null")
      end
  end.

Definition decode_value (value : BinlogValue) (info : ColumnInfo) : io LogicalValue :=
  match value with
  | BvJsonb value =>
      let? dom := ok_or invalid_data (parse_jsonb value) in
      let? json := convert_json_dom dom in
      Ok (VJson json)
  | BvJsonDiff => Err (other "partial JSON image cannot become a complete ChangeEvent row")
  | BvValue value => decode_mysql_value value info
  end.

Definition decode_cell (index : nat) (name : string) (value : option BinlogValue) (columns : list ColumnInfo) :
    io ColumnDatum :=
  let ordinal := default (Z.of_nat index) (rest ← strip_byte "@" name; parse_usize rest) in
  let? info := ok_or (other "row image column ordinal is out of range") (columns !! Z.to_nat ordinal) in
  let? datum :=
    match value with
    | Some (BvValue MyNull) => Ok DNull
    | Some value => let? v := decode_value value info in Ok (Value v)
    | None => Err (other "row value was consumed before conversion")
    end in
  Ok (mkColumn ordinal (ci_name info) (ci_native_type info) (ci_primary_key_ordinal info) (ci_generated info)
        (ci_collation info) datum).

Definition BinlogRow : Type := list (string * option BinlogValue).
Definition decode_row (row : BinlogRow) (columns : list ColumnInfo) : io (list ColumnDatum) :=
  if negb (Nat.eqb (length row) (length columns))
  then Err (other "row image is incomplete; binlog_row_image must be FULL")
  else mapM (λ c : nat * (string * option BinlogValue), decode_cell c.1 c.2.1 c.2.2 columns) (imap pair row).
End rows.
