(* ===== verification/MyDecodeSpec.v ===== *)
(** * What the MySQL value decoder means

    Integers at the width and signedness of the column, SET bit masks, calendar values
    and decimals: the decoded value is the one the driver's value stands for, and what
    the MySQL sinks bind for it is the value that was read. *)
From S2P Require Import Prelude Text Utf8 Codec Model Representation Outcome Validate Calendar Plan LogicalTypes Floats JsonText MySource MyType MyRender MySqlSpec MyDecode.
Import Validate.Spec MySqlSpec.Spec.

Module Spec.

(** ** Integers *)
Lemma integer_bits_cases data_type : integer_bits data_type ∈ [8; 16; 24; 32; 64].
Proof. unfold integer_bits. repeat case_match; set_solver. Qed.

Lemma mask_ones bits : bits ∈ [8; 16; 24; 32; 64] → Z.shiftr u64_max (64 - bits) = Z.ones bits.
Proof. intros H. repeat (apply elem_of_cons in H as [->|H]; [done|]). by apply elem_of_nil in H. Qed.

Lemma low_bits bits value : bits ∈ [8; 16; 24; 32; 64] → Z.land (wrap_u 64 value) (Z.shiftr u64_max (64 - bits)) = value mod 2 ^ bits.
Proof.
  intros H. rewrite (mask_ones _ H). assert (0 ≤ bits ≤ 64) as Hb.
  { repeat (apply elem_of_cons in H as [->|H]; [lia|]). by apply elem_of_nil in H. }
  rewrite Z.land_ones by lia. unfold wrap_u. apply Z.mod_mod_divide. exists (2 ^ (64 - bits)).
  rewrite <- Z.pow_add_r by lia. f_equal. lia.
Qed.

Lemma sign_bit bits raw : 1 ≤ bits → 0 ≤ raw < 2 ^ bits → (Z.land raw (Z.shiftl 1 (bits - 1)) =? 0) = (raw <? 2 ^ (bits - 1)).
Proof.
  intros Hb Hr. rewrite Z.shiftl_1_l.
  assert (Z.land raw (2 ^ (bits - 1)) = if Z.testbit raw (bits - 1) then 2 ^ (bits - 1) else 0) as ->.
  { apply Z.bits_inj'. intros i Hi. rewrite Z.land_spec, Z.pow2_bits_eqb by lia.
    destruct (bits - 1 =? i) eqn:E; [apply Z.eqb_eq in E as <-|].
    - rewrite andb_true_r. destruct (Z.testbit raw (bits - 1)); [by rewrite Z.pow2_bits_true by lia|by rewrite Z.bits_0].
    - rewrite andb_false_r. destruct (Z.testbit raw (bits - 1)); [|by rewrite Z.bits_0].
      rewrite Z.pow2_bits_false; [done|by apply Z.eqb_neq in E]. }
  assert (2 ^ bits = 2 * 2 ^ (bits - 1)) as Hp by (rewrite <- Z.pow_succ_r by lia; f_equal; lia).
  assert (0 < 2 ^ (bits - 1)) as Hpos by (apply Z.pow_pos_nonneg; lia).
  rewrite Z.testbit_odd, Z.shiftr_div_pow2 by lia. destruct (raw <? 2 ^ (bits - 1)) eqn:E.
  - apply Z.ltb_lt in E. by rewrite Z.div_small by lia.
  - apply Z.ltb_ge in E. assert (raw / 2 ^ (bits - 1) = 1) as ->; [|cbn; apply Z.eqb_neq; lia].
    symmetry. apply (Z.div_unique _ _ _ (raw - 2 ^ (bits - 1))); lia.
Qed.

(** The column's signedness as the decoder reads it. *)
Definition column_signed (info : ColumnInfo) : bool := negb (contains "unsigned" (to_lower (ci_native_type info))).

Lemma int_range_unique signed bits a b :
  1 ≤ bits → int_range signed bits a → int_range signed bits b → a mod 2 ^ bits = b mod 2 ^ bits → a = b.
Proof.
  intros Hb Ha Hc H. assert (2 ^ bits = 2 * 2 ^ (bits - 1)) as Hp by (rewrite <- Z.pow_succ_r by lia; f_equal; lia).
  assert (0 < 2 ^ (bits - 1)) as Hpos by (apply Z.pow_pos_nonneg; lia).
  pose proof (Z.div_mod a (2 ^ bits) ltac:(lia)) as H1. pose proof (Z.div_mod b (2 ^ bits) ltac:(lia)) as H2.
  set (q := a / 2 ^ bits) in *. set (r := b / 2 ^ bits) in *. set (k := 2 ^ (bits - 1)) in *.
  assert (- (2 * k) < a - b < 2 * k) as Hd by (unfold int_range in *; destruct signed; lia).
  assert (a - b = 2 * k * (q - r)) as He by lia. assert (q - r = 0) by nia. lia.
Qed.

(** An integer column is decoded to the number of its width and signedness that the
    driver's 64-bit value stands for modulo that width: whatever the driver does with
    the sign of a narrow or unsigned column, the column's own number comes out. *)
Theorem integer_decoded (value n : Z) (info : ColumnInfo) :
  int_range (column_signed info) (integer_bits (ci_data_type info)) n →
  value mod 2 ^ integer_bits (ci_data_type info) = n mod 2 ^ integer_bits (ci_data_type info) →
  decode_integer value info = VInteger (column_signed info) (integer_bits (ci_data_type info)) (show_int n).
Proof.
  pose proof (integer_bits_cases (ci_data_type info)) as Hc. unfold decode_integer, column_signed.
  set (bits := integer_bits (ci_data_type info)) in *. intros Hn Hv. rewrite low_bits, Hv by done.
  assert (1 ≤ bits ≤ 64) as Hb by (repeat (apply elem_of_cons in Hc as [->|Hc]; [lia|]); by apply elem_of_nil in Hc).
  assert (2 ^ bits = 2 * 2 ^ (bits - 1)) as Hp by (rewrite <- Z.pow_succ_r by lia; f_equal; lia).
  assert (0 < 2 ^ (bits - 1)) as Hpos by (apply Z.pow_pos_nonneg; lia).
  pose proof (Z.mod_pos_bound n (2 ^ bits) ltac:(lia)) as Hm.
  assert (∀ z, 0 ≤ z → show_int z = show_nat z) as Hshow by (intros z Hz; unfold show_int; by rewrite (proj2 (Z.ltb_ge z 0)) by lia).
  f_equal. destruct (contains _ _); cbn [negb] in *; unfold int_range in Hn.
  - by rewrite Hshow, Z.mod_small by lia.
  - rewrite sign_bit by lia. rewrite Z.shiftl_1_l. destruct (n mod 2 ^ bits <? 2 ^ (bits - 1)) eqn:E; cbn [negb].
    + apply Z.ltb_lt in E. rewrite <- Hshow by lia. f_equal.
      apply (int_range_unique true bits); [lia|unfold int_range; lia|done|]. by rewrite Z.mod_mod by lia.
    + apply Z.ltb_ge in E. f_equal. apply (int_range_unique true bits); [lia|unfold int_range; lia|done|].
      rewrite <- (Z_mod_plus_full _ 1), Z.mul_1_l. replace (n mod 2 ^ bits - 2 ^ bits + 2 ^ bits) with (n mod 2 ^ bits) by lia.
      by rewrite Z.mod_mod by lia.
Qed.

(** ** Calendar values *)
Definition instant_seconds (year month day hour minute second : Z) : Z :=
  days_from_civil year month day * 86400 + hour * 3600 + minute * 60 + second.

(** The decoder's own day count is that of the Change Event model. *)
Lemma timestamp_seconds year month day hour minute second microsecond :
  1 ≤ year → valid_date year month day → 0 ≤ hour < 24 → 0 ≤ minute < 60 → 0 ≤ second < 60 → 0 ≤ microsecond < 1000000 →
  timestamp_from_components year month day hour minute second microsecond
  = Ok (VInstant (show_int (instant_seconds year month day hour minute second)) (microsecond * 1000)).
Proof.
  unfold valid_date. intros Hy Hd Hh Hm Hs Hu. unfold timestamp_from_components.
  assert ((year =? 0) || (day =? 0) || (days_in_month year month <? day) || (24 <=? hour) || (60 <=? minute)
          || (60 <=? second) || (1000000 <=? microsecond) = false) as ->.
  { rewrite !orb_false_iff, !Z.eqb_neq, Z.ltb_ge, !Z.leb_gt. lia. }
  assert (1 ≤ month ≤ 12) as Hmo by (apply (days_in_month_months year); lia).
  unfold instant_seconds, days_from_civil. set (y := year - (if month <=? 2 then 1 else 0)).
  assert (0 ≤ y) as Hy0 by (subst y; destruct (month <=? 2); lia).
  rewrite (proj2 (Z.leb_le 0 y)) by done. rewrite (Z.quot_div_nonneg y 400) by lia. reflexivity.
Qed.

(** The text of a value that is no date of the calendar. *)
Definition temporal_text (data_type : string) (year month day hour minute second microsecond : Z) : string :=
  let date_text := padded 4 year +:+ "-" +:+ padded 2 month +:+ "-" +:+ padded 2 day in
  if bool_decide (data_type = "date"%string) then date_text
  else date_text +:+ " " +:+ padded 2 hour +:+ ":" +:+ padded 2 minute +:+ ":" +:+ padded 2 second +:+ "."
       +:+ padded 6 microsecond.

Lemma show_from_length f k n acc :
  (1 ≤ k)%nat → 0 ≤ n < 10 ^ Z.of_nat k → (String.length (show_from f n acc) ≤ String.length acc + k)%nat.
Proof.
  revert k n acc. induction f as [|f IH]; intros k n acc Hk Hn; cbn [show_from]; [lia|].
  destruct (n / 10 =? 0) eqn:E; [cbn; lia|]. apply Z.eqb_neq in E.
  destruct k as [|[|k]]; [lia|change (10 ^ Z.of_nat 1) with 10 in Hn; rewrite Z.div_small in E by lia; done|].
  etransitivity; [apply (IH (S k)); [lia|]|cbn; lia].
  split; [apply Z.div_pos; lia|]. apply Z.div_lt_upper_bound; [lia|].
  replace (Z.of_nat (S (S k))) with (Z.succ (Z.of_nat (S k))) in Hn by lia. rewrite Z.pow_succ_r in Hn by lia. lia.
Qed.

Lemma padded_digits k n :
  (1 ≤ k)%nat → 0 ≤ n < 10 ^ Z.of_nat k →
  length (sbytes (padded k n)) = k ∧ Forall (λ c, is_ascii_digit c = true) (sbytes (padded k n)).
Proof.
  intros Hk Hn. unfold padded. rewrite sbytes_app, sbytes_of.
  pose proof (show_from_length (S (Z.to_nat (Z.log2 n))) k n "" Hk Hn) as Hl. cbn [String.length] in Hl.
  change (show_from _ n "") with (show_nat n) in Hl.
  assert (length (sbytes (show_nat n)) = String.length (show_nat n)) as Hlen.
  { generalize (show_nat n) as t. induction t as [|c t IH]; [done|]. cbn. f_equal. exact IH. }
  split; [rewrite length_app, length_replicate, Hlen; lia|]. apply Forall_app. split.
  - apply Forall_replicate. reflexivity.
  - apply Forall_forall. pose proof (show_nat_digits n ltac:(lia)) as Hd. unfold all_bytes in Hd.
    rewrite forallb_forall in Hd. intros x Hx. apply Hd. by apply list_elem_of_In.
Qed.

(** A padded number, digit by digit. *)
Ltac digits k n :=
  let Hl := fresh "Hl" in let Hd := fresh "Hd" in let l := fresh "l" in
  destruct (padded_digits k n ltac:(lia) ltac:(cbn; lia)) as [Hl Hd];
  set (l := sbytes (padded k n)) in *; clearbody l;
  repeat (let c := fresh "c" in destruct l as [|c l]; [discriminate Hl|]); (destruct l; [clear Hl|discriminate Hl]).

Ltac all_digits :=
  repeat match goal with H : Forall _ (_ :: _) |- _ => inversion_clear H end;
  cbn; rewrite !andb_true_iff; split_and!;
  first [reflexivity|match goal with H : is_ascii_digit ?c = true |- temporal_byte _ _ ?c = true => exact H end].

Lemma string_length t : String.length t = length (sbytes t).
Proof. induction t as [|c t IH]; [done|cbn; f_equal; exact IH]. Qed.

(** The sinks write that text as it is. *)
Lemma temporal_text_accepted data_type year month day hour minute second microsecond :
  data_type ∈ ["date"; "datetime"; "timestamp"]%string →
  0 ≤ year < 10 ^ 4 → 0 ≤ month < 10 ^ 2 → 0 ≤ day < 10 ^ 2 → 0 ≤ hour < 10 ^ 2 → 0 ≤ minute < 10 ^ 2 →
  0 ≤ second < 10 ^ 2 → 0 ≤ microsecond < 10 ^ 6 →
  let raw := temporal_text data_type year month day hour minute second microsecond in
  mysql_invalid_temporal_value ("mysql." +:+ data_type) raw = Ok (MyBytes (sbytes raw)).
Proof.
  intros Ht Hy Hm Hd Hh Hmi Hs Hu raw.
  assert (∃ seps, separators ("mysql." +:+ data_type) = Some seps
          ∧ slen raw = (if bool_decide ("mysql." +:+ data_type = "mysql.date"%string) then 10 else 26)
          ∧ forallb (λ ic : nat * byte, temporal_byte seps ic.1 ic.2) (imap pair (sbytes raw)) = true) as (seps & H1 & H2 & H3).
  { subst raw. unfold slen, temporal_text. rewrite string_length.
    repeat (apply elem_of_cons in Ht as [->|Ht]; [eexists; split; [reflexivity|]|]); [..|by apply elem_of_nil in Ht].
    - rewrite bool_decide_eq_true_2 by done. rewrite !sbytes_app.
      digits 4%nat year. digits 2%nat month. digits 2%nat day. split; [reflexivity|all_digits].
    - rewrite bool_decide_eq_false_2 by done. rewrite !sbytes_app.
      digits 4%nat year. digits 2%nat month. digits 2%nat day. digits 2%nat hour. digits 2%nat minute. digits 2%nat second.
      digits 6%nat microsecond. split; [reflexivity|all_digits].
    - rewrite bool_decide_eq_false_2 by done. rewrite !sbytes_app.
      digits 4%nat year. digits 2%nat month. digits 2%nat day. digits 2%nat hour. digits 2%nat minute. digits 2%nat second.
      digits 6%nat microsecond. split; [reflexivity|all_digits]. }
  unfold mysql_invalid_temporal_value. rewrite H1. cbn [supported ok_or mbind result_bind]. rewrite H2, H3, Z.eqb_refl. reflexivity.
Qed.

(** A date of the calendar, with a time of day where the type has one. *)
Definition in_calendar (data_type : string) (year month day hour minute second microsecond : Z) : Prop :=
  1 ≤ year ∧ valid_date year month day
  ∧ (data_type = "date"%string ∨ hour < 24 ∧ minute < 60 ∧ second < 60 ∧ microsecond < 1000000).
#[local] Instance in_calendar_dec data_type year month day hour minute second microsecond :
  Decision (in_calendar data_type year month day hour minute second microsecond).
Proof. unfold in_calendar, valid_date. apply _. Defined.

Lemma validate_show n : validate_integer (show_int n) true = Ok (show_int n).
Proof.
  unfold validate_integer. assert (strip_sign (show_int n) = show_nat (Z.abs n)) as ->.
  { unfold strip_sign, show_int. destruct (n <? 0) eqn:E.
    - apply Z.ltb_lt in E. cbn. f_equal. lia.
    - apply Z.ltb_ge in E. rewrite !strip_byte_none by (apply show_nat_no_byte; done). cbn. f_equal. lia. }
  by rewrite show_nat_nonempty, show_nat_digits by lia.
Qed.

Lemma mysql_year_ok year : 0 ≤ year < 10 ^ 4 → mysql_year year = Ok year.
Proof. intros H. unfold mysql_year. by rewrite (proj2 (in_range_spec _ _ _)) by (unfold u16_max; lia). Qed.

Section round_trip.
Context `{B64 : Base64, SHA : Sha256, JP : JsonPrinter, FT : FloatText}.

Lemma instant_bound seconds year month day hour minute second microsecond :
  1 ≤ year ≤ 65535 → valid_date year month day → 0 ≤ hour < 24 → 0 ≤ minute < 60 → 0 ≤ second < 60 → 0 ≤ microsecond < 1000000 →
  seconds = instant_seconds year month day hour minute second →
  unix_instant_value (show_int seconds) (microsecond * 1000) = Ok (MyDate year month day hour minute second microsecond).
Proof.
  intros Hy Hd Hh Hmi Hs Hu ->. set (n := instant_seconds _ _ _ _ _ _).
  assert (- 2 ^ 40 < days_from_civil year month day < 2 ^ 40) as Hb.
  { apply days_from_civil_bounds; [unfold i32_min, i32_max; lia|done]. }
  assert (i64_min ≤ n ≤ i64_max) as Hn by (subst n; unfold instant_seconds, i64_min, i64_max; lia).
  rewrite (proj2 (instant_utc (show_int n) n (microsecond * 1000) (MyDate year month day hour minute second microsecond)
                    (validate_show _) (parse_signed_show _ _ _ Hn) ltac:(lia) (Z.mod_mul _ 1000 ltac:(lia)))); [done|].
  exists year, month, day, hour, minute, second. rewrite Z.div_mul by lia. split_and!; try done; lia.
Qed.

(** C39: A date, datetime or timestamp column is captured and bound by a MySQL sink as the
    value that was read: a date of the calendar comes back with all its parts (through
    UTC seconds for a timestamp), and a zero or impossible date as its exact text. *)
Theorem temporal_round_trip (data_type : string) (year month day hour minute second microsecond : Z) :
  data_type ∈ ["date"; "datetime"; "timestamp"]%string →
  0 ≤ year < 10 ^ 4 → 0 ≤ month < 10 ^ 2 → 0 ≤ day < 10 ^ 2 → 0 ≤ hour < 10 ^ 2 → 0 ≤ minute < 10 ^ 2 →
  0 ≤ second < 10 ^ 2 → 0 ≤ microsecond < 10 ^ 6 →
  (data_type = "date"%string → hour = 0 ∧ minute = 0 ∧ second = 0 ∧ microsecond = 0) →
  (let? value := decode_temporal_components data_type year month day hour minute second microsecond in
   bind_logical_value value)
  = Ok (if bool_decide (in_calendar data_type year month day hour minute second microsecond)
        then MyDate year month day hour minute second microsecond
        else MyBytes (sbytes (temporal_text data_type year month day hour minute second microsecond))).
Proof.
  intros Ht Hy Hm Hd Hh Hmi Hs Hu Hdate.
  pose proof (temporal_text_accepted _ _ _ _ _ _ _ _ Ht Hy Hm Hd Hh Hmi Hs Hu) as Htext. cbv zeta in Htext.
  unfold decode_temporal_components.
  assert (eq_ignore_case data_type "date" = bool_decide (data_type = "date"%string)
          ∧ eq_ignore_case data_type "timestamp" = bool_decide (data_type = "timestamp"%string) ∧ to_lower data_type = data_type)
    as (-> & -> & ->) by (repeat (apply elem_of_cons in Ht as [->|Ht]; [by vm_compute|]); by apply elem_of_nil in Ht).
  unfold temporal_text in Htext |- *. set (raw := if bool_decide (data_type = _) then _ else _) in *.
  set (invalid := _ || _).
  assert (invalid = negb (bool_decide (in_calendar data_type year month day hour minute second microsecond))) as Hinv.
  { apply eq_iff_eq_true. rewrite negb_true_iff, bool_decide_eq_false. subst invalid. unfold in_calendar, valid_date.
    rewrite !orb_true_iff, andb_true_iff, negb_true_iff, bool_decide_eq_false, !orb_true_iff, !Z.eqb_eq, Z.ltb_lt, !Z.leb_le.
    pose proof (days_in_month_months year month) as Hmonths.
    split.
    - intros H (H1 & H2 & H3). assert (1 ≤ month) by (apply Hmonths; lia). destruct H3 as [H3|H3]; intuition lia.
    - intros H. destruct (decide (data_type = "date"%string)) as [E|E].
      + assert (¬ (1 ≤ year ∧ 1 ≤ day ≤ days_in_month year month)) by (intros [??]; apply H; auto). lia.
      + assert (¬ (1 ≤ year ∧ 1 ≤ day ≤ days_in_month year month ∧ hour < 24 ∧ minute < 60 ∧ second < 60 ∧ microsecond < 1000000))
          as Hn by (intros (?&?&?); apply H; auto).
        destruct (decide (24 ≤ hour ∨ 60 ≤ minute ∨ 60 ≤ second ∨ 1000000 ≤ microsecond)); [|lia].
        right. split; [done|]. tauto. }
  rewrite Hinv. destruct (bool_decide (in_calendar _ _ _ _ _ _ _ _)) eqn:Ev; cbn [negb]; [apply bool_decide_eq_true in Ev|].
  - destruct Ev as (Hy1 & Hd1 & Htime). repeat (apply elem_of_cons in Ht as [->|Ht]); [..|by apply elem_of_nil in Ht].
    + destruct (Hdate eq_refl) as (-> & -> & -> & ->). rewrite bool_decide_eq_true_2 by done. cbn [mbind result_bind bind_logical_value]. by rewrite mysql_year_ok by lia.
    + rewrite !bool_decide_eq_false_2 by done. cbn [mbind result_bind bind_logical_value]. by rewrite mysql_year_ok by lia.
    + rewrite bool_decide_eq_false_2, bool_decide_eq_true_2 by done.
      destruct Htime as [?|(? & ? & ? & ?)]; [done|]. rewrite timestamp_seconds by (done || lia). cbn. by apply instant_bound; try done; lia.
  - cbn. exact Htext.
Qed.
End round_trip.

(** ** SET bit masks *)

(** The [width] little-endian bytes of a mask, and the mask of the members that [p] picks. *)
Fixpoint le_bytes (width : nat) (mask : Z) : list byte :=
  match width with
  | O => []
  | S width => byte_of mask :: le_bytes width (mask / 256)
  end.
Fixpoint mask_of (p : string → bool) (members : list string) : Z :=
  match members with
  | [] => 0
  | member :: members => (if p member then 1 else 0) + 2 * mask_of p members
  end.
Definition combine (bytes : list byte) : Z := foldr (λ b n, bval b + 256 * n) 0 bytes.

Lemma combine_app a b : combine (a ++ b) = combine a + 256 ^ Z.of_nat (length a) * combine b.
Proof.
  unfold combine. induction a as [|c a IH]; cbn [app foldr length]; [lia|]. rewrite IH.
  replace (Z.of_nat (S (length a))) with (Z.succ (Z.of_nat (length a))) by lia. rewrite Z.pow_succ_r by lia. lia.
Qed.
Lemma combine_bound l : 0 ≤ combine l < 256 ^ Z.of_nat (length l).
Proof.
  unfold combine. induction l as [|c l IH]; cbn [foldr length]; [lia|].
  replace (Z.of_nat (S (length l))) with (Z.succ (Z.of_nat (length l))) by lia. rewrite Z.pow_succ_r by lia.
  pose proof (bval_range c). lia.
Qed.
Lemma combine_le_bytes w mask : 0 ≤ mask < 256 ^ Z.of_nat w → combine (le_bytes w mask) = mask.
Proof.
  revert mask. induction w as [|w IH]; intros mask Hm; [cbn in *; lia|]. cbn [le_bytes]. unfold combine. cbn [foldr].
  fold (combine (le_bytes w (mask / 256))). replace (Z.of_nat (S w)) with (Z.succ (Z.of_nat w)) in Hm by lia.
  rewrite Z.pow_succ_r in Hm by lia. rewrite IH, bval_byte_of; [pose proof (Z.div_mod mask 256); lia|].
  split; [apply Z.div_pos; lia|apply Z.div_lt_upper_bound; lia].
Qed.

Lemma lor_high a b n : 0 ≤ n → 0 ≤ a < 2 ^ n → 0 ≤ b → Z.lor a (b * 2 ^ n) = a + b * 2 ^ n.
Proof.
  intros Hn Ha Hb. rewrite <- Z.lxor_lor, <- Z.add_nocarry_lxor; [done| |];
    apply Z.bits_inj'; intros i Hi; rewrite Z.land_spec, Z.bits_0, <- Z.shiftl_mul_pow2 by done;
    (destruct (decide (i < n)); [by rewrite Z.shiftl_spec_low, andb_false_r by done|]);
    (rewrite <- (Z.mod_small a (2 ^ n)) by done; by rewrite Z.mod_pow2_bits_high by lia).
Qed.

Lemma bitmask_combine bytes : (length bytes ≤ 8)%nat → bitmask bytes = combine bytes.
Proof.
  induction bytes as [|b l IH] using rev_ind; intros Hl; [done|]. rewrite length_app in Hl. cbn in Hl.
  unfold bitmask in *. rewrite imap_app, foldl_app, IH, combine_app by lia. cbn [imap foldl]. unfold mask_byte.
  rewrite Nat.add_0_r. pose proof (bval_range b) as Hb. pose proof (combine_bound l) as Hc.
  set (k := Z.of_nat (length l)) in *. assert (0 ≤ k ≤ 7) as Hk by lia.
  rewrite (Z.mod_small (k * 8)) by lia. rewrite Z.shiftl_mul_pow2 by lia.
  assert (256 ^ k = 2 ^ (k * 8)) as Hp by (change 256 with (2 ^ 8); rewrite <- Z.pow_mul_r by lia; f_equal; lia).
  assert (2 ^ (k * 8) * 2 ^ 8 ≤ 2 ^ 64) as Hle by (rewrite <- Z.pow_add_r by lia; apply Z.pow_le_mono_r; lia).
  assert (0 < 2 ^ (k * 8)) by (apply Z.pow_pos_nonneg; lia).
  assert (combine [b] = bval b) as -> by (unfold combine; cbn [foldr]; lia).
  unfold wrap_u. rewrite Z.mod_small by nia. rewrite lor_high, Hp by lia. lia.
Qed.

Lemma mask_of_bound p members : 0 ≤ mask_of p members < 2 ^ Z.of_nat (length members).
Proof.
  induction members as [|m members IH]; cbn [mask_of length]; [lia|].
  replace (Z.of_nat (S (length members))) with (Z.succ (Z.of_nat (length members))) by lia. rewrite Z.pow_succ_r by lia.
  destruct (p m); lia.
Qed.
Lemma mask_of_bit p members i m : members !! i = Some m → Z.testbit (mask_of p members) (Z.of_nat i) = p m.
Proof.
  revert i. induction members as [|x members IH]; intros i H; [done|]. cbn [mask_of].
  destruct i as [|i]; cbn in H.
  - injection H as ->. rewrite Z.add_comm. destruct (p m); [by rewrite Z.testbit_odd_0|by rewrite Z.add_0_r, Z.testbit_even_0].
  - replace (Z.of_nat (S i)) with (Z.succ (Z.of_nat i)) by lia. rewrite Z.add_comm, <- (IH _ H).
    destruct (p x); [by rewrite Z.testbit_odd_succ by lia|by rewrite Z.add_0_r, Z.testbit_even_succ by lia].
Qed.
Lemma bit64_test value i : 0 ≤ i < 64 → (Z.land value (bit64 i) ≠ 0 ↔ Z.testbit value i = true).
Proof.
  intros Hi. unfold bit64. rewrite Z.mod_small, Z.shiftl_1_l by lia. unfold wrap_u.
  rewrite Z.mod_small by (split; [apply Z.pow_nonneg; lia|apply Z.pow_lt_mono_r; lia]).
  assert (Z.land value (2 ^ i) = if Z.testbit value i then 2 ^ i else 0) as ->.
  { apply Z.bits_inj'. intros n Hn. rewrite Z.land_spec, Z.pow2_bits_eqb by lia.
    destruct (i =? n) eqn:E; [apply Z.eqb_eq in E as <-|].
    - rewrite andb_true_r. destruct (Z.testbit value i); [by rewrite Z.pow2_bits_true by lia|by rewrite Z.bits_0].
    - rewrite andb_false_r. destruct (Z.testbit value i); [|by rewrite Z.bits_0].
      rewrite Z.pow2_bits_false; [done|by apply Z.eqb_neq in E]. }
  assert (0 < 2 ^ i) by (apply Z.pow_pos_nonneg; lia). destruct (Z.testbit value i); [split; [done|lia]|done].
Qed.
Lemma selected_members (p : string → bool) value k members :
  (∀ i m, members !! i = Some m → (Z.land value (bit64 (Z.of_nat (k + i))) ≠ 0 ↔ p m = true)) →
  snd <$> filter (λ im : nat * string, Z.land value (bit64 (Z.of_nat im.1)) ≠ 0) (imap (λ i m, ((k + i)%nat, m)) members)
  = filter (λ m, p m = true) members.
Proof.
  revert k. induction members as [|m members IH]; intros k H; [done|]. cbn [imap].
  pose proof (H 0%nat m eq_refl) as H0.
  assert (imap ((λ (i : nat) (m0 : string), ((k + i)%nat, m0)) ∘ S) members = imap (λ i m0, ((S k + i)%nat, m0)) members) as ->.
  { apply imap_ext. intros i x _. cbn. f_equal. lia. }
  assert (snd <$> filter (λ im : nat * string, Z.land value (bit64 (Z.of_nat im.1)) ≠ 0) (imap (λ i m0, ((S k + i)%nat, m0)) members)
          = filter (λ m, p m = true) members) as Hrest.
  { apply IH. intros i x Hx. replace (S k + i)%nat with (k + S i)%nat by lia. by apply H. }
  destruct (p m) eqn:Em.
  - rewrite filter_cons_True by (by apply H0). rewrite (filter_cons_True _ m) by done. cbn [fmap list_fmap snd]. by rewrite Hrest.
  - rewrite filter_cons_False by (rewrite H0; congruence). rewrite (filter_cons_False _ m) by congruence. exact Hrest.
Qed.

(** A SET value read from the binlog is the set of members its bits pick, in the order
    of the declaration, for every declaration up to MySQL's 64 members and any number
    of bytes that holds the mask. *)
Theorem set_round_trip (members : list string) (p : string → bool) (width : nat) :
  (length members ≤ 8 * width)%nat → (width ≤ 8)%nat →
  decode_set_bitmask (TSet members) (le_bytes width (mask_of p members)) = Ok (VSet (filter (λ m, p m = true) members)).
Proof.
  intros Hl Hw. assert (∀ w z, length (le_bytes w z) = w) as Hlen by (induction w; intros z; cbn; [done|by f_equal]).
  unfold decode_set_bitmask. rewrite Hlen, (proj2 (Z.ltb_ge 64 (Z.of_nat width))) by lia.
  pose proof (mask_of_bound p members) as Hm.
  rewrite bitmask_combine by (rewrite Hlen; lia). rewrite combine_le_bytes.
  2: { split; [lia|]. eapply Z.lt_le_trans; [apply Hm|]. change 256 with (2 ^ 8). rewrite <- Z.pow_mul_r by lia.
       apply Z.pow_le_mono_r; lia. }
  unfold decode_enum_set_ordinal. rewrite Z.shiftr_div_pow2, Z.div_small by lia. rewrite andb_false_r.
  f_equal. f_equal. apply (selected_members p _ 0). intros i m Hi. cbn [Nat.add].
  assert (i < length members)%nat by (by eapply lookup_lt_Some). rewrite bit64_test by lia. by rewrite (mask_of_bit _ _ _ _ Hi).
Qed.

(** A mask of nine bytes passes the width check, which compares bytes with the 64 bits
    of the mask; its ninth byte lands on the first. *)
Example wide_mask_wraps :
  decode_set_bitmask (TSet ["a"]%string) (replicate 8 NUL ++ ["001"%char]) = Ok (VSet ["a"]%string).
Proof. by vm_compute. Qed.

(** ** Spatial values *)
Lemma u32_read (l : list byte) (b : bool) (code : Z) :
  (if b then u32_le (take 4 l) else u32_be (take 4 l)) = Some code → Validate.read_u32 (take 4 l) b = Ok code.
Proof.
  unfold u32_be. destruct l as [|x [|y [|z [|w l]]]]; destruct b; cbn; try done; intros [= <-]; f_equal; lia.
Qed.

Lemma geometry_names code name :
  (if code =? 0 then None : option string else WKB_NAMES !! Z.to_nat (code - 1)) = Some name → 0 ≤ code →
  Validate.geometry_name code = name ∧ name ∈ WKB_NAMES.
Proof.
  intros H Hc. destruct (code =? 0) eqn:E; [done|]. apply Z.eqb_neq in E.
  assert (name ∈ WKB_NAMES) as Hin by (by eapply list_elem_of_lookup_2). split; [|done].
  apply lookup_lt_Some in H as Hlt. cbn in Hlt.
  assert (code = 1 ∨ code = 2 ∨ code = 3 ∨ code = 4 ∨ code = 5 ∨ code = 6 ∨ code = 7) as Hcases by lia.
  destruct Hcases as [->|[->|[->|[->|[->|[-> | ->]]]]]]; cbn in H; by injection H as <-.
Qed.

Section spatial.
Context `{B64 : Base64} {B64L : Base64Laws B64} `{SHA : Sha256}.

(** The header reader of the capture and the one of the validation agree. *)
Lemma wire_header_valid wkb name dimensions srid crs :
  spatial_wire_header wkb = Ok (name, dimensions) → crs ≠ ""%string → has_nul crs = false →
  Validate.spatial Wkb (b64_encode wkb) name dimensions srid (Some crs) = Ok () ∧ name ∈ WKB_NAMES.
Proof.
  unfold spatial_wire_header. destruct wkb as [|order rest]; [done|]. case_match eqn:Elen; [done|]. apply Z.ltb_ge in Elen.
  intros H Hcrs Hnul. apply bind_ok in H as (b & Hb & H). apply bind_ok in H as (code & Hcode%ok_or_ok & H).
  apply u32_read in Hcode. destruct (Z.land code 0x20000000 =? 0) eqn:Esrid; [|done]. cbn [negb] in H. cbv zeta in H.
  apply bind_ok in H as ([base dims] & Hshape & H). apply bind_ok in H as (n & Hn%ok_or_ok & H). cbn [fst snd] in *.
  injection H as <- <-.
  assert (0 ≤ Z.land code 0x0fffffff) as Hpos by (apply Z.land_nonneg; lia).
  assert (0 ≤ base ∧ in_range 2 4 dims = true ∧
          (if 1000 <=? Z.land code 0x0fffffff then
             (Z.land code 0x0fffffff mod 1000,
              if (Z.land code 0x0fffffff / 1000 =? 1) || (Z.land code 0x0fffffff / 1000 =? 2) then 3
              else if Z.land code 0x0fffffff / 1000 =? 3 then 4 else 0)
           else (Z.land code 0x0fffffff, 2 + Z.b2z (negb (Z.land code 0x80000000 =? 0)) + Z.b2z (negb (Z.land code 0x40000000 =? 0))))
          = (base, dims)) as (Hbase & Hdims & Hpair).
  { destruct (1000 <=? Z.land code 0x0fffffff).
    - pose proof (Z.mod_pos_bound (Z.land code 0x0fffffff) 1000 ltac:(lia)).
      destruct (_ || _) eqn:E1; [injection Hshape as <- <-; split_and!; [lia|done..]|].
      destruct (_ =? 3) eqn:E2; [injection Hshape as <- <-; split_and!; [lia|done..]|done].
    - injection Hshape as <- <-. split_and!; [done| |]; by destruct (Z.land code 0x80000000 =? 0), (Z.land code 0x40000000 =? 0). }
  destruct (geometry_names _ _ Hn Hbase) as [Hname Hin]. split; [|done].
  unfold Validate.spatial. rewrite Hdims. cbn [ensure mbind result_bind].
  assert (negb (sempty n) && negb (has_nul n) = true ∧ n ≠ "unknown"%string) as [-> Hunk].
  { repeat (apply elem_of_cons in Hin as [->|Hin]; [split; [by vm_compute|done]|]). by apply elem_of_nil in Hin. }
  cbn [ensure mbind result_bind]. rewrite Hnul. assert (sempty crs = false) as -> by (by destruct crs). cbn [negb andb ensure mbind result_bind].
  rewrite b64_roundtrip. cbn [ok_or mbind result_bind]. rewrite (proj2 (Z.leb_le 5 _)) by done. cbn [ensure mbind result_bind List.hd drop].
  assert ((if bval order =? 0 then Ok false else if bval order =? 1 then Ok true else Err (VE "invalid spatial byte order")) = Ok b) as ->.
  { repeat case_match; simplify_eq; done. }
  change (drop 0 rest) with rest. cbn [mbind result_bind]. rewrite Hcode. cbn [mbind result_bind]. cbv zeta. rewrite Hpair, Hname, Esrid.
  rewrite (bool_decide_eq_false_2 (n = "unknown"%string)) by done. cbn [negb ensure mbind result_bind].
  unfold eq_ignore_case. rewrite (bool_decide_eq_true_2 (to_lower n = to_lower n)) by done. rewrite Z.eqb_refl. reflexivity.
Qed.

(** What the sinks rely on in a captured value: it inhabits the declared type of its
    column and the Change Event model accepts it. *)
Definition well_captured (t : LogicalType) (value : LogicalValue) : Prop :=
  matches_value t value = true ∧ Validate.logical_value value = Ok ().

(** A spatial value that is decoded belongs to the type its column is declared with
    and passes the validation of the Change Event model. *)
Theorem spatial_decoded_valid (t : LogicalType) (bytes : list byte) (value : LogicalValue) :
  decode_spatial_value t bytes = Ok value → well_captured t value.
Proof.
  destruct t as [| | | | | | | | | | | | | | | | | | | | |subtype srid dimensions| | | | | | | | | | | |]; try done.
  unfold decode_spatial_value. intros H. case_match; [done|]. apply bind_ok in H as (n & _ & H).
  case_match eqn:Emax; [done|]. case_match eqn:Esrid; [done|]. apply bind_ok in H as ([name dims] & Hh & H).
  case_match eqn:Ematch; [done|]. injection H as <-. apply orb_false_iff in Ematch as [H1 H2].
  assert ("srid:" +:+ show_int n ≠ ""%string ∧ has_nul ("srid:" +:+ show_int n) = false) as [Hc1 Hc2].
  { split; [done|]. apply contains_byte_false. rewrite sbytes_app. intros [Hin|Hin]%elem_of_app.
    - by vm_compute in Hin; repeat (apply elem_of_cons in Hin as [?|Hin]; [done|]); apply elem_of_nil in Hin.
    - unfold show_int in Hin. destruct (n <? 0) eqn:En.
      + apply Z.ltb_lt in En. cbn in Hin. apply elem_of_cons in Hin as [?|Hin]; [done|].
        assert (contains_byte NUL (show_nat (- n)) = false) as Hf by (apply show_nat_no_byte; [done|lia]).
        apply contains_byte_false in Hf. by apply Hf.
      + apply Z.ltb_ge in En. assert (contains_byte NUL (show_nat n) = false) as Hf by (apply show_nat_no_byte; [done|lia]).
        apply contains_byte_false in Hf. by apply Hf. }
  destruct (wire_header_valid _ _ _ (Some n) _ Hh Hc1 Hc2) as [Hv _]. split; [|cbn; exact Hv].
  cbn. apply andb_true_iff. split; [apply andb_true_iff; split|].
  - destruct (bool_decide (subtype = "*"%string)); [done|]. cbn in *. apply negb_false_iff in H1.
    unfold eq_ignore_case in *. apply bool_decide_eq_true in H1. by apply bool_decide_eq_true_2.
  - destruct srid as [s|]; [|done]. cbn. apply bool_decide_eq_true_2. f_equal. apply negb_false_iff, Z.eqb_eq in Esrid. done.
  - destruct (dimensions =? 0); [done|]. cbn in *. apply negb_false_iff, Z.eqb_eq in H2 as ->. by rewrite Z.eqb_refl.
Qed.
End spatial.

(** ** Witnesses *)
Definition unsigned_tiny : ColumnInfo := mkInfo "n" "tinyint(3) unsigned" "tinyint" None None false None.
Example integer_decoded_witness : decode_integer (-1) unsigned_tiny = VInteger false 8 "255".
Proof. apply (integer_decoded (-1) 255 unsigned_tiny); [vm_compute; done|by vm_compute]. Defined.

Example set_round_trip_witness :
  decode_set_bitmask (TSet ["a"; "b"; "c"]%string) (le_bytes 1 5) = Ok (VSet ["a"; "c"]%string).
Proof.
  pose proof (set_round_trip ["a"; "b"; "c"]%string (λ m, negb (bool_decide (m = "b"%string))) 1 ltac:(cbn; lia) ltac:(lia)) as H.
  vm_compute in H |- *. exact H.
Defined.

(** The point (0, 0) of SRID 4326 in little-endian WKB. *)
Definition point_bytes : list byte := le_bytes 4 4326 ++ ["001"%char] ++ le_bytes 4 1 ++ replicate 16 NUL.
Example spatial_decoded_valid_witness :
  match decode_spatial_value (B64 := Rfc4648.base64) (TSpatial "point" None 2) point_bytes with
  | Ok value => well_captured (B64 := Rfc4648.base64) (SHA := SumDigest.sha256) (TSpatial "point" None 2) value
  | Err _ => False
  end.
Proof.
  destruct (decode_spatial_value (B64 := Rfc4648.base64) (TSpatial "point" None 2) point_bytes) as [v|e] eqn:H.
  - exact (spatial_decoded_valid (B64 := Rfc4648.base64) (B64L := Rfc4648.base64_laws) (SHA := SumDigest.sha256) (TSpatial "point" None 2) point_bytes v H).
  - vm_compute in H. discriminate H.
Defined.

#[local] Instance no_floats : FloatText := {| display_float _ _ := "0"%string |}.
#[local] Instance no_printer : JsonPrinter := {| json_string s := s; json_double n := show_nat n |}.
(** A timestamp with its microseconds, and a zero date. *)
Example temporal_round_trip_witness :
  (let? value := decode_temporal_components "timestamp" 2026 9 14 1 2 3 123456 in
   bind_logical_value (B64 := Rfc4648.base64) value) = Ok (MyDate 2026 9 14 1 2 3 123456)
  ∧ (let? value := decode_temporal_components "date" 0 0 0 0 0 0 0 in
     bind_logical_value (B64 := Rfc4648.base64) value) = Ok (MyBytes (sbytes "0000-00-00")).
Proof.
  split.
  - rewrite (temporal_round_trip "timestamp" 2026 9 14 1 2 3 123456) by (done || lia || set_solver). by vm_compute.
  - rewrite (temporal_round_trip "date" 0 0 0 0 0 0 0) by (done || lia || set_solver). by vm_compute.
Defined.
End Spec.
