(* ===== verification/MyBinlog.v ===== *)
(** * The binlog capture of MySQL 8.0 ([crates/mysql_8_0/src/decoder.rs], [binlog.rs])

    [Decoder] groups the events of the replication stream into transactions: nothing
    of a transaction is published before its commit.  [BinlogStream] is the iterator
    over it, with its stop flag, its event limit and the validation of what it
    yields, and [resolve_start] chooses where the stream starts.

    The driver's events are taken as the view the decoder has of them ([Event]); the
    rows of a rows event, the parser of JSONB values, the serialised size of a change
    and the answers of the catalog connection are parameters.  An error ends the
    stream, so the state a failed step leaves is not modelled. *)
From S2P Require Import Prelude Text Utf8 Codec Model Representation Outcome Validate Position LogicalTypes MySource MyType MyRender MyDecode.

Definition MAX_TRANSACTION_BYTES : Z := 64 * 1024 * 1024.

(** [to_ascii_uppercase()] *)
Definition to_upper_byte (c : byte) : byte := if is_ascii_lower c then byte_of (bval c - 32) else c.
Definition to_upper (s : string) : string := of_bytes (to_upper_byte <$> sbytes s).

(** ** Events *)
Record TableMapEvent := mkTableMap {
  tm_table_id : Z;
  tm_database_name : string;
  tm_table_name : string;
  tm_columns_count : Z
}.
Inductive RowsKind :=
| WriteRowsEvent | WriteRowsEventV1
| UpdateRowsEvent | UpdateRowsEventV1 | PartialUpdateRowsEvent
| DeleteRowsEvent | DeleteRowsEventV1.

(** A row of the query of [load_columns]. *)
Record CatalogRow := mkCatalogRow {
  cr_name : string;
  cr_native_type : string;
  cr_data_type : string;
  cr_charset : option string;
  cr_collation : option string;
  cr_expression : string;
  cr_key : option Z
}.
Record TableInfo := mkTableInfo { ti_event : TableMapEvent; ti_columns : list ColumnInfo }.

(** ** The transaction being read *)
Record PendingTransaction := mkPending {
  pt_id : string;
  pt_begin_cursor : SourceCursor;
  pt_began : bool;
  pt_changes : list RowChange;
  pt_bytes : Z
}.
Definition pending_new (id : string) (begin_cursor : SourceCursor) (began : bool) : PendingTransaction :=
  mkPending id begin_cursor began [] 0.

Definition PARTIAL_UPDATE_ROWS_EVENT : Z := 0x27.
Definition TRANSACTION_PAYLOAD_EVENT : Z := 0x28.
Definition XA_PREPARE_LOG_EVENT : Z := 0x26.
Definition GTID_TAGGED_LOG_EVENT : Z := 0x2a.
Definition check_event_type (raw : Z) : io () :=
  if raw =? TRANSACTION_PAYLOAD_EVENT then Err (other "compressed binlog transactions are unsupported; transaction was not emitted")
  else if raw =? PARTIAL_UPDATE_ROWS_EVENT then Err (other "partial JSON updates are unsupported; require binlog_row_value_options=''")
  else if raw =? XA_PREPARE_LOG_EVENT then Err (other "XA transactions are unsupported")
  else if raw =? GTID_TAGGED_LOG_EVENT then Err (other "tagged GTID requires mysql_8_4")
  else Ok ().

Definition transaction_id (sid : list byte) (gno : Z) (tag : option string) : string :=
  let plain := format_gtid sid gno in
  match tag with
  | Some tag =>
      let '(sid, number) := default (plain, ""%string) (rsplit_once ":" plain) in
      sid +:+ ":" +:+ tag +:+ ":" +:+ number
  | None => plain
  end.

(** ** Statements *)
Definition is_begin (statement : string) : bool :=
  bool_decide (statement = "BEGIN"%string) || Validate.is_some (strip_prefix "BEGIN " statement).
(** The statements with which a sink on this server creates its control table. *)
Definition control_ddl (statement : string) : bool :=
  bool_decide (statement = "CREATE DATABASE IF NOT EXISTS CDC"%string)
  || Validate.is_some (strip_prefix "CREATE TABLE IF NOT EXISTS CDC.LOG_INFO (" statement)
  || bool_decide (statement ∈
       ["ALTER TABLE CDC.LOG_INFO ADD COLUMN PHASE VARCHAR(16) NOT NULL DEFAULT 'INCREMENTAL'";
        "ALTER TABLE CDC.LOG_INFO ADD COLUMN SNAPSHOT_ROWS BIGINT UNSIGNED NOT NULL DEFAULT 0";
        "ALTER TABLE CDC.LOG_INFO ADD COLUMN SNAPSHOT_GTIDS LONGTEXT CHARACTER SET ASCII"]%string).

Section capture.
Context `{B64 : Base64, SHA : Sha256}.
Context (evidence_json : string → string → option string → option string → LogicalType → gmap string string → list byte)
        (mapping_json : SourceTypeMapping → list byte).
Context {Jsonb : Type} (parse_jsonb : Jsonb → option JsonDom).
Notation BinlogRow := (list (string * option (@BinlogValue Jsonb))).
(** The payload of a rows event, and the driver's iterator over its images. *)
Context {Rows : Type} (rows_of : Rows → TableMapEvent → list (option (option BinlogRow * option BinlogRow))).
(** [serde_json::to_vec(&change)?.len()] *)
Context (change_size : RowChange → Z).

Inductive EventData :=
| RotateEvent (name : string) (position : Z)
| TableMap (table : TableMapEvent)
| GtidEvent (sid : list byte) (gno : Z) (tag : option string)
| AnonymousGtidEvent
| QueryEvent (query : string)
| RowsEvent (kind : RowsKind) (table_id : Z) (rows : Rows)
| XidEvent
| HeartbeatEvent | FormatDescriptionEvent | PreviousGtidsEvent | StopEvent
| RowsQueryEvent | IgnorableEvent
| OtherEvent.

(** An event with what [read_data] makes of it: an error, an unknown event or data. *)
Record Event := mkEvent {
  ev_type : Z;
  ev_log_pos : Z;
  ev_timestamp : Z;
  ev_data : option (option EventData)
}.
(** What the catalog connection answers when the event is handled. *)
Definition Catalog : Type := string → string → io (list CatalogRow).

Record Decoder := mkDecoder {
  dc_current_file : string;
  dc_source : Source;
  dc_tables : gmap Z TableInfo;
  dc_pending : option PendingTransaction;
  dc_reject_statements : bool;
  dc_capture_tables : list (string * string)
}.
Definition decoder_new (current_file version server_uuid : string) : Decoder :=
  mkDecoder current_file (mkSource "mysql" version server_uuid) ∅ None true [].
Definition with_pending (p : option PendingTransaction) (d : Decoder) : Decoder :=
  mkDecoder (dc_current_file d) (dc_source d) (dc_tables d) p (dc_reject_statements d) (dc_capture_tables d).
Definition with_tables (t : gmap Z TableInfo) (d : Decoder) : Decoder :=
  mkDecoder (dc_current_file d) (dc_source d) t (dc_pending d) (dc_reject_statements d) (dc_capture_tables d).
Definition rotated (file : string) (d : Decoder) : Decoder :=
  mkDecoder file (dc_source d) ∅ None (dc_reject_statements d) (dc_capture_tables d).

(** ** Table maps *)
Definition column_info (row : CatalogRow) : ColumnInfo :=
  mkInfo (cr_name row) (cr_native_type row) (cr_data_type row) (cr_charset row) (cr_collation row)
    (negb (sempty (cr_expression row))) ((λ ordinal, wrap_u 64 (ordinal - 1)) <$> cr_key row).
Definition load_columns (catalog : Catalog) (schema table : string) : io (list ColumnInfo) :=
  let? rows := catalog schema table in
  let columns := column_info <$> rows in
  each (λ info, let? _ := column_type evidence_json mapping_json info in Ok ()) columns ;?
  Ok columns.

Definition captured (d : Decoder) (schema table : string) : bool :=
  lempty (dc_capture_tables d) || bool_decide ((schema, table) ∈ dc_capture_tables d).
Definition store_table_map (catalog : Catalog) (d : Decoder) (table : TableMapEvent) : io Decoder :=
  let schema := tm_database_name table in
  let name := tm_table_name table in
  if negb (captured d schema name) then
    Ok (with_tables (<[tm_table_id table := mkTableInfo table []]> (dc_tables d)) d)
  else
    let? columns := load_columns catalog schema name in
    if negb (Z.of_nat (length columns) =? tm_columns_count table)
    then Err (other "cannot construct ChangeEvent: TABLE_MAP and INFORMATION_SCHEMA disagree")
    else Ok (with_tables (<[tm_table_id table := mkTableInfo table columns]> (dc_tables d)) d).

(** ** Transactions *)
Definition start_transaction (d : Decoder) (id : string) (cursor : SourceCursor) : io Decoder :=
  match dc_pending d with
  | Some _ => Err (other "a new GTID arrived before the previous transaction committed")
  | None => Ok (with_pending (Some (pending_new id cursor false)) d)
  end.

Definition finish_transaction (d : Decoder) (cursor : SourceCursor) : io (Decoder * option ChangeTransaction) :=
  match dc_pending d with
  | None => Ok (d, None)
  | Some p =>
      if negb (pt_began p) then Err (other "commit without BEGIN")
      else if lempty (pt_changes p) && lempty (dc_capture_tables d) then Ok (with_pending None d, None)
      else Ok (with_pending None d,
               Some (mkTransaction (dc_source d) (pt_id p) (pt_begin_cursor p) cursor (pt_changes p)))
  end.

Definition push (p : PendingTransaction) (change : RowChange) (byte_limit : Z) : io PendingTransaction :=
  if negb (pt_began p) then Err (other "row before BEGIN; start at a transaction boundary") else
  let size := change_size change in
  if Z.max 0 (byte_limit - pt_bytes p) <? size
  then Err (other "transaction exceeds buffer limit; no events from it were emitted")
  else Ok (mkPending (pt_id p) (pt_begin_cursor p) (pt_began p) (pt_changes p ++ [change]) (pt_bytes p + size)).
Fixpoint push_all (p : PendingTransaction) (changes : list RowChange) : io PendingTransaction :=
  match changes with
  | [] => Ok p
  | change :: changes => let? p := push p change MAX_TRANSACTION_BYTES in push_all p changes
  end.

Definition handle_query (d : Decoder) (query : string) (cursor : SourceCursor) : io (Decoder * option ChangeTransaction) :=
  let statement := to_upper (trim query) in
  if is_begin statement then
    match dc_pending d with
    | None => Ok (with_pending (Some (pending_new ("anonymous:" +:+ cur_display cursor) cursor true)) d, None)
    | Some p =>
        if pt_began p then Err (other "nested BEGIN in MySQL transaction")
        else Ok (with_pending (Some (mkPending (pt_id p) cursor true (pt_changes p) (pt_bytes p))) d, None)
    end
  else if bool_decide (statement = "COMMIT"%string) then finish_transaction d cursor
  else if bool_decide (statement = "ROLLBACK"%string) then Ok (with_pending None d, None)
  else
    let control := control_ddl statement in
    if dc_reject_statements d && negb control
    then Err (other "DDL or statement event; only row changes are supported")
    else if control && negb (lempty (dc_capture_tables d)) then
      let began := (λ p, mkPending (pt_id p) (pt_begin_cursor p) true (pt_changes p) (pt_bytes p)) <$> dc_pending d in
      finish_transaction (with_pending began d) cursor
    else
      match dc_pending d with
      | Some p => if lempty (pt_changes p) then Ok (with_pending None d, None) else Ok (d, None)
      | None => Ok (d, None)
      end.

(** ** Rows *)
Definition operation_of (kind : RowsKind) : Operation :=
  match kind with
  | WriteRowsEvent | WriteRowsEventV1 => Insert
  | UpdateRowsEvent | UpdateRowsEventV1 | PartialUpdateRowsEvent => Update
  | DeleteRowsEvent | DeleteRowsEventV1 => Delete
  end.
Definition decode_image (columns : list ColumnInfo) (image : option BinlogRow) : io (option (list ColumnDatum)) :=
  match image with
  | None => Ok None
  | Some row => let? image := decode_row evidence_json mapping_json parse_jsonb row columns in Ok (Some image)
  end.
Definition decode_change (kind : RowsKind) (table : TableInfo) (cursor : SourceCursor) (timestamp : Z)
    (images : option (option BinlogRow * option BinlogRow)) : io RowChange :=
  let? images := ok_or invalid_data images in
  let? before := decode_image (ti_columns table) images.1 in
  let? after := decode_image (ti_columns table) images.2 in
  Ok (mkChange None (operation_of kind) (tm_database_name (ti_event table)) (tm_table_name (ti_event table)) cursor
        timestamp "information_schema_at_capture" before after).

(** The changes of a rows event, or none for a table that is not captured. *)
Definition row_changes (d : Decoder) (kind : RowsKind) (table_id : Z) (rows : Rows) (cursor : SourceCursor) (timestamp : Z) :
    io (option (list RowChange)) :=
  let? table := ok_or (other "row event refers to unknown TABLE_MAP id") (dc_tables d !! table_id) in
  if lempty (ti_columns table) && negb (lempty (dc_capture_tables d)) then Ok None else
  let? changes := mapM (decode_change kind table cursor timestamp) (rows_of rows (ti_event table)) in
  Ok (Some changes).
Definition handle_rows (d : Decoder) (kind : RowsKind) (table_id : Z) (rows : Rows) (cursor : SourceCursor) (timestamp : Z) :
    io Decoder :=
  let? changes := row_changes d kind table_id rows cursor timestamp in
  match changes with
  | None => Ok d
  | Some changes =>
      match dc_pending d with
      | None => Err (other "row event arrived without a GTID/BEGIN; resume from a transaction boundary")
      | Some p =>
          if negb (pt_began p) then Err (other "row event arrived before BEGIN; resume from a transaction boundary") else
          let? p := push_all p changes in Ok (with_pending (Some p) d)
      end
  end.

(** ** Events *)
Definition decode (catalog : Catalog) (d : Decoder) (event : Event) : io (Decoder * option ChangeTransaction) :=
  check_event_type (ev_type event) ;?
  let cursor := Capture.cursor (dc_current_file d) (ev_log_pos event) in
  let quiet := λ m : io Decoder, let? d := m in Ok (d, None : option ChangeTransaction) in
  match ev_data event with
  | None => Err invalid_data
  | Some None => Err (other "unknown binlog event; capture stopped")
  | Some (Some data) =>
      match data with
      | RotateEvent name _ =>
          if Validate.is_some (dc_pending d)
          then Err (other "binlog rotated with an uncommitted transaction in the buffer")
          else Ok (rotated name d, None)
      | TableMap table => quiet (store_table_map catalog d table)
      | GtidEvent sid gno tag => quiet (start_transaction d (transaction_id sid gno tag) cursor)
      | AnonymousGtidEvent => quiet (start_transaction d ("anonymous:" +:+ cur_display cursor) cursor)
      | QueryEvent query => handle_query d query cursor
      | RowsEvent kind table_id rows => quiet (handle_rows d kind table_id rows cursor (ev_timestamp event))
      | XidEvent => finish_transaction d cursor
      | HeartbeatEvent | FormatDescriptionEvent | PreviousGtidsEvent | StopEvent | RowsQueryEvent | IgnorableEvent =>
          Ok (d, None)
      | OtherEvent => Err (other "unsupported 8.0 binlog event")
      end
  end.

Definition ensure_complete (d : Decoder) : io () :=
  if Validate.is_some (dc_pending d)
  then Err (other "stream ended inside a transaction; no partial transaction was emitted") else Ok ().

(** ** The stream *)
Record BinlogPosition := mkPosition { bp_file : string; bp_position : Z }.
Inductive BinlogStartMode := StartAuto | StartGtid | StartPosition.
#[local] Instance BinlogStartMode_eq_dec : EqDecision BinlogStartMode.
Proof. solve_decision. Defined.

Record BinlogStream := mkStream {
  bs_decoder : Decoder;
  bs_source : Source;
  bs_start : BinlogPosition;
  bs_start_mode : BinlogStartMode;
  bs_count : Z;
  bs_max_events : option Z;
  bs_raw_file : string;
  bs_raw_position : Z;
  bs_ended : bool;
  bs_start_gtid_set : option string
}.
Definition with_ended (s : BinlogStream) : BinlogStream :=
  mkStream (bs_decoder s) (bs_source s) (bs_start s) (bs_start_mode s) (bs_count s) (bs_max_events s) (bs_raw_file s)
    (bs_raw_position s) true (bs_start_gtid_set s).
Definition with_decoder (d : Decoder) (s : BinlogStream) : BinlogStream :=
  mkStream d (bs_source s) (bs_start s) (bs_start_mode s) (bs_count s) (bs_max_events s) (bs_raw_file s)
    (bs_raw_position s) (bs_ended s) (bs_start_gtid_set s).
Definition counted (s : BinlogStream) : BinlogStream :=
  mkStream (bs_decoder s) (bs_source s) (bs_start s) (bs_start_mode s) (bs_count s + 1) (bs_max_events s) (bs_raw_file s)
    (bs_raw_position s) (bs_ended s) (bs_start_gtid_set s).
Definition with_raw (file : string) (position : Z) (s : BinlogStream) : BinlogStream :=
  mkStream (bs_decoder s) (bs_source s) (bs_start s) (bs_start_mode s) (bs_count s) (bs_max_events s) file
    position (bs_ended s) (bs_start_gtid_set s).

(** One turn of the loop as the outside answers it: the stop flag, the driver's next
    event with the catalog at that time, the stop flag again after an error of the
    driver, and the write of the raw log. *)
Inductive Native :=
| NativeEnd
| NativeError (cause : IoCause)
| NativeEvent (event : Event) (catalog : Catalog).
Record Turn := mkTurn {
  tn_stop : bool;
  tn_native : Native;
  tn_stop_after : bool;
  tn_log : io ()
}.

(** The position of the raw log after an event; its lines are not modelled. *)
Definition log_raw_event (s : BinlogStream) (event : Event) (written : io ()) : io BinlogStream :=
  written ;?
  Ok (match ev_data event with
      | Some (Some (RotateEvent file position)) => with_raw file position s
      | _ => if ev_log_pos event =? 0 then s else with_raw (bs_raw_file s) (ev_log_pos event) s
      end).

Definition validate_change_event (tx : ChangeTransaction) : io ValidatedTransaction :=
  match Validate.validate tx with
  | Err _ => Err (other "ChangeEvent validation")
  | Ok validated =>
      match validate_source validated V80 with
      | Err message => Err (other message)
      | Ok _ => Ok validated
      end
  end.

(** What a call of [next] comes to: an item with the turns that are left, or the
    stream still waiting for the source when they are used up. *)
Inductive Polled :=
| Item (item : option (io ChangeTransaction)) (s : BinlogStream) (rest : list Turn)
| Waiting (s : BinlogStream).

Definition final_item (d : Decoder) : option (io ChangeTransaction) :=
  match ensure_complete d with Err error => Some (Err error) | Ok _ => None end.

Fixpoint next_loop (s : BinlogStream) (turns : list Turn) : Polled :=
  match turns with
  | [] => Waiting s
  | turn :: rest =>
      if tn_stop turn then Item None (with_ended s) rest
      else if match bs_max_events s with Some limit => limit <=? bs_count s | None => false end
      then Item (final_item (bs_decoder s)) (with_ended s) rest
      else
        match tn_native turn with
        | NativeEnd => Item (final_item (bs_decoder s)) (with_ended s) rest
        | NativeError cause =>
            Item (if tn_stop_after turn then None else Some (Err (other_cause cause))) (with_ended s) rest
        | NativeEvent event catalog =>
            let s := counted s in
            match log_raw_event s event (tn_log turn) with
            | Err error => Item (Some (Err error)) (with_ended s) rest
            | Ok s =>
                match decode catalog (bs_decoder s) event with
                | Ok (d, Some tx) =>
                    let s := with_decoder d s in
                    if lempty (tx_changes tx) then Item (Some (Ok tx)) s rest else
                    match validate_change_event tx with
                    | Ok validated => Item (Some (Ok (vt_transaction validated))) s rest
                    | Err error => Item (Some (Err error)) (with_ended s) rest
                    end
                | Ok (d, None) => next_loop (with_decoder d s) rest
                | Err error => Item (Some (Err error)) (with_ended s) rest
                end
            end
        end
  end.
Definition next (s : BinlogStream) (turns : list Turn) : Polled :=
  if bs_ended s then Item None s turns else next_loop s turns.

(** [next_change_event]: the next transaction with changes. *)
Inductive PolledChange :=
| Change (event : io (option ValidatedTransaction)) (s : BinlogStream) (rest : list Turn)
| WaitingChange (s : BinlogStream).
(** Every turn of this loop uses up a turn of the source, or ends it. *)
Fixpoint next_change_loop (fuel : nat) (s : BinlogStream) (turns : list Turn) : PolledChange :=
  match fuel with
  | O => WaitingChange s
  | S fuel =>
      match next s turns with
      | Waiting s => WaitingChange s
      | Item None s rest => Change (Ok None) s rest
      | Item (Some (Err error)) s rest => Change (Err error) s rest
      | Item (Some (Ok tx)) s rest =>
          if lempty (tx_changes tx) then next_change_loop fuel s rest
          else Change (let? v := validate_change_event tx in Ok (Some v)) s rest
      end
  end.
Definition next_change_event (s : BinlogStream) (turns : list Turn) : PolledChange :=
  next_change_loop (S (length turns)) s turns.

(** ** Where the stream starts *)
Definition gtid_mode_enabled (value : string) : bool := eq_ignore_case value "ON" || eq_ignore_case value "ON_PERMISSIVE".

(** [Sid::from_str] of the driver. *)
Context {Sid : Type} (parse_sid : string → option Sid).
Definition parse_gtid_set (value : string) : io (list Sid) :=
  if blank value then Ok [] else
  mapM (λ sid, ok_or (other "invalid GTID set entry") (parse_sid sid))
    (filter (λ sid, sempty sid = false) (trim <$> split "," value)).

Definition resolve_start (requested_mode : BinlogStartMode) (requested_position : option BinlogPosition)
    (requested_gtid : option string) (current_position : BinlogPosition) (gtid_mode executed_gtids : string) :
    io (BinlogStartMode * BinlogPosition * list Sid) :=
  match requested_mode with
  | StartPosition => Ok (StartPosition, default current_position requested_position, [])
  | StartGtid =>
      if negb (gtid_mode_enabled gtid_mode) then Err (other "GTID start requested but source GTID_MODE is off") else
      let? sids := parse_gtid_set (default executed_gtids requested_gtid) in
      Ok (StartGtid, current_position, sids)
  | StartAuto =>
      match requested_position with
      | Some position => Ok (StartPosition, position, [])
      | None =>
          if gtid_mode_enabled gtid_mode then
            let? sids := parse_gtid_set (default executed_gtids requested_gtid) in
            Ok (StartGtid, current_position, sids)
          else Ok (StartPosition, current_position, [])
      end
  end.

Record BinlogConfig := mkBinlogConfig {
  bc_server_id : Z;
  bc_start_mode : BinlogStartMode;
  bc_start : option BinlogPosition;
  bc_gtid_set : option string;
  bc_non_blocking : bool;
  bc_max_events : option Z;
  bc_reject_statements : bool;
  bc_tables : list (string * string)
}.
Definition check_config (config : BinlogConfig) : io () :=
  if (bc_server_id config =? 0) || bool_decide (bc_max_events config = Some 0)
  then Err (other "server_id and max_events must be greater than zero")
  else if match bc_start config with
          | Some p => sempty (bp_file p) || (bp_position p <? 4) || (u32_max <? bp_position p)
          | None => false
          end
  then Err (other "invalid binlog file/position")
  else if Validate.is_some (bc_start config) && Validate.is_some (bc_gtid_set config)
  then Err (other "binlog position and GTID set are mutually exclusive")
  else if bool_decide (bc_start_mode config = StartGtid) && Validate.is_some (bc_start config)
  then Err (other "GTID start mode cannot be combined with binlog file/position")
  else if bool_decide (bc_start_mode config = StartPosition) && Validate.is_some (bc_gtid_set config)
  then Err (other "position start mode cannot be combined with a GTID set")
  else Ok ().

(** The answers of the preflight queries. *)
Record Preflight := mkPreflight {
  pf_version : string;
  pf_log_bin : Z;
  pf_format : string;
  pf_image : string;
  pf_server_uuid : string;
  pf_modes : list (string * string);
  pf_position : BinlogPosition;
  pf_executed_gtids : string;
  pf_gtid_mode : string
}.
Definition unsupported_mode (mode : string * string) : bool :=
  bool_decide (mode.1 = "binlog_row_value_options"%string) && negb (sempty mode.2)
  || bool_decide (mode = ("binlog_transaction_compression", "ON")%string).
Definition check_preflight (answers : Preflight) : io () :=
  if negb (Validate.is_some (strip_prefix "8.0." (pf_version answers)))
  then Err (other "mysql_8_0 requires MySQL 8.0")
  else if negb (pf_log_bin answers =? 1) || negb (bool_decide (pf_format answers = "ROW"%string))
          || negb (bool_decide (pf_image answers = "FULL"%string))
  then Err (other "mysql_8_0 requires log_bin=ON, binlog_format=ROW, binlog_row_image=FULL")
  else if existsb unsupported_mode (pf_modes answers)
  then Err (other "mysql_8_0 currently requires full JSON images and uncompressed transactions")
  else Ok ().

(** [binlog(config)]: the checks, and the stream from the point they choose; the GTID
    sets go to the driver's request. *)
Definition binlog (config : BinlogConfig) (answers : Preflight) : io (BinlogStream * list Sid) :=
  check_config config ;?
  check_preflight answers ;?
  let? resolved := resolve_start (bc_start_mode config) (bc_start config) (bc_gtid_set config) (pf_position answers)
                     (pf_gtid_mode answers) (pf_executed_gtids answers) in
  let '(start_mode, start, sids) := resolved in
  let start_gtid_set :=
    if bool_decide (start_mode = StartGtid) then Some (default (pf_executed_gtids answers) (bc_gtid_set config)) else None in
  let d := decoder_new (bp_file start) (pf_version answers) (pf_server_uuid answers) in
  let d := mkDecoder (dc_current_file d) (dc_source d) (dc_tables d) (dc_pending d) (bc_reject_statements config)
             (bc_tables config) in
  Ok (mkStream d (mkSource "mysql" (pf_version answers) (pf_server_uuid answers)) start start_mode 0
        (bc_max_events config) (bp_file start) (bp_position start) false start_gtid_set, sids).
End capture.
