(* ===== verification/MyBinlogSpec.v ===== *)
(** * What the binlog capture publishes

    The decoder of MyBinlog.v, run over any sequence of events: what it publishes at a
    commit is exactly the row changes since BEGIN, in order, and the stream over it
    yields nothing unvalidated, ends once, and never yields a part of a transaction. *)
From S2P Require Import Prelude Text Utf8 Codec Model Representation Outcome Validate Position LogicalTypes MySource MyType MyRender MyDecode MyBinlog.

Module Spec.
Section capture.
Context `{B64 : Base64, SHA : Sha256}.
Context (evidence_json : string → string → option string → option string → LogicalType → gmap string string → list byte)
        (mapping_json : SourceTypeMapping → list byte).
Context {Jsonb : Type} (parse_jsonb : Jsonb → option JsonDom).
Context {Rows : Type}
  (rows_of : Rows → TableMapEvent →
             list (option (option (list (string * option (@BinlogValue Jsonb))) * option (list (string * option (@BinlogValue Jsonb)))))).
Context (change_size : RowChange → Z).

Notation Event := (@Event Rows).
Notation step := (decode evidence_json mapping_json parse_jsonb rows_of change_size).
Notation rows_changes := (row_changes evidence_json mapping_json parse_jsonb rows_of).

(** An event with the catalog the decoder would ask. *)
Definition Arrival : Type := Catalog * Event.

(** The decoder over a sequence of events, and what it publishes. *)
Fixpoint run (d : Decoder) (arrivals : list Arrival) : io (Decoder * list ChangeTransaction) :=
  match arrivals with
  | [] => Ok (d, [])
  | a :: arrivals =>
      let? r := step a.1 d a.2 in
      let? rest := run r.1 arrivals in
      Ok (rest.1, option_list r.2 ++ rest.2)
  end.

Definition cursor_of (d : Decoder) (event : Event) : SourceCursor := Capture.cursor (dc_current_file d) (ev_log_pos event).
Definition statement (query : string) : string := to_upper (trim query).

(** Events that start, end or move a transaction. *)
Definition boundary (d : Decoder) (event : Event) : bool :=
  match ev_data event with
  | Some (Some (RotateEvent _ _ | GtidEvent _ _ _ | AnonymousGtidEvent | XidEvent)) => true
  | Some (Some (QueryEvent query)) =>
      let s := statement query in
      is_begin s || bool_decide (s ∈ ["COMMIT"; "ROLLBACK"]%string) || control_ddl s && negb (lempty (dc_capture_tables d))
  | _ => false
  end.
Definition begins (event : Event) : bool :=
  match ev_data event with Some (Some (QueryEvent query)) => is_begin (statement query) | _ => false end.

(** The row changes an event adds. *)
Definition contribution (d : Decoder) (event : Event) : list RowChange :=
  match ev_data event with
  | Some (Some (RowsEvent kind table_id rows)) =>
      match rows_changes d kind table_id rows (cursor_of d event) (ev_timestamp event) with
      | Ok (Some changes) => changes
      | _ => []
      end
  | _ => []
  end.
(** Those of a sequence of events, each in the state it meets. *)
Fixpoint contributions (d : Decoder) (arrivals : list Arrival) : list RowChange :=
  match arrivals with
  | [] => []
  | a :: arrivals =>
      contribution d a.2
      ++ match step a.1 d a.2 with Ok (d, _) => contributions d arrivals | Err _ => [] end
  end.
Definition total_size (changes : list RowChange) : Z := foldr (λ c n, change_size c + n) 0 changes.

Lemma total_size_app a b : total_size (a ++ b) = total_size a + total_size b.
Proof. unfold total_size. induction a as [|c a IH]; cbn [app foldr]; [done|]. rewrite IH. lia. Qed.

Lemma push_all_ok p changes q :
  push_all change_size p changes = Ok q →
  pt_bytes p ≤ MAX_TRANSACTION_BYTES →
  q = mkPending (pt_id p) (pt_begin_cursor p) (pt_began p) (pt_changes p ++ changes) (pt_bytes p + total_size changes)
  ∧ pt_bytes q ≤ MAX_TRANSACTION_BYTES.
Proof.
  revert p. induction changes as [|c changes IH]; intros p; cbn [push_all].
  - intros [= <-] Hp. split; [|done]. destruct p; cbn. by rewrite app_nil_r, Z.add_0_r.
  - intros H Hp. apply bind_ok in H as (p' & Hpush & H). unfold push in Hpush.
    destruct (pt_began p) eqn:Eb; [|done]. cbn [negb] in Hpush. case_match eqn:Es; [done|]. apply Z.ltb_ge in Es.
    injection Hpush as <-. apply IH in H as [-> Hq]; cbn in *; [|lia]. split; [|done].
    by rewrite <- app_assoc, <- Z.add_assoc.
Qed.

(** The parts of the decoder an event inside a transaction leaves alone. *)
Definition same_frame (d d' : Decoder) : Prop :=
  dc_current_file d' = dc_current_file d ∧ dc_source d' = dc_source d
  ∧ dc_reject_statements d' = dc_reject_statements d ∧ dc_capture_tables d' = dc_capture_tables d.

(** The transaction [id] begun at [begin_cursor] with the changes so far; a
    statement before any change closes it. *)
Definition gathering (id : string) (begin_cursor : SourceCursor) (changes : list RowChange) (d : Decoder) : Prop :=
  dc_pending d = Some (mkPending id begin_cursor true changes (total_size changes))
  ∧ total_size changes ≤ MAX_TRANSACTION_BYTES
  ∨ dc_pending d = None ∧ changes = [].

Lemma store_table_map_frame catalog d table d' :
  store_table_map evidence_json mapping_json catalog d table = Ok d' → same_frame d d' ∧ dc_pending d' = dc_pending d.
Proof.
  unfold store_table_map. destruct (captured _ _ _); cbn [negb].
  - intros H. apply bind_ok in H as (cols & _ & H). case_match; [done|]. by injection H as <-.
  - by intros [= <-].
Qed.

(** An event inside a transaction adds its contribution and publishes nothing. *)
Lemma inside_step id begin_cursor changes d catalog event d' out :
  gathering id begin_cursor changes d → boundary d event = false → step catalog d event = Ok (d', out) →
  out = None ∧ same_frame d d' ∧ gathering id begin_cursor (changes ++ contribution d event) d'.
Proof.
  intros Hg Hb H. unfold decode in H. apply bind_ok in H as ([] & _ & H).
  unfold contribution. unfold boundary in Hb.
  destruct (ev_data event) as [[data|]|]; [|done|done].
  assert (same_frame d d) as Hrefl by done.
  destruct data as [| | | |query|kind table_id rows| | | | | | | |]; try done;
    try by (injection H as <- <-; rewrite app_nil_r).
  - apply bind_ok in H as (d1 & Ht & [= <- <-]). apply store_table_map_frame in Ht as [Hf Hp].
    split_and!; [done|done|]. rewrite app_nil_r. unfold gathering. by rewrite Hp.
  - unfold handle_query in H. fold (statement query) in H.
    apply orb_false_iff in Hb as [Hb Hc]. apply orb_false_iff in Hb as [Hb Hs]. apply bool_decide_eq_false in Hs.
    rewrite Hb in H. rewrite bool_decide_eq_false_2 in H by set_solver. rewrite bool_decide_eq_false_2 in H by set_solver.
    cbv zeta in H. rewrite Hc in H. case_match; [done|]. rewrite app_nil_r.
    destruct Hg as [[Ep Hsz]|[Ep ->]]; rewrite Ep in H; [|by injection H as <- <-; split_and!; [done|done|right]].
    cbn in H. destruct changes as [|c changes]; cbn in H; injection H as <- <-; (split_and!; [done|done|]).
    + right. done.
    + left. by rewrite Ep.
  - apply bind_ok in H as (d1 & Hh & [= <- <-]). unfold handle_rows in Hh. apply bind_ok in Hh as (cs & Hcs & Hh).
    unfold cursor_of. rewrite Hcs. destruct cs as [cs|]; [|by injection Hh as <-; rewrite app_nil_r].
    destruct Hg as [[Ep Hsz]|[Ep _]]; rewrite Ep in Hh; [|done]. cbn in Hh.
    apply bind_ok in Hh as (q & Hq & [= <-]). apply push_all_ok in Hq as [-> Hm]; [|done]. cbn in *.
    split_and!; [done|done|]. left. rewrite total_size_app. done.
Qed.

Lemma same_frame_trans a b c : same_frame a b → same_frame b c → same_frame a c.
Proof. intros (?&?&?&?) (?&?&?&?). split_and!; congruence. Qed.
Lemma boundary_frame d d' event : same_frame d d' → boundary d' event = boundary d event.
Proof. intros (_ & _ & _ & H). unfold boundary. by rewrite H. Qed.

Lemma run_app d a b :
  run d (a ++ b) = (let? r := run d a in let? s := run r.1 b in Ok (s.1, r.2 ++ s.2)).
Proof.
  revert d. induction a as [|x a IH]; intros d; cbn; [by destruct (run d b) as [[]|]|].
  destruct (step x.1 d x.2) as [[d1 o]|]; cbn; [|done]. rewrite IH.
  destruct (run d1 a) as [[d2 l]|]; cbn; [|done]. destruct (run d2 b) as [[d3 k]|]; cbn; [|done]. by rewrite app_assoc.
Qed.
Lemma run_snoc d pre a d' outs :
  run d (pre ++ [a]) = Ok (d', outs) →
  ∃ d1 l out, run d pre = Ok (d1, l) ∧ step a.1 d1 a.2 = Ok (d', out) ∧ outs = l ++ option_list out.
Proof.
  rewrite run_app. intros H. apply bind_ok in H as ([d1 l] & Hr & H). apply bind_ok in H as ([d2 k] & Hs & [= <- <-]).
  cbn in Hs. apply bind_ok in Hs as ([d3 o] & Hs & [= <- <-]). exists d1, l, o. cbn. by rewrite app_nil_r.
Qed.

(** Events inside a transaction, in a row. *)
Lemma inside_run id begin_cursor changes d mid d' outs :
  gathering id begin_cursor changes d → Forall (λ a, boundary d a.2 = false) mid → run d mid = Ok (d', outs) →
  outs = [] ∧ same_frame d d' ∧ gathering id begin_cursor (changes ++ contributions d mid) d'.
Proof.
  revert d changes outs. induction mid as [|a mid IH]; intros d changes outs Hg Hb H; cbn in *.
  { injection H as <- <-. by rewrite app_nil_r. }
  inversion_clear Hb as [|? ? Ha Hmid]. apply bind_ok in H as ([d1 o] & Hs & H).
  apply bind_ok in H as ([d2 l] & Hr & [= <- <-]). rewrite Hs. cbn in *.
  destruct (inside_step _ _ _ _ _ _ _ _ Hg Ha Hs) as (-> & Hf & Hg1).
  assert (Forall (λ a, boundary d1 a.2 = false) mid) as Hmid1.
  { eapply Forall_impl; [exact Hmid|]. intros x Hx. by rewrite (boundary_frame _ _ _ Hf). }
  destruct (IH d1 _ l Hg1 Hmid1 Hr) as (-> & Hf2 & Hg2). split_and!; [done|by eapply same_frame_trans|].
  by rewrite app_assoc.
Qed.

(** A transaction is announced before it begins: no change before BEGIN. *)
Definition sound (d : Decoder) : Prop :=
  match dc_pending d with
  | Some p => pt_began p = false → p = pending_new (pt_id p) (pt_begin_cursor p) false
  | None => True
  end.

Definition begun_id (d : Decoder) (event : Event) : string :=
  match dc_pending d with
  | Some p => pt_id p
  | None => "anonymous:" +:+ cur_display (cursor_of d event)
  end.

Lemma begin_step d catalog event d1 out :
  sound d → begins event = true → step catalog d event = Ok (d1, out) →
  out = None ∧ same_frame d d1 ∧ gathering (begun_id d event) (cursor_of d event) [] d1.
Proof.
  intros Hw Hb H. unfold decode in H. apply bind_ok in H as ([] & _ & H). unfold begins in Hb.
  destruct (ev_data event) as [[data|]|]; [|done|done]. destruct data as [| | | |query| | | | | | | | |]; try done.
  unfold handle_query in H. fold (statement query) in H. rewrite Hb in H. unfold sound in Hw. unfold begun_id, gathering.
  destruct (dc_pending d) as [p|] eqn:Ep.
  - destruct (pt_began p) eqn:Eb; [done|]. injection H as <- <-. rewrite Hw by done. cbn.
    split_and!; [done|done|left; split; [done|cbn; unfold MAX_TRANSACTION_BYTES; lia]].
  - injection H as <- <-. split_and!; [done|done|left; split; [done|cbn; unfold MAX_TRANSACTION_BYTES; lia]].
Qed.

(** The transaction of [mid] between its BEGIN and its commit. *)
Definition transaction_of (id : string) (d : Decoder) (begin : Event) (d1 : Decoder) (mid : list Arrival) (d2 : Decoder)
    (commit : Event) : ChangeTransaction :=
  mkTransaction (dc_source d) id (cursor_of d begin) (cursor_of d2 commit) (contributions d1 mid).

(** ** Every transaction is published whole *)
Definition commits (event : Event) : bool :=
  match ev_data event with
  | Some (Some XidEvent) => true
  | Some (Some (QueryEvent query)) => bool_decide (statement query = "COMMIT"%string)
  | _ => false
  end.

Lemma commit_step d catalog event :
  check_event_type (ev_type event) = Ok () → commits event = true → step catalog d event = finish_transaction d (cursor_of d event).
Proof.
  intros Ht Hc. unfold decode. rewrite Ht. cbn. unfold commits in Hc. destruct (ev_data event) as [[data|]|]; [|done|done].
  destruct data as [| | | |query| | | | | | | | |]; try done.
  apply bool_decide_eq_true in Hc. unfold handle_query. fold (statement query). rewrite Hc. done.
Qed.

(** Whatever happens between BEGIN and the commit, nothing is published before the
    commit, and the commit publishes exactly the row changes of the events between
    them, in order, under the id announced, with the cursors of BEGIN and commit; a
    transaction over the size limit never gets there. *)
Theorem transaction_published (d d1 d2 : Decoder) (catalog : Catalog) (begin : Event) (mid : list Arrival)
    (out : option ChangeTransaction) (outs : list ChangeTransaction) :
  sound d → begins begin = true → step catalog d begin = Ok (d1, out) →
  Forall (λ a, boundary d1 a.2 = false) mid → run d1 mid = Ok (d2, outs) →
  out = None ∧ outs = [] ∧ total_size (contributions d1 mid) ≤ MAX_TRANSACTION_BYTES
  ∧ ∀ catalog' commit, check_event_type (ev_type commit) = Ok () → commits commit = true → contributions d1 mid ≠ [] →
      step catalog' d2 commit
      = Ok (with_pending None d2, Some (transaction_of (begun_id d begin) d begin d1 mid d2 commit)).
Proof.
  intros Hw Hb H Hmid Hr. destruct (begin_step _ _ _ _ _ Hw Hb H) as (-> & Hf & Hg).
  destruct (inside_run _ _ _ _ _ _ _ Hg Hmid Hr) as (-> & Hf2 & Hg2). rewrite app_nil_l in Hg2.
  assert (total_size (contributions d1 mid) ≤ MAX_TRANSACTION_BYTES) as Hsz.
  { destruct Hg2 as [[_ ?]|[_ ->]]; [done|]. cbn. unfold MAX_TRANSACTION_BYTES. lia. }
  split_and!; [done..|]. intros catalog' commit Ht Hc Hne. rewrite (commit_step _ _ _ Ht Hc).
  destruct Hg2 as [[Ep _]|[_ ?]]; [|done]. unfold finish_transaction. rewrite Ep. cbn.
  destruct (contributions d1 mid) eqn:E; [done|]. cbn.
  unfold transaction_of. rewrite E. destruct (same_frame_trans _ _ _ Hf Hf2) as (_ & -> & _). done.
Qed.

(** ** Nothing else is published *)

(** The event announces a transaction under [id]. *)
Definition announces (d : Decoder) (event : Event) : option string :=
  match ev_data event with
  | Some (Some (GtidEvent sid gno tag)) => Some (transaction_id sid gno tag)
  | Some (Some AnonymousGtidEvent) => Some ("anonymous:" +:+ cur_display (cursor_of d event))
  | _ => None
  end.
(** [pre] ends with the announcement of [id] and events that bound no transaction. *)
Definition announced (d0 : Decoder) (pre : list Arrival) (id : string) : Prop :=
  ∃ before g noise dg outs,
    pre = before ++ g :: noise ∧ run d0 before = Ok (dg, outs) ∧ announces dg g.2 = Some id
    ∧ Forall (λ a, boundary d0 a.2 = false) noise.
(** [pre] ends with a transaction under way: BEGIN and the events [mid]. *)
Definition under_way (d0 : Decoder) (pre : list Arrival) (id : string) (db : Decoder) (begin : Arrival) (d1 : Decoder)
    (mid : list Arrival) (d : Decoder) : Prop :=
  ∃ before outs,
    pre = before ++ begin :: mid ∧ run d0 before = Ok (db, outs) ∧ begins begin.2 = true
    ∧ step begin.1 db begin.2 = Ok (d1, None) ∧ Forall (λ a, boundary d0 a.2 = false) mid
    ∧ run d1 mid = Ok (d, []) ∧ id = begun_id db begin.2
    ∧ (announced d0 before id ∨ dc_pending db = None).

Definition explained (d0 : Decoder) (pre : list Arrival) (d : Decoder) : Prop :=
  match dc_pending d with
  | None => True
  | Some p =>
      if pt_began p then
        ∃ db begin d1 mid,
          under_way d0 pre (pt_id p) db begin d1 mid d
          ∧ gathering (pt_id p) (cursor_of db begin.2) (contributions d1 mid) d
          ∧ same_frame db d
      else announced d0 pre (pt_id p) ∧ p = pending_new (pt_id p) (pt_begin_cursor p) false
  end.

Lemma contributions_snoc d mid a d' outs :
  run d mid = Ok (d', outs) → contributions d (mid ++ [a]) = contributions d mid ++ contribution d' a.2.
Proof.
  revert d outs. induction mid as [|x mid IH]; intros d outs; cbn.
  - intros [= <- <-]. destruct (step _ _ _) as [[]|]; by rewrite app_nil_r.
  - intros H. apply bind_ok in H as ([d1 o] & Hs & H). apply bind_ok in H as ([d2 l] & Hr & [= <- <-]).
    rewrite Hs. cbn in *. by rewrite (IH _ _ Hr), app_assoc.
Qed.

(** What a step leaves pending, by the kind of event. *)
Lemma step_cases d catalog event d' out :
  step catalog d event = Ok (d', out) →
  dc_capture_tables d' = dc_capture_tables d
  ∧ ((announces d event ≠ None ∧ out = None ∧ dc_pending d = None
      ∧ ∃ id, announces d event = Some id ∧ dc_pending d' = Some (pending_new id (cursor_of d event) false))
     ∨ begins event = true
     ∨ dc_pending d' = None
     ∨ boundary d event = false).
Proof.
  intros H. unfold decode in H. apply bind_ok in H as ([] & _ & H).
  unfold announces, begins, boundary. destruct (ev_data event) as [[data|]|]; [|done|done].
  destruct data as [name ?|table|sid gno tag| |query|kind table_id rows| | | | | | | |]; try done;
    try (injection H as <- <-; naive_solver).
  - case_match; [done|]. injection H as <- <-. naive_solver.
  - apply bind_ok in H as (d1 & Ht & [= <- <-]). apply store_table_map_frame in Ht as [(_ & _ & _ & ->) _]. naive_solver.
  - apply bind_ok in H as (d1 & Ht & [= <- <-]). unfold start_transaction in Ht.
    destruct (dc_pending d); [done|]. injection Ht as <-. naive_solver.
  - apply bind_ok in H as (d1 & Ht & [= <- <-]). unfold start_transaction in Ht.
    destruct (dc_pending d); [done|]. injection Ht as <-. naive_solver.
  - unfold handle_query in H. fold (statement query) in H. destruct (is_begin (statement query)).
    { repeat case_match; simplify_eq; naive_solver. }
    assert (∀ d0 c r, finish_transaction d0 c = Ok r → dc_capture_tables r.1 = dc_capture_tables d0 ∧ dc_pending r.1 = None) as Hfin.
    { intros d0 c r Hr. unfold finish_transaction in Hr. repeat case_match; simplify_eq; done. }
    destruct (bool_decide (statement query = "COMMIT"%string)) eqn:E1; [apply Hfin in H; naive_solver|].
    destruct (bool_decide (statement query = "ROLLBACK"%string)) eqn:E2; [injection H as <- <-; naive_solver|].
    apply bool_decide_eq_false in E1, E2. rewrite bool_decide_eq_false_2 by set_solver. cbn.
    cbv zeta in H. case_match; [done|]. destruct (control_ddl (statement query) && negb (lempty (dc_capture_tables d))) eqn:Ec; [apply Hfin in H; naive_solver|].
    repeat case_match; simplify_eq; naive_solver.
  - apply bind_ok in H as (d1 & Ht & [= <- <-]). unfold handle_rows in Ht. apply bind_ok in Ht as (cs & _ & Ht).
    destruct cs as [cs|]; [|injection Ht as <-; naive_solver]. destruct (dc_pending d) as [p|]; [|done].
    case_match; [done|]. apply bind_ok in Ht as (q & _ & [= <-]). naive_solver.
  - unfold finish_transaction in H. repeat case_match; simplify_eq; naive_solver.
Qed.

(** No rows are taken before BEGIN. *)
Lemma waiting_step d catalog event d' out :
  match dc_pending d with Some p => pt_began p = false | None => True end →
  boundary d event = false → step catalog d event = Ok (d', out) →
  dc_pending d' = dc_pending d ∨ dc_pending d' = None.
Proof.
  intros Hp Hb H. unfold decode in H. apply bind_ok in H as ([] & _ & H). unfold boundary in Hb.
  destruct (ev_data event) as [[data|]|]; [|done|done].
  destruct data as [name ?|table|sid gno tag| |query|kind table_id rows| | | | | | | |]; try done;
    try by (injection H as <- <-; left).
  - apply bind_ok in H as (d1 & Ht & [= <- <-]). apply store_table_map_frame in Ht as [_ ->]. by left.
  - unfold handle_query in H. fold (statement query) in H.
    apply orb_false_iff in Hb as [Hb Hc]. apply orb_false_iff in Hb as [Hb Hs]. apply bool_decide_eq_false in Hs.
    rewrite Hb in H. rewrite bool_decide_eq_false_2 in H by set_solver. rewrite bool_decide_eq_false_2 in H by set_solver.
    cbv zeta in H. rewrite Hc in H. repeat case_match; simplify_eq; (by right) || (left; congruence).
  - apply bind_ok in H as (d1 & Ht & [= <- <-]). unfold handle_rows in Ht. apply bind_ok in Ht as (cs & _ & Ht).
    destruct cs as [cs|]; [|injection Ht as <-; by left]. destruct (dc_pending d) as [p|]; [|done].
    by rewrite Hp in Ht.
Qed.

Lemma begin_open d catalog event d1 out :
  begins event = true → step catalog d event = Ok (d1, out) →
  match dc_pending d with Some p => pt_began p = false | None => True end.
Proof.
  intros Hb H. unfold decode in H. apply bind_ok in H as ([] & _ & H). unfold begins in Hb.
  destruct (ev_data event) as [[data|]|]; [|done|done]. destruct data as [| | | |query| | | | | | | | |]; try done.
  unfold handle_query in H. fold (statement query) in H. rewrite Hb in H.
  destruct (dc_pending d) as [p|]; [|done]. by destruct (pt_began p).
Qed.

Lemma explained_sound d0 pre d : explained d0 pre d → sound d.
Proof.
  unfold explained, sound. destruct (dc_pending d) as [p|]; [|done]. destruct (pt_began p); [done|]. by intros [_ H] _.
Qed.

Lemma explained_run d0 pre d outs :
  dc_pending d0 = None → run d0 pre = Ok (d, outs) →
  dc_capture_tables d = dc_capture_tables d0 ∧ explained d0 pre d.
Proof.
  intros H0. revert d outs. induction pre as [|a pre IH] using rev_ind; intros d outs H.
  { injection H as <- <-. split; [done|]. unfold explained. by rewrite H0. }
  apply run_snoc in H as (d1 & l & out & Hr & Hs & ->). destruct (IH _ _ Hr) as [Hc He]. clear IH.
  destruct (step_cases _ _ _ _ _ Hs) as [Hc1 Hcase]. split; [congruence|].
  assert (∀ e, boundary d1 e = boundary d0 e) as Hbd by (intros e; unfold boundary; by rewrite Hc).
  destruct Hcase as [(_ & _ & _ & id & Ha & Hp)|[Hb|[Hp|Hb]]].
  - unfold explained. rewrite Hp. cbn. split; [|done]. by exists pre, a, [], d1, l.
  - pose proof (begin_open _ _ _ _ _ Hb Hs) as Hopen.
    destruct (begin_step _ _ _ _ _ (explained_sound _ _ _ He) Hb Hs) as (-> & Hf & [[Hp _]|[Hp _]]); [|by unfold explained; rewrite Hp].
    unfold explained. rewrite Hp. cbn. exists d1, a, d, []. split_and!; [|by left|done]. exists pre, l.
    split_and!; [done|done|done|done|constructor|done|done|]. unfold explained in He. unfold begun_id. destruct (dc_pending d1) as [p|]; [|by right].
    rewrite Hopen in He. left. apply He.
  - unfold explained. by rewrite Hp.
  - unfold explained in He. destruct (dc_pending d1) as [p|] eqn:Ep; [destruct (pt_began p) eqn:Eb|].
    + destruct He as (db & begin & dd & mid & (before & bo & -> & Hrb & Hbeg & Hsb & Hmid & Hrm & Hid & Han) & Hg & Hfr).
      destruct (inside_step _ _ _ _ _ _ _ _ Hg Hb Hs) as (-> & Hf & Hg2).
      unfold explained. destruct Hg2 as [[Hp Hsz]|[Hp _]]; rewrite Hp; [|done]. cbn.
      exists db, begin, dd, (mid ++ [a]). rewrite (contributions_snoc _ _ _ _ _ Hrm). split_and!; [|by left|by eapply same_frame_trans].
      exists before, bo. rewrite <- app_assoc. split_and!; [done|done|done|done| | |done|done].
      { apply Forall_app. split; [done|]. constructor; [by rewrite <- Hbd|constructor]. }
      rewrite run_app, Hrm. cbn. by rewrite Hs.
    + destruct (waiting_step _ _ _ _ _ ltac:(by rewrite Ep) Hb Hs) as [Hp|Hp]; unfold explained; rewrite Hp; [|done].
      rewrite Ep, Eb. destruct He as [(before & g & noise & dg & go & -> & Hrg & Ha & Hn) Hpn]. split; [|done].
      exists before, g, (noise ++ [a]), dg, go. rewrite <- app_assoc. split_and!; [done..|].
      apply Forall_app. split; [done|]. constructor; [by rewrite <- Hbd|constructor].
    + destruct (waiting_step _ _ _ _ _ ltac:(by rewrite Ep) Hb Hs) as [Hp|Hp]; unfold explained; rewrite Hp; [by rewrite Ep|done].
Qed.

(** C35: A transaction with changes that the decoder publishes, after any sequence of
    events, is the one of the last BEGIN: no event between BEGIN and the commit bounds
    a transaction (the file was not rotated in between), nothing was published in
    between, its changes are exactly those of the events in between and its id is the
    GTID announced before BEGIN, or the position of BEGIN when none was. *)
Theorem published_exact (d0 d d' : Decoder) (pre : list Arrival) (outs : list ChangeTransaction) (catalog : Catalog)
    (commit : Event) (tx : ChangeTransaction) :
  dc_pending d0 = None → run d0 pre = Ok (d, outs) → step catalog d commit = Ok (d', Some tx) → tx_changes tx ≠ [] →
  ∃ id db begin d1 mid,
    under_way d0 pre id db begin d1 mid d
    ∧ tx = transaction_of id db begin.2 d1 mid d commit
    ∧ dc_current_file d = dc_current_file db
    ∧ total_size (tx_changes tx) ≤ MAX_TRANSACTION_BYTES
    ∧ dc_pending d' = None.
Proof.
  intros H0 Hr Hs Hne. destruct (explained_run _ _ _ _ H0 Hr) as [_ He].
  assert (∃ p, dc_pending d = Some p ∧ dc_pending d' = None
               ∧ tx = mkTransaction (dc_source d) (pt_id p) (pt_begin_cursor p) (cursor_of d commit) (pt_changes p))
    as (p & Ep & Hd' & ->).
  { unfold decode in Hs. apply bind_ok in Hs as ([] & _ & Hs).
    assert (∀ dd c x, finish_transaction dd c = Ok (x, Some tx) →
              ∃ p, dc_pending dd = Some p ∧ dc_pending x = None
                   ∧ tx = mkTransaction (dc_source dd) (pt_id p) (pt_begin_cursor p) c (pt_changes p)) as Hfin.
    { intros dd c x Hx. unfold finish_transaction in Hx. repeat case_match; simplify_eq; by eexists. }
    destruct (ev_data commit) as [[data|]|]; [|done|done].
    destruct data as [name ?|table|sid gno tag| |query|kind table_id rows| | | | | | | |]; try done;
      try (by apply bind_ok in Hs as (? & _ & [=])); [by case_match| |by apply Hfin in Hs].
    unfold handle_query in Hs. destruct (is_begin _); [by repeat case_match; simplify_eq|].
    case_bool_decide; [by apply Hfin in Hs|]. case_bool_decide; [done|]. cbv zeta in Hs. case_match; [done|].
    case_match; [|by repeat case_match; simplify_eq].
    apply Hfin in Hs as (p & Hp & Hd & ->). cbn in Hp. destruct (dc_pending d) as [q|]; [|done]. injection Hp as <-.
    by exists q. }
  unfold explained in He. rewrite Ep in He. cbn in Hne |- *. destruct (pt_began p) eqn:Eb.
  - destruct He as (db & begin & d1 & mid & Hu & Hg & Hfr). exists (pt_id p), db, begin, d1, mid.
    destruct Hg as [[Hp Hsz]|[Hp _]]; [|congruence]. rewrite Ep in Hp. injection Hp as Hp.
    destruct Hfr as (Hfile & Hsrc & _). split_and!; [done| |done| |done].
    + unfold transaction_of. rewrite Hp. cbn. by rewrite Hsrc.
    + by rewrite Hp.
  - destruct He as [_ He]. by rewrite He in Hne.
Qed.

(** ** The stream *)
Notation Turn := (@Turn Rows).
Notation poll := (next evidence_json mapping_json parse_jsonb rows_of change_size).
Notation poll_loop := (next_loop evidence_json mapping_json parse_jsonb rows_of change_size).
Notation poll_change := (next_change_event evidence_json mapping_json parse_jsonb rows_of change_size).

(** The event of a turn that brought one. *)
Definition arrival_of (turn : Turn) : option Arrival :=
  match tn_native turn with NativeEvent event catalog => Some (catalog, event) | _ => None end.
(** The turns brought events only. *)
Definition brought (used : list Turn) (arrivals : list Arrival) : Prop :=
  arrival_of <$> used = Some <$> arrivals ∧ Forall (λ t, tn_stop t = false) used.
Definition within_limit (s : BinlogStream) : Prop :=
  match bs_max_events s with Some limit => bs_count s ≤ limit | None => True end.
(** The source contract holds of a transaction with changes. *)
Definition vetted (tx : ChangeTransaction) : Prop :=
  tx_changes tx = [] ∨ Validate.validate tx = Ok (mkValidated tx) ∧ validate_source (mkValidated tx) V80 = Ok ().

Lemma validate_keeps tx v : Validate.validate tx = Ok v → v = mkValidated tx.
Proof. unfold Validate.validate. intros H. repeat (apply bind_ok in H as ([] & _ & H)). by injection H as <-. Qed.
Lemma validated_change tx v :
  validate_change_event tx = Ok v → v = mkValidated tx ∧ Validate.validate tx = Ok v ∧ validate_source v V80 = Ok ().
Proof.
  unfold validate_change_event. destruct (Validate.validate tx) as [w|] eqn:Ew; [|done].
  destruct (validate_source w V80) as [[]|] eqn:Es; [|done]. intros [= <-]. by apply validate_keeps in Ew.
Qed.
Lemma logged s (event : Event) written s' :
  log_raw_event s event written = Ok s' →
  bs_decoder s' = bs_decoder s ∧ bs_count s' = bs_count s ∧ bs_ended s' = bs_ended s ∧ bs_max_events s' = bs_max_events s.
Proof.
  unfold log_raw_event. intros H. apply bind_ok in H as ([] & _ & [= <-]). repeat case_match; done.
Qed.

(** What an answered poll means, by its answer. *)
Definition answered (s : BinlogStream) (turns : list Turn) (item : option (io ChangeTransaction)) (s' : BinlogStream)
    (rest : list Turn) : Prop :=
  ∃ used arrivals, turns = used ++ rest
  ∧ match item with
    | Some (Ok tx) =>
        brought used arrivals ∧ run (bs_decoder s) arrivals = Ok (bs_decoder s', [tx]) ∧ vetted tx
        ∧ bs_ended s' = false ∧ bs_count s' = bs_count s + Z.of_nat (length used) ∧ used ≠ []
        ∧ bs_max_events s' = bs_max_events s ∧ (within_limit s → within_limit s')
    | _ =>
        bs_ended s' = true
        ∧ ∃ taken last d, used = taken ++ [last] ∧ brought taken arrivals ∧ run (bs_decoder s) arrivals = Ok (d, [])
          ∧ (item = None → tn_stop last = false → tn_stop_after last = false → dc_pending d = None)
    end.

Lemma final_item_none d : final_item d = None → dc_pending d = None.
Proof. unfold final_item, ensure_complete. destruct (dc_pending d); done. Qed.
Lemma final_item_some d tx : final_item d ≠ Some (Ok tx).
Proof. unfold final_item. by destruct (ensure_complete d). Qed.

Lemma poll_loop_answered s turns item s' rest :
  bs_ended s = false → poll_loop s turns = Item item s' rest → answered s turns item s' rest.
Proof.
  revert s. induction turns as [|turn turns IH]; intros s He; cbn [next_loop]; [done|].
  assert (∀ it, (∀ tx, it ≠ Some (Ok tx)) →
            (it = None → tn_stop turn = false → tn_stop_after turn = false → dc_pending (bs_decoder s) = None) →
            ∀ s1, bs_ended s1 = true → answered s (turn :: turns) it s1 turns) as Hend.
  { intros it Hit Hn s1 Hs1. exists [turn], []. split; [done|].
    destruct it as [[tx|e]|]; [by destruct (Hit tx)|..]; (split; [done|]); exists [], turn, (bs_decoder s);
      (split_and!; [done|by split|done|done]). }
  destruct (tn_stop turn) eqn:Estop; [intros [= <- <- <-]; by apply Hend|].
  destruct (match bs_max_events s with Some limit => limit <=? bs_count s | None => false end) eqn:Elim.
  { intros [= <- <- <-]. apply Hend; [by apply final_item_some|by intros ?%final_item_none|done]. }
  destruct (tn_native turn) as [|cause|event catalog] eqn:En.
  { intros [= <- <- <-]. apply Hend; [by apply final_item_some|by intros ?%final_item_none|done]. }
  { intros [= <- <- <-]. apply Hend; [by destruct (tn_stop_after turn)| |done].
    destruct (tn_stop_after turn); done. }
  destruct (log_raw_event (counted s) event (tn_log turn)) as [s2|e] eqn:El; [|intros [= <- <- <-]; by apply Hend].
  apply logged in El as (Hd & Hcnt & Hen & Hmax). cbn in Hd, Hcnt, Hen, Hmax. rewrite Hd.
  assert (brought [turn] [(catalog, event)]) as Hone.
  { split; [|by repeat constructor]. cbn. unfold arrival_of. by rewrite En. }
  assert (within_limit s → within_limit s2) as Hlim.
  { unfold within_limit. rewrite Hmax, Hcnt. destruct (bs_max_events s); [|done]. apply Z.leb_gt in Elim. lia. }
  destruct (step catalog (bs_decoder s) event) as [[d [tx|]]|e] eqn:Es; [| |intros [= <- <- <-]; by apply Hend].
  - assert (∀ s3, bs_decoder s3 = d → bs_count s3 = bs_count s2 → bs_ended s3 = false → bs_max_events s3 = bs_max_events s2 →
             vetted tx → answered s (turn :: turns) (Some (Ok tx)) s3 turns) as Hok.
    { intros s3 H1 H2 H3 H4 Hv. exists [turn], [(catalog, event)]. cbn. rewrite Es. cbn. rewrite H1, H2, H4, Hcnt, Hmax.
      split_and!; try done. unfold within_limit in *. by rewrite H4, H2. }
    destruct (lempty (tx_changes tx)) eqn:Ee.
    { intros [= <- <- <-]. apply Hok; try done; [cbn; by rewrite Hen|]. left. by destruct (tx_changes tx). }
    destruct (validate_change_event tx) as [v|e] eqn:Ev; [|intros [= <- <- <-]; by apply Hend].
    intros [= <- <- <-]. apply validated_change in Ev as (-> & Hv1 & Hv2). cbn. apply Hok; try done; [cbn; by rewrite Hen|by right].
  - intros H. apply IH in H as (used & arrivals & -> & H); [|cbn; by rewrite Hen].
    exists (turn :: used), ((catalog, event) :: arrivals). split; [done|]. cbn [bs_decoder with_decoder bs_count bs_max_events] in H.
    assert (∀ u, brought u arrivals → brought (turn :: u) ((catalog, event) :: arrivals)) as Hmore.
    { intros u [H1 H2]. split; [|by constructor]. cbn. rewrite H1. unfold arrival_of at 1. by rewrite En. }
    destruct item as [[tx|e]|].
    + destruct H as (Hb & Hr & Hv & H1 & H2 & H3 & H4 & H5). cbn in Hr. cbn. rewrite Es. cbn. rewrite Hr. cbn.
      split_and!; try done; [by apply Hmore|lia|congruence|]. intros Hw. exact (H5 (Hlim Hw)).
    + destruct H as (H1 & taken & last & d2 & -> & Hb & Hr & H2). split; [done|]. exists (turn :: taken), last, d2. cbn in *.
      rewrite Es. cbn. rewrite Hr. cbn. split_and!; try done. by apply Hmore.
    + destruct H as (H1 & taken & last & d2 & -> & Hb & Hr & H2). split; [done|]. exists (turn :: taken), last, d2. cbn in *.
      rewrite Es. cbn. rewrite Hr. cbn. split_and!; try done. by apply Hmore.
Qed.

Lemma poll_answered s turns item s' rest :
  bs_ended s = false → poll s turns = Item item s' rest → answered s turns item s' rest.
Proof. intros He. unfold next. rewrite He. by apply poll_loop_answered. Qed.

(** The iterator, called until it yields no transaction. *)
Fixpoint drain (fuel : nat) (s : BinlogStream) (turns : list Turn) : list ChangeTransaction :=
  match fuel with
  | O => []
  | S fuel =>
      match poll s turns with
      | Item (Some (Ok tx)) s rest => tx :: drain fuel s rest
      | _ => []
      end
  end.

(** C36: The stream yields exactly what its decoder publishes for the events the source
    brought, in order; every transaction with changes has passed the validation of
    the model and of the source contract, and the event limit is never passed. *)
Theorem stream_publishes (fuel : nat) (s : BinlogStream) (turns : list Turn) :
  bs_ended s = false →
  ∃ used rest arrivals d,
    turns = used ++ rest ∧ brought used arrivals
    ∧ run (bs_decoder s) arrivals = Ok (d, drain fuel s turns)
    ∧ Forall vetted (drain fuel s turns)
    ∧ (within_limit s → match bs_max_events s with
                        | Some limit => bs_count s + Z.of_nat (length used) ≤ limit
                        | None => True
                        end).
Proof.
  revert s turns. induction fuel as [|fuel IH]; intros s turns He; cbn [drain].
  { exists [], turns, [], (bs_decoder s). split_and!; [done|by split|done|constructor|].
    unfold within_limit. destruct (bs_max_events s); cbn; lia. }
  assert (∃ used rest arrivals d, turns = used ++ rest ∧ brought used arrivals
            ∧ run (bs_decoder s) arrivals = Ok (d, []) ∧ Forall vetted []
            ∧ (within_limit s → match bs_max_events s with
                                | Some limit => bs_count s + Z.of_nat (length used) ≤ limit | None => True end)) as Hnil.
  { exists [], turns, [], (bs_decoder s). split_and!; [done|by split|done|constructor|].
    unfold within_limit. destruct (bs_max_events s); cbn; lia. }
  destruct (poll s turns) as [[[tx|e]|] s' rest|s'] eqn:Ep; [|exact Hnil..].
  apply poll_answered in Ep as (used & arrivals & -> & Hb & Hr & Hv & He' & Hcnt & _ & Hmax & Hlim); [|done].
  destruct (IH s' rest He') as (used2 & rest2 & arrivals2 & d & -> & Hb2 & Hr2 & Hv2 & Hl2).
  exists (used ++ used2), rest2, (arrivals ++ arrivals2), d. split_and!.
  - by rewrite app_assoc.
  - destruct Hb as [H1 H2], Hb2 as [H3 H4]. split; [by rewrite !fmap_app, H1, H3|by apply Forall_app].
  - rewrite run_app, Hr. cbn. by rewrite Hr2.
  - by constructor.
  - intros Hw. specialize (Hl2 (Hlim Hw)). rewrite Hmax, Hcnt in Hl2. destruct (bs_max_events s); [|done].
    rewrite length_app. lia.
Qed.


Lemma poll_loop_waits s turns s' :
  bs_ended s = false → poll_loop s turns = Waiting s' →
  ∃ arrivals, brought turns arrivals ∧ run (bs_decoder s) arrivals = Ok (bs_decoder s', []).
Proof.
  revert s. induction turns as [|turn turns IH]; intros s He; cbn [next_loop].
  { intros [= <-]. exists []. split; [by split|done]. }
  destruct (tn_stop turn) eqn:Estop; [done|]. case_match; [done|].
  destruct (tn_native turn) as [|cause|event catalog] eqn:En; [done..|].
  destruct (log_raw_event (counted s) event (tn_log turn)) as [s2|e] eqn:El; [|done].
  apply logged in El as (Hd & Hcnt & Hen & Hmax). cbn in Hd, Hen. rewrite Hd.
  destruct (step catalog (bs_decoder s) event) as [[d [tx|]]|e] eqn:Es; [|intros Hw|done].
  - destruct (lempty _); [done|]. by destruct (validate_change_event tx).
  - apply IH in Hw as (arrivals & [H1 H2] & Hr); [|cbn; by rewrite Hen]. exists ((catalog, event) :: arrivals).
    split; [split; [cbn; rewrite H1; unfold arrival_of at 1; by rewrite En|by constructor]|].
    cbn in *. rewrite Es. cbn. by rewrite Hr.
Qed.

(** C38: [next_change_event] never runs out of turns of its own: it waits only when the
    source brought nothing but events, and what it returns is a validated
    transaction with changes that the decoder published. *)
Theorem next_change_event_total (s : BinlogStream) (turns : list Turn) :
  bs_ended s = false →
  match poll_change s turns with
  | WaitingChange s' =>
      ∃ arrivals outs, brought turns arrivals ∧ run (bs_decoder s) arrivals = Ok (bs_decoder s', outs)
        ∧ Forall (λ tx, tx_changes tx = []) outs
  | Change (Ok (Some v)) s' rest =>
      validate_source v V80 = Ok () ∧ Validate.validate (vt_transaction v) = Ok v ∧ tx_changes (vt_transaction v) ≠ []
      ∧ ∃ used arrivals outs, turns = used ++ rest ∧ brought used arrivals
          ∧ run (bs_decoder s) arrivals = Ok (bs_decoder s', outs ++ [vt_transaction v])
          ∧ Forall (λ tx, tx_changes tx = []) outs
  | Change _ s' rest => bs_ended s' = true
  end.
Proof.
  unfold next_change_event. assert (length turns < S (length turns))%nat as Hf by lia.
  revert Hf. generalize (S (length turns)) as fuel. intros fuel. revert s turns.
  induction fuel as [|fuel IH]; intros s turns Hf He; [lia|]. cbn [next_change_loop].
  destruct (poll s turns) as [[[tx|e]|] s' rest|s'] eqn:Ep.
  - apply poll_answered in Ep as (used & arrivals & -> & Hb & Hr & Hv & He' & _ & Hne & _); [|done].
    destruct (lempty (tx_changes tx)) eqn:Ee.
    + assert (tx_changes tx = []) as Hemp by (by destruct (tx_changes tx)).
      assert (length rest < fuel)%nat as Hrest by (destruct used; [done|]; rewrite length_app in Hf; cbn in Hf; lia).
      specialize (IH s' rest Hrest He'). destruct (next_change_loop _ _ _ _ _ fuel s' rest) as [[[v|]|e] s2 rest2|s2]; [|done..|].
      * destruct IH as (H1 & H2 & H3 & used2 & arrivals2 & outs & -> & Hb2 & Hr2 & Ho). split_and!; [done..|].
        exists (used ++ used2), (arrivals ++ arrivals2), (tx :: outs). split_and!; [by rewrite app_assoc| | |by constructor].
        { destruct Hb as [A1 A2], Hb2 as [A3 A4]. split; [by rewrite !fmap_app, A1, A3|by apply Forall_app]. }
        rewrite run_app, Hr. cbn. by rewrite Hr2.
      * destruct IH as (arrivals2 & outs & Hb2 & Hr2 & Ho). exists (arrivals ++ arrivals2), (tx :: outs).
        split_and!; [| |by constructor].
        { destruct Hb as [A1 A2], Hb2 as [A3 A4]. split; [by rewrite !fmap_app, A1, A3|by apply Forall_app]. }
        rewrite run_app, Hr. cbn. by rewrite Hr2.
    + destruct Hv as [Hv|[H1 H2]]; [by rewrite Hv in Ee|]. unfold validate_change_event. rewrite H1, H2. cbn.
      split_and!; [done|done|by intros Hn; rewrite Hn in Ee|].
      exists used, arrivals, []. by split_and!.
  - apply poll_answered in Ep as (used & arrivals & -> & H & _); done.
  - apply poll_answered in Ep as (used & arrivals & -> & H & _); done.
  - unfold next in Ep. rewrite He in Ep. apply poll_loop_waits in Ep as (arrivals & Hb & Hr); [|done].
    exists arrivals, []. by split_and!.
Qed.
End capture.
End Spec.

(** ** A stream *)
Module Example5.
Import Spec.
Definition no_evidence (_ _ : string) (_ _ : option string) (_ : LogicalType) (_ : gmap string string) : list byte := [].
Definition no_mapping (_ : SourceTypeMapping) : list byte := [].
Definition no_json (_ : ()) : option JsonDom := None.
Definition Image : Type := list (string * option (@BinlogValue ())).
Definition rows_of (rows : list (option (option Image * option Image))) (_ : TableMapEvent) := rows.
Definition size_of (_ : RowChange) : Z := 100.
#[local] Existing Instance Rfc4648.base64.
#[local] Existing Instance SumDigest.sha256.
Notation Ev := (@Event (list (option (option Image * option Image)))).

Definition catalog : Catalog := λ _ _,
  Ok [mkCatalogRow "id" "int" "int" None None "" (Some 1);
      mkCatalogRow "note" "varchar(20)" "varchar" (Some "utf8mb4"%string) None "" None].
Definition event (pos : Z) (data : EventData) : Ev := mkEvent 0 pos 1700000000 (Some (Some data)).
Definition row (id : Z) (note : string) : Image :=
  [("@0", Some (BvValue (MyInt id))); ("@1", Some (BvValue (MyBytes (sbytes note))))]%string.
Definition gtid : Ev := event 200 (GtidEvent (replicate 16 NUL) 7 None).
Definition begin : Ev := event 280 (QueryEvent "BEGIN").
Definition table_map : Ev := event 340 (TableMap (mkTableMap 9 "shop" "note" 2)).
Definition insert_row : Ev := event 400 (RowsEvent WriteRowsEvent 9 [Some (None, Some (row 1 "a"))]).
Definition update_row : Ev := event 480 (RowsEvent UpdateRowsEvent 9 [Some (Some (row 1 "a"), Some (row 1 "b"))]).
Definition commit : Ev := event 511 XidEvent.
Definition arrive (e : Ev) : Catalog * Ev := (catalog, e).

Definition SERVER : string := "00000000-0000-0000-0000-000000000000".
Definition fresh : Decoder := decoder_new "mysql-bin.000001" "8.0.36" SERVER.
Definition stream : BinlogStream :=
  mkStream fresh (mkSource "mysql" "8.0.36" SERVER) (mkPosition "mysql-bin.000001" 4) StartPosition 0 (Some 100)
    "mysql-bin.000001" 4 false None.
Notation Tn := (@Turn (list (option (option Image * option Image)))).
Definition turn (e : Ev) : Tn := mkTurn false (NativeEvent e catalog) false (Ok ()).
Definition turns : list Tn := turn <$> [gtid; begin; table_map; insert_row; update_row; commit].
Notation run5 := (run no_evidence no_mapping no_json rows_of size_of).
Notation step5 := (decode no_evidence no_mapping no_json rows_of size_of).
Notation poll5 := (next no_evidence no_mapping no_json rows_of size_of).

Definition pre : list (Catalog * Ev) := arrive <$> [gtid; begin; table_map; insert_row; update_row].
Definition shown (tx : ChangeTransaction) : string * list Operation * string :=
  (tx_id tx, chg_operation <$> tx_changes tx, cur_display (tx_commit_cursor tx)).

Example published_exact_witness :
  match run5 fresh pre with
  | Ok (d, outs) =>
      match step5 catalog d commit with
      | Ok (_, Some tx) =>
          outs = [] ∧ shown tx = ("00000000-0000-0000-0000-000000000000:7", [Insert; Update], "mysql-bin.000001:511")%string
          ∧ dc_pending d ≠ None ∧ dc_current_file d = "mysql-bin.000001"%string
      | _ => False
      end
  | Err _ => False
  end.
Proof.
  destruct (run5 fresh pre) as [[d outs]|e] eqn:Er; [|by vm_compute in Er].
  destruct (step5 catalog d commit) as [[d' [tx|]]|e] eqn:Es.
  2, 3: exfalso; vm_compute in Er; injection Er as <- <-; by vm_compute in Es.
  assert (outs = [] ∧ shown tx = ("00000000-0000-0000-0000-000000000000:7", [Insert; Update], "mysql-bin.000001:511")%string
          ∧ dc_pending d ≠ None ∧ tx_changes tx ≠ []) as (H1 & H2 & H3 & H4).
  { vm_compute in Er. injection Er as <- <-. vm_compute in Es. injection Es as <- <-. by vm_compute. }
  split_and!; [done..|].
  destruct (published_exact no_evidence no_mapping no_json rows_of size_of fresh d d' pre outs catalog commit tx eq_refl Er Es H4) as (id & db & b & d1 & mid & Hu & _ & Hf & _).
  vm_compute in Er. by injection Er as <- <-.
Defined.

(** The same events through the stream. *)
Example stream_publishes_witness :
  (shown <$> Spec.drain no_evidence no_mapping no_json rows_of size_of 3 stream turns)
  = [("00000000-0000-0000-0000-000000000000:7", [Insert; Update], "mysql-bin.000001:511")]%string
  ∧ ∃ used rest arrivals, turns = used ++ rest ∧ brought used arrivals
    ∧ (Z.of_nat (length used) ≤ 100)%Z.
Proof.
  destruct (stream_publishes no_evidence no_mapping no_json rows_of size_of 3 stream turns eq_refl)
    as (used & rest & arrivals & d & H1 & H2 & _ & _ & H3).
  split; [by vm_compute|]. exists used, rest, arrivals. split_and!; [done|apply H2..|].
  specialize (H3 ltac:(by vm_compute)). cbn in H3. lia.
Defined.

(** A source that ends inside a transaction: an error, then the end for ever. *)
Definition cut_turns : list Tn := turn <$> [gtid; begin; table_map; insert_row].
Definition end_turn : Tn := mkTurn false NativeEnd false (Ok ()).

Example next_change_event_total_witness :
  match next_change_event no_evidence no_mapping no_json rows_of size_of stream turns with
  | Change (Ok (Some v)) _ [] => validate_source v V80 = Ok ()
  | _ => False
  end.
Proof.
  pose proof (next_change_event_total no_evidence no_mapping no_json rows_of size_of stream turns eq_refl) as H.
  destruct (next_change_event no_evidence no_mapping no_json rows_of size_of stream turns) as [[[v|]|e] s' rest|s'] eqn:Ep;
    [|by vm_compute in Ep..].
  assert (rest = []) as -> by (vm_compute in Ep; by injection Ep). by destruct H.
Defined.

Example transaction_published_witness :
  match run5 fresh [arrive gtid] with
  | Ok (d, _) =>
      match step5 catalog d begin with
      | Ok (d1, _) =>
          match run5 d1 (arrive <$> [table_map; insert_row; update_row]) with
          | Ok (d2, outs) =>
              outs = [] ∧ (∃ d3 tx, step5 catalog d2 commit = Ok (d3, Some tx) ∧ (length (tx_changes tx) = 2)%nat)
          | Err _ => False
          end
      | Err _ => False
      end
  | Err _ => False
  end.
Proof.
  destruct (run5 fresh [arrive gtid]) as [[d o]|e] eqn:E0; [|by vm_compute in E0].
  destruct (step5 catalog d begin) as [[d1 o1]|e] eqn:E1; [|exfalso; vm_compute in E0; injection E0 as <- <-; by vm_compute in E1].
  destruct (run5 d1 _) as [[d2 outs]|e] eqn:E2.
  2: { exfalso. vm_compute in E0. injection E0 as <- <-. vm_compute in E1. injection E1 as <- <-. by vm_compute in E2. }
  assert (sound d ∧ Forall (λ a : Catalog * Ev, boundary d1 a.2 = false) (arrive <$> [table_map; insert_row; update_row])
          ∧ (length (contributions no_evidence no_mapping no_json rows_of size_of d1 (arrive <$> [table_map; insert_row; update_row])) = 2)%nat)
    as (Hs & Hb & Hc).
  { vm_compute in E0. injection E0 as <- <-. vm_compute in E1. injection E1 as <- <-. split; [done|]. split; [by repeat constructor|by vm_compute]. }
  destruct (transaction_published no_evidence no_mapping no_json rows_of size_of d d1 d2 catalog begin _ o1 outs Hs eq_refl E1 Hb E2)
    as (_ & -> & _ & H).
  split; [done|]. specialize (H catalog commit eq_refl eq_refl ltac:(by intros Hn; rewrite Hn in Hc)).
  by eexists _, _.
Defined.
End Example5.
