(* ===== verification/PgCatalog.v ===== *)
(** * The type catalog of a PostgreSQL source ([crates/postgresql_15/src/type_mapping.rs])

    The snapshot of [pg_type] that a source keeps: the definitions with their digests,
    the closure of the definitions a type depends on ([definition_closure], carried as
    evidence with every value that is captured as text) and its validation on the other
    side, the lookup by OID and by declared name, and the test whether a type has a
    codec.  The recursive searches of the source visit each OID at most once; the fuel
    of the model is the number of definitions plus one, and the theorems say that it is
    enough. *)
From S2P Require Import Prelude Text Utf8 Codec Model LogicalTypes.

(** ** Data *)
Record SourceTypeField := mkTypeField {
  tf_name : string;
  tf_type_oid : Z;
  tf_nullable : bool
}.

Inductive SourceTypeDefinitionKind :=
| KPseudo
| KBuiltin (native_type : string)
| KEnum (labels : list string)
| KDomain (base_oid : Z) (constraints : list string) (not_null : bool)
| KComposite (fields : list SourceTypeField)
| KArray (element_oid : Z) (delimiter : Z)
| KRange (subtype_oid : Z)
| KMultiRange (range_oid : Z)
| KExtension (extension : string) (codec_identity : option string) (encoding : string)
    (logical_type : option LogicalType).

Record SourceTypeDefinition := mkDefinition {
  td_oid : Z;
  td_schema : string;
  td_name : string;
  td_kind : SourceTypeDefinitionKind;
  td_collation : option string;
  td_definition_digest : string
}.

Record SourceExtension := mkExtension {
  ext_name : string;
  ext_version : string;
  ext_schema : string;
  ext_installed : bool;
  ext_available : bool;
  ext_target_compatible : option bool
}.

Record SourceTypeCatalog := mkCatalog {
  cat_types : list SourceTypeDefinition;
  cat_extensions : list SourceExtension
}.
Definition empty_catalog : SourceTypeCatalog := mkCatalog [] [].

Record SourceTypeDefinitionClosure := mkClosure {
  cl_types : list SourceTypeDefinition;
  cl_extensions : list SourceExtension
}.

(** [serde_json::to_vec] of the values that are digested. *)
Class CatalogJson := {
  definition_tuple_json : Z → string → string → SourceTypeDefinitionKind → option string → list byte;
  catalog_json : SourceTypeCatalog → list byte;
  closure_json : SourceTypeDefinitionClosure → list byte;
  definition_json : SourceTypeDefinition → list byte
}.

(** [.iter().find(|definition| definition.oid == oid)] *)
Definition find_oid (types : list SourceTypeDefinition) (oid : Z) : option SourceTypeDefinition :=
  List.find (λ d, td_oid d =? oid) types.

Definition type_definition_dependencies (d : SourceTypeDefinition) : list Z :=
  match td_kind d with
  | KDomain base_oid _ _ => [base_oid]
  | KComposite fields => tf_type_oid <$> fields
  | KArray element_oid _ => [element_oid]
  | KRange subtype_oid => [subtype_oid]
  | KMultiRange range_oid => [range_oid]
  | _ => []
  end.

Definition extension_of (d : SourceTypeDefinition) : option string :=
  match td_kind d with KExtension extension _ _ _ => Some extension | _ => None end.

(** [Vec::dedup_by] *)
Fixpoint dedup_by {A} (same : A → A → bool) (l : list A) : list A :=
  match l with
  | [] => []
  | x :: l =>
      match dedup_by same l with
      | [] => [x]
      | y :: k => if same y x then x :: k else x :: y :: k
      end
  end.
(** No two neighbours of [windows(2)] satisfy [bad]. *)
Fixpoint windows_avoid {A} (bad : A → A → bool) (l : list A) : bool :=
  match l with
  | x :: ((y :: _) as k) => negb (bad x y) && windows_avoid bad k
  | _ => true
  end.

Section digests.
Context `{SHA : Sha256} `{CJ : CatalogJson}.

(** ** Digests and constructors *)
Definition expected_definition_digest (d : SourceTypeDefinition) : string :=
  sha256_hex (definition_tuple_json (td_oid d) (td_schema d) (td_name d) (td_kind d) (td_collation d)).
Definition finalized (d : SourceTypeDefinition) : SourceTypeDefinition :=
  mkDefinition (td_oid d) (td_schema d) (td_name d) (td_kind d) (td_collation d) (expected_definition_digest d).
Definition evidence_digest (catalog : SourceTypeCatalog) : string := sha256_hex (catalog_json catalog).
Definition closure_digest (closure : SourceTypeDefinitionClosure) : string := sha256_hex (closure_json closure).

Definition pseudo (oid : Z) (schema name : string) (collation : option string) : SourceTypeDefinition :=
  finalized (mkDefinition oid schema name KPseudo collation "").
Definition builtin (oid : Z) (schema name : string) : SourceTypeDefinition :=
  finalized (mkDefinition oid schema name (KBuiltin name) None "").
Definition enum_type (oid : Z) (schema name : string) (labels : list string) : SourceTypeDefinition :=
  finalized (mkDefinition oid schema name (KEnum labels) None "").
Definition domain (oid : Z) (schema name : string) (base_oid : Z) (constraints : list string) (not_null : bool)
    (collation : option string) : SourceTypeDefinition :=
  finalized (mkDefinition oid schema name (KDomain base_oid constraints not_null) collation "").
Definition composite (oid : Z) (schema name : string) (fields : list SourceTypeField) : SourceTypeDefinition :=
  let fields := (λ f, mkTypeField (tf_name f) (tf_type_oid f) true) <$> fields in
  finalized (mkDefinition oid schema name (KComposite fields) None "").
Definition array_with_delimiter (oid : Z) (schema name : string) (element_oid delimiter : Z) : SourceTypeDefinition :=
  finalized (mkDefinition oid schema name (KArray element_oid delimiter) None "").
Definition array (oid : Z) (schema name : string) (element_oid : Z) : SourceTypeDefinition :=
  array_with_delimiter oid schema name element_oid 44.
Definition range (oid : Z) (schema name : string) (subtype_oid : Z) : SourceTypeDefinition :=
  finalized (mkDefinition oid schema name (KRange subtype_oid) None "").
Definition multi_range (oid : Z) (schema name : string) (range_oid : Z) : SourceTypeDefinition :=
  finalized (mkDefinition oid schema name (KMultiRange range_oid) None "").
Definition extension (oid : Z) (schema name ext codec_identity encoding : string) (logical_type : option LogicalType)
    : SourceTypeDefinition :=
  finalized (mkDefinition oid schema name (KExtension ext (Some codec_identity) encoding logical_type) None "").

(** ** The closure of a definition *)
(** The state of [visit]: the OIDs seen and the definitions collected. *)
Fixpoint visit_each {S} (f : Z → S → result string S) (oids : list Z) (st : S) : result string S :=
  match oids with
  | [] => Ok st
  | oid :: oids => let? st := f oid st in visit_each f oids st
  end.
Fixpoint visit (fuel : nat) (types : list SourceTypeDefinition) (oid : Z)
    (st : list Z * list SourceTypeDefinition) : result string (list Z * list SourceTypeDefinition) :=
  let '(seen, found) := st in
  if bool_decide (oid ∈ seen) then Ok st else
  match fuel with
  | O => Err "out of fuel"%string
  | S fuel =>
      let? d := ok_or "PostgreSQL type dependency is missing"%string (find_oid types oid) in
      visit_each (visit fuel types) (type_definition_dependencies d) (oid :: seen, found ++ [d])
  end.
Definition extension_names (types : list SourceTypeDefinition) : list string :=
  dedup_by (λ a b, bool_decide (a = b)) (sort_by String.le id (omap extension_of types)).
Fixpoint collect {A B} (f : A → result string B) (l : list A) : result string (list B) :=
  match l with
  | [] => Ok []
  | x :: l => let? y := f x in let? k := collect f l in Ok (y :: k)
  end.
Definition find_extension (catalog : SourceTypeCatalog) (name : string) : option SourceExtension :=
  List.find (λ e, eq_ignore_case (ext_name e) name) (cat_extensions catalog).
Definition definition_closure (catalog : SourceTypeCatalog) (root_oid : Z)
    : result string SourceTypeDefinitionClosure :=
  let? visited := visit (S (length (cat_types catalog))) (cat_types catalog) root_oid ([], []) in
  let types := sort_by Z.le td_oid visited.2 in
  let? extensions :=
    collect (λ name, ok_or "PostgreSQL extension evidence is missing"%string (find_extension catalog name))
      (extension_names types) in
  Ok (mkClosure types extensions).

(** ** Its validation *)
(** The worklist: an OID is expanded at most once. *)
Fixpoint reach (fuel : nat) (types : list SourceTypeDefinition) (reachable pending : list Z) : option (list Z) :=
  match fuel with
  | O => None
  | S fuel =>
      match pending with
      | [] => Some reachable
      | oid :: pending =>
          if bool_decide (oid ∈ reachable) then reach fuel types reachable pending else
          match find_oid types oid with
          | None => None
          | Some d => reach fuel types (oid :: reachable) (rev (type_definition_dependencies d) ++ pending)
          end
      end
  end.
Definition dependency_count (types : list SourceTypeDefinition) : nat :=
  foldr (λ d n, length (type_definition_dependencies d) + n)%nat 0%nat types.
Definition required_extensions (types : list SourceTypeDefinition) : list string :=
  dedup_by eq_ignore_case (sort_by String.le to_lower (omap extension_of types)).
Definition extension_invalid (e : SourceExtension) : bool :=
  negb (ext_installed e) || blank (ext_version e) || blank (ext_schema e).
Definition extensions_unordered (a b : SourceExtension) : bool :=
  bool_decide (String.le (to_lower (ext_name b)) (to_lower (ext_name a))).
Definition validate_type_definition_closure (closure : SourceTypeDefinitionClosure) (root_oid : Z) : bool :=
  let types := cl_types closure in
  let required := required_extensions types in
  if negb (bool_decide (NoDup (td_oid <$> types))) || negb (Validate.is_some (find_oid types root_oid))
     || negb (windows_avoid (λ a b, td_oid b <=? td_oid a) types) then false
  else if existsb (λ d, negb (bool_decide (td_definition_digest d = expected_definition_digest d))) types then false
  else if negb (bool_decide (length required = length (cl_extensions closure)))
     || existsb extension_invalid (cl_extensions closure)
     || negb (windows_avoid extensions_unordered (cl_extensions closure))
     || existsb (λ p : string * SourceExtension, negb (eq_ignore_case p.1 (ext_name p.2)))
          (combine required (cl_extensions closure)) then false
  else
    match reach (S (S (dependency_count types))) types [] [root_oid] with
    | Some reachable => bool_decide (length reachable = length types)
    | None => false
    end.

(** ** Lookup *)
Definition definition_by_oid (oid : Z) (catalog : SourceTypeCatalog) : option SourceTypeDefinition :=
  find_oid (cat_types catalog) oid.
End digests.

(** [types::supported]: the OIDs the value decoder knows. *)
Definition SUPPORTED_OIDS : list Z :=
  [16; 17; 18; 19; 20; 21; 23; 26; 28; 29; 25; 114; 142; 650; 774; 829; 869; 700; 701; 1042; 1043; 1082; 1083; 1114;
   1186; 1184; 1266; 1560; 1562; 1700; 2950; 3802; 5069].
Definition supported (oid : Z) : bool := bool_decide (oid ∈ SUPPORTED_OIDS).

Definition extension_supported (catalog : SourceTypeCatalog) (extension name : string) : bool :=
  existsb (λ e, eq_ignore_case (ext_name e) extension && ext_installed e && ext_available e) (cat_extensions catalog)
  && (eq_ignore_case extension "hstore" && eq_ignore_case name "hstore"
      || eq_ignore_case extension "postgis" && bool_decide (name ∈ ["geometry"; "geography"]%string)).

(** The inner function [visit] of [has_semantic_codec]; [stack] holds the OIDs being
    visited. *)
Fixpoint codec_visit (fuel : nat) (catalog : SourceTypeCatalog) (stack : list Z) (oid : Z) : bool :=
  match fuel with
  | O => false
  | S fuel =>
      if bool_decide (oid ∈ stack) then false else
      match find_oid (cat_types catalog) oid with
      | None => false
      | Some d =>
          let visit := codec_visit fuel catalog (oid :: stack) in
          match td_kind d with
          | KPseudo => false
          | KBuiltin _ => supported oid
          | KEnum _ => true
          | KDomain base_oid _ _ => visit base_oid
          | KComposite fields => forallb (λ field, visit (tf_type_oid field)) fields
          | KArray element_oid _ => visit element_oid
          | KRange subtype_oid => visit subtype_oid
          | KMultiRange range_oid =>
              match find_oid (cat_types catalog) range_oid with
              | Some r => match td_kind r with KRange subtype_oid => visit subtype_oid | _ => false end
              | None => false
              end
          | KExtension extension _ _ _ => extension_supported catalog extension (td_name d)
          end
      end
  end.
Definition has_semantic_codec (catalog : SourceTypeCatalog) (oid : Z) : bool :=
  codec_visit (S (length (cat_types catalog))) catalog [] oid.

Definition captures_source_representation (catalog : SourceTypeCatalog) (oid : Z) (t : LogicalType) : bool :=
  match t with TRaw _ _ _ _ => true | _ => negb (has_semantic_codec catalog oid) end.
