(* ===== verification/PgCatalogSpec.v ===== *)
(** * Properties of the PostgreSQL type catalog

    A closure holds exactly the definitions its root reaches ([closure_exact]), the
    search always ends with it ([closure_total]), and the evidence a source attaches to
    a value passes the validation of the source contract ([closure_validates]), provided
    extension names are in lower case: the two sides order mixed-case names differently. *)
From S2P Require Import Prelude Text Utf8 Codec Model LogicalTypes PgCatalog.

Module Spec.
(** ** Reachable types *)
Section types.
Context (types : list SourceTypeDefinition).
Definition depends (a b : Z) : Prop := ∃ d, find_oid types a = Some d ∧ b ∈ type_definition_dependencies d.
Definition reachable : Z → Z → Prop := rtc depends.
Definition known (oid : Z) : Prop := is_Some (find_oid types oid).

Lemma find_oid_some oid d : find_oid types oid = Some d → d ∈ types ∧ td_oid d = oid.
Proof. intros H. apply List.find_some in H as [H1 H2]. split; [by apply list_elem_of_In|lia]. Qed.

(** The collected definitions are those of the OIDs seen. *)
Definition collected (st : list Z * list SourceTypeDefinition) : Prop :=
  NoDup st.1 ∧ td_oid <$> st.2 ≡ₚ st.1 ∧ Forall (λ d, find_oid types (td_oid d) = Some d) st.2.

Lemma collected_known st : collected st → Forall known st.1.
Proof.
  intros (_ & Hp & Hf). rewrite <- Hp. apply Forall_fmap. eapply Forall_impl; [exact Hf|].
  intros d Hd. by exists d.
Qed.
Lemma collected_bound st : collected st → (length st.1 ≤ length types)%nat.
Proof.
  intros (Hnd & Hp & Hf). rewrite <- Hp, length_fmap. rewrite <- Hp in Hnd. apply NoDup_fmap_1 in Hnd.
  apply submseteq_length, NoDup_submseteq; [done|]. intros d Hd.
  rewrite Forall_forall in Hf. by apply Hf, find_oid_some in Hd as [? _].
Qed.
Lemma collected_add oid d seen found :
  collected (seen, found) → oid ∉ seen → find_oid types oid = Some d → collected (oid :: seen, found ++ [d]).
Proof.
  intros (Hnd & Hp & Hf) Hn Hd. apply find_oid_some in Hd as Hd'. destruct Hd' as [_ <-]. cbn in *. split_and!; cbn.
  - by constructor.
  - rewrite fmap_app. cbn. rewrite Hp. symmetry. apply Permutation_cons_append.
  - apply Forall_app. split; [done|]. by constructor.
Qed.

(** What a (partial) search from some roots has done to its state. *)
Definition searched (roots : list Z) (st st' : list Z * list SourceTypeDefinition) : Prop :=
  collected st' ∧ st.1 ⊆ st'.1 ∧ roots ⊆ st'.1
  ∧ (∀ o, o ∈ st'.1 → o ∈ st.1 ∨ ∃ r, r ∈ roots ∧ reachable r o)
  ∧ (∀ o p, o ∈ st'.1 → o ∉ st.1 → depends o p → p ∈ st'.1).

Lemma searched_nil st : collected st → searched [] st st.
Proof. intros H. split_and!; [done..|set_solver| |]; [auto|set_solver]. Qed.
Lemma searched_cons r roots st st1 st2 :
  searched [r] st st1 → searched roots st1 st2 → searched (r :: roots) st st2.
Proof.
  intros (_ & Hs1 & Hr1 & Hn1 & Hd1) (Hc & Hs2 & Hr2 & Hn2 & Hd2). split_and!; [done|set_solver|set_solver| |].
  - intros o [Ho|(r' & ? & ?)]%Hn2.
    + apply Hn1 in Ho as [Ho|(r' & ?%list_elem_of_singleton & ?)]; [auto|]. subst. right. exists r. set_solver.
    + right. exists r'. set_solver.
  - intros o p Ho Hno Hdep. destruct (decide (o ∈ st1.1)) as [Ho1|Ho1].
    + apply Hs2. by eapply Hd1.
    + by eapply Hd2.
Qed.

Lemma visit_each_searched f oids st st' :
  collected st →
  (∀ oid s s', oid ∈ oids → collected s → st.1 ⊆ s.1 → f oid s = Ok s' → searched [oid] s s') →
  visit_each f oids st = Ok st' → searched oids st st'.
Proof.
  revert st. induction oids as [|oid oids IH]; intros st Hc Hf H; cbn in H.
  - injection H as <-. by apply searched_nil.
  - apply bind_ok in H as (st1 & H1 & H2). assert (searched [oid] st st1) as Hs1.
    { apply Hf; [left|done|done|done]. }
    eapply searched_cons; [exact Hs1|]. destruct Hs1 as (Hc1 & Hs & _). apply IH; [done| |done].
    intros o s s' Ho Hcs Hsub. apply Hf; [by right|done|set_solver].
Qed.

Lemma visit_searched fuel oid st st' :
  collected st → visit fuel types oid st = Ok st' → searched [oid] st st'.
Proof.
  revert oid st st'. induction fuel as [|fuel IH]; intros oid [seen found] st' Hc H; cbn in H;
    destruct (bool_decide (oid ∈ seen)) eqn:Hin; try done.
  - apply bool_decide_eq_true in Hin. injection H as <-. split_and!; [done|done|set_solver|auto|done].
  - apply bool_decide_eq_true in Hin. injection H as <-. split_and!; [done|done|set_solver|auto|done].
  - apply bool_decide_eq_false in Hin. apply bind_ok in H as (d & Hd%ok_or_ok & H).
    apply visit_each_searched in H as (Hc' & Hs & Hr & Hn & Hdep); [| |intros; by eapply IH].
    2: by apply collected_add.
    cbn in *. split_and!; [done|set_solver|set_solver| |].
    + intros o [Ho|(r & Hrd & Hreach)]%Hn.
      * apply elem_of_cons in Ho as [->|Ho]; [|auto]. right. exists oid. split; [set_solver|apply rtc_refl].
      * right. exists oid. split; [set_solver|]. eapply rtc_l; [|exact Hreach]. by exists d.
    + intros o p Ho Hno Hop. destruct (decide (o = oid)) as [->|Hne].
      * destruct Hop as (d' & Hd' & Hp). simplify_eq. set_solver.
      * eapply Hdep; [exact Ho|set_solver|exact Hop].
Qed.

(** The fuel is enough: each level has seen one more definition. *)
Lemma visit_each_total f oids st :
  collected st →
  (∀ oid s, oid ∈ oids → collected s → st.1 ⊆ s.1 → ∃ s', f oid s = Ok s' ∧ collected s' ∧ s.1 ⊆ s'.1) →
  ∃ st', visit_each f oids st = Ok st'.
Proof.
  revert st. induction oids as [|oid oids IH]; intros st Hc Hf; cbn; [by eexists|].
  destruct (Hf oid st) as (s' & -> & Hc' & Hs'); [left|done..|]. cbn. apply IH; [done|].
  intros o s Ho Hcs Hsub. apply Hf; [by right|done|set_solver].
Qed.
Lemma visit_total fuel oid st :
  collected st → (length types < fuel + length st.1)%nat → (∀ o, reachable oid o → known o) →
  ∃ st', visit fuel types oid st = Ok st'.
Proof.
  revert oid st. induction fuel as [|fuel IH]; intros oid st Hc Hf Hk.
  - apply collected_bound in Hc. lia.
  - destruct st as [seen found]. cbn. destruct (bool_decide (oid ∈ seen)) eqn:Hin; [by eexists|].
    apply bool_decide_eq_false in Hin. destruct (Hk oid (rtc_refl _ _)) as [d Hd]. rewrite Hd. cbn.
    apply visit_each_total; [by apply collected_add|]. intros o s Ho Hcs Hsub. cbn in Hsub.
    destruct (IH o s) as [s' Hs'].
    + done.
    + assert (length (oid :: seen) ≤ length s.1)%nat; [|cbn in *; lia].
      destruct Hc as [Hnd _]. apply submseteq_length, NoDup_submseteq; [by constructor|set_solver].
    + intros p Hp. apply Hk. eapply rtc_l; [|exact Hp]. by exists d.
    + exists s'. split; [done|]. apply visit_searched in Hs' as (? & ? & _); done.
Qed.
End types.

(** ** The worklist of the validation *)
Definition pending_cost (seen : list Z) (types : list SourceTypeDefinition) : nat :=
  foldr (λ d n, (if bool_decide (td_oid d ∈ seen) then 0 else length (type_definition_dependencies d)) + n)%nat 0%nat types.
Lemma pending_cost_nil types : pending_cost [] types = dependency_count types.
Proof. induction types as [|d types IH]; [done|]. cbn. rewrite bool_decide_eq_false_2 by apply not_elem_of_nil. by f_equal. Qed.
Lemma pending_cost_mono oid seen types : (pending_cost (oid :: seen) types ≤ pending_cost seen types)%nat.
Proof.
  unfold pending_cost. induction types as [|d types IH]; cbn; [done|].
  destruct (decide (td_oid d ∈ seen)); [rewrite !bool_decide_eq_true_2 by set_solver; lia|].
  rewrite (bool_decide_eq_false_2 (td_oid d ∈ seen)) by done. case_bool_decide; lia.
Qed.
Lemma pending_cost_add d seen types :
  d ∈ types → td_oid d ∉ seen →
  (pending_cost (td_oid d :: seen) types + length (type_definition_dependencies d) ≤ pending_cost seen types)%nat.
Proof.
  intros Hd Hn. induction types as [|d' types IH]; [by apply elem_of_nil in Hd|].
  pose proof (pending_cost_mono (td_oid d) seen types) as Hm. unfold pending_cost in *. cbn.
  apply elem_of_cons in Hd as [->|Hd].
  - rewrite (bool_decide_eq_true_2 (td_oid d' ∈ td_oid d' :: seen)) by left. rewrite bool_decide_eq_false_2 by done. lia.
  - specialize (IH Hd). destruct (decide (td_oid d' ∈ seen)).
    + rewrite !bool_decide_eq_true_2 by set_solver. lia.
    + rewrite (bool_decide_eq_false_2 (td_oid d' ∈ seen)) by done. case_bool_decide; lia.
Qed.

Lemma rev_elem {A} (x : A) l : x ∈ rev l ↔ x ∈ l.
Proof. by rewrite !list_elem_of_In, <- in_rev. Qed.
Lemma reach_complete types fuel seen pending :
  NoDup seen → Forall (known types) seen → Forall (known types) pending →
  (∀ o p, depends types o p → known types p) →
  (∀ o p, o ∈ seen → depends types o p → p ∈ seen ∨ p ∈ pending) →
  (length pending + pending_cost seen types < fuel)%nat →
  ∃ all, reach fuel types seen pending = Some all ∧ NoDup all ∧ Forall (known types) all ∧ seen ⊆ all ∧ pending ⊆ all
    ∧ ∀ o p, o ∈ all → depends types o p → p ∈ all.
Proof.
  intros Hnd Hk Hp Hdep Hcl. revert seen pending Hnd Hk Hp Hcl.
  induction fuel as [|fuel IH]; intros seen pending Hnd Hk Hp Hcl Hf; [lia|]. cbn.
  destruct pending as [|oid pending].
  - exists seen. split_and!; [done..|set_solver|]. intros o p Ho Hop. destruct (Hcl o p Ho Hop) as [?|Hx]; [done|].
    by apply elem_of_nil in Hx.
  - apply Forall_cons in Hp as [[d Hd] Hp]. destruct (bool_decide (oid ∈ seen)) eqn:Hin.
    + apply bool_decide_eq_true in Hin. destruct (IH seen pending) as (all & -> & ? & ? & ? & ? & ?); [done..| |cbn in Hf; lia|].
      { intros o p Ho Hop. destruct (Hcl o p Ho Hop) as [?|[->|?]%elem_of_cons]; auto. }
      exists all. split_and!; [done..|set_solver|done].
    + apply bool_decide_eq_false in Hin. rewrite Hd. apply find_oid_some in Hd as Hd'. destruct Hd' as [Hdt Ho].
      destruct (IH (oid :: seen) (rev (type_definition_dependencies d) ++ pending)) as (all & -> & ? & ? & ? & Hpa & ?).
      * by constructor.
      * constructor; [by exists d|done].
      * apply Forall_app. split; [|done]. apply Forall_forall. intros p Hpd. rewrite rev_elem in Hpd.
        apply (Hdep oid). by exists d.
      * intros o p [->|Hos]%elem_of_cons Hop.
        -- destruct Hop as (d' & Hd' & Hpd). simplify_eq. right. apply elem_of_app. left. by rewrite rev_elem.
        -- destruct (Hcl o p Hos Hop) as [?|[->|?]%elem_of_cons]; [left; set_solver|left; set_solver|right; set_solver].
      * pose proof (pending_cost_add d seen types Hdt) as Hc. rewrite <- Ho in *. specialize (Hc Hin).
        rewrite length_app, length_rev. cbn in Hf. lia.
      * exists all. split_and!; [done..|set_solver|set_solver|done].
Qed.

(** ** Ordered lists *)
Lemma windows_avoid_sorted {A} (R : relation A) (bad : A → A → bool) l :
  (∀ x y, R x y → bad x y = false) → Sorted R l → windows_avoid bad l = true.
Proof.
  intros HR. induction 1 as [|x l Hl IH Hx]; [done|]. destruct l as [|y l]; [done|].
  inversion Hx; subst. cbn in *. by rewrite (HR x y), IH.
Qed.

Definition strictly (x y : string) : Prop := String.le x y ∧ x ≠ y.
Lemma dedup_by_head {A} (same : A → A → bool) l : head (dedup_by same l) = head l.
Proof. destruct l as [|x l]; [done|]. cbn. by repeat case_match. Qed.
Lemma dedup_strictly l :
  Sorted String.le l → Sorted strictly (dedup_by (λ a b, bool_decide (a = b)) l).
Proof.
  induction 1 as [|x l Hl IH Hx]; [constructor|]. cbn.
  pose proof (dedup_by_head (λ a b, bool_decide (a = b)) l) as Hh.
  destruct (dedup_by _ l) as [|y k]; [repeat constructor|].
  destruct l as [|z l]; cbn in Hh; [done|]. simplify_eq. inversion Hx; subst. case_bool_decide; [by subst|].
  constructor; [done|]. constructor. by split.
Qed.
Lemma dedup_elem x l : x ∈ dedup_by (λ a b : string, bool_decide (a = b)) l ↔ x ∈ l.
Proof.
  induction l as [|y l IH]; cbn; [done|]. destruct (dedup_by _ l) as [|z k]; [set_solver|].
  case_bool_decide; set_solver.
Qed.
Lemma dedup_by_ext {A} (f g : A → A → bool) l :
  (∀ x y, x ∈ l → y ∈ l → f x y = g x y) → dedup_by f l = dedup_by g l ∧ dedup_by f l ⊆ l.
Proof.
  induction l as [|x l IH]; cbn; [done|]. intros H. destruct IH as [IH Hs]; [set_solver|]. rewrite <- IH.
  destruct (dedup_by f l) as [|y k]; [split; set_solver|]. rewrite <- (H y x) by set_solver.
  split; [done|]. destruct (f y x); set_solver.
Qed.
Lemma sort_by_ext {A K} (R : relation K) `{!RelDecision R} (f g : A → K) l :
  (∀ x, x ∈ l → f x = g x) → sort_by R f l = sort_by R g l.
Proof.
  induction l as [|x l IH]; [done|]. intros H.
  change (insert_by R f x (sort_by R f l) = insert_by R g x (sort_by R g l)). rewrite IH by set_solver.
  assert (∀ y, y ∈ sort_by R g l → f y = g y) as Hs.
  { intros y Hy. rewrite sort_by_perm in Hy. set_solver. }
  revert Hs. generalize (sort_by R g l). clear IH. induction l0 as [|z k IH]; [done|]. intros Hs. cbn.
  rewrite (H x), (Hs z) by set_solver. case_decide; [done|]. f_equal. apply IH. set_solver.
Qed.

(** Names in lower case are ordered alike on both sides. *)
Lemma required_extensions_lower types :
  Forall (λ name, to_lower name = name) (omap extension_of types) → required_extensions types = extension_names types.
Proof.
  intros H. rewrite Forall_forall in H. unfold required_extensions, extension_names.
  rewrite (sort_by_ext _ to_lower id) by (intros x Hx; by apply H).
  apply dedup_by_ext. intros x y Hx Hy. rewrite sort_by_perm in Hx. rewrite sort_by_perm in Hy.
  unfold eq_ignore_case. by rewrite (H x), (H y).
Qed.

Lemma each_collected_ok {A B} (f : A → result string B) l k : collect f l = Ok k ↔ Forall2 (λ x y, f x = Ok y) l k.
Proof.
  revert k. induction l as [|x l IH]; intros k; cbn.
  - split; [intros [= <-]; constructor|by inversion 1].
  - rewrite bind_ok. split.
    + intros (y & Hy & H). apply bind_ok in H as (k' & Hk & [= <-]). constructor; [done|by apply IH].
    + inversion 1; subst. eexists. split; [done|]. apply bind_ok. eexists. split; [by apply IH|done].
Qed.
Lemma collect_total {A B} (f : A → result string B) l : Forall (λ x, ∃ y, f x = Ok y) l → ∃ k, collect f l = Ok k.
Proof. induction 1 as [|x l [y Hy] _ [k Hk]]; cbn; [by eexists|]. rewrite Hy. cbn. rewrite Hk. by eexists. Qed.

(** ** The closure *)
Section closure.
Context `{SHA : Sha256} `{CJ : CatalogJson}.

(** What the closure promises about its definitions. *)
Definition exact_closure (types : list SourceTypeDefinition) (root : Z) (found : list SourceTypeDefinition) : Prop :=
  (∀ d, d ∈ found ↔ reachable types root (td_oid d) ∧ find_oid types (td_oid d) = Some d)
  ∧ Sorted (λ a b, td_oid a < td_oid b) found
  ∧ ∀ oid, reachable types root oid → known types oid.

Lemma sorted_strictly (l : list SourceTypeDefinition) :
  NoDup (td_oid <$> l) → Sorted (λ a b, td_oid a < td_oid b) (sort_by Z.le td_oid l).
Proof.
  intros Hnd. rewrite <- (sort_by_perm Z.le td_oid l) in Hnd.
  assert (Sorted (key_le Z.le td_oid) (sort_by Z.le td_oid l)) as Hs by apply sort_by_sorted, _.
  induction Hs as [|x k Hs IH Hx]; [constructor|]. cbn in Hnd. apply NoDup_cons in Hnd as [Hn Hnd].
  constructor; [by apply IH|]. destruct Hx as [|y k Hxy]; constructor. unfold key_le in Hxy.
  assert (td_oid x ≠ td_oid y); [|lia]. cbn in Hn. set_solver.
Qed.

Lemma visited_exact types root seen found :
  visit (S (length types)) types root ([], []) = Ok (seen, found) →
  exact_closure types root (sort_by Z.le td_oid found) ∧ NoDup (td_oid <$> found).
Proof.
  intros H. apply visit_searched in H as ((Hnd & Hp & Hf) & _ & Hr & Hn & Hd).
  2: { split_and!; cbn; [constructor|done|constructor]. }
  cbn in *. assert (∀ o, reachable types root o → o ∈ seen) as Hreach.
  { intros o Ho. assert (root ∈ seen) as Hroot by set_solver. clear Hr Hn.
    induction Ho as [o|a b c Hab _ IH]; [done|]. apply IH, (Hd a); [done|set_solver|done]. }
  assert (∀ o, o ∈ seen → reachable types root o) as Hback.
  { intros o [Ho|(r & ?%list_elem_of_singleton & ?)]%Hn; [set_solver|by subst]. }
  rewrite Forall_forall in Hf. split; [split_and!|by rewrite Hp].
  - intros d. rewrite sort_by_perm. split.
    + intros Hin. split; [|by apply Hf]. apply Hback. rewrite <- Hp. by apply list_elem_of_fmap_2.
    + intros [Ho Hfind]. apply Hreach in Ho. rewrite <- Hp in Ho. apply list_elem_of_fmap in Ho as (d' & He & Hd').
      apply Hf in Hd' as Hf'. rewrite <- He in Hf'. by simplify_eq.
  - apply sorted_strictly. by rewrite Hp.
  - intros o Ho. apply Hreach in Ho. rewrite <- Hp in Ho. apply list_elem_of_fmap in Ho as (d & -> & Hin).
    exists d. by apply Hf.
Qed.

(** A closure that is found holds what is reached. *)
Lemma closure_sound (catalog : SourceTypeCatalog) (root : Z) (cl : SourceTypeDefinitionClosure) :
  definition_closure catalog root = Ok cl →
  exact_closure (cat_types catalog) root (cl_types cl)
  ∧ Forall2 (λ name e, find_extension catalog name = Some e) (extension_names (cl_types cl)) (cl_extensions cl).
Proof.
  intros H. unfold definition_closure in H. apply bind_ok in H as ([seen found] & Hv & H). cbv zeta in H.
  apply bind_ok in H as (exts & He%each_collected_ok & [= <-]). cbn [cl_types cl_extensions snd] in *.
  split; [by eapply visited_exact|]. eapply Forall2_impl; [exact He|]. intros x y. by rewrite ok_or_ok.
Qed.

(** C32: The closure of a type is found exactly when every type it reaches is in the
    catalog and every extension they come from has its evidence; it holds the
    definitions reached, each once and by ascending OID, and one entry for every
    extension. *)
Theorem closure_exact (catalog : SourceTypeCatalog) (root : Z) :
  (∀ cl, definition_closure catalog root = Ok cl →
     exact_closure (cat_types catalog) root (cl_types cl)
     ∧ Forall2 (λ name e, find_extension catalog name = Some e) (extension_names (cl_types cl)) (cl_extensions cl))
  ∧ ((∃ cl, definition_closure catalog root = Ok cl) ↔
     (∀ oid, reachable (cat_types catalog) root oid → known (cat_types catalog) oid)
     ∧ ∀ d name, reachable (cat_types catalog) root (td_oid d) → find_oid (cat_types catalog) (td_oid d) = Some d →
         extension_of d = Some name → is_Some (find_extension catalog name)).
Proof.
  split; [by intros cl; apply closure_sound|]. split.
  - intros [cl H]. apply closure_sound in H as [(Hex & Hs & Hk) Hf]. split; [done|]. intros d name Hr Hd Hn.
    assert (name ∈ extension_names (cl_types cl)) as Hin.
    { apply dedup_elem. rewrite sort_by_perm. apply list_elem_of_omap. exists d. split; [|done]. by apply Hex. }
    apply list_elem_of_lookup in Hin as [i Hi]. destruct (Forall2_lookup_l _ _ _ _ _ Hf Hi) as (e & _ & He). by exists e.
  - intros [Hk He]. unfold definition_closure.
    destruct (visit_total (cat_types catalog) (S (length (cat_types catalog))) root ([], [])) as [[seen found] Hv].
    { split_and!; cbn; [constructor|done|constructor]. }
    { cbn. lia. }
    { done. }
    rewrite Hv. cbn [mbind result_bind]. apply visited_exact in Hv as [(Hex & _) _].
    destruct (collect_total (λ name, ok_or "PostgreSQL extension evidence is missing"%string (find_extension catalog name))
      (extension_names (sort_by Z.le td_oid found))) as [exts Hc].
    { apply Forall_forall. intros name Hin. unfold extension_names in Hin. rewrite dedup_elem, sort_by_perm in Hin.
      apply list_elem_of_omap in Hin as (d & Hd & Hn). apply Hex in Hd as [Hr Hd].
      destruct (He d name Hr Hd Hn) as [e Hf]. exists e. by rewrite Hf. }
    cbn [snd]. rewrite Hc. by eexists.
Qed.

Lemma Forall2_with {A B} (P : A → Prop) (Q : A → B → Prop) l k :
  Forall P l → Forall2 Q l k → Forall2 (λ x y, P x ∧ Q x y) l k.
Proof. intros HP HQ. induction HQ; inversion HP; subst; constructor; auto. Qed.
Lemma existsb_none {A} (f : A → bool) l : Forall (λ x, f x = false) l → existsb f l = false.
Proof. induction 1 as [|x l Hx _ IH]; [done|]. cbn. by rewrite Hx. Qed.
Lemma exact_find types root found oid :
  exact_closure types root found → reachable types root oid → find_oid found oid = find_oid types oid.
Proof.
  intros (Hex & _ & Hk) Hr. destruct (Hk oid Hr) as [d Hd]. rewrite Hd. apply find_oid_some in Hd as Ho.
  destruct Ho as [_ Ho]. assert (d ∈ found) as Hin. { apply Hex. by rewrite Ho. }
  destruct (find_oid found oid) as [d'|] eqn:Hd'.
  - apply find_oid_some in Hd' as [Hin' Ho']. apply Hex in Hin' as [_ Hd']. rewrite Ho' in Hd'. congruence.
  - apply list_elem_of_In in Hin. apply (List.find_none _ _ Hd') in Hin. rewrite Ho, Z.eqb_refl in Hin. done.
Qed.

Lemma exact_nodup types root found : exact_closure types root found → NoDup (td_oid <$> found).
Proof.
  intros (_ & Hs & _). apply Sorted_StronglySorted in Hs; [|intros x y z ??; lia].
  induction Hs as [|x l Hl IH Hx]; [constructor|]. cbn. constructor; [|done]. intros Hin.
  apply list_elem_of_fmap in Hin as (y & Hxy & Hy). rewrite Forall_forall in Hx. specialize (Hx y Hy). lia.
Qed.

(** The worklist finds every definition of an exact closure. *)
Lemma exact_reached types root found :
  exact_closure types root found →
  ∃ all, reach (S (S (dependency_count found))) found [] [root] = Some all ∧ length all = length found.
Proof.
  intros Hex. assert (Hex' := Hex). destruct Hex' as (Hin & _ & Hk).
  assert (∀ a b, reachable types root a → depends found a b → depends types a b) as Hdep.
  { intros a b Ha (d & Hd & Hb). rewrite (exact_find _ _ _ _ Hex Ha) in Hd. by exists d. }
  assert (∀ o, known found o → reachable types root o) as Hkr.
  { intros o [d Hd]. apply find_oid_some in Hd as [Hd <-]. by apply Hin. }
  assert (∀ o, reachable types root o → known found o) as Hrk.
  { intros o Ho. destruct (Hk o Ho) as [d Hd]. exists d. by rewrite (exact_find _ _ _ _ Hex Ho). }
  destruct (reach_complete found (S (S (dependency_count found))) [] [root]) as (all & Ha & Hnd & Hka & _ & Hr & Hcl).
  - constructor.
  - constructor.
  - constructor; [|constructor]. apply Hrk, rtc_refl.
  - intros o p Hop. assert (known found o) as Ho by (destruct Hop as (d & ? & _); by exists d).
    apply Hrk. eapply rtc_r; [by apply Hkr|]. apply Hdep; [by apply Hkr|done].
  - set_solver.
  - rewrite pending_cost_nil. cbn. lia.
  - exists all. split; [done|]. assert (∀ o, reachable types root o → o ∈ all) as Hall.
    { intros o Ho. assert (root ∈ all) as Hroot by set_solver. unfold reachable in Ho.
      apply rtc_ind_r with (P := λ o, o ∈ all) (z := o) in Ho; [done|done|]. intros y z Hy Hyz Hya.
      apply (Hcl y); [done|]. destruct Hyz as (d & Hd & Hz). exists d. by rewrite (exact_find _ _ _ _ Hex Hy). }
    rewrite <- (length_fmap td_oid found). apply Permutation_length, NoDup_Permutation; [done|by eapply exact_nodup|].
    intros o. split.
    + rewrite Forall_forall in Hka. intros Ho. destruct (Hka o Ho) as [d Hd]. apply find_oid_some in Hd as [Hd <-].
      by apply list_elem_of_fmap_2.
    + intros Ho. apply list_elem_of_fmap in Ho as (d & -> & Hd). apply Hall. by apply Hin.
Qed.

(** The evidence attached to a captured value passes the validation of the source
    contract: the closure of any type of a catalog whose digests are right is accepted,
    when the extensions its types come from are installed, with a version and a schema,
    and have their names in lower case. *)
Theorem closure_validates (catalog : SourceTypeCatalog) (root : Z) (cl : SourceTypeDefinitionClosure) :
  definition_closure catalog root = Ok cl →
  Forall (λ d, td_definition_digest d = expected_definition_digest d) (cat_types catalog) →
  Forall (λ name, to_lower name = name ∧ ∀ e, find_extension catalog name = Some e → extension_invalid e = false)
    (omap extension_of (cat_types catalog)) →
  validate_type_definition_closure cl root = true.
Proof.
  intros H Hdig Hused. rewrite !Forall_forall in *. apply closure_sound in H as [Hex Hnames].
  assert (∀ d, d ∈ cl_types cl → d ∈ cat_types catalog) as Hsub.
  { intros d Hd. apply Hex in Hd as [_ Hd]. by apply find_oid_some in Hd as [? _]. }
  assert (required_extensions (cl_types cl) = extension_names (cl_types cl)) as Hreq.
  { apply required_extensions_lower, Forall_forall. intros name Hn. apply Hused.
    apply list_elem_of_omap in Hn as (d & Hd & Hn). apply list_elem_of_omap. exists d. auto. }
  assert (∀ name, name ∈ extension_names (cl_types cl) → name ∈ omap extension_of (cat_types catalog)) as Hnamed.
  { intros name Hn. unfold extension_names in Hn. rewrite dedup_elem, sort_by_perm in Hn.
    apply list_elem_of_omap in Hn as (d & Hd & Hn). apply list_elem_of_omap. exists d. auto. }
  assert (Forall2 (λ name e, to_lower (ext_name e) = name ∧ to_lower name = name)
            (extension_names (cl_types cl)) (cl_extensions cl)) as Hpaired.
  { apply (Forall2_with (λ name, to_lower name = name)) in Hnames.
    { eapply Forall2_impl; [exact Hnames|]. intros name e [Hl Hf]. split; [|done]. apply List.find_some in Hf as [_ Hf].
      unfold eq_ignore_case in Hf. apply bool_decide_eq_true in Hf. by rewrite Hl in Hf. }
    apply Forall_forall. intros name Hn. by apply Hused, Hnamed. }
  unfold validate_type_definition_closure. cbv zeta. rewrite Hreq.
  rewrite (bool_decide_eq_true_2 (NoDup _)) by (by eapply exact_nodup).
  assert (Validate.is_some (find_oid (cl_types cl) root) = true) as ->.
  { destruct Hex as (Hin & Hs & Hk). rewrite (exact_find _ _ _ root (conj Hin (conj Hs Hk))) by apply rtc_refl.
    by destruct (Hk root (rtc_refl _ _)) as [d ->]. }
  assert (windows_avoid (λ a b, td_oid b <=? td_oid a) (cl_types cl) = true) as ->.
  { destruct Hex as (_ & Hs & _). eapply windows_avoid_sorted; [|exact Hs]. cbn. intros x y Hxy. by apply Z.leb_gt. }
  cbn [negb orb]. assert (existsb (λ d, negb (bool_decide (td_definition_digest d = expected_definition_digest d)))
    (cl_types cl) = false) as ->.
  { apply existsb_none, Forall_forall. intros d Hd. rewrite bool_decide_eq_true_2; [done|]. by apply Hdig, Hsub. }
  rewrite (bool_decide_eq_true_2 (length _ = length _)) by (by eapply Forall2_length).
  assert (existsb extension_invalid (cl_extensions cl) = false) as ->.
  { apply existsb_none, Forall_forall. intros e He. apply list_elem_of_lookup in He as [i Hi].
    destruct (Forall2_lookup_r _ _ _ _ _ Hnames Hi) as (name & Hn & Hf). apply list_elem_of_lookup_2 in Hn.
    by eapply (Hused name); [apply Hnamed|]. }
  assert (windows_avoid extensions_unordered (cl_extensions cl) = true) as ->.
  { assert (Sorted strictly (extension_names (cl_types cl))) as Hs by (apply dedup_strictly, (sort_by_sorted String.le id)).
    clear -Hs Hpaired. induction Hpaired as [|n e ns es [Hn _] Hp IH]; [done|]. inversion Hs as [|?? Hs' Hx]; subst.
    destruct Hp as [|n' e' ns es [Hn' _] Hp]; [done|]. cbn in IH |- *. rewrite IH by done. apply andb_true_iff. split; [|done].
    unfold extensions_unordered. rewrite bool_decide_eq_false_2; [done|]. inversion Hx as [|?? [Hle Hne]]; subst.
    intros Hge. by apply Hne, (anti_symm String.le). }
  assert (existsb (λ p : string * SourceExtension, negb (eq_ignore_case p.1 (ext_name p.2)))
     (combine (extension_names (cl_types cl)) (cl_extensions cl)) = false) as ->.
  { clear -Hpaired. induction Hpaired as [|n e ns es [Hn Hl] Hp IH]; [done|]. cbn. rewrite IH, orb_false_r.
    unfold eq_ignore_case. by rewrite bool_decide_eq_true_2 by congruence. }
  cbn [negb orb]. destruct (exact_reached _ _ _ Hex) as (all & -> & ->). by apply bool_decide_eq_true_2.
Qed.
End closure.

(** ** Types with a codec *)
Section codec.
Context (catalog : SourceTypeCatalog).
Notation types := (cat_types catalog).

(** A type has a codec when it is built, in finitely many steps, from types the value
    decoder knows. *)
Inductive has_codec : Z → Prop :=
| codec_builtin oid d native : find_oid types oid = Some d → td_kind d = KBuiltin native → oid ∈ SUPPORTED_OIDS → has_codec oid
| codec_enum oid d labels : find_oid types oid = Some d → td_kind d = KEnum labels → has_codec oid
| codec_domain oid d base cs nn : find_oid types oid = Some d → td_kind d = KDomain base cs nn → has_codec base → has_codec oid
| codec_composite oid d fields : find_oid types oid = Some d → td_kind d = KComposite fields →
    (∀ field, field ∈ fields → has_codec (tf_type_oid field)) → has_codec oid
| codec_array oid d element delimiter : find_oid types oid = Some d → td_kind d = KArray element delimiter →
    has_codec element → has_codec oid
| codec_range oid d subtype : find_oid types oid = Some d → td_kind d = KRange subtype → has_codec subtype → has_codec oid
| codec_multirange oid d range r subtype : find_oid types oid = Some d → td_kind d = KMultiRange range →
    find_oid types range = Some r → td_kind r = KRange subtype → has_codec subtype → has_codec oid
| codec_extension oid d ext codec encoding t : find_oid types oid = Some d → td_kind d = KExtension ext codec encoding t →
    extension_supported catalog ext (td_name d) = true → has_codec oid.

(** One step of the search: the types [oid] needs, or [None] when it can have no codec. *)
Definition needs (oid : Z) : option (list Z) :=
  d ← find_oid types oid;
  match td_kind d with
  | KPseudo => None
  | KBuiltin _ => if supported oid then Some [] else None
  | KEnum _ => Some []
  | KDomain base_oid _ _ => Some [base_oid]
  | KComposite fields => Some (tf_type_oid <$> fields)
  | KArray element_oid _ => Some [element_oid]
  | KRange subtype_oid => Some [subtype_oid]
  | KMultiRange range_oid =>
      r ← find_oid types range_oid;
      match td_kind r with KRange subtype_oid => Some [subtype_oid] | _ => None end
  | KExtension extension _ _ _ => if extension_supported catalog extension (td_name d) then Some [] else None
  end.
Lemma forallb_fmap {A B} (f : B → bool) (g : A → B) l : forallb (λ x, f (g x)) l = forallb f (g <$> l).
Proof. by induction l as [|x l IH]; cbn; [|rewrite IH]. Qed.
Lemma codec_visit_step fuel stack oid :
  codec_visit (S fuel) catalog stack oid
  = negb (bool_decide (oid ∈ stack))
    && match needs oid with Some deps => forallb (codec_visit fuel catalog (oid :: stack)) deps | None => false end.
Proof.
  cbn. unfold needs. destruct (bool_decide (oid ∈ stack)); [done|]. destruct (find_oid types oid) as [d|]; [|done]. cbn.
  destruct (td_kind d); cbn; rewrite ?andb_true_r; try done.
  - by destruct (supported oid).
  - by rewrite forallb_fmap.
  - destruct (find_oid types range_oid) as [r|]; [|done]. cbn. by destruct (td_kind r); cbn; rewrite ?andb_true_r.
  - by destruct (extension_supported _ _ _).
Qed.
Lemma has_codec_rule (P : Z → Prop) :
  (∀ oid deps, needs oid = Some deps → (∀ p, p ∈ deps → has_codec p ∧ P p) → P oid) → ∀ oid, has_codec oid → P oid.
Proof.
  intros HP. induction 1 as [? ? ? Hf Hk Hin|? ? ? Hf Hk|? ? ? ? ? Hf Hk|? ? ? Hf Hk Hs IH|? ? ? ? Hf Hk|? ? ? Hf Hk
    |? ? ? ? ? Hf Hk Hf2 Hr|? ? ? ? ? ? Hf Hk He].
  all: eapply HP; [unfold needs; rewrite Hf; cbn; rewrite Hk; cbn|].
  all: try (reflexivity || (intros p ->%list_elem_of_singleton; done)).
  - unfold supported. rewrite bool_decide_eq_true_2 by done. reflexivity.
  - by intros p ?%elem_of_nil.
  - by intros p ?%elem_of_nil.
  - intros p (field & -> & Hp)%list_elem_of_fmap. auto.
  - rewrite Hf2. cbn. rewrite Hr. reflexivity.
  - by intros p ->%list_elem_of_singleton.
  - rewrite He. reflexivity.
  - by intros p ?%elem_of_nil.
Qed.
Lemma has_codec_needs oid : has_codec oid ↔ ∃ deps, needs oid = Some deps ∧ ∀ p, p ∈ deps → has_codec p.
Proof.
  unfold needs. split.
  - apply (has_codec_rule (λ oid, ∃ deps, needs oid = Some deps ∧ ∀ p, p ∈ deps → has_codec p)).
    intros o deps Hn Hd. exists deps. split; [done|]. intros p Hp. by apply Hd.
  - intros (deps & H & Hd). destruct (find_oid types oid) as [d|] eqn:Hf; [|done]. cbn in H.
    destruct (td_kind d) eqn:Hk; simplify_eq.
    + unfold supported in H. case_bool_decide; [|done]. by eapply codec_builtin.
    + by eapply codec_enum.
    + eapply codec_domain; [done..|]. apply Hd. left.
    + eapply codec_composite; [done..|]. intros field Hin. apply Hd. by apply list_elem_of_fmap_2.
    + eapply codec_array; [done..|]. apply Hd. left.
    + eapply codec_range; [done..|]. apply Hd. left.
    + destruct (find_oid types range_oid) as [r|] eqn:Hr; [|done]. cbn in H. destruct (td_kind r) eqn:Hkr; simplify_eq.
      eapply codec_multirange; [done..|]. apply Hd. left.
    + case_match; [|done]. by eapply codec_extension.
Qed.

(** The search without the stack. *)
Fixpoint plain_visit (fuel : nat) (oid : Z) : bool :=
  match fuel with
  | O => false
  | S fuel => match needs oid with Some deps => forallb (plain_visit fuel) deps | None => false end
  end.
Lemma plain_visit_mono n oid : plain_visit n oid = true → plain_visit (S n) oid = true.
Proof.
  revert oid. induction n as [|n IH]; intros oid H; [done|]. cbn in H |- *. destruct (needs oid) as [deps|]; [|done].
  rewrite !forallb_forall in H |- *. intros p Hp. apply IH. by apply H.
Qed.
Lemma plain_visit_codec n oid : plain_visit n oid = true → has_codec oid.
Proof.
  revert oid. induction n as [|n IH]; intros oid H; [done|]. cbn in H. destruct (needs oid) as [deps|] eqn:Hn; [|done].
  apply has_codec_needs. exists deps. split; [done|]. intros p Hp. apply IH. rewrite forallb_forall in H. apply H.
  by apply list_elem_of_In.
Qed.
Lemma codec_plain_visit oid : has_codec oid → ∃ n, plain_visit n oid = true.
Proof.
  assert (∀ deps, (∀ p, p ∈ deps → ∃ n, plain_visit n p = true) → ∃ n, forallb (plain_visit n) deps = true) as Hall.
  { induction deps as [|p deps IH]; intros H; [by exists 0%nat|]. destruct (H p) as [n Hn]; [left|].
    destruct IH as [m Hm]; [intros q Hq; apply H; by right|]. exists (n + m)%nat. cbn. apply andb_true_iff. split.
    - clear -Hn. induction m as [|m IH]; [by rewrite Nat.add_0_r|]. rewrite Nat.add_succ_r. by apply plain_visit_mono.
    - clear -Hm. induction n as [|n IH]; [done|]. rewrite forallb_forall in IH |- *. intros q Hq. by apply plain_visit_mono, IH. }
  intros H. induction H as [o deps Hn Hd] using has_codec_rule.
  destruct (Hall deps) as [n H]; [intros p Hp; by apply Hd|]. exists (S n). cbn. by rewrite Hn.
Qed.

(** A type that has a codec does not need itself, so the stack never gets in the way. *)
Lemma codec_visit_plain n oid stack fuel :
  plain_visit n oid = true → (∀ s, s ∈ stack → plain_visit n s = false) → NoDup stack →
  Forall (λ s, is_Some (find_oid types s)) stack → (length types < fuel + length stack)%nat →
  codec_visit fuel catalog stack oid = true.
Proof.
  revert oid stack fuel. induction n as [|n IH]; intros oid stack fuel H Hs Hnd Hk Hf; [done|].
  destruct (decide (plain_visit n oid = true)) as [Hp|Hp].
  { apply IH; [done| |done..]. intros s Hin. specialize (Hs s Hin). destruct (plain_visit n s) eqn:E; [|done].
    by apply plain_visit_mono in E; congruence. }
  assert (oid ∉ stack) as Hin by (intros Hin; by rewrite (Hs oid Hin) in H).
  destruct fuel as [|fuel].
  { assert (length stack ≤ length types)%nat; [|lia].
    rewrite <- (length_fmap td_oid types). apply submseteq_length, NoDup_submseteq; [done|]. intros s Hsin.
    rewrite Forall_forall in Hk. destruct (Hk s Hsin) as [d Hd]. apply find_oid_some in Hd as [Hd <-]. by apply list_elem_of_fmap_2. }
  rewrite codec_visit_step, bool_decide_eq_false_2 by done. cbn in H |- *.
  destruct (needs oid) as [deps|] eqn:Hneeds; [|done].
  rewrite forallb_forall in H |- *. intros p Hpin. apply IH.
  - by apply H.
  - intros s [->|Hsin]%elem_of_cons; [by apply not_true_is_false|]. specialize (Hs s Hsin).
    destruct (plain_visit n s) eqn:E; [|done]. by apply plain_visit_mono in E; congruence.
  - by constructor.
  - constructor; [|done]. unfold needs in Hneeds. by destruct (find_oid types oid) as [d|]; [exists d|].
  - cbn. lia.
Qed.
Lemma codec_visit_sound fuel stack oid : codec_visit fuel catalog stack oid = true → has_codec oid.
Proof.
  revert stack oid. induction fuel as [|fuel IH]; intros stack oid H; [done|].
  rewrite codec_visit_step in H. apply andb_true_iff in H as [_ H]. destruct (needs oid) as [deps|] eqn:Hn; [|done].
  apply has_codec_needs. exists deps. split; [done|]. intros p Hp. rewrite forallb_forall in H.
  apply (IH (oid :: stack)), H. by apply list_elem_of_In.
Qed.

(** The search for a codec decides whether a type is built in finitely many steps from
    types the value decoder knows: neither the cycle check nor the depth of the search
    refuses a type that is, and a type that contains itself never is. *)
Theorem codec_decides (oid : Z) : has_semantic_codec catalog oid = true ↔ has_codec oid.
Proof.
  split; [apply codec_visit_sound|]. intros H. apply codec_plain_visit in H as [n Hn].
  eapply codec_visit_plain; [exact Hn|by intros ? ?%elem_of_nil|constructor|constructor|cbn; lia].
Qed.
End codec.
End Spec.

(** ** Examples *)
Module Example15.
(** A serializer that keeps what the examples need. *)
#[local] Instance json : CatalogJson := {|
  definition_tuple_json oid schema name _ _ := sbytes (show_nat oid +:+ schema +:+ name);
  catalog_json c := sbytes (show_nat (Z.of_nat (length (cat_types c))));
  closure_json c := sbytes (show_nat (Z.of_nat (length (cl_types c))));
  definition_json d := sbytes (td_name d)
|}.
#[local] Existing Instance SumDigest.sha256.
Definition installed (name : string) : SourceExtension := mkExtension name "1.8" "public" true true None.
(** A composite of an integer and a list of hstore values. *)
Definition shop : SourceTypeCatalog :=
  mkCatalog
    [composite 70 "app" "item" [mkTypeField "id" 23 false; mkTypeField "tags" 71 true];
     builtin 23 "pg_catalog" "int4"; array 71 "app" "_hstore" 72;
     extension 72 "public" "hstore" "hstore" "" "UTF-8" None]
    [installed "hstore"].

Example shop_closure :
  (λ cl, (td_oid <$> cl_types cl, ext_name <$> cl_extensions cl)) <$> to_option (definition_closure shop 70)
  = Some ([23; 70; 71; 72], ["hstore"%string]).
Proof. reflexivity. Qed.
Example shop_codec : has_semantic_codec shop 70 = true.
Proof. reflexivity. Qed.

Example closure_validates_witness :
  match definition_closure shop 70 with
  | Ok cl => validate_type_definition_closure cl 70 = true
  | Err _ => False
  end.
Proof.
  destruct (definition_closure shop 70) as [cl|e] eqn:H; [|vm_compute in H; discriminate H].
  apply (Spec.closure_validates shop 70 cl H); repeat constructor. intros e He. vm_compute in He. by injection He as <-.
Defined.

(** Two extensions whose names differ in the case of their first letter: the closure
    lists [Beta] first, the validation expects [alpha] first. *)
Definition mixed : SourceTypeCatalog :=
  mkCatalog
    [composite 70 "app" "pair" [mkTypeField "a" 71 true; mkTypeField "b" 72 true];
     extension 71 "public" "a" "alpha" "" "UTF-8" None; extension 72 "public" "b" "Beta" "" "UTF-8" None]
    [installed "alpha"; installed "Beta"].
Example mixed_case_extensions_refused :
  match definition_closure mixed 70 with
  | Ok cl => validate_type_definition_closure cl 70 = false
  | Err _ => False
  end.
Proof. by vm_compute. Qed.
End Example15.
