(* ===== verification/PgType.v ===== *)
(** * The source type mapping of PostgreSQL ([crates/postgresql_15/src/type_mapping.rs])

    The declared type of a column, as [format_type] or the catalog query writes it, and
    the type catalog of the source decide its logical type.  Declarations are normalised
    byte by byte ([normalize]); SQL names with parameters are read before catalog names,
    because the catalog name of a type forgets them; other types are found in the catalog
    and mapped by recursion over their definition.  A type without a qualified codec
    becomes [Raw]: its text output is carried with the evidence of its definition. *)
From S2P Require Import Prelude Text Utf8 Codec Model Plan LogicalTypes MyType PgCatalog.

Definition MAPPING_VERSION_15 : string := "postgresql-15.source-type-mapping.v3".
Definition MAPPING_VERSION_16 : string := "postgresql-16.source-type-mapping.v3".
Definition MAPPING_VERSION_17 : string := "postgresql-17.source-type-mapping.v3".

(** ** Errors: the code of a [SourceTypeMappingError]; its message is dropped *)
Notation pg_mapped := (result string).
Definition error_code (version reason : string) : string := "postgresql" +:+ version +:+ ".source_type." +:+ reason.
Definition invalid_type {A} (version : string) : pg_mapped A := Err (error_code version "invalid_declaration").
Definition unsupported_type' {A} (version : string) : pg_mapped A := Err (error_code version "unsupported").
Definition missing_catalog {A} (version : string) : pg_mapped A := Err (error_code version "catalog_required").
Definition missing_codec {A} (version : string) : pg_mapped A := Err (error_code version "codec_unqualified").
Definition extension_target_blocked {A} (version : string) : pg_mapped A := Err (error_code version "extension_target_blocked").
Definition or_invalid {A} (version : string) (o : option A) : pg_mapped A :=
  match o with Some a => Ok a | None => invalid_type version end.

(** ** Text *)
Definition QUOTE : byte := "034"%char.
(** [value.strip_suffix(suffix)] and [value.ends_with(suffix)] *)
Definition strip_suffix (suffix value : string) : option string :=
  rest ← strip_prefix (of_bytes (rev (sbytes suffix))) (of_bytes (rev (sbytes value)));
  Some (of_bytes (rev (sbytes rest))).
Definition ends_with (suffix value : string) : bool := Validate.is_some (strip_suffix suffix value).
Definition starts (prefix value : string) : bool := Validate.is_some (strip_prefix prefix value).
(** [char::is_ascii_whitespace] *)
Definition is_ascii_whitespace (c : byte) : bool := bool_decide (bval c ∈ [9; 10; 12; 13; 32]).
Definition last_in (ends : list byte) (l : list byte) : bool :=
  match last l with Some c => bool_decide (c ∈ ends) | None => false end.
(** [value.trim_matches(ends)] *)
Fixpoint drop_matches (ends : list byte) (l : list byte) : list byte :=
  match l with
  | [] => []
  | c :: k => if bool_decide (c ∈ ends) then drop_matches ends k else l
  end.
Definition trim_matches (ends : list byte) (value : string) : string :=
  of_bytes (rev (drop_matches ends (rev (drop_matches ends (sbytes value))))).

(** ** Normalisation *)
(** The loop over the characters.  Only ASCII characters are examined, so the model reads
    bytes. *)
Fixpoint normalize_loop (out : list byte) (quoted pending : bool) (l : list byte) : option (list byte) :=
  match l with
  | [] => if quoted then None else Some out
  | c :: k =>
      if bool_decide (c = QUOTE) then
        let out := if pending && negb (bool_decide (out = [])) && negb (last_in ["."; "("]%char out) then out ++ [" "%char] else out in
        let out := out ++ [QUOTE] in
        match k with
        | c2 :: k2 =>
            if quoted && bool_decide (c2 = QUOTE) then normalize_loop (out ++ [QUOTE]) quoted false k2
            else normalize_loop out (negb quoted) false k
        | [] => normalize_loop out (negb quoted) false k
        end
      else if quoted then normalize_loop (out ++ [c]) quoted pending k
      else if bool_decide (c = ";"%char) then None
      else if is_ascii_whitespace c then normalize_loop out quoted true k
      else
        let out :=
          if pending && negb (bool_decide (out = [])) && negb (bool_decide (c ∈ ["."; ")"; "["; "]"; ","]%char))
             && negb (last_in ["."; "("; "["]%char out)
          then out ++ [" "%char] else out in
        normalize_loop (out ++ [to_lower_byte c]) quoted false k
  end.
Definition normalize (native_type version : string) : pg_mapped string :=
  let raw := trim native_type in
  if sempty raw || has_nul raw then invalid_type version else
  if starts "enum(" (to_lower raw) then Ok raw else
  or_invalid version (of_bytes <$> normalize_loop [] false false (sbytes raw)).

(** [native_type.split_once(['(', ' '])] *)
Fixpoint type_base (native_type : string) : string :=
  match native_type with
  | EmptyString => EmptyString
  | String c rest => if bool_decide (c ∈ ["("; " "]%char) then EmptyString else String c (type_base rest)
  end.

(** The suffixes [[]] of a declaration, read from its end; more than 255 are not counted. *)
Fixpoint array_suffixes (reversed : list byte) : nat * list byte :=
  match reversed with
  | "]"%char :: "["%char :: rest => let '(n, base) := array_suffixes rest in (S n, base)
  | _ => (0%nat, reversed)
  end.
Definition array_declaration (native_type : string) : option (string * nat) :=
  let '(dimensions, base) := array_suffixes (rev (sbytes native_type)) in
  if bool_decide (dimensions = 0%nat) || (u8_max <? Z.of_nat dimensions)%Z then None
  else Some (of_bytes (rev base), dimensions).

(** ** Parameters *)
Definition parenthesized_u64 (native_type prefix version : string) : pg_mapped Z :=
  let? value := or_invalid version (rest ← strip_prefix (prefix +:+ "(") native_type; strip_suffix ")" rest) in
  or_invalid version (parse_u64 (trim value)).
Definition bounded_length (native_type prefix version : string) : pg_mapped Z :=
  let? length := parenthesized_u64 native_type prefix version in
  if in_range 1 10000000 length then Ok length else invalid_type version.

Definition numeric (native_type version : string) : pg_mapped LogicalType :=
  match (opened ← split_once "(" native_type; strip_suffix ")" opened.2) with
  | None => if bool_decide (native_type ∈ ["numeric"; "decimal"]%string) then Ok TDecimalUnbounded else invalid_type version
  | Some parameters =>
      let parts := split "," parameters in
      let? precision := or_invalid version (parse_u16 (trim (default ""%string (parts !! 0%nat)))) in
      let? scale := or_invalid version (parse_i32 (trim (default "0"%string (parts !! 1%nat)))) in
      if (2 <? length parts)%nat || negb (in_range 1 1000 precision) || negb (in_range (-1000) 1000 scale)
      then invalid_type version else Ok (TDecimal precision scale)
  end.

Definition GEOMETRY_NAMES : list string :=
  ["point"; "linestring"; "polygon"; "multipoint"; "multilinestring"; "multipolygon"; "geometrycollection"]%string.
Definition geometry_suffix (declared : string) : string * Z :=
  match strip_suffix "zm" declared with
  | Some subtype => (subtype, 4)
  | None =>
      match strip_suffix "z" declared with
      | Some subtype => (subtype, 3)
      | None => match strip_suffix "m" declared with Some subtype => (subtype, 3) | None => (declared, 2) end
      end
  end.
Definition spatial (native_type version : string) : pg_mapped LogicalType :=
  let? parameters := or_invalid version (rest ← strip_prefix "geometry(" native_type; strip_suffix ")" rest) in
  let parts := trim <$> split "," parameters in
  let present := λ o : option string, v ← o; if sempty v then None else Some v in
  let? declared := or_invalid version (present (parts !! 0%nat)) in
  let? srid := or_invalid version (v ← present (parts !! 1%nat); parse_i32 v) in
  if (2 <? length parts)%nat || (srid <? 0)%Z then invalid_type version else
  let '(subtype, dimensions) := geometry_suffix (to_lower declared) in
  if bool_decide (subtype ∈ GEOMETRY_NAMES) then Ok (TSpatial subtype (Some srid) dimensions) else unsupported_type' version.

Definition time (native_type version : string) : pg_mapped LogicalType :=
  let with_time_zone := bool_decide (native_type = "timetz"%string) || ends_with "with time zone" native_type in
  let? precision :=
    match strip_prefix "time(" native_type with
    | Some parameters =>
        let? closed := or_invalid version (split_once ")" parameters) in
        if bool_decide (closed.2 ∈ [""; " with time zone"; " without time zone"]%string)
        then or_invalid version (parse_u8 closed.1) else invalid_type version
    | None => Ok 6
    end in
  if (6 <? precision)%Z then invalid_type version else
  Ok (if with_time_zone then TOffsetTime precision else TLocalTime precision).

Definition INTERVAL_QUALIFIERS : list string :=
  [""; "year"; "month"; "day"; "hour"; "minute"; "second"; "year to month"; "day to hour"; "day to minute"; "day to second";
   "hour to minute"; "hour to second"; "minute to second"]%string.
(** The precision, whether it was written, and the qualifier around it. *)
Definition interval_parts (remainder version : string) : pg_mapped (Z * bool * string) :=
  if starts "(" remainder then
    let? closed := or_invalid version (split_once ")" (default ""%string (strip_prefix "(" remainder))) in
    let? precision := or_invalid version (parse_u8 closed.1) in
    if blank closed.2 then Ok (precision, true, closed.2) else invalid_type version
  else
    match (opened ← rsplit_once "(" remainder; text ← strip_suffix ")" opened.2; Some (opened.1, text)) with
    | Some (before, text) => let? precision := or_invalid version (parse_u8 text) in Ok (precision, true, before)
    | None => Ok (6, false, remainder)
    end.
Definition interval (native_type version : string) : pg_mapped LogicalType :=
  match strip_prefix "interval" native_type with
  | None => unsupported_type' version
  | Some remainder =>
      let? parts := interval_parts remainder version in
      let '(precision, explicit, remainder) := parts in
      let qualifier := trim remainder in
      if (6 <? precision)%Z then invalid_type version else
      if negb (bool_decide (qualifier ∈ INTERVAL_QUALIFIERS)) then invalid_type version else
      if explicit && negb (sempty qualifier) && negb (ends_with "second" qualifier) then invalid_type version else
      Ok (TCalendarInterval precision)
  end.

Definition timestamp_zone (native_type : string) : option string :=
  if ends_with " without time zone" native_type then Some " without time zone"%string
  else if ends_with " with time zone" native_type then Some " with time zone"%string
  else None.
Definition timestamp (native_type version : string) : pg_mapped LogicalType :=
  let? zone := or_invalid version (timestamp_zone native_type) in
  let? precision :=
    match (rest ← strip_prefix "timestamp" native_type; value ← strip_suffix zone rest;
           let value := trim_matches ["("; ")"]%char value in if sempty value then None else Some value) with
    | Some value => or_invalid version (parse_u8 value)
    | None => Ok 6
    end in
  if (6 <? precision)%Z then invalid_type version else
  Ok (if bool_decide (zone = " with time zone"%string) then TInstant precision else TLocalDatetime precision).

(** ** Types PostgreSQL builds in *)
(** The declaration ["char"], quotes included. *)
Definition QUOTED_CHAR : string := String QUOTE ("char" +:+ String QUOTE "").
Definition QUOTED_BIT : string := String QUOTE ("bit" +:+ String QUOTE "").
Definition BUILTIN_ALIASES : list (string * string) :=
  [("boolean", "bool"); ("bool", "bool"); ("smallint", "int2"); ("int2", "int2"); ("integer", "int4"); ("int", "int4");
   ("int4", "int4"); ("bigint", "int8"); ("int8", "int8"); ("real", "float4"); ("float4", "float4");
   ("double precision", "float8"); ("float8", "float8"); ("numeric", "numeric"); ("decimal", "numeric"); ("text", "text");
   ("character varying", "varchar"); ("varchar", "varchar"); ("character", "bpchar"); ("char", "bpchar"); ("bpchar", "bpchar");
   (QUOTED_CHAR, "char"); ("name", "name"); ("bytea", "bytea"); ("bit", "bit"); (QUOTED_BIT, "bit");
   ("bit varying", "varbit"); ("varbit", "varbit"); ("date", "date"); ("time", "time"); ("time without time zone", "time");
   ("time with time zone", "timetz"); ("timetz", "timetz"); ("timestamp", "timestamp");
   ("timestamp without time zone", "timestamp"); ("timestamp with time zone", "timestamptz"); ("timestamptz", "timestamptz")]%string.
Definition BUILTIN_NAMES : list string :=
  ["interval"; "uuid"; "json"; "jsonb"; "xml"; "money"; "point"; "line"; "lseg"; "box"; "path"; "polygon"; "circle"; "cidr";
   "inet"; "macaddr"; "macaddr8"; "tsvector"; "tsquery"; "oid"; "oidvector"; "int2vector"; "tid"; "xid"; "xid8"; "cid";
   "pg_lsn"; "pg_snapshot"; "txid_snapshot"; "regproc"; "regprocedure"; "regoper"; "regoperator"; "regclass"; "regtype";
   "regconfig"; "regdictionary"; "regnamespace"; "regrole"; "regcollation"; "int4range"; "int8range"; "numrange"; "tsrange";
   "tstzrange"; "daterange"; "int4multirange"; "int8multirange"; "nummultirange"; "tsmultirange"; "tstzmultirange";
   "datemultirange"]%string.
Definition builtin_catalog_name (native_type : string) : option string :=
  let name := to_lower (trim native_type) in
  match List.find (λ p : string * string, bool_decide (p.1 = name)) BUILTIN_ALIASES with
  | Some p => Some p.2
  | None => if bool_decide (name ∈ BUILTIN_NAMES) then Some name else None
  end.

Definition pg_text (max_length : option Z) : LogicalType := TText "UTF8" max_length LuCharacters None.
Definition positive_text (native_type prefix version : string) : pg_mapped LogicalType :=
  let? length := parenthesized_u64 native_type prefix version in
  if (length =? 0)%Z then invalid_type version else Ok (pg_text (Some length)).

Definition logical_type_from_builtin (native_type version : string) : pg_mapped (option LogicalType) :=
  let one := λ names : list string, bool_decide (native_type ∈ names) in
  let has := λ prefix : string, starts prefix native_type in
  let some := λ t : pg_mapped LogicalType, let? t := t in Ok (Some t) in
  if one ["boolean"; "bool"]%string then Ok (Some TBoolean)
  else if one ["smallint"]%string then Ok (Some (TInteger true 16))
  else if one ["integer"; "int"]%string then Ok (Some (TInteger true 32))
  else if one ["bigint"]%string then Ok (Some (TInteger true 64))
  else if one ["oid"; "xid"; "cid"]%string then Ok (Some (TInteger false 32))
  else if one ["xid8"]%string then Ok (Some (TInteger false 64))
  else if one ["real"; "float4"]%string then Ok (Some (TFloat 32))
  else if one ["double precision"; "float8"]%string then Ok (Some (TFloat 64))
  else if one ["text"; "character"; "char"; QUOTED_CHAR; "name"; "character varying"; "varchar"]%string then Ok (Some (pg_text None))
  else if one ["bytea"]%string then Ok (Some (TBinary None))
  else if one ["bit"]%string then Ok (Some (TBitString 1))
  else if one ["date"]%string then Ok (Some TDate)
  else if one ["time without time zone"; "time"; "time with time zone"; "timetz"]%string then some (time native_type version)
  else if one ["uuid"]%string then Ok (Some TUuid)
  else if one ["jsonb"]%string then Ok (Some (TJson (mkJsonProfile true DkReject)))
  else if one ["json"]%string then Ok (Some (TJson (mkJsonProfile false DkPreserveLast)))
  else if one ["inet"]%string then Ok (Some (TNetwork "ip" false))
  else if one ["cidr"]%string then Ok (Some (TNetwork "ip" true))
  else if one ["macaddr"; "macaddr8"]%string then Ok (Some (TNetwork native_type false))
  else if one ["xml"]%string then Ok (Some TXml)
  else if one ["interval"]%string then some (interval native_type version)
  else if one ["numeric"; "decimal"]%string then some (numeric native_type version)
  else if one ["timestamp"; "timestamp without time zone"]%string then Ok (Some (TLocalDatetime 6))
  else if one ["timestamptz"; "timestamp with time zone"]%string then Ok (Some (TInstant 6))
  else if one ["money"]%string then Ok None
  else if has "time("%string then some (time native_type version)
  else if has "interval"%string then some (interval native_type version)
  else if has "numeric("%string || has "decimal("%string then some (numeric native_type version)
  else if has "bit("%string then let? n := bounded_length native_type "bit" version in Ok (Some (TBitString n))
  else if has "bit varying("%string then
    let? n := bounded_length native_type "bit varying" version in Ok (Some (TVariableBitString (Some n)))
  else if has "varbit("%string then let? n := bounded_length native_type "varbit" version in Ok (Some (TVariableBitString (Some n)))
  else if has "geometry("%string then some (spatial native_type version)
  else if has "character varying("%string || has "varchar("%string then
    some (positive_text native_type (if has "varchar("%string then "varchar" else "character varying") version)
  else if has "character("%string || has "char("%string then
    some (positive_text native_type (if has "char("%string then "char" else "character") version)
  else if has "timestamp"%string then some (timestamp native_type version)
  else if one ["int2"]%string then Ok (Some (TInteger true 16))
  else if one ["int4"]%string then Ok (Some (TInteger true 32))
  else if one ["int8"]%string then Ok (Some (TInteger true 64))
  else Ok None.

(** ** Labels of an enum declaration *)
(** A backslash keeps the next character; a doubled quote is one quote. *)
Fixpoint read_enum_label (label cs : list Z) : option (list Z * list Z) :=
  match cs with
  | [] => None
  | c :: cs1 =>
      if (c =? BACKSLASH_CHAR)%Z then
        match cs1 with [] => None | escaped :: cs2 => read_enum_label (label ++ [escaped]) cs2 end
      else if (c =? QUOTE_CHAR)%Z then
        match cs1 with
        | c2 :: cs2 => if (c2 =? QUOTE_CHAR)%Z then read_enum_label (label ++ [QUOTE_CHAR]) cs2 else Some (label, cs1)
        | [] => Some (label, cs1)
        end
      else read_enum_label (label ++ [c]) cs1
  end.
(** The loop over the labels; every turn reads at least an opening quote. *)
Fixpoint read_enum_labels (fuel : nat) (members : list string) (cs : list Z) : option (list string) :=
  let finish := λ members : list string, if bool_decide (members = []) then None else Some members in
  match fuel with
  | O => None
  | S fuel =>
      match skip_white cs with
      | [] => finish members
      | c :: cs1 =>
          if negb (c =? QUOTE_CHAR)%Z then None else
          match read_enum_label [] cs1 with
          | None => None
          | Some (label, cs2) =>
              if bool_decide (label = []) || bool_decide (0%Z ∈ label) then None
              else if bool_decide (of_chars label ∈ members) then None else
              let members := members ++ [of_chars label] in
              match skip_white cs2 with
              | [] => finish members
              | c2 :: cs3 => if (c2 =? COMMA_CHAR)%Z then read_enum_labels fuel members cs3 else None
              end
          end
      end
  end.
Definition enum_members (native_type version : string) : pg_mapped (list string) :=
  let? opened := or_invalid version (split_once "(" native_type) in
  let? closed := or_invalid version (rsplit_once ")" opened.2) in
  if negb (blank closed.2) then invalid_type version else
  or_invalid version (read_enum_labels (S (length (chars closed.1))) [] (chars closed.1)).

Definition validate_enum_labels (labels : list string) (version : string) : pg_mapped () :=
  if bool_decide (labels = []) || existsb (λ label, sempty label || has_nul label) labels || negb (bool_decide (NoDup labels))
  then invalid_type version else Ok ().

(** ** Names in the catalog *)
(** The parts of a qualified name, split at dots outside quotes. *)
Fixpoint name_parts (part : list byte) (quoted : bool) (l : list byte) : option (list (list byte)) :=
  match l with
  | [] => if quoted then None else Some [part]
  | c :: k =>
      if bool_decide (c = QUOTE) then
        match k with
        | c2 :: k2 =>
            if quoted && bool_decide (c2 = QUOTE) then name_parts (part ++ [QUOTE; QUOTE]) quoted k2
            else name_parts (part ++ [QUOTE]) (negb quoted) k
        | [] => name_parts (part ++ [QUOTE]) (negb quoted) k
        end
      else if bool_decide (c = "."%char) && negb quoted then (part ::.) <$> name_parts [] quoted k
      else name_parts (part ++ [c]) quoted k
  end.
(** [inner.replace(two quotes, by)] *)
Fixpoint replace_quotes (by_ : list byte) (l : list byte) : list byte :=
  match l with
  | c :: ((c2 :: k) as rest) =>
      if bool_decide (c = QUOTE) && bool_decide (c2 = QUOTE) then by_ ++ replace_quotes by_ k else c :: replace_quotes by_ rest
  | _ => l
  end.
Definition catalog_identifier (raw version : string) : pg_mapped string :=
  let raw := trim raw in
  let quote := String QUOTE "" in
  match (rest ← strip_prefix quote raw; strip_suffix quote rest) with
  | Some inner =>
      if sempty inner || bool_decide (QUOTE ∈ replace_quotes [] (sbytes inner)) then invalid_type version
      else Ok (of_bytes (replace_quotes [QUOTE] (sbytes inner)))
  | None =>
      if sempty raw || contains_byte QUOTE raw || existsb white_space (chars raw) then invalid_type version else Ok raw
  end.

(** [serde_json] of the evidence tuple and of a mapping, as bytes, and of a definition and
    a closure, as text. *)
Class MappingJson := {
  evidence_json : string → string → LogicalType → string → gmap string string → list byte;
  source_evidence_json : SourceTypeMapping → list byte;
  definition_text : SourceTypeDefinition → string;
  closure_text : SourceTypeDefinitionClosure → string
}.

Section catalog.
Context `{SHA : Sha256} `{CJ : CatalogJson}.

Definition find_definition (native_type : string) (catalog : SourceTypeCatalog) (version : string)
    : pg_mapped SourceTypeDefinition :=
  let? parts := or_invalid version (name_parts [] false (sbytes native_type)) in
  let? name :=
    match of_bytes <$> parts with
    | [name] => let? name := catalog_identifier name version in Ok (None, name)
    | [schema; name] =>
        let? schema := catalog_identifier schema version in
        let? name := catalog_identifier name version in Ok (Some schema, name)
    | _ => invalid_type version
    end in
  let '(schema, name) := name in
  let matches :=
    List.filter (λ d, bool_decide (td_name d = name)
                 && match schema with Some schema => bool_decide (td_schema d = schema) | None => true end) (cat_types catalog) in
  match matches with
  | [] => missing_catalog version
  | d :: rest => if negb (bool_decide (rest = [])) && Validate.is_none schema then invalid_type version else Ok d
  end.

Definition definition_digest (d : SourceTypeDefinition) (version : string) : pg_mapped string :=
  if blank (td_definition_digest d) then invalid_type version else
  let expected := expected_definition_digest d in
  if bool_decide (td_definition_digest d = expected) then Ok expected else invalid_type version.

Definition TEXT_ENVELOPE : string := "postgresql.pgoutput.text-envelope.v1".
Definition full_name (d : SourceTypeDefinition) : string := td_schema d +:+ "." +:+ td_name d.
Definition raw_type (codec encoding : string) (d : SourceTypeDefinition) (version : string) : pg_mapped LogicalType :=
  let? digest := definition_digest d version in Ok (TRaw codec (full_name d) digest encoding).

Definition logical_type_for_catalog_builtin (oid : Z) (native_type version : string) : pg_mapped (option LogicalType) :=
  if (oid =? 1083)%Z then Ok (Some (TLocalTime 6))
  else if (oid =? 1114)%Z then Ok (Some (TLocalDatetime 6))
  else if (oid =? 1184)%Z then Ok (Some (TInstant 6))
  else if (oid =? 1266)%Z then Ok (Some (TOffsetTime 6))
  else logical_type_from_builtin native_type version.

Definition definition_of_oid (oid : Z) (catalog : SourceTypeCatalog) (version : string) : pg_mapped SourceTypeDefinition :=
  or_invalid version (definition_by_oid oid catalog).

(** The type of an extension's type. *)
Definition extension_type (d : SourceTypeDefinition) (extension : string) (codec_identity : option string) (encoding : string)
    (logical_type : option LogicalType) (catalog : SourceTypeCatalog) (version : string) : pg_mapped LogicalType :=
  match find_extension catalog extension with
  | None => missing_catalog version
  | Some state =>
      if negb (ext_installed state) then missing_catalog version
      else if bool_decide (ext_target_compatible state = Some false) then extension_target_blocked version
      else if negb (ext_available state) then raw_type TEXT_ENVELOPE "UTF-8" d version
      else match logical_type with
           | Some t => Ok t
           | None =>
               match codec_identity with
               | Some codec => if blank codec then raw_type TEXT_ENVELOPE encoding d version else raw_type codec encoding d version
               | None => raw_type TEXT_ENVELOPE encoding d version
               end
           end
  end.

(** The fields of a composite, their names distinct up to case. *)
Fixpoint composite_fields (f : Z → pg_mapped LogicalType) (version : string) (names : list string) (fields : list SourceTypeField)
    : pg_mapped (list LogicalField) :=
  match fields with
  | [] => Ok []
  | field :: fields =>
      let name := to_lower (tf_name field) in
      if bool_decide (name ∈ names) then invalid_type version else
      let? t := f (tf_type_oid field) in
      let? rest := composite_fields f version (name :: names) fields in
      Ok (mkLogicalField (tf_name field) t (tf_nullable field) :: rest)
  end.

Fixpoint logical_type_from_definition (fuel : nat) (d : SourceTypeDefinition) (catalog : SourceTypeCatalog) (version : string)
    (stack : list Z) : pg_mapped LogicalType :=
  match fuel with
  | O => invalid_type version
  | S fuel =>
      if bool_decide (td_oid d ∈ stack) then invalid_type version else
      let of_oid := λ oid,
        let? definition := definition_of_oid oid catalog version in
        logical_type_from_definition fuel definition catalog version (td_oid d :: stack) in
      match td_kind d with
      | KPseudo => invalid_type version
      | KBuiltin native_type =>
          let? t := logical_type_for_catalog_builtin (td_oid d) native_type version in
          match t with Some t => Ok t | None => raw_type TEXT_ENVELOPE "UTF-8" d version end
      | KEnum labels => validate_enum_labels labels version ;? Ok (TEnum labels)
      | KDomain base_oid constraints not_null =>
          let? base := of_oid base_oid in
          let? digest := definition_digest d version in
          Ok (TDomain (full_name d) base constraints not_null (td_collation d) digest)
      | KComposite fields => let? fields := composite_fields of_oid version [] fields in Ok (TStruct fields)
      | KArray element_oid _ =>
          let? element := of_oid element_oid in
          match element with
          | TRaw _ _ _ _ => raw_type TEXT_ENVELOPE "UTF-8" d version
          | _ => Ok (TArray element)
          end
      | KRange subtype_oid => let? element := of_oid subtype_oid in Ok (TRange element)
      | KMultiRange range_oid =>
          let? range := definition_of_oid range_oid catalog version in
          match td_kind range with
          | KRange subtype_oid => let? element := of_oid subtype_oid in Ok (TMultiRange element)
          | _ => invalid_type version
          end
      | KExtension extension codec_identity encoding logical_type =>
          extension_type d extension codec_identity encoding logical_type catalog version
      end
  end.
Definition type_from_definition (d : SourceTypeDefinition) (catalog : SourceTypeCatalog) (version : string) : pg_mapped LogicalType :=
  logical_type_from_definition (S (S (length (cat_types catalog)))) d catalog version [].

(** ** Declarations *)
Definition array_definition_for_element (element : string) (catalog : SourceTypeCatalog) (version : string)
    : option SourceTypeDefinition :=
  let found :=
    match find_definition element catalog version with
    | Ok d => Some d
    | Err _ =>
        name ← builtin_catalog_name element;
        List.find (λ d, bool_decide (td_schema d = "pg_catalog"%string) && bool_decide (td_name d = name)) (cat_types catalog)
    end in
  e ← found;
  List.find (λ d, match td_kind d with KArray known _ => (known =? td_oid e)%Z | _ => false end) (cat_types catalog).

(** A declaration that ends in no brackets. *)
Definition scalar_type_with_catalog (native_type : string) (catalog : SourceTypeCatalog) (version : string) : pg_mapped LogicalType :=
  if bool_decide (to_lower (type_base native_type) = "enum"%string) then
    let? members := enum_members native_type version in Ok (TEnum members) else
  let? declared := logical_type_from_builtin native_type version in
  match declared with
  | Some t => Ok t
  | None =>
      let from_name :=
        match builtin_catalog_name native_type with
        | None => Ok None
        | Some name =>
            let? t := logical_type_from_builtin name version in
            match t with
            | Some t => Ok (Some t)
            | None =>
                match List.find (λ d, bool_decide (td_schema d = "pg_catalog"%string) && bool_decide (td_name d = name)) (cat_types catalog) with
                | Some d => let? t := type_from_definition d catalog version in Ok (Some t)
                | None => Ok None
                end
            end
        end in
      let? named := from_name in
      match named with
      | Some t => Ok t
      | None =>
          let? d := find_definition native_type catalog version in
          let is_pseudo := λ oid, existsb (λ e, (td_oid e =? oid)%Z && match td_kind e with KPseudo => true | _ => false end) (cat_types catalog) in
          if match td_kind d with KPseudo => true | KArray element_oid _ => is_pseudo element_oid | _ => false end
          then invalid_type version
          else if negb (has_semantic_codec catalog (td_oid d)) && match td_kind d with KExtension _ _ _ _ => false | _ => true end
          then raw_type TEXT_ENVELOPE "UTF-8" d version
          else type_from_definition d catalog version
      end
  end.
Definition logical_type_with_catalog (native_type : string) (catalog : SourceTypeCatalog) (version : string) : pg_mapped LogicalType :=
  match array_declaration native_type with
  | None => scalar_type_with_catalog native_type catalog version
  | Some (element, dimensions) =>
      if bool_decide (length (cat_types catalog) = 0%nat) then missing_catalog version else
      let? logical := scalar_type_with_catalog element catalog version in
      match logical with
      | TRaw _ _ _ _ =>
          match array_definition_for_element element catalog version with
          | Some d => raw_type TEXT_ENVELOPE "UTF-8" d version
          | None => missing_catalog version
          end
      | _ => Ok (Nat.iter dimensions TArray logical)
      end
  end.

(** ** The mapping *)
Context `{MJ : MappingJson}.
Definition ensure_supported_version (version : string) : pg_mapped () :=
  if bool_decide (version ∈ ["15"; "16"; "17"]%string) then Ok () else invalid_type version.
Definition mapping_version (version : string) : string :=
  if bool_decide (version = "15"%string) then MAPPING_VERSION_15
  else if bool_decide (version = "16"%string) then MAPPING_VERSION_16 else MAPPING_VERSION_17.

(** The bit order and padding of a bit string type. *)
Definition pg_value_representation (t : LogicalType) : gmap string string :=
  match t with
  | TBitString length =>
      {[ "bit_order" := "msb_first"; "bit_padding" := if (length mod 8 =? 0)%Z then "none" else "zero" ]}%string
  | TVariableBitString _ => {[ "bit_order" := "msb_first"; "bit_padding" := "variable" ]}%string
  | _ => ∅
  end.

(** The session settings every text value was written under. *)
Definition session_metadata : list (string * string) :=
  [("text_output_profile", "pgoutput-v1/text/UTF8"); ("session.datestyle", "ISO, YMD"); ("session.intervalstyle", "iso_8601");
   ("session.timezone", "UTC"); ("session.bytea_output", "hex"); ("session.extra_float_digits", "3");
   ("session.search_path", "pg_catalog")]%string.
Definition type_identity (oid : Z) (schema name : string) : string :=
  "postgresql.pg_type.v1:" +:+ show_nat oid +:+ ":" +:+ schema +:+ "." +:+ name.
Definition sha256_prefixed (digest : string) : string := "sha256:" +:+ digest.

Definition source_representation_evidence (source_native_type : string) (t : LogicalType) (catalog : SourceTypeCatalog)
    (version : string) : pg_mapped (option SourceRepresentationTypeEvidence) :=
  match t with
  | TRaw _ native_type source_definition_digest _ =>
      let? d := find_definition native_type catalog version in
      let? expected := definition_digest d version in
      if negb (bool_decide (default source_definition_digest (strip_prefix "sha256:" source_definition_digest) = expected))
      then invalid_type version else
      let? closure := map_err (λ _, error_code version "invalid_declaration") (definition_closure catalog (td_oid d)) in
      let metadata : gmap string string :=
        list_to_map
          ([("column_oid", show_nat (td_oid d)); ("native_type", source_native_type); ("type_schema", td_schema d);
            ("type_name", td_name d); ("type_definition", definition_text d);
            ("type_definition_digest", sha256_prefixed (td_definition_digest d)); ("type_definition_closure", closure_text closure);
            ("type_definition_closure_digest", sha256_prefixed (closure_digest closure));
            ("source_catalog_digest", evidence_digest catalog)]%string ++ session_metadata) in
      Ok (Some (mkTypeEvidence (type_identity (td_oid d) (td_schema d) (td_name d)) "pgoutput.v1" FmtText metadata
            (list_to_set ["relation_oid"; "relation_schema"; "relation_name"; "column_name"; "type_modifier";
                          "environment.lc_monetary"]%string)))
  | _ => Ok None
  end.

Definition source_definition_fingerprint (native_type : string) (t : LogicalType) (catalog : SourceTypeCatalog) (version : string)
    : pg_mapped (option string) :=
  match t with
  | TRaw _ _ digest _ => Ok (Some digest)
  | _ =>
      if Validate.is_some (array_declaration native_type) || bool_decide (to_lower (type_base native_type) = "enum"%string)
      then Ok None else
      let? declared := logical_type_from_builtin native_type version in
      match declared with
      | Some _ => Ok None
      | None =>
          let? d := find_definition native_type catalog version in
          let? digest := definition_digest d version in Ok (Some digest)
      end
  end.

Definition source_type_mapping_with_catalog_for_version (version native_type : string) (catalog : SourceTypeCatalog)
    : pg_mapped SourceTypeMapping :=
  ensure_supported_version version ;?
  let source_native_type := trim native_type in
  let? native_type := normalize native_type version in
  let? t := logical_type_with_catalog native_type catalog version in
  map_err (λ _, error_code version "invalid_declaration") (LogicalTypes.validate t) ;?
  let? fingerprint := source_definition_fingerprint native_type t catalog version in
  let base := to_lower (type_base native_type) in
  let representation := pg_value_representation t in
  let digest := sha256_hex (evidence_json (mapping_version version) native_type t (evidence_digest catalog) representation) in
  let? evidence := source_representation_evidence source_native_type t catalog version in
  Ok (mkMapping (mkConnector "postgresql" version) native_type t ("postgresql" +:+ version +:+ ".source-type." +:+ base)
        (mapping_version version) (Some digest) fingerprint None None evidence representation).
Definition source_type_mapping_for_version (version native_type : string) : pg_mapped SourceTypeMapping :=
  source_type_mapping_with_catalog_for_version version native_type empty_catalog.

(** [SourceTypeMapping::with_source_evidence] *)
Definition with_source_evidence (fingerprint : string) (build : ServerBuildIdentity) (environment : string)
    (m : SourceTypeMapping) : SourceTypeMapping :=
  let bound := λ digest,
    mkMapping (sm_connector m) (sm_native_type m) (sm_logical_type m) (sm_mapping_id m) (sm_mapping_version m) digest
      (Some fingerprint) (Some build) (Some environment) (sm_source_representation_evidence m) (sm_value_representation m) in
  bound (Some (sha256_hex (source_evidence_json (bound (sm_evidence_digest m))))).
Definition source_type_mapping_with_source_evidence_for_version (version native_type : string) (catalog : SourceTypeCatalog)
    (build : ServerBuildIdentity) (environment : string) : pg_mapped SourceTypeMapping :=
  let? m := source_type_mapping_with_catalog_for_version version native_type catalog in
  Ok (with_source_evidence (default (evidence_digest catalog) (sm_source_definition_fingerprint m)) build environment m).

Definition validate_native_type_for_version (version native_type : string) : pg_mapped () :=
  ensure_supported_version version ;?
  let? native_type := normalize native_type version in
  let? _ := logical_type_with_catalog native_type empty_catalog version in Ok ().
End catalog.

(** ** Examples *)
Module Example16.
#[local] Instance json : CatalogJson := {|
  definition_tuple_json oid schema name _ _ := sbytes (show_nat oid +:+ schema +:+ name);
  catalog_json c := sbytes (show_nat (Z.of_nat (length (cat_types c))));
  closure_json c := sbytes (show_nat (Z.of_nat (length (cl_types c))));
  definition_json d := sbytes (td_name d)
|}.
#[local] Existing Instance SumDigest.sha256.
Definition types : SourceTypeCatalog :=
  mkCatalog [builtin 23 "pg_catalog" "int4"; builtin 790 "pg_catalog" "money"; array 70 "app" "_price" 71;
             domain 71 "app" "price" 1700 ["CHECK (VALUE > 0)"%string] false None; builtin 1700 "pg_catalog" "numeric"] [].
Definition type_of (native_type : string) : pg_mapped LogicalType :=
  let? n := normalize native_type "15" in logical_type_with_catalog n types "15".
Example maps_pg_declarations :
  type_of "NUMERIC( 12 ,3)" = Ok (TDecimal 12 3)
  ∧ type_of "NUMERIC (12, 3)" = invalid_type "15"
  ∧ type_of " timestamp(3)  with time zone" = Ok (TInstant 3)
  ∧ type_of "timestamp((3 with time zone" = Ok (TInstant 3)
  ∧ type_of "interval day to second(3)" = Ok (TCalendarInterval 3)
  ∧ type_of "geometry(PointZ,4326)" = Ok (TSpatial "point" (Some 4326) 3)
  ∧ type_of "enum('a','b''c')" = Ok (TEnum ["a"; "b'c"]%string)
  ∧ type_of "integer[][]" = Ok (TArray (TArray (TInteger true 32)))
  ∧ to_option (type_of "app.price") = Some (TDomain "app.price" TDecimalUnbounded ["CHECK (VALUE > 0)"%string] false None
      (td_definition_digest (domain 71 "app" "price" 1700 ["CHECK (VALUE > 0)"%string] false None)))
  ∧ match type_of "money" with Ok (TRaw codec _ _ _) => codec = TEXT_ENVELOPE | _ => False end
  ∧ type_of "app.missing" = missing_catalog "15"
  ∧ type_of "interval(3) day" = invalid_type "15".
Proof. by vm_compute. Qed.
End Example16.
