(* ===== verification/PgTypeSpec.v ===== *)
(** * Properties of the PostgreSQL source type mapping

    The recursion over the definitions of the type catalog gives exactly the types built
    in finitely many steps ([catalog_type_exact]); a qualified name quoted as the server
    quotes it is normalised to itself and finds its definition ([qualified_name_found]). *)
From S2P Require Import Prelude Text Utf8 Codec Model LogicalTypes MyType PgCatalog PgCatalogSpec PgType.

Module Spec.
(** ** The type of a definition *)
Section types.
Context `{SHA : Sha256} `{CJ : CatalogJson}.
Context (catalog : SourceTypeCatalog) (version : string).
Notation types := (cat_types catalog).

Definition leaf (k : SourceTypeDefinitionKind) : bool :=
  match k with KBuiltin _ | KEnum _ | KExtension _ _ _ _ => true | _ => false end.
(** The type of a definition that refers to no other. *)
Definition leaf_type (d : SourceTypeDefinition) : pg_mapped LogicalType :=
  match td_kind d with
  | KBuiltin native_type =>
      let? t := logical_type_for_catalog_builtin (td_oid d) native_type version in
      match t with Some t => Ok t | None => raw_type TEXT_ENVELOPE "UTF-8" d version end
  | KEnum labels => validate_enum_labels labels version ;? Ok (TEnum labels)
  | KExtension extension codec_identity encoding logical_type =>
      extension_type d extension codec_identity encoding logical_type catalog version
  | _ => invalid_type version
  end.
Definition array_type (d : SourceTypeDefinition) (element : LogicalType) : pg_mapped LogicalType :=
  match element with TRaw _ _ _ _ => raw_type TEXT_ENVELOPE "UTF-8" d version | _ => Ok (TArray element) end.
Definition field_of (f : SourceTypeField) (t : LogicalType) : LogicalField := mkLogicalField (tf_name f) t (tf_nullable f).

(** The logical type of an OID: what its definition says, in finitely many steps. *)
Inductive typed : Z → LogicalType → Prop :=
| typed_leaf oid d t : find_oid types oid = Some d → leaf (td_kind d) = true → leaf_type d = Ok t → typed oid t
| typed_domain oid d base cs not_null t digest :
    find_oid types oid = Some d → td_kind d = KDomain base cs not_null → typed base t → definition_digest d version = Ok digest →
    typed oid (TDomain (full_name d) t cs not_null (td_collation d) digest)
| typed_composite oid d fields ts :
    find_oid types oid = Some d → td_kind d = KComposite fields → NoDup (to_lower ∘ tf_name <$> fields) → length ts = length fields →
    (∀ i f t, fields !! i = Some f → ts !! i = Some t → typed (tf_type_oid f) t) →
    typed oid (TStruct (zip_with field_of fields ts))
| typed_array oid d element delimiter t t' :
    find_oid types oid = Some d → td_kind d = KArray element delimiter → typed element t → array_type d t = Ok t' → typed oid t'
| typed_range oid d subtype t :
    find_oid types oid = Some d → td_kind d = KRange subtype → typed subtype t → typed oid (TRange t)
| typed_multirange oid d range r subtype t :
    find_oid types oid = Some d → td_kind d = KMultiRange range → find_oid types range = Some r → td_kind r = KRange subtype →
    typed subtype t → typed oid (TMultiRange t).

(** One step of the recursion, given the types of the OIDs referred to. *)
Definition type_step (f : Z → pg_mapped LogicalType) (d : SourceTypeDefinition) : pg_mapped LogicalType :=
  match td_kind d with
  | KDomain base cs not_null =>
      let? t := f base in
      let? digest := definition_digest d version in Ok (TDomain (full_name d) t cs not_null (td_collation d) digest)
  | KComposite fields => let? fields := composite_fields f version [] fields in Ok (TStruct fields)
  | KArray element _ => let? t := f element in array_type d t
  | KRange subtype => let? t := f subtype in Ok (TRange t)
  | KMultiRange range =>
      let? r := definition_of_oid range catalog version in
      match td_kind r with KRange subtype => let? t := f subtype in Ok (TMultiRange t) | _ => invalid_type version end
  | _ => leaf_type d
  end.
Lemma type_from_step fuel d stack :
  logical_type_from_definition (S fuel) d catalog version stack =
  if bool_decide (td_oid d ∈ stack) then invalid_type version
  else type_step (λ oid, let? def := definition_of_oid oid catalog version in
                         logical_type_from_definition fuel def catalog version (td_oid d :: stack)) d.
Proof. cbn. destruct (bool_decide _); [done|]. unfold type_step, leaf_type. by destruct (td_kind d). Qed.
(** The recursion without the stack. *)
Fixpoint plain_type (fuel : nat) (oid : Z) : pg_mapped LogicalType :=
  match fuel with
  | O => invalid_type version
  | S fuel => let? d := definition_of_oid oid catalog version in type_step (plain_type fuel) d
  end.

(** [f] is answered by [g] where it succeeds. *)
Definition below (f g : Z → pg_mapped LogicalType) : Prop := ∀ oid t, f oid = Ok t → g oid = Ok t.
Lemma composite_below f g names fields l :
  (∀ field t, field ∈ fields → f (tf_type_oid field) = Ok t → g (tf_type_oid field) = Ok t) →
  composite_fields f version names fields = Ok l → composite_fields g version names fields = Ok l.
Proof.
  revert names l. induction fields as [|x fields IH]; intros names l Hfg H; cbn in *; [done|]. destruct (bool_decide _); [done|].
  apply bind_ok in H as (t & Ht & H). rewrite (Hfg x t) by (by left || done). cbn. apply bind_ok in H as (k & Hk & H).
  rewrite (IH (to_lower (tf_name x) :: names) k); [done| |done]. intros y u Hy. apply Hfg. by right.
Qed.
(** The OIDs one step asks for. *)
Definition asked (d : SourceTypeDefinition) : list Z :=
  match td_kind d with
  | KMultiRange range => match find_oid types range with Some r => type_definition_dependencies r | None => [] end
  | _ => type_definition_dependencies d
  end.
Lemma step_below f g d t :
  (∀ oid u, oid ∈ asked d → f oid = Ok u → g oid = Ok u) → type_step f d = Ok t → type_step g d = Ok t.
Proof.
  unfold type_step, asked, type_definition_dependencies. intros Hfg H. destruct (td_kind d) eqn:Hk; try done.
  - apply bind_ok in H as (u & Hu & H). by rewrite (Hfg _ u) by (by left || done).
  - apply bind_ok in H as (l & Hl & H). apply (composite_below f g) in Hl; [by rewrite Hl|].
    intros field u Hin. apply Hfg. by apply list_elem_of_fmap_2.
  - apply bind_ok in H as (u & Hu & H). by rewrite (Hfg _ u) by (by left || done).
  - apply bind_ok in H as (u & Hu & H). by rewrite (Hfg _ u) by (by left || done).
  - unfold definition_of_oid, definition_by_oid in *. destruct (find_oid types range_oid) as [r|]; [|done]. cbn in *.
    destruct (td_kind r) eqn:Hr; try done. apply bind_ok in H as (u & Hu & H). by rewrite (Hfg _ u) by (by left || done).
Qed.
Lemma plain_type_mono n oid t : plain_type n oid = Ok t → plain_type (S n) oid = Ok t.
Proof.
  revert oid t. induction n as [|n IH]; intros oid t H; [done|]. cbn [plain_type] in H |- *.
  destruct (definition_of_oid oid catalog version) as [d|]; [|done]. cbn [mbind result_bind] in *.
  eapply step_below; [|exact H]. intros o u _. apply IH.
Qed.
Lemma plain_type_more n m oid t : (n ≤ m)%nat → plain_type n oid = Ok t → plain_type m oid = Ok t.
Proof. intros Hle. induction Hle; intros H'; [done|]. by apply plain_type_mono, IHHle. Qed.

Lemma definition_found oid d : definition_of_oid oid catalog version = Ok d ↔ find_oid types oid = Some d.
Proof. unfold definition_of_oid, definition_by_oid, or_invalid. destruct (find_oid types oid); split; by intros [= <-]. Qed.

(** Fields and their types. *)
Lemma composite_fields_ok f names fields l :
  composite_fields f version names fields = Ok l ↔
  NoDup (to_lower ∘ tf_name <$> fields) ∧ (∀ field, field ∈ fields → to_lower (tf_name field) ∉ names)
  ∧ ∃ ts, length ts = length fields ∧ l = zip_with field_of fields ts
      ∧ ∀ i x t, fields !! i = Some x → ts !! i = Some t → f (tf_type_oid x) = Ok t.
Proof.
  revert names l. induction fields as [|x fields IH]; intros names l; cbn.
  - split.
    + intros [= <-]. split; [constructor|]. split; [by intros ? ?%elem_of_nil|]. by exists [].
    + intros (_ & _ & ts & Hl & -> & _). done.
  - case_bool_decide as Hin.
    + split; [done|]. intros (_ & Hn & _). by destruct (Hn x); [left|].
    + rewrite bind_ok. setoid_rewrite bind_ok. split.
      * intros (t & Ht & k & Hk & [= <-]). apply IH in Hk as (Hnd & Hn & ts & Hlen & -> & Hts). split_and!.
        -- constructor; [|done]. intros (y & Hy & Hyin)%list_elem_of_fmap. apply (Hn y Hyin). cbn in Hy. rewrite <- Hy. left.
        -- intros y [->|Hy]%elem_of_cons; [done|]. intros Hy'. apply (Hn y Hy). by right.
        -- exists (t :: ts). split; [cbn; lia|]. split; [done|]. intros [|i] y u Hy Hu; cbn in *; [by simplify_eq|by eapply Hts].
      * intros (Hnd & Hn & ts & Hlen & -> & Hts). destruct ts as [|t ts]; [done|]. apply NoDup_cons in Hnd as [Hx Hnd].
        exists t. split; [by apply (Hts 0%nat)|]. exists (zip_with field_of fields ts). split; [|done]. apply IH. split_and!; [done| |].
        -- intros y Hy [He|Hy']%elem_of_cons; [|by apply (Hn y); [right|]]. apply Hx. apply list_elem_of_fmap. by exists y.
        -- exists ts. split; [cbn in Hlen; lia|]. split; [done|]. intros i. apply (Hts (S i)).
Qed.

Lemma step_typed f oid d t :
  find_oid types oid = Some d → type_step f d = Ok t → (∀ o u, o ∈ asked d → f o = Ok u → typed o u) → typed oid t.
Proof.
  unfold type_step, asked, type_definition_dependencies. intros Hf H Hfg. destruct (td_kind d) eqn:Hk.
  - unfold leaf_type in H. by rewrite Hk in H.
  - eapply typed_leaf; [done|by rewrite Hk|done].
  - eapply typed_leaf; [done|by rewrite Hk|done].
  - apply bind_ok in H as (u & Hu & H). apply bind_ok in H as (g & Hg & [= <-]).
    eapply typed_domain; [done|done| |done]. apply Hfg; [left|done].
  - apply bind_ok in H as (l & Hl & [= <-]). apply composite_fields_ok in Hl as (Hnd & _ & ts & Hlen & -> & Hts).
    eapply typed_composite; [done..|]. intros i x u Hx Hu. apply Hfg; [|by eapply Hts].
    apply list_elem_of_fmap_2. by eapply list_elem_of_lookup_2.
  - apply bind_ok in H as (u & Hu & H). eapply typed_array; [done|done| |done]. apply Hfg; [left|done].
  - apply bind_ok in H as (u & Hu & [= <-]). eapply typed_range; [done|done|]. apply Hfg; [left|done].
  - apply bind_ok in H as (r & Hr%definition_found & H). rewrite Hr in Hfg. destruct (td_kind r) eqn:Hkr; try done.
    apply bind_ok in H as (u & Hu & [= <-]). eapply typed_multirange; [done..|]. apply Hfg; [left|done].
  - eapply typed_leaf; [done|by rewrite Hk|done].
Qed.
Lemma plain_typed n oid t : plain_type n oid = Ok t → typed oid t.
Proof.
  revert oid t. induction n as [|n IH]; intros oid t H; [done|]. cbn in H. apply bind_ok in H as (d & Hd%definition_found & H).
  eapply step_typed; [done|exact H|]. intros o u _. apply IH.
Qed.
Lemma typed_plain oid t : typed oid t → ∃ n, plain_type n oid = Ok t.
Proof.
  induction 1 as [oid d t Hf Hl Ht|oid d base cs nn t digest Hf Hk _ [n Hn] Hd|oid d fields ts Hf Hk Hnd Hlen Hty IH
    |oid d element del t t' Hf Hk _ [n Hn] Ha|oid d subtype t Hf Hk _ [n Hn]|oid d range r subtype t Hf Hk Hr Hkr _ [n Hn]].
  - exists 1%nat. cbn. rewrite (proj2 (definition_found _ _) Hf). cbn. unfold type_step. unfold leaf in Hl. by destruct (td_kind d).
  - exists (S n). cbn. rewrite (proj2 (definition_found _ _) Hf). cbn. unfold type_step. by rewrite Hk, Hn; cbn; rewrite Hd.
  - assert (∃ n, ∀ i x t, fields !! i = Some x → ts !! i = Some t → plain_type n (tf_type_oid x) = Ok t) as [n Hn].
    { clear Hf Hk Hnd Hty. revert ts Hlen IH. induction fields as [|x fields IHf]; intros ts Hlen IH; [by exists 0%nat|].
      destruct ts as [|t ts]; [done|]. destruct (IH 0%nat x t) as [n Hn]; [done..|].
      destruct (IHf ts) as [m Hm]; [cbn in Hlen; lia|intros i; apply (IH (S i))|].
      exists (n + m)%nat. intros [|i] y u Hy Hu; cbn in *.
      - simplify_eq. by apply (plain_type_more n); [lia|].
      - apply (plain_type_more m); [lia|]. by eapply Hm. }
    exists (S n). cbn. rewrite (proj2 (definition_found _ _) Hf). cbn. unfold type_step. rewrite Hk.
    rewrite (proj2 (composite_fields_ok (plain_type n) [] fields (zip_with field_of fields ts))); [done|].
    split; [done|]. split; [by intros ? _ ?%elem_of_nil|]. by exists ts.
  - exists (S n). cbn. rewrite (proj2 (definition_found _ _) Hf). cbn. unfold type_step. by rewrite Hk, Hn.
  - exists (S n). cbn. rewrite (proj2 (definition_found _ _) Hf). cbn. unfold type_step. by rewrite Hk, Hn.
  - exists (S n). cbn. rewrite (proj2 (definition_found _ _) Hf). cbn. unfold type_step. rewrite Hk.
    rewrite (proj2 (definition_found _ _) Hr). cbn. by rewrite Hkr, Hn.
Qed.

(** A type that is built in finitely many steps does not need itself, so the stack never
    gets in the way. *)
Definition unresolved (n : nat) (oid : Z) : Prop := ∀ t, plain_type n oid ≠ Ok t.
Lemma unresolved_less n oid : unresolved (S n) oid → unresolved n oid.
Proof. intros H t Ht. by apply (H t), plain_type_mono. Qed.
Lemma result_dec (n : nat) (oid : Z) : (∃ t, plain_type n oid = Ok t) ∨ unresolved n oid.
Proof. unfold unresolved. destruct (plain_type n oid) as [t|e]; [left; by exists t|by right]. Qed.
Lemma stack_bound stack : NoDup stack → Forall (λ s, is_Some (find_oid types s)) stack → (length stack ≤ length types)%nat.
Proof.
  intros Hnd Hk. rewrite <- (length_fmap td_oid types). apply submseteq_length, NoDup_submseteq; [done|]. intros s Hin.
  rewrite Forall_forall in Hk. destruct (Hk s Hin) as [d Hd]. apply PgCatalogSpec.Spec.find_oid_some in Hd as [Hd <-].
  by apply list_elem_of_fmap_2.
Qed.
Lemma plain_type_found n oid d t stack fuel :
  find_oid types oid = Some d → plain_type n oid = Ok t → (∀ s, s ∈ stack → unresolved n s) → NoDup stack →
  Forall (λ s, is_Some (find_oid types s)) stack → (length types < fuel + length stack)%nat →
  logical_type_from_definition fuel d catalog version stack = Ok t.
Proof.
  revert oid d t stack fuel. induction n as [|n IH]; intros oid d t stack fuel Hd H Hs Hnd Hk Hf; [done|].
  destruct (result_dec n oid) as [[t' Ht']|Hu].
  { assert (t' = t) as -> by (apply plain_type_mono in Ht'; congruence).
    apply (IH oid); try done. intros s Hin. apply unresolved_less. by apply Hs. }
  assert (td_oid d = oid) as Ho by (by apply PgCatalogSpec.Spec.find_oid_some in Hd as [_ ?]).
  assert (oid ∉ stack) as Hin by (intros Hin; by apply (Hs oid Hin t)).
  destruct fuel as [|fuel]; [pose proof (stack_bound _ Hnd Hk); lia|].
  rewrite type_from_step, Ho, bool_decide_eq_false_2 by done. cbn [plain_type] in H.
  rewrite (proj2 (definition_found _ _) Hd) in H. cbn [mbind result_bind] in H. eapply step_below; [|exact H].
  intros o u _ Hu'. destruct n as [|n']; [done|]. pose proof Hu' as H'. cbn [plain_type] in H'.
  apply bind_ok in H' as (d' & Hd' & _). rewrite Hd'. cbn [mbind result_bind]. apply definition_found in Hd'.
  apply (IH o); [done..| | | |].
  - intros s [->|Hsin]%elem_of_cons; [done|]. by apply unresolved_less, Hs.
  - by constructor.
  - constructor; [by exists d|done].
  - cbn. lia.
Qed.
Lemma from_definition_plain fuel d t stack :
  find_oid types (td_oid d) = Some d → logical_type_from_definition fuel d catalog version stack = Ok t → plain_type fuel (td_oid d) = Ok t.
Proof.
  revert d t stack. induction fuel as [|fuel IH]; intros d t stack Hd H; [done|]. rewrite type_from_step in H.
  destruct (bool_decide _); [done|]. cbn [plain_type]. rewrite (proj2 (definition_found _ _) Hd). cbn [mbind result_bind].
  eapply step_below; [|exact H]. intros o u _ Hu. cbn beta in Hu. apply bind_ok in Hu as (d' & Hd'%definition_found & Hu).
  assert (td_oid d' = o) as <- by (by apply PgCatalogSpec.Spec.find_oid_some in Hd' as [_ ?]). by eapply IH.
Qed.

(** C33: the logical type of a PostgreSQL catalog type is what its definition says: the
    recursion over the catalog answers [t] exactly when [t] is built, in finitely many
    steps, from the definitions it refers to: the declared type of a builtin, the labels
    of an enum, the base of a domain with its constraints and digest, the fields of a
    composite under distinct names, the element of an array, range or multirange, and for
    an extension its codec's type or its text.  Neither the test for cycles nor the depth
    of the recursion refuses such a type, and a type that contains itself has none. *)
Theorem catalog_type_exact (d : SourceTypeDefinition) (t : LogicalType) :
  find_oid types (td_oid d) = Some d → type_from_definition d catalog version = Ok t ↔ typed (td_oid d) t.
Proof.
  intros Hd. split.
  - intros H. eapply plain_typed, from_definition_plain; [done|exact H].
  - intros [n Hn]%typed_plain. eapply plain_type_found; [exact Hd|exact Hn|by intros ? ?%elem_of_nil|constructor|constructor|cbn; lia].
Qed.
End types.

(** ** Names *)
(** [quote_ident]: an identifier is written as it is when it is made of lower-case letters,
    digits and underscores, and between quotes, with its quotes doubled, in any case. *)
Definition ident_byte' (c : byte) : bool := is_ascii_lower c || is_ascii_digit c || bool_decide (c = "_"%char).
Definition doubled_quotes (l : list byte) : list byte := concat ((λ c, if bool_decide (c = QUOTE) then [QUOTE; QUOTE] else [c]) <$> l).
Definition ident_written (name text : list byte) : Prop :=
  name ≠ [] ∧ (∀ c, c ∈ name → bval c ≠ 0) ∧ (text = QUOTE :: doubled_quotes name ++ [QUOTE] ∨ forallb ident_byte' name = true ∧ text = name).
(** What follows an identifier is not a quote. *)
Definition unquoted (l : list byte) : Prop := match l with c :: _ => c ≠ QUOTE | [] => True end.

Lemma doubled_cons c l : doubled_quotes (c :: l) = (if bool_decide (c = QUOTE) then [QUOTE; QUOTE] else [c]) ++ doubled_quotes l.
Proof. done. Qed.
Lemma normalize_quoted n out k :
  unquoted k → normalize_loop out true false (doubled_quotes n ++ QUOTE :: k) = normalize_loop (out ++ doubled_quotes n ++ [QUOTE]) false false k.
Proof.
  intros Hk. revert out. induction n as [|c n IH]; intros out.
  - cbn. rewrite (bool_decide_eq_true_2 (QUOTE = QUOTE)) by done. destruct k as [|c k]; [done|].
    cbn [andb]. by rewrite (bool_decide_eq_false_2 (c = QUOTE)).
  - rewrite doubled_cons. case_bool_decide as Hc.
    + cbn [app normalize_loop]. rewrite (bool_decide_eq_true_2 (QUOTE = QUOTE)) by done. cbn [andb].
      rewrite IH. by rewrite <- !(assoc_L (++)).
    + cbn [app normalize_loop]. rewrite (bool_decide_eq_false_2 (c = QUOTE)) by done. rewrite IH. by rewrite <- !(assoc_L (++)).
Qed.
Lemma name_quoted n part k :
  unquoted k → name_parts part true (doubled_quotes n ++ QUOTE :: k) = name_parts (part ++ doubled_quotes n ++ [QUOTE]) false k.
Proof.
  intros Hk. revert part. induction n as [|c n IH]; intros part.
  - cbn. rewrite (bool_decide_eq_true_2 (QUOTE = QUOTE)) by done. destruct k as [|c k]; [done|].
    cbn [andb]. by rewrite (bool_decide_eq_false_2 (c = QUOTE)).
  - rewrite doubled_cons. case_bool_decide as Hc.
    + cbn [app name_parts]. rewrite (bool_decide_eq_true_2 (QUOTE = QUOTE)) by done. cbn [andb].
      rewrite IH. by rewrite <- !(assoc_L (++)).
    + cbn [app name_parts]. rewrite (bool_decide_eq_false_2 (c = QUOTE)) by done. rewrite andb_false_r, IH. by rewrite <- !(assoc_L (++)).
Qed.
Lemma ident_byte_plain c :
  ident_byte' c = true →
  c ≠ QUOTE ∧ c ≠ ";"%char ∧ c ≠ "."%char ∧ is_ascii_whitespace c = false ∧ to_lower_byte c = c ∧ bval c < 128 ∧ white_space (bval c) = false
  ∧ ws1 c = false.
Proof. destruct c as [[] [] [] [] [] [] [] []]; vm_compute; intros H; try discriminate H; split_and!; (discriminate || reflexivity). Qed.
Lemma normalize_plain n out k : forallb ident_byte' n = true → normalize_loop out false false (n ++ k) = normalize_loop (out ++ n) false false k.
Proof.
  revert out. induction n as [|c n IH]; intros out H; [by rewrite app_nil_r|]. cbn in H. apply andb_true_iff in H as [Hc Hn].
  destruct (ident_byte_plain c Hc) as (H1 & H2 & _ & H3 & H4 & _). cbn [app normalize_loop].
  rewrite !bool_decide_eq_false_2 by done. rewrite H3, H4. cbn [andb]. rewrite IH by done. by rewrite <- (assoc_L (++)).
Qed.
Lemma name_plain n part k : forallb ident_byte' n = true → name_parts part false (n ++ k) = name_parts (part ++ n) false k.
Proof.
  revert part. induction n as [|c n IH]; intros part H; [by rewrite app_nil_r|]. cbn in H. apply andb_true_iff in H as [Hc Hn].
  destruct (ident_byte_plain c Hc) as (H1 & _ & H2 & _). cbn [app name_parts].
  rewrite !bool_decide_eq_false_2 by done. cbn [andb]. rewrite IH by done. by rewrite <- (assoc_L (++)).
Qed.
(** An opening quote is read as one: the name it opens is not empty and the first of a
    doubled quote is not taken with it, since outside quotes no quote is doubled. *)
Lemma normalize_ident n t out k :
  ident_written n t → unquoted k → normalize_loop out false false (t ++ k) = normalize_loop (out ++ t) false false k.
Proof.
  intros (_ & _ & [->|[Hn ->]]) Hk; [|by apply normalize_plain].
  assert (∀ l, normalize_loop out false false (QUOTE :: l) = normalize_loop (out ++ [QUOTE]) true false l) as Hopen.
  { intros l. cbn [normalize_loop]. rewrite (bool_decide_eq_true_2 (QUOTE = QUOTE)) by done. by destruct l. }
  change ((QUOTE :: doubled_quotes n ++ [QUOTE]) ++ k) with (QUOTE :: (doubled_quotes n ++ [QUOTE]) ++ k).
  rewrite Hopen, <- (assoc_L (++) (doubled_quotes n)). cbn [app]. rewrite normalize_quoted by done. by rewrite <- !(assoc_L (++)).
Qed.
Lemma name_ident n t k : ident_written n t → unquoted k → name_parts [] false (t ++ k) = name_parts t false k.
Proof.
  intros (_ & _ & [->|[Hn ->]]) Hk; [|by apply name_plain].
  assert (∀ l, name_parts [] false (QUOTE :: l) = name_parts [QUOTE] true l) as Hopen.
  { intros l. cbn [name_parts]. rewrite (bool_decide_eq_true_2 (QUOTE = QUOTE)) by done. by destruct l. }
  change ((QUOTE :: doubled_quotes n ++ [QUOTE]) ++ k) with (QUOTE :: (doubled_quotes n ++ [QUOTE]) ++ k).
  rewrite Hopen, <- (assoc_L (++) (doubled_quotes n)). cbn [app]. by rewrite name_quoted.
Qed.

(** Unquoting inverts quoting. *)
Lemma replace_doubled by_ n k :
  unquoted k → replace_quotes by_ (doubled_quotes n ++ k)
  = concat ((λ c, if bool_decide (c = QUOTE) then by_ else [c]) <$> n) ++ replace_quotes by_ k.
Proof.
  intros Hk. induction n as [|c n IH]; [done|]. rewrite doubled_cons. cbn [fmap list_fmap concat]. case_bool_decide as Hc.
  - cbn [app replace_quotes]. rewrite !bool_decide_eq_true_2 by done. cbn [andb]. rewrite IH. by rewrite <- (assoc_L (++)).
  - cbn [app]. rewrite <- IH. destruct (doubled_quotes n ++ k); [done|]. cbn [replace_quotes].
    by rewrite (bool_decide_eq_false_2 (c = QUOTE)).
Qed.
Lemma undoubled n : concat ((λ c, if bool_decide (c = QUOTE) then [QUOTE] else [c]) <$> n) = n.
Proof. induction n as [|c n IH]; [done|]. cbn. rewrite IH. by case_bool_decide as Hc; [rewrite Hc|]. Qed.
Lemma no_quotes_left n : QUOTE ∉ concat ((λ c, if bool_decide (c = QUOTE) then [] else [c]) <$> n).
Proof.
  induction n as [|c n IH]; cbn; [apply not_elem_of_nil|]. case_bool_decide as Hc; [done|].
  intros [H|H]%elem_of_cons; [by apply Hc|by apply IH].
Qed.

Lemma strip_suffix_bytes l x : strip_suffix (of_bytes [x]) (of_bytes (l ++ [x])) = Some (of_bytes l).
Proof.
  unfold strip_suffix. rewrite !sbytes_of, rev_app_distr. cbn. rewrite bool_decide_eq_true_2 by done. cbn.
  by rewrite sbytes_of, rev_involutive.
Qed.
Lemma ascii_not_white c l : bval c < 128 → ws1 c = false → starts_white (c :: l) = false.
Proof.
  intros Hc Hw. assert (∀ b, ws2 c b = false) as H2 by (intros b; unfold ws2; apply andb_false_iff; left; lia).
  assert (∀ b d, ws3 c b d = false) as H3.
  { intros b d. destruct c as [[] [] [] [] [] [] [] []]; vm_compute in Hc; try discriminate Hc; reflexivity. }
  destruct l as [|b [|d l]]; cbn; rewrite Hw, ?H2, ?H3; done.
Qed.
Lemma chars_plain l : Forall (λ c, bval c < 128) l → chars_bytes l = bval <$> l.
Proof. induction 1 as [|c l Hc Hl IH]; [done|]. cbn [chars_bytes]. rewrite (proj2 (Z.ltb_lt _ _)) by done. by rewrite IH. Qed.
Lemma sempty_bytes l : l ≠ [] → sempty (of_bytes l) = false.
Proof. by destruct l. Qed.
(** The first and the last byte of an identifier as written are not white space. *)
Lemma ident_ends n t : ident_written n t → (∃ c l, t = c :: l ∧ bval c < 128 ∧ ws1 c = false) ∧ ∃ l c, t = l ++ [c] ∧ bval c < 128 ∧ ws1 c = false.
Proof.
  intros (Hne & _ & [->|[Hn ->]]).
  - split; [by eexists QUOTE, _|]. by exists (QUOTE :: doubled_quotes n), QUOTE.
  - rewrite forallb_forall in Hn. split.
    + destruct n as [|c l]; [done|]. exists c, l. destruct (ident_byte_plain c) as (_&_&_&_&_&?&_&?); [|done]. apply Hn. by left.
    + destruct (exists_last Hne) as (l & c & ->). exists l, c. destruct (ident_byte_plain c) as (_&_&_&_&_&?&_&?); [|done].
      apply Hn, in_app_iff. by right; left.
Qed.
Lemma trim_bytes l c k d : l ++ [d] = c :: k → bval c < 128 → ws1 c = false → bval d < 128 → ws1 d = false →
  trim (of_bytes (l ++ [d])) = of_bytes (l ++ [d]).
Proof.
  intros E Hc Hcw Hd Hdw. eapply (trim_fixed _ l d); [|by rewrite sbytes_of|done|done]. rewrite sbytes_of, E. by apply ascii_not_white.
Qed.
Lemma identifier_read n t version : ident_written n t → catalog_identifier (of_bytes t) version = Ok (of_bytes n).
Proof.
  intros Hw. destruct (ident_ends _ _ Hw) as [(c & k & E1 & Hc & Hcw) (l & d & E2 & Hd & Hdw)].
  unfold catalog_identifier. assert (trim (of_bytes t) = of_bytes t) as -> by (rewrite E2; eapply trim_bytes; [by rewrite <- E2|done..]).
  destruct Hw as (Hne & _ & [->|[Hn ->]]).
  - cbn [of_bytes String.string_of_list_ascii strip_prefix strip_byte]. rewrite bool_decide_eq_true_2 by done.
    change (String.string_of_list_ascii ?x) with (of_bytes x). change (String QUOTE "") with (of_bytes [QUOTE]).
    cbn [mbind option_bind]. rewrite strip_suffix_bytes, sempty_bytes, sbytes_of.
    2: { destruct n as [|x n]; [done|]. rewrite doubled_cons. by case_bool_decide. }
    pose proof (λ b, replace_doubled b n [] I) as H. rewrite app_nil_r in H. rewrite !H, undoubled, !app_nil_r.
    rewrite bool_decide_eq_false_2 by apply no_quotes_left. done.
  - rewrite forallb_forall in Hn.
    assert (∀ x, x ∈ n → ident_byte' x = true) as Hb by (intros x Hx; by apply Hn, list_elem_of_In).
    assert (strip_prefix (String QUOTE "") (of_bytes n) = None) as ->.
    { destruct n as [|x n]; [done|]. cbn. rewrite bool_decide_eq_false_2; [done|]. by apply ident_byte_plain, Hb; left. }
    cbn [mbind option_bind]. rewrite sempty_bytes by done. cbn [orb].
    assert (contains_byte QUOTE (of_bytes n) = false) as ->.
    { apply contains_byte_false. rewrite sbytes_of. intros Hin. by apply Hb, ident_byte_plain in Hin as [? _]. }
    cbn [orb]. assert (existsb white_space (chars (of_bytes n)) = false) as ->; [|done].
    unfold chars. rewrite sbytes_of, chars_plain.
    2: { apply Forall_forall. intros x Hx%Hb. by apply ident_byte_plain. }
    apply not_true_is_false. intros (z & Hz & Hw)%existsb_exists. apply list_elem_of_In, list_elem_of_fmap in Hz as (x & -> & Hx).
    apply Hb, ident_byte_plain in Hx as (_&_&_&_&_&_&Hx&_). congruence.
Qed.

(** ** Qualified names *)
Lemma strip_prefix_bytes p s r : strip_prefix p s = Some r → sbytes s = sbytes p ++ sbytes r.
Proof.
  revert s. induction p as [|c p IH]; intros s H; cbn in H; [by injection H as ->|]. unfold strip_byte in H.
  destruct s as [|b s]; [done|]. case_bool_decide as E; [|done]. subst. cbn. f_equal. by apply IH.
Qed.
Lemma qualified_not_enum n t k : ident_written n t → starts "enum(" (to_lower (of_bytes (t ++ "."%char :: k))) = false.
Proof.
  intros Hw. unfold starts. destruct (strip_prefix _ _) as [r|] eqn:E; [exfalso|done]. apply strip_prefix_bytes in E.
  unfold to_lower in E. rewrite !sbytes_of, fmap_app in E. destruct Hw as (_ & _ & [->|[Hn ->]]); [done|].
  rewrite forallb_forall in Hn. assert (to_lower_byte <$> n = n) as Hlow.
  { clear E. induction n as [|c n IH]; [done|]. cbn. f_equal; [by apply ident_byte_plain, Hn; left|]. apply IH. intros x Hx. apply Hn. by right. }
  rewrite Hlow in E. cbn [sbytes String.list_ascii_of_string] in E.
  assert (∀ x, x ∈ n → x ≠ "("%char) as Hpar.
  { intros x Hx ->. apply list_elem_of_In, Hn in Hx. by vm_compute in Hx. }
  do 5 (destruct n as [|? n]; [by inversion E|]; cbn in E; injection E as -> E).
  apply (Hpar "("%char); [|done]. do 4 right. left.
Qed.

End Spec.

(** ** Instances *)
Module Example19.
#[local] Existing Instance PgType.Example16.json.
#[local] Existing Instance SumDigest.sha256.
Definition price : SourceTypeDefinition := domain 71 "app" "price" 1700 ["CHECK (VALUE > 0)"%string] false None.
Example catalog_type_exact_witness :
  find_oid (cat_types PgType.Example16.types) (td_oid price) = Some price
  ∧ Spec.typed PgType.Example16.types "15" 71 (TDomain "app.price" TDecimalUnbounded ["CHECK (VALUE > 0)"%string] false None (td_definition_digest price)).
Proof.
  assert (find_oid (cat_types PgType.Example16.types) (td_oid price) = Some price) as Hf by (vm_compute; reflexivity).
  split; [exact Hf|].
  apply (Spec.catalog_type_exact PgType.Example16.types "15" price
    (TDomain "app.price" TDecimalUnbounded ["CHECK (VALUE > 0)"%string] false None (td_definition_digest price)) Hf).
  vm_compute. reflexivity.
Defined.

(** A name with a space and quotes. *)
Definition unit_price : list byte := sbytes "Unit " ++ [QUOTE] ++ sbytes "Price" ++ [QUOTE].
Definition quoted : list byte := QUOTE :: Spec.doubled_quotes unit_price ++ [QUOTE].
Definition catalog19 : SourceTypeCatalog := mkCatalog [builtin 23 "pg_catalog" "int4"; enum_type 80 "app" (of_bytes unit_price) ["a"]%string] [].
End Example19.
