(* ===== verification/PgLoad.v ===== *)
(** * Loading the catalog of a PostgreSQL source ([crates/postgresql_15/src/catalog.rs])

    [load] checks the publication and builds, from the rows of the server's catalog, the
    tables a stream captures: for every column its type definition, the mapping of its
    declaration, whether its values are decoded or kept as text, and the evidence carried
    with a text value.  [source_type_catalog] builds the type directory from the rows of
    pg_type and the batches of labels, constraints and fields.  The rows are data, given
    in the order of the queries; a column whose value the driver cannot convert is an
    error. *)
From S2P Require Import Prelude Text Utf8 Codec Model LogicalTypes MyType PgCatalog PgType.

Notation loaded := (result string).

(** ** Rows of the queries *)
Record PublicationRow := mkPublication {
  pub_insert : bool;
  pub_update : bool;
  pub_delete : bool;
  pub_truncate : bool;
  pub_via_root : bool
}.
Record RelationRow := mkRelationRow {
  rr_oid : Z;
  rr_schema : string;
  rr_name : string;
  rr_attnames : list string;
  rr_rowfilter : option string;
  rr_kind : string;
  rr_identity : string;
  rr_row_security : bool;
  rr_persistence : string
}.
Record ColumnRow := mkColumnRow {
  cr_name : string;
  cr_type_oid : Z;
  cr_modifier : Z;
  cr_native_type : string;
  cr_generated : string;
  cr_key_ordinal : option Z
}.
Record TypeRow := mkTypeRow {
  ty_oid : Z;
  ty_schema : string;
  ty_name : string;
  ty_type : string;
  ty_base_oid : Z;
  ty_element_oid : Z;
  ty_relid : Z;
  ty_delimiter : string;
  ty_is_array : bool;
  ty_not_null : bool;
  ty_range_oid : option Z;
  ty_range_subtype : option Z;
  ty_collation : option string;
  ty_extension : option string
}.
Record FieldRow := mkFieldRow { fd_relid : Z; fd_name : string; fd_type_oid : Z; fd_nullable : bool }.
Record ExtensionRow := mkExtensionRow {
  er_name : string;
  er_version : option string;
  er_schema : string;
  er_installed : bool;
  er_available : bool
}.
(** What the queries answer. *)
Record Directory := mkDirectory {
  dr_publication : loaded (option PublicationRow);
  dr_relations : loaded (list RelationRow);
  dr_columns : Z → loaded (list ColumnRow);
  dr_types : loaded (list TypeRow);
  dr_labels : loaded (list (Z * string));
  dr_constraints : loaded (list (Z * string));
  dr_fields : loaded (list FieldRow);
  dr_extensions : loaded (list ExtensionRow)
}.

(** ** The checked catalog *)
Record Column := mkCatalogColumn {
  cc_name : string;
  cc_oid : Z;
  cc_modifier : Z;
  cc_native_type : string;
  cc_type_schema : string;
  cc_type_name : string;
  cc_type_definition_digest : string;
  cc_type_definition_evidence : string;
  cc_type_definition_closure_evidence : string;
  cc_type_definition_closure_digest : string;
  cc_representation_only : bool;
  cc_representation_capture_allowed : bool;
  cc_key : option Z
}.
Record Table := mkTable {
  tb_oid : Z;
  tb_schema : string;
  tb_name : string;
  tb_identity : byte;
  tb_source_type_catalog_digest : string;
  tb_columns : list Column
}.
Record LoadedCatalog := mkLoaded {
  lo_tables : gmap Z Table;
  lo_type_names : gmap Z (string * string);
  lo_type_catalog : SourceTypeCatalog
}.

Definition u32_of (value : Z) : loaded Z := if in_range 0 u32_max value then Ok value else Err "out of range integral type conversion"%string.
Definition required {A} (value : option A) : loaded A := ok_or "unexpected NULL"%string value.

Section load.
Context `{SHA : Sha256} `{CJ : CatalogJson} `{MJ : MappingJson}.

(** ** The type directory *)
(** [map.entry(key).or_default().push(value)] over the rows of a batch. *)
Definition push_entry {A} (m : gmap Z (list A)) (key : Z) (value : A) : gmap Z (list A) :=
  <[key := default [] (m !! key) ++ [value]]> m.
Fixpoint batch {R A} (key : R → loaded Z) (value : R → loaded A) (rows : list R) (m : gmap Z (list A)) : loaded (gmap Z (list A)) :=
  match rows with
  | [] => Ok m
  | row :: rows =>
      let? k := key row in
      let? v := value row in
      batch key value rows (push_entry m k v)
  end.
Record Batches := mkBatches {
  ba_labels : gmap Z (list string);
  ba_constraints : gmap Z (list string);
  ba_fields : gmap Z (list SourceTypeField)
}.
Definition extension_codec (extension name : string) : string * option LogicalType :=
  if bool_decide (extension = "hstore"%string) && bool_decide (name = "hstore"%string)
  then ("postgresql.hstore.text.v1"%string, Some (TMap (TText "UTF8" None LuBytes None) (TText "UTF8" None LuBytes None)))
  else if bool_decide (extension = "postgis"%string) && bool_decide (name ∈ ["geometry"; "geography"]%string)
  then ("postgresql.postgis.ewkb-hex.v1"%string, Some (TSpatial "*" None 0))
  else (""%string, None).
Definition extension_encoding (codec : string) : string := if ends_with "ewkb-hex.v1" codec then "hex-EWKB"%string else "UTF-8"%string.
(** One row of pg_type; the batch entries it uses are removed. *)
Definition type_definition (row : TypeRow) (b : Batches) : loaded (SourceTypeDefinition * Batches) :=
  let? oid := u32_of (ty_oid row) in
  let? element_oid := u32_of (ty_element_oid row) in
  let schema := ty_schema row in
  let name := ty_name row in
  let is_kind := λ kind : string, bool_decide (ty_type row = kind) in
  if is_kind "p"%string then Ok (pseudo oid schema name (ty_collation row), b)
  else if is_kind "b"%string && ty_is_array row && negb (element_oid =? 0) then
    let? delimiter := ok_or "PostgreSQL array delimiter is empty"%string (head (chars (ty_delimiter row))) in
    Ok (array_with_delimiter oid schema name element_oid delimiter, b)
  else if is_kind "b"%string then
    match ty_extension row with
    | Some extname =>
        let '(codec, logical) := extension_codec extname name in
        Ok (extension oid schema name extname codec (extension_encoding codec) logical, b)
    | None => Ok (builtin oid schema name, b)
    end
  else if is_kind "e"%string then
    Ok (enum_type oid schema name (default [] (ba_labels b !! oid)), mkBatches (delete oid (ba_labels b)) (ba_constraints b) (ba_fields b))
  else if is_kind "d"%string then
    let? base_oid := u32_of (ty_base_oid row) in
    Ok (domain oid schema name base_oid (default [] (ba_constraints b !! oid)) (ty_not_null row) (ty_collation row),
        mkBatches (ba_labels b) (delete oid (ba_constraints b)) (ba_fields b))
  else if is_kind "c"%string then
    let? relid := u32_of (ty_relid row) in
    Ok (composite oid schema name (default [] (ba_fields b !! relid)), mkBatches (ba_labels b) (ba_constraints b) (delete relid (ba_fields b)))
  else if is_kind "r"%string then
    let? value := required (ty_range_subtype row) in
    let? subtype := u32_of value in Ok (range oid schema name subtype, b)
  else if is_kind "m"%string then
    let? value := required (ty_range_oid row) in
    let? range_oid := u32_of value in Ok (multi_range oid schema name range_oid, b)
  else Err "unsupported PostgreSQL type category"%string.
Fixpoint type_definitions (rows : list TypeRow) (b : Batches) : loaded (list SourceTypeDefinition) :=
  match rows with
  | [] => Ok []
  | row :: rows =>
      let? r := type_definition row b in
      let? rest := type_definitions rows r.2 in Ok (r.1 :: rest)
  end.
Definition source_extension (row : ExtensionRow) : SourceExtension :=
  mkExtension (er_name row) (default ""%string (er_version row)) (er_schema row) (er_installed row) (er_available row) None.
Definition source_type_catalog (dir : Directory) : loaded SourceTypeCatalog :=
  let? rows := dr_types dir in
  let? label_rows := dr_labels dir in
  let? labels := batch (λ r, u32_of r.1) (λ r, Ok r.2) label_rows ∅ in
  let? constraint_rows := dr_constraints dir in
  let? constraints := batch (λ r, u32_of r.1) (λ r, Ok r.2) constraint_rows ∅ in
  let? field_rows := dr_fields dir in
  let? fields :=
    batch (λ r, u32_of (fd_relid r)) (λ r, let? oid := u32_of (fd_type_oid r) in Ok (mkTypeField (fd_name r) oid (fd_nullable r)))
      field_rows ∅ in
  let? definitions := type_definitions rows (mkBatches labels constraints fields) in
  let? extensions := dr_extensions dir in
  Ok (mkCatalog definitions (source_extension <$> extensions)).

(** ** Tables *)
Definition check_publication (row : option PublicationRow) : loaded () :=
  let? p := ok_or "publication does not exist; prepare it with the table owner/admin"%string row in
  ensure (pub_insert p && pub_update p && pub_delete p && pub_truncate p)
    "publication must include every operation; omitted operations would be invisible"%string ;?
  ensure (negb (pub_via_root p)) "partition-root publication is not supported yet"%string.
Definition relation_supported (r : RelationRow) : bool :=
  bool_decide (rr_kind r = "r"%string) && bool_decide (rr_persistence r = "p"%string) && negb (rr_row_security r)
  && negb (Validate.is_some (rr_rowfilter r)) && bool_decide (rr_identity r ∈ ["d"; "f"]%string).
Definition load_column (version : string) (catalog : SourceTypeCatalog) (row : ColumnRow) : loaded Column :=
  let? oid := u32_of (cr_type_oid row) in
  let? definition := ok_or "catalog is missing type OID"%string (find_oid (cat_types catalog) oid) in
  let? mapping :=
    map_err (λ _, "column declaration has no mapping"%string)
      (source_type_mapping_with_catalog_for_version version (cr_native_type row) catalog) in
  let representation := captures_source_representation catalog oid (sm_logical_type mapping) in
  let? closure := definition_closure catalog oid in
  ensure (sempty (cr_generated row)) "unsupported type/generated column"%string ;?
  let? key :=
    match cr_key_ordinal row with
    | None => Ok None
    | Some ordinal => if ordinal <? 0 then Err "out of range integral type conversion"%string else Ok (Some ordinal)
    end in
  Ok (mkCatalogColumn (cr_name row) oid (cr_modifier row) (cr_native_type row) (td_schema definition) (td_name definition)
        (td_definition_digest definition) (definition_text definition) (closure_text closure) (closure_digest closure)
        representation representation key).
Definition load_table (version : string) (catalog : SourceTypeCatalog) (dir : Directory) (row : RelationRow) : loaded Table :=
  let? oid := u32_of (rr_oid row) in
  ensure (relation_supported row)
    "requires an ordinary permanent primary-key table without RLS/row filters and DEFAULT or FULL replica identity"%string ;?
  let? rows := dr_columns dir oid in
  let? columns := collect (load_column version catalog) rows in
  ensure (bool_decide (rr_attnames row = cc_name <$> columns) && existsb (λ c, Validate.is_some (cc_key c)) columns)
    "publish all columns of a primary-key table"%string ;?
  Ok (mkTable oid (rr_schema row) (rr_name row) (default NUL (head (sbytes (rr_identity row)))) (evidence_digest catalog) columns).
Fixpoint load_tables (version : string) (catalog : SourceTypeCatalog) (dir : Directory) (rows : list RelationRow)
    (tables : gmap Z Table) : loaded (gmap Z Table) :=
  match rows with
  | [] => Ok tables
  | row :: rows =>
      let? t := load_table version catalog dir row in
      load_tables version catalog dir rows (<[tb_oid t := t]> tables)
  end.
Definition load (dir : Directory) (version : Z) : loaded LoadedCatalog :=
  let? publication := dr_publication dir in
  check_publication publication ;?
  let? relations := dr_relations dir in
  ensure (negb (bool_decide (relations = []))) "publication has no tables"%string ;?
  let? catalog := source_type_catalog dir in
  let? tables := load_tables (show_nat version) catalog dir relations ∅ in
  Ok (mkLoaded tables (list_to_map (rev ((λ d, (td_oid d, (td_schema d, td_name d))) <$> cat_types catalog))) catalog).
End load.
