(* ===== verification/PgDecode.v ===== *)
(** * Value decoding of the PostgreSQL capture ([crates/postgresql_15/src/types.rs])

    pgoutput delivers every value in PostgreSQL's text format.  Scalars are decoded by
    OID; composites, arrays, ranges and extension types by recursion over the checked
    type catalog, with the readers of PostgreSQL's record, array, range and hstore
    syntax.  Decoding fails with [Invalid] (the message is dropped) or panics: an
    [unreachable!] and slices at a position inside a character are reached on malformed
    input.  Numbers are the language's own parsers, floats included ([parse_float]). *)
From S2P Require Import Prelude Text Utf8 Codec Model Plan LogicalTypes Calendar Floats MyType PgCatalog PgType.

Inductive DecodeError := Invalid | Panic.
Notation decoded := (result DecodeError).
Definition invalid {A} : decoded A := Err Invalid.
Definition or_fail {A} (o : option A) : decoded A := ok_or Invalid o.
Definition checked_i64 (z : Z) : decoded Z := if in_range i64_min i64_max z then Ok z else invalid.
Definition checked_i128 (z : Z) : decoded Z := if in_range i128_min i128_max z then Ok z else invalid.
Definition into_i32 (z : Z) : decoded Z := if in_range i32_min i32_max z then Ok z else invalid.

(** ** Parsing of floats ([f32::from_str], [f64::from_str]) *)
(** The parameters of a format: bits of its fraction and of its width. *)
Definition fraction_bits (bits : Z) : Z := if bits =? 32 then 23 else 52.
Definition exponent_bits (bits : Z) : Z := if bits =? 32 then 8 else 11.
Definition infinity_bits (bits : Z) : Z := Z.shiftl (2 ^ exponent_bits bits - 1) (fraction_bits bits).
Definition nan_bits (bits : Z) : Z := infinity_bits bits + 2 ^ (fraction_bits bits - 1).
(** The quotient of two positive numbers rounded to the nearest integer, ties to even. *)
Definition div_half_even (num den : Z) : Z :=
  let q := num / den in
  let r := num mod den in
  if 2 * r <? den then q else if den <? 2 * r then q + 1 else if Z.even q then q else q + 1.
(** The bits of the float nearest to [num / den], a positive number. *)
Definition round_to_bits (bits num den : Z) : Z :=
  let fraction := fraction_bits bits in
  let smallest := 2 - 2 ^ (exponent_bits bits - 1) - fraction in
  let exponent := Z.log2 num - Z.log2 den in
  let exponent := if num * 2 ^ Z.max 0 (- exponent) <? den * 2 ^ Z.max 0 exponent then exponent - 1 else exponent in
  let unit := Z.max smallest (exponent - fraction) in
  let n := div_half_even (num * 2 ^ Z.max 0 (- unit)) (den * 2 ^ Z.max 0 unit) in
  Z.min (infinity_bits bits) (n + (unit - smallest) * 2 ^ fraction).
(** The decimal [digits * 10 ^ exponent]; exponents that are out of range for every such
    number of digits are cut off first. *)
Definition decimal_bits (bits digits count exponent : Z) : Z :=
  if digits =? 0 then 0
  else if 400 <? exponent + count then infinity_bits bits
  else if exponent + count <? -400 then 0
  else round_to_bits bits (digits * 10 ^ Z.max 0 exponent) (10 ^ Z.max 0 (- exponent)).
Fixpoint span_digits (l : list byte) : list byte * list byte :=
  match l with
  | c :: k => if is_ascii_digit c then let '(digits, rest) := span_digits k in (c :: digits, rest) else ([], l)
  | [] => ([], [])
  end.
Definition signed_rest (l : list byte) : bool * list byte :=
  match l with
  | c :: k => if bool_decide (c = "-"%char) then (true, k) else if bool_decide (c = "+"%char) then (false, k) else (false, l)
  | [] => (false, [])
  end.
Definition digits_value (l : list byte) : Z := foldl (λ a c, 10 * a + (bval c - 48)) 0 l.
(** The exponent after [e]; nothing else may follow. *)
Definition float_exponent (l : list byte) : option Z :=
  match l with
  | [] => Some 0
  | c :: k =>
      if bool_decide (c ∈ ["e"; "E"]%char) then
        let '(negative, k) := signed_rest k in
        if bool_decide (k = []) || negb (forallb is_ascii_digit k) then None
        else Some (if negative then - digits_value k else digits_value k)
      else None
  end.
Definition parse_float (bits : Z) (text : string) : option Z :=
  let '(negative, body) := signed_rest (sbytes text) in
  let name := to_lower (of_bytes body) in
  let signed := λ magnitude, if negative then 2 ^ (bits - 1) + magnitude else magnitude in
  if bool_decide (name ∈ ["inf"; "infinity"]%string) then Some (signed (infinity_bits bits))
  else if bool_decide (name = "nan"%string) then Some (signed (nan_bits bits))
  else
    let '(integer, rest) := span_digits body in
    let '(fraction, rest) := match rest with "."%char :: k => span_digits k | _ => ([], rest) end in
    if bool_decide (integer = []) && bool_decide (fraction = []) then None else
    exponent ← float_exponent rest;
    let digits := integer ++ fraction in
    Some (signed (decimal_bits bits (digits_value digits) (Z.of_nat (length digits)) (exponent - Z.of_nat (length fraction)))).
(** [format!("{:0width$x}")] *)
Definition lower_hex_digit (d : Z) : byte := byte_of (if d <? 10 then 48 + d else 87 + d).
Fixpoint lower_hex (width : nat) (value : Z) : string :=
  match width with
  | O => ""
  | S width => lower_hex width (value / 16) +:+ String (lower_hex_digit (value mod 16)) ""
  end.

(** ** The text parser: the bytes that remain *)
Definition expect (c : byte) (l : list byte) : decoded (list byte) :=
  match l with c' :: k => if bool_decide (c' = c) then Ok k else invalid | [] => invalid end.
Definition peek_is (c : byte) (l : list byte) : bool := bool_decide (head l = Some c).
Fixpoint skip_spaces (l : list byte) : list byte :=
  match l with c :: k => if is_ascii_whitespace c then skip_spaces k else l | [] => [] end.
Fixpoint consume_bytes (expected l : list byte) : option (list byte) :=
  match expected, l with
  | [], _ => Some l
  | e :: expected, c :: l => if bool_decide (c = e) then consume_bytes expected l else None
  | _ :: _, [] => None
  end.
(** The text before [stop] and the rest from it. *)
Fixpoint number_until (stop : byte) (l : list byte) : option (list byte * list byte) :=
  match l with
  | [] => None
  | c :: k =>
      if bool_decide (c = stop) then Some ([], l)
      else match number_until stop k with Some (text, rest) => Some (c :: text, rest) | None => None end
  end.
(** A quoted token after its opening quote. *)
Fixpoint quoted_token (value l : list byte) : decoded (list byte * list byte) :=
  match l with
  | [] => invalid
  | c :: k =>
      if bool_decide (c = QUOTE) then
        match k with
        | c2 :: k2 => if bool_decide (c2 = QUOTE) then quoted_token (value ++ [QUOTE]) k2 else Ok (value, k)
        | [] => Ok (value, k)
        end
      else if bool_decide (c = "\"%char) then
        match k with [] => invalid | escaped :: k2 => quoted_token (value ++ [escaped]) k2 end
      else quoted_token (value ++ [c]) k
  end.
Fixpoint bare_token (terminators value l : list byte) : decoded (list byte * list byte) :=
  match l with
  | [] => Ok (value, [])
  | c :: k =>
      if bool_decide (c ∈ terminators) then Ok (value, l)
      else if bool_decide (c = "\"%char) then
        match k with [] => invalid | escaped :: k2 => bare_token terminators (value ++ [escaped]) k2 end
      else bare_token terminators (value ++ [c]) k
  end.
Definition token_ends (terminators l : list byte) : bool :=
  match head l with Some c => bool_decide (c ∈ terminators) | None => true end.
(** The token, whether it was quoted, and the rest. *)
Definition token (terminators l : list byte) : decoded (list byte * bool * list byte) :=
  if peek_is QUOTE l then
    let? read := quoted_token [] (tail l) in
    let '(value, rest) := read in
    let rest := if token_ends terminators rest then rest else skip_spaces rest in
    if token_ends terminators rest then Ok (value, true, rest) else invalid
  else
    let? read := bare_token terminators [] l in
    let '(value, rest) := read in Ok (value, false, rest).
Definition finish {A} (value : A) (rest : list byte) : decoded A := if bool_decide (rest = []) then Ok value else invalid.

(** ** Records *)
(** The loop over the fields; every turn consumes a separator. *)
Fixpoint record_fields (fuel : nat) (fields : list (option (list byte))) (l : list byte)
    : decoded (list (option (list byte)) * list byte) :=
  match fuel with
  | O => invalid
  | S fuel =>
      let? read := token [","; ")"]%char l in
      let '(value, quoted, rest) := read in
      let fields := fields ++ [if negb quoted && bool_decide (value = []) then None else Some value] in
      match rest with
      | [] => invalid
      | c :: rest =>
          if bool_decide (c = ","%char) then record_fields fuel fields rest
          else if bool_decide (c = ")"%char) then Ok (fields, rest) else Err Panic
      end
  end.
Definition parse_record (bytes : list byte) : decoded (list (option (list byte))) :=
  let? l := expect "(" bytes in
  if peek_is ")" l then finish [] (tail l) else
  let? read := record_fields (S (length l)) [] l in
  finish read.1 read.2.

(** ** Arrays *)
Inductive ArrayNode :=
| Branch (children : list ArrayNode)
| Leaf (value : option (list byte)).

(** One [[lower:upper]]: only the lower bound is kept. *)
Definition array_bounds (l : list byte) : decoded (Z * list byte) :=
  let? lower := or_fail (number_until ":" l) in
  let? upper := or_fail (number_until "]" (tail lower.2)) in
  let? lower_bound := or_fail (text ← from_utf8 lower.1; parse_i32 text) in
  let? upper_bound := or_fail (text ← from_utf8 upper.1; parse_i32 text) in
  if in_range 0 10000000 (upper_bound - lower_bound + 1) then Ok (lower_bound, tail upper.2) else invalid.
Fixpoint lower_bounds (fuel : nat) (bounds : list Z) (l : list byte) : decoded (list Z * list byte) :=
  match fuel with
  | O => invalid
  | S fuel =>
      if peek_is "[" l then
        let? read := array_bounds (tail l) in
        lower_bounds fuel (bounds ++ [read.1]) read.2
      else Ok (bounds, l)
  end.

(** [parse_array_level] and its loop over the items, after the opening brace. *)
Fixpoint array_items (fuel : nat) (delimiter : byte) (items : list ArrayNode) (l : list byte)
    : decoded (ArrayNode * list byte) :=
  match fuel with
  | O => invalid
  | S fuel =>
      let? item :=
        if peek_is "{" l then
          if peek_is "}" (tail l) then Ok (Branch [], tail (tail l)) else array_items fuel delimiter [] (tail l)
        else
          let? read := token [delimiter; "}"%char] l in
          let '(value, quoted, rest) := read in
          let null := negb quoted && eq_ignore_case (of_bytes value) "NULL" in
          Ok (Leaf (if null then None else Some value), rest) in
      let '(node, rest) := item in
      let items := items ++ [node] in
      match rest with
      | [] => invalid
      | c :: rest =>
          if bool_decide (c = delimiter) then array_items fuel delimiter items rest
          else if bool_decide (c = "}"%char) then Ok (Branch items, rest) else Err Panic
      end
  end.
Definition parse_array_level (delimiter : byte) (l : list byte) : decoded (ArrayNode * list byte) :=
  let? l := expect "{" l in
  if peek_is "}" l then Ok (Branch [], tail l) else array_items (S (length l)) delimiter [] l.
Definition parse_array (bytes : list byte) (delimiter : Z) : decoded (ArrayNode * option (list Z)) :=
  if negb (in_range 0 255 delimiter) then invalid else
  let? bounds := lower_bounds (S (length bytes)) [] bytes in
  let explicit := if bool_decide (bounds.1 = []) then None else Some bounds.1 in
  let? l := if bool_decide (bounds.1 = []) then Ok bounds.2 else expect "=" bounds.2 in
  let? tree := parse_array_level (byte_of delimiter) l in
  finish (tree.1, explicit) tree.2.

(** The shape and the leaves in order; sibling branches must have one shape. *)
Fixpoint flatten_array (node : ArrayNode) : decoded (list Z * list (option (list byte))) :=
  match node with
  | Leaf value => Ok ([], [value])
  | Branch [] => Ok ([0], [])
  | Branch children =>
      let? flat :=
        (fix go (expected : option (list Z)) (flat : list (option (list byte))) (children : list ArrayNode) :=
           match children with
           | [] => Ok (default [] expected, flat)
           | child :: children =>
               let? inner := flatten_array child in
               let '(shape, values) := inner in
               if match expected with Some known => negb (bool_decide (known = shape)) | None => false end then invalid
               else go (Some (default shape expected)) (flat ++ values) children
           end) None [] children in
      Ok (Z.of_nat (length children) :: flat.1, flat.2)
  end.

(** ** Multiranges and range bounds *)
(** The reading state of [split_multirange] and [find_unquoted]: a backslash hides the
    next byte, a quote opens or closes a quoted part. *)
Fixpoint split_ranges (item : list byte) (quoted escaped : bool) (depth : Z) (l : list byte) : decoded (list string) :=
  match l with
  | [] => if quoted || escaped || negb (depth =? 0) then invalid else Ok [trim (of_bytes item)]
  | c :: k =>
      let keep := split_ranges (item ++ [c]) in
      if escaped then keep quoted false depth k
      else if bool_decide (c = "\"%char) then keep quoted true depth k
      else if bool_decide (c = QUOTE) then keep (negb quoted) false depth k
      else if quoted then keep quoted false depth k
      else if bool_decide (c ∈ ["["; "("]%char) then keep false false (depth + 1) k
      else if bool_decide (c ∈ ["]"; ")"]%char) then keep false false (depth - 1) k
      else if bool_decide (c = ","%char) && (depth =? 0) then
        let? rest := split_ranges [] false false depth k in Ok (trim (of_bytes item) :: rest)
      else keep false false depth k
  end.
Definition split_multirange (body : string) : decoded (list string) :=
  if sempty body then Ok [] else split_ranges [] false false 0 (sbytes body).

Fixpoint find_unquoted (target : byte) (quoted escaped : bool) (l : list byte) : option nat :=
  match l with
  | [] => None
  | c :: k =>
      if escaped then S <$> find_unquoted target quoted false k
      else if bool_decide (c = "\"%char) then S <$> find_unquoted target quoted true k
      else if bool_decide (c = QUOTE) then S <$> find_unquoted target (negb quoted) false k
      else if negb quoted && bool_decide (c = target) then Some 0%nat
      else S <$> find_unquoted target quoted false k
  end.
Definition unquote_range_bound (bytes : list byte) : decoded (option (list byte)) :=
  if bool_decide (bytes = []) then Ok None
  else if peek_is QUOTE bytes then
    let? read := token [] bytes in
    let '(value, quoted, rest) := read in finish (Some value) rest
  else Ok (Some bytes).
(** The bounds of a range and whether they are inclusive. *)
Definition range_bounds (raw : list byte) : decoded (option (list byte) * option (list byte) * bool * bool) :=
  let first := head raw in
  let final := last raw in
  if (length raw <? 2)%nat || negb (bool_decide (first ∈ [Some "["%char; Some "("%char]))
     || negb (bool_decide (final ∈ [Some "]"%char; Some ")"%char])) then invalid else
  let? comma := or_fail (find_unquoted "," false false raw) in
  let? lower := unquote_range_bound (drop 1 (take comma raw)) in
  let? upper := unquote_range_bound (drop (S comma) (take (length raw - 1) raw)) in
  Ok (lower, upper, bool_decide (first = Some "["%char), bool_decide (final = Some "]"%char)).

(** ** Dates and times *)
Definition version_major (version : string) : Z :=
  default 0 (major ← head (split "." version); parse_u16 major).
Definition temporal_infinity (text : string) (kind : TemporalInfinityKind) : option LogicalValue :=
  if bool_decide (text = "infinity"%string) then Some (VTemporalInfinity kind false)
  else if bool_decide (text = "-infinity"%string) then Some (VTemporalInfinity kind true)
  else None.
Definition strip_era (text : string) : string * bool :=
  match strip_suffix " BC" text with
  | Some value => (value, true)
  | None => match strip_suffix " AD" text with Some value => (value, false) | None => (text, false) end
  end.
Definition validate_postgres_date (year month day : Z) : decoded () :=
  if negb (in_range (-4712) 5874897 year) then invalid
  else if (day =? 0) || (days_in_month year month <? day) then invalid else Ok ().
Definition postgres_date (text : string) : decoded (Z * Z * Z) :=
  let '(date, bc) := strip_era text in
  match split "-" date with
  | [year; month; day] =>
      let? display_year := or_fail (parse_i32 year) in
      if display_year <=? 0 then invalid else
      let? year := into_i32 (if bc then 1 - display_year else display_year) in
      let? month := or_fail (parse_u8 month) in
      let? day := or_fail (parse_u8 day) in
      validate_postgres_date year month day ;? Ok (year, month, day)
  | _ => invalid
  end.
Definition postgres_date_with_era (text : string) (bc : bool) : decoded (Z * Z * Z) :=
  if bc then postgres_date (text +:+ " BC") else postgres_date text.
Definition validate_postgres_timestamp_year (year : Z) : decoded () :=
  if in_range (-4712) 294276 year then Ok () else invalid.

(** [format!("{value:0<6}")] *)
Definition pad_right (width : nat) (value : string) : string :=
  value +:+ of_bytes (replicate (width - String.length value) "0"%char).
Definition clock_time (text : string) : decoded (Z * Z * Z * Z) :=
  match split ":" text with
  | [hour; minute; seconds] =>
      let? hour := or_fail (parse_u8 hour) in
      let? minute := or_fail (parse_u8 minute) in
      let '(second, fraction) :=
        match split_once "." seconds with Some (s, f) => (s, Some f) | None => (seconds, None) end in
      let? second := or_fail (parse_u8 second) in
      let? microsecond :=
        match fraction with
        | None => Ok 0
        | Some value =>
            if negb (sempty value) && (slen value <=? 6) && all_bytes is_ascii_digit value
            then or_fail (parse_u32 (pad_right 6 value)) else invalid
        end in
      if (24 <? hour) || (60 <=? minute) || (60 <=? second)
         || (hour =? 24) && (negb (minute =? 0) || negb (second =? 0) || negb (microsecond =? 0))
      then invalid else Ok (hour, minute, second, microsecond)
  | _ => invalid
  end.
Definition postgres_datetime (text : string) : decoded (Z * Z * Z * Z * Z * Z * Z) :=
  let '(datetime, bc) := strip_era text in
  let? parts := or_fail (split_once " " datetime) in
  let? date := postgres_date_with_era parts.1 bc in
  let '(year, month, day) := date in
  validate_postgres_timestamp_year year ;?
  let? clock := clock_time parts.2 in
  let '(hour, minute, second, microsecond) := clock in
  Ok (year, month, day, hour, minute, second, microsecond).

(** The last sign of the text, but not its first byte, starts the offset. *)
Fixpoint split_last_sign (l : list byte) : option (list byte * list byte) :=
  match l with
  | [] => None
  | c :: k =>
      match split_last_sign k with
      | Some (before, offset) => Some (c :: before, offset)
      | None => if bool_decide (c ∈ ["+"; "-"]%char) then Some ([], l) else None
      end
  end.
Definition split_time_zone (text : string) : decoded (string * string) :=
  match sbytes text with
  | [] => invalid
  | c :: k =>
      match split_last_sign k with
      | Some (before, offset) => Ok (of_bytes (c :: before), of_bytes offset)
      | None => invalid
      end
  end.

(** [&value[..n]] and [&value[n..]]: a panic inside a character. *)
Definition is_char_boundary (l : list byte) (n : nat) : bool :=
  match l !! n with Some c => negb (Z.land (bval c) 0xC0 =? 0x80) | None => true end.
Definition split_at_byte (n : nat) (l : list byte) : decoded (list byte * list byte) :=
  if is_char_boundary l n then Ok (take n l, drop n l) else Err Panic.
Definition offset_parts (value : string) : decoded (list string) :=
  if contains_byte ":" value then Ok (split ":" value) else
  let l := sbytes value in
  let n := length l in
  if bool_decide (n ∈ [1; 2]%nat) then Ok [value]
  else if bool_decide (n ∈ [3; 4]%nat) then
    let? parts := split_at_byte (n - 2) l in Ok [of_bytes parts.1; of_bytes parts.2]
  else if bool_decide (n ∈ [5; 6]%nat) then
    let? parts := split_at_byte (n - 4) l in
    let? rest := split_at_byte 2 parts.2 in
    Ok [of_bytes parts.1; of_bytes rest.1; of_bytes rest.2]
  else invalid.
Definition postgres_offset_seconds (text : string) : decoded Z :=
  let? signed :=
    match text with
    | String "+"%char value => Ok (1, value)
    | String "-"%char value => Ok (-1, value)
    | _ => invalid
    end in
  let? parts := offset_parts signed.2 in
  if (3 <? length parts)%nat || existsb sempty parts then invalid else
  let part := λ i, match parts !! i with Some p => or_fail (parse_i32 p) | None => Ok 0 end in
  let? hour := part 0%nat in
  let? minute := part 1%nat in
  let? second := part 2%nat in
  if negb (in_range 0 15 hour) || negb (in_range 0 59 minute) || negb (in_range 0 59 second) then invalid
  else Ok (signed.1 * (hour * 3600 + minute * 60 + second)).

(** [days_from_civil] of this crate; [/] truncates. *)
Definition days_from_civil (year month day : Z) : Z :=
  let year := year - (if month <=? 2 then 1 else 0) in
  let era := if 0 <=? year then year / 400 else Z.quot (year - 399) 400 in
  let year_of_era := year - era * 400 in
  let adjusted_month := month + (if 2 <? month then -3 else 9) in
  let day_of_year := Z.quot (153 * adjusted_month + 2) 5 + day - 1 in
  let day_of_era := year_of_era * 365 + Z.quot year_of_era 4 - Z.quot year_of_era 100 + day_of_year in
  era * 146097 + day_of_era - 719468.
Definition postgres_instant (text : string) : decoded (Z * Z) :=
  let '(datetime, bc) := strip_era text in
  let? parts := or_fail (split_once " " datetime) in
  let? date := postgres_date_with_era parts.1 bc in
  let '(year, month, day) := date in
  validate_postgres_timestamp_year year ;?
  let? zoned := split_time_zone parts.2 in
  let? clock := clock_time zoned.1 in
  let '(hour, minute, second, microsecond) := clock in
  let? offset := postgres_offset_seconds zoned.2 in
  let? seconds := checked_i64 (days_from_civil year month day * 86400) in
  let? seconds := checked_i64 (seconds + hour * 3600) in
  let? seconds := checked_i64 (seconds + minute * 60) in
  let? seconds := checked_i64 (seconds + second) in
  let? seconds := checked_i64 (seconds - offset) in
  Ok (seconds, microsecond * 1000).
Definition local_time (text : string) : decoded LogicalValue :=
  let? clock := clock_time text in
  let '(hour, minute, second, microsecond) := clock in Ok (VLocalTime hour minute second microsecond).
Definition offset_time (text : string) : decoded LogicalValue :=
  let? zoned := split_time_zone text in
  let? clock := clock_time zoned.1 in
  let '(hour, minute, second, microsecond) := clock in
  let? offset := postgres_offset_seconds zoned.2 in
  Ok (VOffsetTime hour minute second microsecond offset).

(** ** Intervals *)
Definition parse_interval_integer (quantity : string) : decoded Z :=
  if contains_byte "." quantity then invalid else or_fail (parse_i64 quantity).
Definition parse_interval_scaled (quantity : string) (factor : Z) : decoded Z :=
  let '(negative, quantity) :=
    match strip_byte "-" quantity with
    | Some value => (true, value)
    | None => (false, default quantity (strip_byte "+" quantity))
    end in
  let '(integer, fraction) :=
    match split_once "." quantity with Some (i, f) => (i, Some f) | None => (quantity, None) end in
  if sempty integer || negb (all_bytes is_ascii_digit integer) then invalid else
  let? integer := or_fail (parse_i64 integer) in
  let? magnitude := checked_i128 (integer * factor) in
  let? magnitude :=
    match fraction with
    | None => Ok magnitude
    | Some fraction =>
        if sempty fraction || (18 <? slen fraction) || negb (all_bytes is_ascii_digit fraction) then invalid else
        let denominator := 10 ^ slen fraction in
        let? numerator := or_fail (parse_i64 fraction) in
        let? scaled := checked_i128 (numerator * factor) in
        if negb (scaled mod denominator =? 0) then invalid else checked_i128 (magnitude + scaled / denominator)
    end in
  checked_i64 (if negative then - magnitude else magnitude).

Record IntervalFields := mkFields { if_months : Z; if_days : Z; if_microseconds : Z }.
(** The digits and at most one point of a quantity, and whether a digit was read. *)
Fixpoint quantity_digits (dot : bool) (l : list byte) : list byte * bool * list byte :=
  match l with
  | c :: k =>
      if is_ascii_digit c then let '(text, _, rest) := quantity_digits dot k in (c :: text, true, rest)
      else if bool_decide (c = "."%char) && negb dot then
        let '(text, digit, rest) := quantity_digits true k in (c :: text, digit, rest)
      else ([], false, l)
  | [] => ([], false, [])
  end.
Definition interval_component (global_sign : Z) (in_time : bool) (unit : byte) (quantity : string) (f : IntervalFields)
    : decoded IntervalFields :=
  let months := λ factor,
    let? n := parse_interval_integer quantity in
    let? n := checked_i64 (n * factor) in
    let? n := checked_i64 (if_months f + n) in Ok (mkFields n (if_days f) (if_microseconds f)) in
  let days := λ factor,
    let? n := parse_interval_integer quantity in
    let? n := checked_i64 (n * factor) in
    let? n := checked_i64 (if_days f + n) in Ok (mkFields (if_months f) n (if_microseconds f)) in
  let time := λ factor,
    let? n := parse_interval_scaled quantity factor in
    let? n := checked_i64 (n * global_sign) in
    let? n := checked_i64 (if_microseconds f + n) in Ok (mkFields (if_months f) (if_days f) n) in
  let unit_is := λ c, bool_decide (unit = c) in
  if negb in_time then
    if unit_is "Y"%char then months 12 else if unit_is "M"%char then months 1
    else if unit_is "W"%char then days 7 else if unit_is "D"%char then days 1 else invalid
  else
    if unit_is "H"%char then time 3600000000 else if unit_is "M"%char then time 60000000
    else if unit_is "S"%char then time 1000000 else invalid.
(** The loop over the components; every turn reads at least one byte. *)
Fixpoint interval_loop (fuel : nat) (global_sign : Z) (in_time saw : bool) (f : IntervalFields) (l : list byte)
    : decoded (IntervalFields * bool) :=
  match l with
  | [] => Ok (f, saw)
  | c :: k =>
      match fuel with
      | O => invalid
      | S fuel =>
          if bool_decide (c = "T"%char) && negb in_time then interval_loop fuel global_sign true saw f k else
          let signed := bool_decide (c ∈ ["+"; "-"]%char) in
          let '(text, digit, rest) := quantity_digits false (if signed then k else l) in
          match rest with
          | [] => invalid
          | unit :: rest =>
              if negb digit then invalid else
              let quantity := of_bytes (if signed then c :: text else text) in
              let? f := interval_component global_sign in_time unit quantity f in
              interval_loop fuel global_sign in_time true f rest
          end
      end
  end.
Definition calendar_interval (text : string) : decoded LogicalValue :=
  let? body :=
    match strip_prefix "-P" text, strip_prefix "+P" text, strip_prefix "P" text with
    | Some body, _, _ => Ok (-1, body)
    | _, Some body, _ => Ok (1, body)
    | _, _, Some body => Ok (1, body)
    | _, _, _ => invalid
    end in
  let '(global_sign, body) := body in
  let? read := interval_loop (String.length body) global_sign false false (mkFields 0 0 0) (sbytes body) in
  let '(f, saw) := read in
  if negb saw then invalid else
  let? months := checked_i64 (if_months f * global_sign) in
  let? days := checked_i64 (if_days f * global_sign) in
  let? months := into_i32 months in
  let? days := into_i32 days in
  Ok (VCalendarInterval months days (if_microseconds f)).

(** ** Decimals *)
(** The position of the first [e] or [E]. *)
Fixpoint split_exponent (l : list byte) : option (list byte * list byte) :=
  match l with
  | [] => None
  | c :: k =>
      if bool_decide (c ∈ ["e"; "E"]%char) then Some ([], k)
      else match split_exponent k with Some (a, b) => Some (c :: a, b) | None => None end
  end.
Definition decimal (text : string) : decoded (string * Z) :=
  let lower := to_lower text in
  if bool_decide (lower = "nan"%string) then Ok ("NaN"%string, 0)
  else if bool_decide (lower ∈ ["infinity"; "inf"; "+infinity"; "+inf"]%string) then Ok ("Infinity"%string, 0)
  else if bool_decide (lower ∈ ["-infinity"; "-inf"]%string) then Ok ("-Infinity"%string, 0)
  else
    let? parts :=
      match split_exponent (sbytes text) with
      | Some (coefficient, exponent) =>
          let? exponent := or_fail (parse_i32 (of_bytes exponent)) in Ok (of_bytes coefficient, exponent)
      | None => Ok (text, 0)
      end in
    let '(coefficient, exponent) := parts in
    let '(negative, digits) := signed_rest (sbytes coefficient) in
    let parts := split "." (of_bytes digits) in
    if (2 <? length parts)%nat || sempty (default ""%string (parts !! 0%nat)) || negb (forallb (all_bytes is_ascii_digit) parts)
    then invalid else
    let digits := String.concat "" parts in
    let? scale := into_i32 (match parts !! 1%nat with Some p => slen p | None => 0 end - exponent) in
    Ok (if negative then "-" +:+ digits else digits, scale).

(** ** JSON: what [serde_json] parses, numbers as their text *)
Inductive SerdeValue :=
| SNull
| SBool (b : bool)
| SNumber (text : string)
| SString (s : string)
| SArray (items : list SerdeValue)
| SObject (entries : list (string * SerdeValue)).
Class SerdeJson := { serde_from_str : string → option SerdeValue }.

Definition json_number (text : string) : decoded JsonValue :=
  let? number := decimal text in
  let '(unscaled, scale) := number in
  if scale <? 0 then
    if 131072 <? slen unscaled - scale then invalid
    else Ok (JDecimal (unscaled +:+ of_bytes (replicate (Z.to_nat (- scale)) ZERO)) 0)
  else Ok (JDecimal unscaled scale).
(** [levels] is what is left of the 100 levels below the root. *)
Fixpoint json (levels : nat) (value : SerdeValue) : decoded JsonValue :=
  match levels with
  | O => invalid
  | S levels =>
      match value with
      | SNull => Ok JNull
      | SBool b => Ok (JBoolean b)
      | SString s => Ok (JString s)
      | SNumber text => json_number text
      | SArray items =>
          let? items := (fix go (l : list SerdeValue) :=
            match l with
            | [] => Ok []
            | x :: l => let? v := json levels x in let? k := go l in Ok (v :: k)
            end) items in
          Ok (JArray items)
      | SObject entries =>
          let? entries := (fix go (l : list (string * SerdeValue)) :=
            match l with
            | [] => Ok []
            | x :: l => let? v := json levels x.2 in let? k := go l in Ok (mkJsonEntry x.1 v :: k)
            end) entries in
          Ok (JObject entries)
      end
  end.
Definition JSON_LEVELS : nat := 101.

(** ** Bits, bytes, networks *)
Definition set_bit (bytes : list byte) (index : nat) : list byte :=
  alter (λ b, byte_of (Z.lor (bval b) (Z.shiftl 1 (7 - Z.of_nat (index mod 8))))) (index / 8)%nat bytes.
Fixpoint fill_bits (bytes : list byte) (index : nat) (bits : list byte) : list byte :=
  match bits with
  | [] => bytes
  | b :: bits => fill_bits (if bool_decide (b = "1"%char) then set_bit bytes index else bytes) (S index) bits
  end.
(** Pairs of hexadecimal digits. *)
Fixpoint hex_bytes (l : list byte) : list byte :=
  match l with
  | a :: b :: k => byte_of (16 * default 0 (digit_val 16 a) + default 0 (digit_val 16 b)) :: hex_bytes k
  | _ => []
  end.
Definition network (oid : Z) (text : string) : decoded LogicalValue :=
  let? parts :=
    match split_once "/" text with
    | Some (address, prefix) => let? prefix := or_fail (parse_u8 prefix) in Ok (address, Some prefix)
    | None => Ok (text, None)
    end in
  let '(address, prefix_length) := parts in
  if sempty address then invalid else
  let family :=
    if oid =? 774 then "macaddr8" else if oid =? 829 then "macaddr"
    else if contains_byte ":" address then "ipv6" else "ipv4" in
  Ok (VNetwork family%string address prefix_length).

Section decode.
Context `{B64 : Base64} `{SJ : SerdeJson}.

Definition bit_string (text : string) : decoded LogicalValue :=
  if sempty text || negb (all_bytes (λ c, bool_decide (c ∈ ["0"; "1"]%char)) text) then invalid else
  let n := String.length text in
  let bytes := fill_bits (replicate ((n + 7) / 8) NUL) 0 (sbytes text) in
  let bit_length := Z.of_nat n in
  Ok (VBitString (b64_encode bytes) bit_length (if bit_length mod 8 =? 0 then PadNone else PadZero) MsbFirst).
Definition bytea (text : string) : decoded LogicalValue :=
  let? hex := or_fail (strip_prefix "\x" text) in
  if negb (slen hex mod 2 =? 0) || negb (all_bytes is_ascii_hexdigit hex) then invalid
  else Ok (VBinary (b64_encode (hex_bytes (sbytes hex)))).
Definition text_value (bytes : list byte) : decoded LogicalValue :=
  let? text := or_fail (from_utf8 bytes) in Ok (VText "UTF8" (b64_encode bytes) (Some text)).

(** ** Scalars by OID *)
Definition decode_for_version (version : string) (oid : Z) (bytes : list byte) : decoded LogicalValue :=
  let? text := or_fail (from_utf8 bytes) in
  let one := λ oids : list Z, bool_decide (oid ∈ oids) in
  let or_infinity := λ kind (k : decoded LogicalValue), match temporal_infinity text kind with Some v => Ok v | None => k end in
  if one [16] then
    if bool_decide (text = "t"%string) then Ok (VBoolean true)
    else if bool_decide (text = "f"%string) then Ok (VBoolean false) else invalid
  else if one [20; 21; 23; 26; 28; 29] then
    let? value := or_fail (parse_i64 text) in
    Ok (VInteger (one [20; 21; 23]) (if oid =? 20 then 64 else if oid =? 21 then 16 else 32) (show_int value))
  else if one [5069] then let? value := or_fail (parse_u64 text) in Ok (VInteger false 64 (show_int value))
  else if one [1700] then let? number := decimal text in Ok (VDecimal number.1 number.2)
  else if one [700] then let? bits := or_fail (parse_float 32 text) in Ok (VFloat 32 (lower_hex 8 bits))
  else if one [701] then let? bits := or_fail (parse_float 64 text) in Ok (VFloat 64 (lower_hex 16 bits))
  else if one [18; 19; 25; 1042; 1043] then Ok (VText "UTF8" (b64_encode bytes) (Some text))
  else if one [114; 3802] then
    let? parsed := or_fail (serde_from_str text) in
    let? value := json JSON_LEVELS parsed in Ok (VJson value)
  else if one [17] then bytea text
  else if one [1082] then
    or_infinity TI_Date (let? date := postgres_date text in let '(y, m, d) := date in Ok (VDate y m d))
  else if one [1083] then local_time text
  else if one [1114] then
    or_infinity TI_LocalDatetime
      (let? dt := postgres_datetime text in let '(y, m, d, h, mi, s, us) := dt in Ok (VLocalDatetime y m d h mi s us))
  else if one [1184] then
    or_infinity TI_Instant (let? instant := postgres_instant text in Ok (VInstant (show_int instant.1) instant.2))
  else if one [1186] then
    if 17 <=? version_major version then or_infinity TI_CalendarInterval (calendar_interval text) else calendar_interval text
  else if one [1266] then offset_time text
  else if one [142] then Ok (VXml (b64_encode bytes) (Some text))
  else if one [650; 774; 829; 869] then network oid text
  else if one [1560; 1562] then bit_string text
  else if one [2950] then Ok (VUuid text)
  else invalid.

(** ** hstore and PostGIS *)
(** The loop over the entries; every turn reads a quoted key. *)
Fixpoint hstore_entries (fuel : nat) (entries : list MapEntry) (l : list byte) : decoded (list MapEntry) :=
  match fuel with
  | O => invalid
  | S fuel =>
      let? read := token ["="%char] l in
      let '(key, quoted, rest) := read in
      if negb quoted then invalid else
      let? rest := expect "=" rest in
      let? rest := expect ">" rest in
      let? read :=
        match consume_bytes (sbytes "NULL") rest with
        | Some rest => Ok (VNull, rest)
        | None =>
            let? read := token [","%char] rest in
            let '(value, quoted, rest) := read in
            if negb quoted then invalid else let? value := text_value value in Ok (value, rest)
        end in
      let '(value, rest) := read in
      let? key := text_value key in
      let entries := entries ++ [mkMapEntry key value] in
      if bool_decide (rest = []) then Ok entries else
      let? rest := expect "," rest in
      hstore_entries fuel entries (skip_spaces rest)
  end.
Definition decode_hstore (bytes : list byte) : decoded LogicalValue :=
  if bool_decide (bytes = []) then Ok (VMap []) else
  let? entries := hstore_entries (S (length bytes)) [] bytes in Ok (VMap entries).

Definition EWKB_NAMES : list string :=
  ["point"; "linestring"; "polygon"; "multipoint"; "multilinestring"; "multipolygon"; "geometrycollection"]%string.
(** The word at an offset of the raw bytes. *)
Definition word (raw : list byte) (little : bool) (offset : nat) : decoded Z :=
  match take 4 (drop offset raw) with
  | [a; b; c; d] =>
      Ok (if little then bval a + 256 * bval b + 65536 * bval c + 16777216 * bval d
          else bval d + 256 * bval c + 65536 * bval b + 16777216 * bval a)
  | _ => invalid
  end.
Definition decode_postgis_ewkb (bytes : list byte) : decoded LogicalValue :=
  if (length bytes <? 10)%nat || negb (Nat.even (length bytes)) || negb (forallb is_ascii_hexdigit bytes) then invalid else
  let raw := hex_bytes bytes in
  let? little :=
    match raw with
    | c :: _ => if bval c =? 0 then Ok false else if bval c =? 1 then Ok true else invalid
    | [] => Err Panic
    end in
  let? type_word := word raw little 1 in
  let flag := λ mask, negb (Z.land type_word mask =? 0) in
  let encoded_type := Z.land type_word 0x1fffffff in
  let iso_dimensions := encoded_type / 1000 in
  let geometry_id := if iso_dimensions =? 0 then encoded_type else encoded_type mod 1000 in
  let? geometry_type := if geometry_id =? 0 then invalid else or_fail (EWKB_NAMES !! Z.to_nat (geometry_id - 1)) in
  if 3 <? iso_dimensions then invalid else
  let iso_has_z := (iso_dimensions =? 1) || (iso_dimensions =? 3) in
  let iso_has_m := (iso_dimensions =? 2) || (iso_dimensions =? 3) in
  let dimensions := 2 + Z.b2z (flag 0x80000000 || iso_has_z) + Z.b2z (flag 0x40000000 || iso_has_m) in
  let? srid := if flag 0x20000000 then let? w := word raw little 5 in Ok (Some (wrap_s 32 w)) else Ok None in
  Ok (VSpatial Ewkb (b64_encode raw) geometry_type dimensions srid None).

(** ** Columns by their catalog definition *)
Context `{SHA : Sha256} `{CJ : CatalogJson} `{MJ : MappingJson}.

Definition decode_column_for_version (version : string) (oid : Z) (native_type : string) (bytes : list byte)
    : decoded LogicalValue :=
  if starts "enum(" (to_lower (trim native_type)) then
    let? label := or_fail (from_utf8 bytes) in
    let? mapping := map_err (λ _, Invalid) (source_type_mapping_for_version version native_type) in
    match sm_logical_type mapping with
    | TEnum members => if bool_decide (label ∈ members) then Ok (VEnum label) else invalid
    | _ => invalid
    end
  else decode_for_version version oid bytes.

(** The optional values of a list, a missing one as [Null]. *)
Fixpoint decode_each (f : list byte → decoded LogicalValue) (l : list (option (list byte))) : decoded (list LogicalValue) :=
  match l with
  | [] => Ok []
  | raw :: l =>
      let? v := match raw with None => Ok VNull | Some raw => f raw end in
      let? k := decode_each f l in Ok (v :: k)
  end.
Fixpoint decode_fields (f : Z → list byte → decoded LogicalValue) (fields : list SourceTypeField) (l : list (option (list byte)))
    : decoded (list StructuredField) :=
  match fields, l with
  | field :: fields, raw :: l =>
      let? v := match raw with None => Ok VNull | Some raw => f (tf_type_oid field) raw end in
      let? k := decode_fields f fields l in Ok (mkField (tf_name field) v :: k)
  | _, _ => Ok []
  end.
(** A range whose bounds [f] decodes. *)
Definition decode_range (f : list byte → decoded LogicalValue) (bytes : list byte) : decoded LogicalValue :=
  let? text := or_fail (from_utf8 bytes) in
  if bool_decide (text = "empty"%string) then Ok (VRange true None None false false) else
  let? bounds := range_bounds bytes in
  let '(lower, upper, lower_inclusive, upper_inclusive) := bounds in
  let bound := λ raw, match raw with None => Ok None | Some raw => let? v := f raw in Ok (Some v) end in
  let? lower := bound lower in
  let? upper := bound upper in
  Ok (VRange false lower upper lower_inclusive upper_inclusive).
Definition decode_multirange (f : list byte → decoded LogicalValue) (bytes : list byte) : decoded LogicalValue :=
  let? text := or_fail (from_utf8 bytes) in
  let? body := or_fail (rest ← strip_prefix "{" text; strip_suffix "}" rest) in
  let? items := split_multirange body in
  let? ranges := (fix go (l : list string) :=
    match l with
    | [] => Ok []
    | item :: l => let? v := decode_range f (sbytes item) in let? k := go l in Ok (v :: k)
    end) items in
  Ok (VMultiRange ranges).
(** An array: its leaves in order, with its shape when it is not the plain one. *)
Definition decode_array (f : list byte → decoded LogicalValue) (delimiter : Z) (bytes : list byte) : decoded LogicalValue :=
  let? parsed := parse_array bytes delimiter in
  let '(tree, bounds) := parsed in
  let? flat := flatten_array tree in
  let '(dimension_lengths, raw_values) := flat in
  let dimensions := Z.of_nat (length dimension_lengths) in
  if u8_max <? dimensions then invalid else
  let bounds :=
    if bool_decide (dimension_lengths = []) then [] else default (replicate (length dimension_lengths) 1) bounds in
  if negb (bool_decide (length bounds = length dimension_lengths)) then invalid else
  let? elements := decode_each f raw_values in
  if (dimensions <=? 1) && match head bounds with Some bound => bound =? 1 | None => true end then Ok (VArray elements)
  else Ok (VArrayWithMetadata elements dimensions bounds dimension_lengths).

(** [levels] is what is left of the 64 levels below the root; a range takes two. *)
Fixpoint decode_catalog_value (version : string) (catalog : SourceTypeCatalog) (levels : nat) (oid : Z) (native_type : string)
    (bytes : list byte) : decoded LogicalValue :=
  match levels with
  | O => invalid
  | S levels =>
      let find := find_oid (cat_types catalog) in
      let? d := or_fail (find oid) in
      match td_kind d with
      | KPseudo => invalid
      | KBuiltin _ => decode_column_for_version version oid native_type bytes
      | KEnum labels =>
          let? label := or_fail (from_utf8 bytes) in
          if bool_decide (label ∈ labels) then Ok (VEnum label) else invalid
      | KDomain base_oid _ _ =>
          let? base := or_fail (find base_oid) in
          let? value := decode_catalog_value version catalog levels base_oid (td_name base) bytes in
          Ok (VDomain value)
      | KComposite fields =>
          let? values := parse_record bytes in
          let values := if bool_decide (values = []) && bool_decide (length fields = 1%nat) then [None] else values in
          if negb (bool_decide (length values = length fields)) then invalid else
          let? decoded :=
            decode_fields
              (λ field_oid raw,
                 let? field_type := or_fail (find field_oid) in
                 decode_catalog_value version catalog levels field_oid (td_name field_type) raw) fields values in
          Ok (VStruct decoded)
      | KArray element_oid delimiter =>
          let? element := or_fail (find element_oid) in
          decode_array (decode_catalog_value version catalog levels element_oid (td_name element)) delimiter bytes
      | KRange subtype_oid =>
          let? subtype := or_fail (find subtype_oid) in
          decode_range (decode_catalog_value version catalog (Nat.pred levels) subtype_oid (td_name subtype)) bytes
      | KMultiRange range_oid =>
          let? range := or_fail (find range_oid) in
          match td_kind range with
          | KRange subtype_oid =>
              let? subtype := or_fail (find subtype_oid) in
              decode_multirange (decode_catalog_value version catalog (Nat.pred levels) subtype_oid (td_name subtype)) bytes
          | _ => invalid
          end
      | KExtension extension _ _ _ =>
          if eq_ignore_case extension "hstore" && bool_decide (td_name d = "hstore"%string) then decode_hstore bytes
          else if eq_ignore_case extension "postgis" && bool_decide (td_name d ∈ ["geometry"; "geography"]%string)
          then decode_postgis_ewkb bytes
          else invalid
      end
  end.
Definition VALUE_LEVELS : nat := 65.
Definition decode_catalog_column_for_version (version : string) (catalog : SourceTypeCatalog) (oid : Z) (native_type : string)
    (bytes : list byte) : decoded LogicalValue :=
  decode_catalog_value version catalog VALUE_LEVELS oid native_type bytes.
End decode.

Example floats_parsed :
  parse_float 32 "0.1" = Some 0x3dcccccd ∧ parse_float 64 "0.1" = Some 0x3fb999999999999a
  ∧ parse_float 64 "-1.7976931348623157e+308" = Some 0xffefffffffffffff
  ∧ parse_float 64 "5e-324" = Some 1 ∧ parse_float 64 "2.4703282292062327e-324" = Some 0
  ∧ parse_float 32 "16777217" = Some 0x4b800000 ∧ parse_float 32 "3.4028235e38" = Some 0x7f7fffff
  ∧ parse_float 32 "3.5e38" = Some 0x7f800000 ∧ parse_float 64 "Infinity" = Some 0x7ff0000000000000
  ∧ parse_float 32 "NaN" = Some 0x7fc00000 ∧ parse_float 64 "." = None ∧ parse_float 64 "1e" = None
  ∧ parse_float 64 ".5" = Some 0x3fe0000000000000 ∧ parse_float 64 "1e400" = Some 0x7ff0000000000000.
Proof. by vm_compute. Qed.
Example arrays_parsed :
  parse_array (sbytes "[2:3]={1,NULL}") 44 = Ok (Branch [Leaf (Some ["1"%char]); Leaf None], Some [2])
  ∧ parse_array (sbytes "{{1}x}") 44 = Err Panic.
Proof. by vm_compute. Qed.
