(* ===== verification/PgSource.v ===== *)
(** * The PostgreSQL source contract ([crates/postgresql_15/src/source_contract.rs])

    [validate] is the check a captured PostgreSQL transaction passes before it leaves the
    source adapter, and again when it is replayed: source identity and version, ordered
    LSNs, the transaction id, one database, row images with contiguous ordinals and a
    primary key, the presence of values, and for every column either a value that its
    declared type can have or a representation whose evidence ties it to the checked type
    catalog. *)
From S2P Require Import Prelude Text Utf8 Codec Model Validate Position LogicalTypes MyType PgCatalog PgType PgDecode.

(** [SourceContractError]: its message. *)
Notation contract := (result string).

(** ** Declared types *)
Definition CONTRACT_TYPES : list string :=
  ["boolean"; "uuid"; "smallint"; "integer"; "bigint"; "real"; "double precision"; "text"; "bytea"; "date"; "time";
   "time without time zone"; "time with time zone"; "timetz"; "interval"; "inet"; "cidr"; "macaddr"; "macaddr8"; "xml"; "name";
   QUOTED_CHAR; "money"; "point"; "line"; "lseg"; "box"; "path"; "polygon"; "circle"; "tsvector"; "tsquery"; "oidvector";
   "int2vector"; "tid"; "oid"; "xid"; "xid8"; "cid"; "pg_lsn"; "pg_snapshot"; "txid_snapshot"; "regproc"; "regprocedure";
   "regoper"; "regoperator"; "regclass"; "regtype"; "regconfig"; "regdictionary"; "regnamespace"; "regrole"; "regcollation";
   "int4range"; "int8range"; "numrange"; "tsrange"; "tstzrange"; "daterange"; "int4multirange"; "int8multirange";
   "nummultirange"; "tsmultirange"; "tstzmultirange"; "datemultirange"; "jsonb"; "json"; "timestamp without time zone";
   "timestamp with time zone"]%string.

Definition first_prefix (prefixes : list string) (native : string) : option string :=
  foldr (λ p found, match strip_prefix p native with Some rest => Some rest | None => found end) None prefixes.
Definition positive (parse : string → option Z) (text : string) : bool :=
  match parse text with Some value => 0 <? value | None => false end.

Definition valid_character (native : string) : bool :=
  bool_decide (native ∈ ["character"; "character varying"]%string)
  || match (rest ← first_prefix ["character("; "character varying("]%string native; strip_suffix ")" rest) with
     | Some length => positive parse_usize length
     | None => false
     end.
Definition valid_parameterized_numeric (native : string) : bool :=
  bool_decide (native ∈ ["numeric"; "decimal"]%string)
  || match (rest ← first_prefix ["numeric("; "decimal("]%string native; strip_suffix ")" rest) with
     | None => false
     | Some parameters =>
         let parts := split "," parameters in
         match parse_usize (trim (default ""%string (parts !! 0%nat))), parse_i32 (trim (default "0"%string (parts !! 1%nat))) with
         | Some precision, Some scale =>
             (length parts <=? 2)%nat && (0 <? precision) && (precision <=? 1000) && in_range (-1000) 1000 scale
         | _, _ => false
         end
     end.
(** [rest.split_once(needle)] for the two bytes of a closing parenthesis and a space. *)
Fixpoint split_once_paren_space (s : string) : option (string * string) :=
  match s with
  | String ")"%char (String " "%char rest) => Some (""%string, rest)
  | String c rest => match split_once_paren_space rest with Some (a, b) => Some (String c a, b) | None => None end
  | EmptyString => None
  end.
Definition small_precision (text : string) : bool := match parse_u8 text with Some value => value <=? 6 | None => false end.
Definition valid_parameterized_timestamp (native : string) : bool :=
  match (rest ← strip_prefix "timestamp(" native; split_once_paren_space rest) with
  | Some (precision, suffix) =>
      small_precision precision && bool_decide (suffix ∈ ["without time zone"; "with time zone"]%string)
  | None => false
  end.
Definition valid_parameterized_time (native : string) : bool :=
  match (rest ← strip_prefix "time(" native; split_once ")" rest) with
  | Some (precision, suffix) =>
      small_precision (trim precision) && bool_decide (trim suffix ∈ [""; "without time zone"; "with time zone"]%string)
  | None => false
  end.
Definition valid_parameterized_bit (native : string) : bool :=
  match (rest ← first_prefix ["bit("; "bit varying("; "varbit("]%string native; strip_suffix ")" rest) with
  | Some length => positive parse_u64 length
  | None => false
  end.

(** The loop over the bytes: outside quotes one dot, not at an end and not doubled. *)
Fixpoint qualified_loop (quoted : bool) (dots : Z) (previous : option byte) (l : list byte) : bool :=
  match l with
  | [] => negb quoted && (dots =? 1) && negb (bool_decide (previous ∈ [None; Some "."%char]))
  | c :: k =>
      if quoted then qualified_loop (negb (bool_decide (c = QUOTE))) dots (Some c) k
      else if bool_decide (c = QUOTE) then qualified_loop true dots (Some c) k
      else if bool_decide (c = "."%char) then
        negb (bool_decide (previous ∈ [None; Some "."%char])) && qualified_loop false (Z.min u8_max (dots + 1)) (Some c) k
      else negb (is_ascii_whitespace c) && qualified_loop false dots (Some c) k
  end.
Definition is_qualified_type_name (native : string) : bool :=
  negb (sempty native)
  && negb (existsb (λ c, bool_decide (c ∈ [";"; NUL; "["; "]"; "("; ")"]%char)) (sbytes native))
  && qualified_loop false 0 None (sbytes native).

(** ** Network addresses ([std::net::IpAddr::from_str]) *)
(** Up to [most] digits of a number, at least one; more digits are an error. *)
Fixpoint read_number (radix : Z) (most : nat) (count : nat) (value : Z) (l : list byte) : option (Z * nat * list byte) :=
  match l with
  | c :: k =>
      match digit_val radix c with
      | Some d =>
          match most with
          | O => None
          | S most => read_number radix most (S count) (radix * value + d) k
          end
      | None => if bool_decide (count = 0%nat) then None else Some (value, count, l)
      end
  | [] => if bool_decide (count = 0%nat) then None else Some (value, count, [])
  end.
Definition read_octet (l : list byte) : option (list byte) :=
  read ← read_number 10 3 0 0 l;
  let '(value, count, rest) := read in
  if (255 <? value) || peek_is "0" l && negb (Nat.eqb count 1) then None else Some rest.
Definition read_dot (l : list byte) : option (list byte) := if peek_is "." l then Some (tail l) else None.
Definition read_ipv4_addr (l : list byte) : option (list byte) :=
  l ← read_octet l; l ← read_dot l; l ← read_octet l; l ← read_dot l; l ← read_octet l; l ← read_dot l; read_octet l.
Definition read_separated (i : nat) (l : list byte) : option (list byte) :=
  if Nat.eqb i 0 then Some l else if peek_is ":" l then Some (tail l) else None.
(** [read_groups]: how many groups were read, whether an IPv4 address ends them. *)
Fixpoint read_groups (left_ i : nat) (l : list byte) : nat * bool * list byte :=
  match left_ with
  | O => (i, false, l)
  | S left_ =>
      match (if Nat.eqb left_ 0 then None else (l ← read_separated i l; read_ipv4_addr l)) with
      | Some rest => ((i + 2)%nat, true, rest)
      | None =>
          match (l ← read_separated i l; read_number 16 4 0 0 l) with
          | Some (_, _, rest) => read_groups left_ (S i) rest
          | None => (i, false, l)
          end
      end
  end.
Definition read_ipv6_addr (l : list byte) : option (list byte) :=
  let '(head_size, head_ipv4, rest) := read_groups 8 0 l in
  if Nat.eqb head_size 8 then Some rest
  else if head_ipv4 then None
  else if peek_is ":" rest && peek_is ":" (tail rest) then
    let '(_, _, rest) := read_groups (8 - (head_size + 1)) 0 (tail (tail rest)) in Some rest
  else None.
(** Whether the address is IPv6; [None] when it is no address. *)
Definition ip_addr (address : string) : option bool :=
  match read_ipv4_addr (sbytes address) with
  | Some rest => if bool_decide (rest = []) then Some false else None
  | None => match read_ipv6_addr (sbytes address) with Some [] => Some true | _ => None end
  end.
Definition valid_network (native family address : string) (prefix_length : option Z) : bool :=
  if bool_decide (native ∈ ["inet"; "cidr"]%string) then
    match ip_addr address with
    | None => false
    | Some is_v6 =>
        Bool.eqb (bool_decide (family = "ipv6"%string)) is_v6 && bool_decide (family ∈ ["ipv6"; "ipv4"]%string)
        && match prefix_length with Some prefix => prefix <=? (if is_v6 then 128 else 32) | None => true end
    end
  else if bool_decide (native ∈ ["macaddr"; "macaddr8"]%string) then
    let parts := split ":" address in
    bool_decide (family = native) && Nat.eqb (length parts) (if bool_decide (native = "macaddr"%string) then 6 else 8)
    && forallb (λ part, (slen part =? 2) && all_bytes is_ascii_hexdigit part) parts && is_none prefix_length
  else false.

(** ** Cursors *)
Definition lsn_part (part : string) : bool :=
  negb (sempty part) && (slen part <=? 8) && all_bytes is_ascii_hexdigit part.
Definition lsn (cursor : SourceCursor) : contract Z :=
  ensure (bool_decide (cur_format cursor = "postgresql.lsn.v1"%string) && bool_decide (cur_display cursor = cur_value cursor))
    "invalid PostgreSQL cursor format or display"%string ;?
  let? parts := ok_or "invalid LSN"%string (split_once "/" (cur_value cursor)) in
  let '(high, low) := parts in
  ensure (lsn_part high && lsn_part low) "invalid PostgreSQL LSN"%string ;?
  let? high := ok_or "invalid PostgreSQL LSN"%string (parse_hex_u64 high) in
  let? low := ok_or "invalid PostgreSQL LSN"%string (parse_hex_u64 low) in
  let value := Z.lor (Z.shiftl high 32) low in
  ensure (0 <? value) "zero PostgreSQL event LSN"%string ;? Ok value.

(** ** Presence *)
Definition validate_presence (operation : Operation) (is_before : bool) (column : ColumnDatum) : contract () :=
  match col_datum column with
  | Unavailable =>
      ensure (is_before && negb (bool_decide (operation = Insert)) && is_none (col_primary_key_ordinal column))
        "unavailable value is only valid in non-key before columns"%string
  | Unchanged =>
      ensure (negb is_before && bool_decide (operation = Update) && is_none (col_primary_key_ordinal column))
        "unchanged value is only valid in non-key UPDATE after columns"%string
  | _ => Ok ()
  end.

(** ** Evidence of a representation *)
(** [serde_json] of the evidence: the definition as a JSON value, the closure as data, and
    whether a definition serialises to a JSON value. *)
Class EvidenceJson := {
  evidence_value : string → option SerdeValue;
  closure_from_str : string → option SourceTypeDefinitionClosure;
  definition_is : SourceTypeDefinition → SerdeValue → bool
}.
(** [value.get(key)], [as_str], [as_u64] *)
Definition get (key : string) (value : SerdeValue) : option SerdeValue :=
  match value with
  | SObject entries => snd <$> List.find (λ e : string * SerdeValue, bool_decide (e.1 = key)) entries
  | _ => None
  end.
Definition as_str (value : SerdeValue) : option string := match value with SString s => Some s | _ => None end.
Definition as_u64 (value : SerdeValue) : option Z := match value with SNumber text => parse_u64 text | _ => None end.
Definition hex_digest (digest : string) : bool := (slen digest =? 64) && all_bytes is_ascii_hexdigit digest.

Section contract.
Context `{SHA : Sha256} `{CJ : CatalogJson} `{MJ : MappingJson} `{EJ : EvidenceJson}.

Definition validate_native_type_for_version (version native_type : string) : contract () :=
  let native := to_lower (trim native_type) in
  let mapped := is_ok (PgType.validate_native_type_for_version version native_type) in
  ensure
    (bool_decide (native ∈ CONTRACT_TYPES) || ends_with "[]" native || is_qualified_type_name native
     || bool_decide (native ∈ ["hstore"; "geometry"; "geography"]%string) || valid_character native
     || valid_parameterized_numeric native || valid_parameterized_timestamp native || valid_parameterized_time native
     || valid_parameterized_bit native || starts "interval" native && mapped || starts "enum(" native && mapped)
    "unsupported PostgreSQL native type"%string.

Definition logical_matches_native (value : LogicalValue) (native_type version : string) : bool :=
  let native_raw := trim native_type in
  let native := to_lower native_raw in
  let one := λ names : list string, bool_decide (native ∈ names) in
  let ends := λ suffix, ends_with suffix native in
  let begins := λ prefix, starts prefix native in
  match value with
  | VBoolean _ => one ["boolean"]%string
  | VUuid _ => one ["uuid"]%string
  | VInteger true bits _ =>
      if bits =? 16 then one ["smallint"]%string else if bits =? 32 then one ["integer"]%string
      else if bits =? 64 then one ["bigint"]%string else false
  | VInteger false bits _ =>
      if bits =? 32 then one ["oid"; "xid"; "cid"]%string else if bits =? 64 then one ["xid8"]%string else false
  | VDecimal unscaled _ =>
      valid_parameterized_numeric native
      && (negb (bool_decide (unscaled ∈ ["Infinity"; "-Infinity"]%string)) || one ["numeric"; "decimal"]%string)
  | VFloat bits _ =>
      if bits =? 32 then one ["real"]%string else if bits =? 64 then one ["double precision"]%string else false
  | VText charset _ _ =>
      bool_decide (charset = "UTF8"%string) && (one ["text"; "name"; QUOTED_CHAR]%string || valid_character native)
  | VBinary _ => one ["bytea"]%string
  | VDate _ _ _ => one ["date"]%string
  | VTemporalInfinity kind _ =>
      match kind with
      | TI_Date => one ["date"]%string
      | TI_LocalDatetime =>
          one ["timestamp without time zone"]%string || valid_parameterized_timestamp native && ends "without time zone"%string
      | TI_Instant =>
          one ["timestamp with time zone"]%string || valid_parameterized_timestamp native && ends "with time zone"%string
      | TI_CalendarInterval =>
          match parse_u16 version with Some major => 17 <=? major | None => false end && begins "interval"%string
      end
  | VLocalTime _ _ _ _ => one ["time"; "time without time zone"]%string || valid_parameterized_time native
  | VOffsetTime _ _ _ _ _ =>
      one ["time with time zone"; "timetz"]%string || valid_parameterized_time native && ends "with time zone"%string
  | VLocalDatetime _ _ _ _ _ _ _ =>
      ends "without time zone"%string && (begins "timestamp"%string || valid_parameterized_timestamp native)
  | VInstant _ _ => ends "with time zone"%string && (begins "timestamp"%string || valid_parameterized_timestamp native)
  | VCalendarInterval _ _ _ => begins "interval"%string
  | VJson _ => one ["jsonb"; "json"]%string
  | VBitString _ _ _ _ => one ["bit"]%string || valid_parameterized_bit native
  | VNetwork family address prefix_length => valid_network native family address prefix_length
  | VXml _ _ => one ["xml"]%string
  | VEnum label =>
      begins "enum("%string && negb (sempty label)
      && match source_type_mapping_for_version version native_raw with
         | Ok mapping =>
             match sm_logical_type mapping with TEnum members => bool_decide (label ∈ members) | _ => false end
         | Err _ => false
         end
  | VDomain inner => is_qualified_type_name native && match inner with VNull => false | _ => true end
  | VStruct fields =>
      (one ["record"]%string || is_qualified_type_name native)
      && forallb (λ field, negb (sempty (sf_name field))) fields && bool_decide (NoDup (sf_name <$> fields))
  | VArray _ | VArrayWithMetadata _ _ _ _ => ends "[]"%string
  | VRange _ _ _ _ _ =>
      one ["int4range"; "int8range"; "numrange"; "tsrange"; "tstzrange"; "daterange"]%string || is_qualified_type_name native
  | VMultiRange _ =>
      one ["int4multirange"; "int8multirange"; "nummultirange"; "tsmultirange"; "tstzmultirange"; "datemultirange"]%string
      || is_qualified_type_name native
  | VMap _ => one ["hstore"]%string || ends ".hstore"%string
  | VSpatial _ _ geometry_type dimensions _ _ =>
      (one ["geometry"; "geography"]%string || begins "geometry("%string || begins "geography("%string
       || ends ".geometry"%string || ends ".geography"%string)
      && negb (sempty geometry_type) && in_range 2 4 dimensions
  | _ => false
  end.

(** The definition and the closure among the metadata agree with each other, with their
    digests and with the identity of the type. *)
Definition checked_definition (context : SourceRepresentationContext) (type_oid : option Z) : bool :=
  let metadata := ctx_type_metadata context in
  let definition := text ← metadata !! "type_definition"%string; evidence_value text in
  let closure := text ← metadata !! "type_definition_closure"%string; closure_from_str text in
  let digest_matches :=
    match (d ← definition; v ← get "definition_digest" d; as_str v) with
    | Some digest => bool_decide (sha256_prefixed digest = ctx_source_type_definition_digest context)
    | None => false
    end in
  let identity_matches :=
    match definition with
    | None => false
    | Some d =>
        bool_decide ((v ← get "oid" d; as_u64 v) = type_oid)
        && bool_decide ((v ← get "schema" d; as_str v) = metadata !! "type_schema"%string)
        && bool_decide ((v ← get "name" d; as_str v) = metadata !! "type_name"%string)
    end in
  digest_matches && identity_matches
  && match closure with
     | None => false
     | Some cl =>
         bool_decide (metadata !! "type_definition_closure_digest"%string = Some (sha256_prefixed (closure_digest cl)))
         && match type_oid with
            | None => false
            | Some root =>
                match find_oid (cl_types cl) root, definition with
                | Some d, Some value => definition_is d value
                | None, None => true
                | _, _ => false
                end
                && validate_type_definition_closure cl root
            end
     end.

Definition validate_representation (change : RowChange) (column : ColumnDatum) (envelope : SourceRepresentationEnvelope)
    (relation_oid : string) (catalog_digest : option string) (version : string) : contract () :=
  let context := env_context envelope in
  let metadata := ctx_type_metadata context in
  let holds := λ key value, bool_decide (metadata !! key = Some value) in
  let nonempty := λ key, match metadata !! key with Some v => negb (sempty v) | None => false end in
  let type_oid := text ← metadata !! "column_oid"%string; parse_u32 text in
  let expected_identity :=
    oid ← type_oid; schema ← metadata !! "type_schema"%string; name ← metadata !! "type_name"%string;
    Some (type_identity oid schema name) in
  ensure
    (bool_decide (con_kind (ctx_connector context) = "postgresql"%string)
     && bool_decide (con_version (ctx_connector context) = version)
     && bool_decide (bld_product (ctx_server_build context) = "postgresql"%string)
     && starts (version +:+ ".") (bld_version (ctx_server_build context))
     && bool_decide (ctx_protocol context = "pgoutput.v1"%string)
     && bool_decide (ctx_format context = FmtText) && bool_decide (env_encoding envelope = "UTF-8"%string)
     && bool_decide (ctx_source_cursor context = chg_source_cursor change)
     && holds "relation_oid"%string relation_oid && holds "relation_schema"%string (chg_schema change)
     && holds "relation_name"%string (chg_table change) && holds "column_name"%string (col_name column)
     && nonempty "type_schema"%string && nonempty "type_name"%string
     && match type_oid with Some oid => 0 <? oid | None => false end
     && match (text ← metadata !! "type_modifier"%string; parse_i32 text) with Some _ => true | None => false end
     && holds "native_type"%string (col_native_type column)
     && holds "type_definition_digest"%string (ctx_source_type_definition_digest context)
     && match metadata !! "source_catalog_digest"%string with Some digest => hex_digest digest | None => false end
     && bool_decide (metadata !! "source_catalog_digest"%string = catalog_digest)
     && holds "text_output_profile"%string "pgoutput-v1/text/UTF8"%string && holds "session.search_path"%string "pg_catalog"%string
     && nonempty "environment.lc_monetary"%string
     && checked_definition context type_oid
     && bool_decide (expected_identity = Some (ctx_source_type_identity context)))
    "PostgreSQL source representation context does not match its checked type definition closure"%string.

(** ** Row images *)
(** The OID and the catalog digest of a schema basis. *)
Definition schema_basis (basis : string) : option (string * option string) :=
  rest ← strip_prefix "pgoutput+catalog:" basis;
  Some (match split_once ":" rest with Some (oid, digest) => (oid, Some digest) | None => (rest, None) end).
Definition validate_image_column (change : RowChange) (is_before : bool) (oid : string) (digest : option string) (version : string)
    (column : ColumnDatum) : contract () :=
  ensure (negb (col_generated column)) "generated PostgreSQL columns are unsupported"%string ;?
  validate_presence (chg_operation change) is_before column ;?
  match col_datum column with
  | EnvelopeDatum envelope => validate_representation change column envelope oid digest version
  | Value value =>
      validate_native_type_for_version version (col_native_type column) ;?
      ensure (logical_matches_native value (col_native_type column) version)
        "PostgreSQL column does not match its logical value type"%string
  | _ => Ok ()
  end.
Definition validate_image (change : RowChange) (is_before : bool) (image : list ColumnDatum) (version : string) : contract () :=
  let? basis := ok_or "invalid PostgreSQL schema basis"%string (schema_basis (chg_schema_basis change)) in
  let '(oid, digest) := basis in
  ensure (positive parse_u32 oid && match digest with Some d => hex_digest d | None => true end)
    "invalid PostgreSQL schema basis"%string ;?
  ensure (existsb (λ c, is_some (col_primary_key_ordinal c)) image) "PostgreSQL capture requires a primary key"%string ;?
  ensure (forallb (λ ic : nat * ColumnDatum, col_ordinal ic.2 =? Z.of_nat ic.1) (imap pair image))
    "PostgreSQL image ordinals must be contiguous"%string ;?
  each (validate_image_column change is_before oid digest version) image.

(** ** Transactions *)
Context `{B64 : Base64}.
Definition validate_change (database : string) (last : Z) (version : string) (change : RowChange) : contract () :=
  ensure (bool_decide (chg_database change = Some database)) "PostgreSQL transaction spans databases"%string ;?
  let? at_ := lsn (chg_source_cursor change) in
  ensure (at_ =? last) "PostgreSQL row cursor must equal its transaction end"%string ;?
  match chg_before change with Some image => validate_image change true image version | None => Ok () end ;?
  match chg_after change with Some image => validate_image change false image version | None => Ok () end.

Definition valid_source_identity (identity : list string) : bool :=
  let at_ := λ i, default ""%string (identity !! i) in
  bool_decide (length identity ∈ [4; 5]%nat) && bool_decide (at_ 0%nat = "postgresql"%string)
  && positive parse_u64 (at_ 1%nat) && positive parse_u32 (at_ 2%nat) && positive parse_u32 (at_ 3%nat).
Definition valid_source_version (version : list string) : bool :=
  match version with
  | [major; minor] => bool_decide (major ∈ ["15"; "16"; "17"]%string) && is_some (parse_u32 minor)
  | _ => false
  end.
Definition validate (transaction : ValidatedTransaction) : contract () :=
  let tx := vt_transaction transaction in
  ensure (bool_decide (src_kind (tx_source tx) = "postgresql"%string)) "PostgreSQL Source Contract requires source kind postgresql"%string ;?
  let version := split "." (src_version (tx_source tx)) in
  ensure (valid_source_version version) "unsupported PostgreSQL source version"%string ;?
  let identity := split ":" (src_id (tx_source tx)) in
  ensure (valid_source_identity identity) "invalid PostgreSQL source identity"%string ;?
  let? first := lsn (tx_begin_cursor tx) in
  let? last := lsn (tx_commit_cursor tx) in
  ensure (first <? last) "PostgreSQL commit end must follow its commit record"%string ;?
  let? id := ok_or "invalid PostgreSQL transaction id"%string (rest ← strip_prefix "pg:" (tx_id tx); split_once ":" rest) in
  let '(xid, suffix) := id in
  ensure (positive parse_u32 xid && bool_decide (suffix = cur_value (tx_commit_cursor tx)))
    "PostgreSQL transaction id/end LSN mismatch"%string ;?
  let database := default ""%string (change ← head (tx_changes tx); chg_database change) in
  ensure (negb (sempty database) && negb (has_nul database)) "PostgreSQL database is required"%string ;?
  ensure
    match identity !! 4%nat with
    | Some encoded => bool_decide ((bytes ← b64_decode encoded; from_utf8 bytes) = Some database)
    | None => true
    end "PostgreSQL source identity/database mismatch"%string ;?
  each (validate_change database last (default ""%string (head version))) (tx_changes tx).
End contract.
