(* ===== verification/PgCapture.v ===== *)
(** * The PostgreSQL capture ([crates/postgresql_15/src/decoder.rs], [replication.rs])

    [push] is the decoder of pgoutput messages: BEGIN opens a transaction, rows are
    decoded against the checked catalog and collected, COMMIT publishes the validated
    transaction under its end LSN.  [next_transaction] is the stream over the frames of
    the replication connection and [acknowledge] the durable confirmation.  The messages,
    as the library pg_walstream parses them, are data; the formatting and parsing of LSNs
    by that library is an interface.  A frame carries the answers the connection gives
    while it is handled: whether a status update was due and whether it was sent. *)
From S2P Require Import Prelude Text Utf8 Codec Model Representation Validate LogicalTypes MyType PgCatalog PgType PgLoad PgDecode PgSource.

(** ** pg_walstream *)
Class Walstream := {
  format_lsn : Z → string;
  parse_lsn : string → option Z
}.

Record ColumnData := mkData { cd_data_type : byte; cd_bytes : list byte }.
Notation TupleData := (list ColumnData).
Record RelationColumn := mkRelationColumn {
  rc_name : string;
  rc_type_id : Z;
  rc_type_modifier : Z;
  rc_is_key : bool
}.
Inductive Message :=
| MBegin (final_lsn timestamp xid : Z)
| MCommit (flags commit_lsn end_lsn timestamp : Z)
| MRelation (relation_id : Z) (namespace relation_name : string) (replica_identity : byte) (columns : list RelationColumn)
| MInsert (relation_id : Z) (tuple : TupleData)
| MUpdate (relation_id : Z) (old_tuple : option TupleData) (new_tuple : TupleData) (key_type : option byte)
| MDelete (relation_id : Z) (old_tuple : TupleData) (key_type : byte)
| MTruncate
| MType (type_id : Z) (namespace type_name : string)
| MOrigin
| MOther.

(** ** The decoder *)
Record Pending := mkPending {
  pd_xid : Z;
  pd_final_lsn : Z;
  pd_timestamp : Z;
  pd_bytes : Z;
  pd_rows : list RowChange
}.
Record Decoder := mkDecoder {
  dc_source : Source;
  dc_server_build : ServerBuildIdentity;
  dc_lc_monetary : string;
  dc_database : string;
  dc_tables : gmap Z Table;
  dc_type_names : gmap Z (string * string);
  dc_type_catalog : SourceTypeCatalog;
  dc_seen : list Z;
  dc_pending : option Pending;
  dc_previous_end : Z;
  dc_max_bytes : Z
}.
Definition with_pending (pending : option Pending) (d : Decoder) : Decoder :=
  mkDecoder (dc_source d) (dc_server_build d) (dc_lc_monetary d) (dc_database d) (dc_tables d) (dc_type_names d)
    (dc_type_catalog d) (dc_seen d) pending (dc_previous_end d) (dc_max_bytes d).
Definition with_seen (relation_id : Z) (d : Decoder) : Decoder :=
  mkDecoder (dc_source d) (dc_server_build d) (dc_lc_monetary d) (dc_database d) (dc_tables d) (dc_type_names d)
    (dc_type_catalog d) (relation_id :: dc_seen d) (dc_pending d) (dc_previous_end d) (dc_max_bytes d).
Definition committed (end_lsn : Z) (d : Decoder) : Decoder :=
  mkDecoder (dc_source d) (dc_server_build d) (dc_lc_monetary d) (dc_database d) (dc_tables d) (dc_type_names d)
    (dc_type_catalog d) (dc_seen d) None end_lsn (dc_max_bytes d).

Notation captured := (result string).
Definition fail {A} (message : string) : captured A := Err message.

(** Whether the names of a TYPE message are those of a type or of a domain over it. *)
Fixpoint protocol_type_identity_matches (fuel : nat) (catalog : SourceTypeCatalog) (oid : Z) (namespace name : string)
    (seen : list Z) : bool :=
  if bool_decide (oid ∈ seen) then false else
  match fuel with
  | O => false
  | S fuel =>
      match find_oid (cat_types catalog) oid with
      | None => false
      | Some d =>
          let same := λ t : SourceTypeDefinition,
            bool_decide (td_name t = name)
            && (bool_decide (td_schema t = namespace) || sempty namespace && bool_decide (td_schema t = "pg_catalog"%string)) in
          same d
          || match td_kind d with
             | KDomain base_oid _ _ =>
                 match find_oid (cat_types catalog) base_oid with
                 | Some base => same base || protocol_type_identity_matches fuel catalog base_oid namespace name (oid :: seen)
                 | None => false
                 end
             | _ => false
             end
      end
  end.
Definition TYPE_LEVELS : nat := 64.

(** The column descriptions of a RELATION message against the catalog. *)
Definition relation_column_matches (replica_identity : byte) (a : Column) (b : RelationColumn) : bool :=
  bool_decide (cc_name a = rc_name b) && (cc_oid a =? rc_type_id b) && (cc_modifier a =? rc_type_modifier b)
  && (bool_decide (replica_identity = "f"%char) || Bool.eqb (is_some (cc_key a)) (rc_is_key b)).
Definition relation_matches (t : Table) (namespace name : string) (replica_identity : byte) (columns : list RelationColumn) : bool :=
  bool_decide (tb_schema t = namespace) && bool_decide (tb_name t = name) && bool_decide (tb_identity t = replica_identity)
  && Nat.eqb (length (tb_columns t)) (length columns)
  && forallb (λ ab : Column * RelationColumn, relation_column_matches replica_identity ab.1 ab.2) (combine (tb_columns t) columns).

Definition MAX_ROWS : nat := Z.to_nat 100000.

Section decoder.
Context `{B64 : Base64} `{SHA : Sha256} `{CJ : CatalogJson} `{MJ : MappingJson} `{SJ : SerdeJson} `{EJ : EvidenceJson} `{WS : Walstream}.

(** [lib.rs] *)
Definition cursor (lsn : Z) : SourceCursor :=
  let value := format_lsn lsn in mkCursor "postgresql.lsn.v1" value value.
Definition validate_change_event (transaction : ChangeTransaction) : captured ValidatedTransaction :=
  let? validated := map_err (λ _, "validation"%string) (Validate.validate transaction) in
  PgSource.validate validated ;? Ok validated.

(** ** Row images *)
Definition major_of (version : string) : string := default "15"%string (head (split "." version)).
(** The evidence carried with a value that is kept as text. *)
Definition representation_metadata (d : Decoder) (t : Table) (meta : Column) : gmap string string :=
  list_to_map
    ([("relation_oid", show_nat (tb_oid t)); ("relation_schema", tb_schema t); ("relation_name", tb_name t);
      ("column_name", cc_name meta); ("column_oid", show_nat (cc_oid meta)); ("type_modifier", show_int (cc_modifier meta));
      ("native_type", cc_native_type meta); ("type_schema", cc_type_schema meta); ("type_name", cc_type_name meta);
      ("type_definition", cc_type_definition_evidence meta);
      ("type_definition_digest", sha256_prefixed (cc_type_definition_digest meta));
      ("type_definition_closure", cc_type_definition_closure_evidence meta);
      ("type_definition_closure_digest", sha256_prefixed (cc_type_definition_closure_digest meta));
      ("source_catalog_digest", tb_source_type_catalog_digest t);
      ("environment.lc_monetary", dc_lc_monetary d)]%string ++ session_metadata).
Definition representation_context (d : Decoder) (t : Table) (meta : Column) (at_ : SourceCursor) : SourceRepresentationContext :=
  mkContext (mkConnector "postgresql" (major_of (src_version (dc_source d)))) (dc_server_build d)
    (type_identity (cc_oid meta) (cc_type_schema meta) (cc_type_name meta)) (sha256_prefixed (cc_type_definition_digest meta))
    "pgoutput.v1" FmtText (representation_metadata d t meta) at_.
Definition column_value (d : Decoder) (t : Table) (key_only : bool) (at_ : SourceCursor) (meta : Column) (data : ColumnData)
    : captured Datum :=
  if key_only && is_none (cc_key meta) then Ok Unavailable else
  let sent := λ c, bool_decide (cd_data_type data = c) in
  if sent "n"%char then Ok DNull
  else if sent "u"%char then Ok Unchanged
  else if sent "t"%char && cc_representation_only meta && cc_representation_capture_allowed meta then
    Ok (EnvelopeDatum (envelope_new (representation_context d t meta at_) "UTF-8" (cd_bytes data)))
  else if sent "t"%char && negb (cc_representation_only meta) then
    let? value :=
      map_err (λ _, "column could not be decoded"%string)
        (decode_catalog_column_for_version (major_of (src_version (dc_source d))) (dc_type_catalog d) (cc_oid meta)
           (cc_native_type meta) (cd_bytes data)) in
    Ok (Value value)
  else fail "unexpected binary/invalid pgoutput value; text transfer required".
Fixpoint image_columns (d : Decoder) (t : Table) (key_only : bool) (at_ : SourceCursor) (ordinal : Z) (columns : list Column)
    (tuple : TupleData) : captured (list ColumnDatum) :=
  match columns, tuple with
  | meta :: columns, data :: tuple =>
      let? datum := column_value d t key_only at_ meta data in
      let? rest := image_columns d t key_only at_ (ordinal + 1) columns tuple in
      Ok (mkColumn ordinal (cc_name meta) (cc_native_type meta) (cc_key meta) false None datum :: rest)
  | _, _ => Ok []
  end.
Definition image (d : Decoder) (t : Table) (tuple : TupleData) (key_only : bool) (at_ : SourceCursor) : captured (list ColumnDatum) :=
  if negb (Nat.eqb (length tuple) (length (tb_columns t))) then fail "tuple column count differs from Relation"
  else image_columns d t key_only at_ 0 (tb_columns t) tuple.

(** ** Rows *)
Definition table (d : Decoder) (oid : Z) : captured Table :=
  if negb (bool_decide (oid ∈ dc_seen d)) then fail "row arrived before its Relation message"
  else ok_or "unknown relation"%string (dc_tables d !! oid).
Definition current_cursor (d : Decoder) : captured SourceCursor :=
  let? p := ok_or "row outside a transaction"%string (dc_pending d) in Ok (cursor (pd_final_lsn p)).
Definition schema_basis_of (t : Table) : string :=
  "pgoutput+catalog:" +:+ show_nat (tb_oid t) +:+ ":" +:+ tb_source_type_catalog_digest t.
Definition row (d : Decoder) (oid : Z) (operation : Operation) (before after : option (list ColumnDatum)) : captured Decoder :=
  let? t := ok_or "unknown table"%string (dc_tables d !! oid) in
  let? p := ok_or "row outside a transaction"%string (dc_pending d) in
  if (MAX_ROWS <=? length (pd_rows p))%nat then fail "transaction exceeds 100000 row capture limit" else
  let seconds := pd_timestamp p / 1000000 + 946684800 in
  if negb (in_range i64_min i64_max seconds) then fail "timestamp overflow" else
  if negb (in_range 0 u32_max seconds) then fail "out of range" else
  let change :=
    mkChange (Some (dc_database d)) operation (tb_schema t) (tb_name t) (cursor (pd_final_lsn p)) seconds (schema_basis_of t)
      before after in
  Ok (with_pending (Some (mkPending (pd_xid p) (pd_final_lsn p) (pd_timestamp p) (pd_bytes p) (pd_rows p ++ [change]))) d).

(** The old image of an UPDATE: the key sent, the whole row, or the key of the new row. *)
Definition key_columns_only (c : ColumnDatum) : ColumnDatum :=
  if is_some (col_primary_key_ordinal c) then c
  else mkColumn (col_ordinal c) (col_name c) (col_native_type c) (col_primary_key_ordinal c) (col_generated c) (col_collation c) Unavailable.
Definition old_image (d : Decoder) (t : Table) (at_ : SourceCursor) (key_type : option byte) (old_tuple : option TupleData)
    (after : list ColumnDatum) : captured (list ColumnDatum) :=
  match key_type, old_tuple with
  | Some k, Some old =>
      if bool_decide (k = "K"%char) then image d t old true at_
      else if bool_decide (k = "O"%char) && bool_decide (tb_identity t = "f"%char) then image d t old false at_
      else fail "invalid UPDATE old tuple/replica identity"
  | None, None =>
      if bool_decide (tb_identity t = "d"%char) then Ok (key_columns_only <$> after)
      else fail "invalid UPDATE old tuple/replica identity"
  | _, _ => fail "invalid UPDATE old tuple/replica identity"
  end.
Definition delete_key_only (t : Table) (key_type : byte) : captured bool :=
  if bool_decide (key_type = "K"%char) && bool_decide (tb_identity t = "d"%char) then Ok true
  else if bool_decide (key_type = "O"%char) && bool_decide (tb_identity t = "f"%char) then Ok false
  else fail "invalid DELETE identity".

(** ** COMMIT *)
Definition at_cursor (at_ : SourceCursor) (c : ColumnDatum) : ColumnDatum :=
  match col_datum c with
  | EnvelopeDatum e =>
      let context := env_context e in
      let context :=
        mkContext (ctx_connector context) (ctx_server_build context) (ctx_source_type_identity context)
          (ctx_source_type_definition_digest context) (ctx_protocol context) (ctx_format context) (ctx_type_metadata context) at_ in
      mkColumn (col_ordinal c) (col_name c) (col_native_type c) (col_primary_key_ordinal c) (col_generated c) (col_collation c)
        (EnvelopeDatum (mkEnvelope context (env_encoding e) (env_payload_base64url e) (env_payload_length e) (env_payload_sha256 e)))
  | _ => c
  end.
Definition row_at (end_lsn : Z) (r : RowChange) : RowChange :=
  mkChange (chg_database r) (chg_operation r) (chg_schema r) (chg_table r) (cursor end_lsn) (chg_source_timestamp r)
    (chg_schema_basis r) (option_map (map (at_cursor (cursor end_lsn))) (chg_before r))
    (option_map (map (at_cursor (cursor end_lsn))) (chg_after r)).
Definition transaction_of (d : Decoder) (p : Pending) (commit_lsn end_lsn : Z) : ChangeTransaction :=
  mkTransaction (dc_source d) ("pg:" +:+ show_nat (pd_xid p) +:+ ":" +:+ format_lsn end_lsn) (cursor commit_lsn) (cursor end_lsn)
    (row_at end_lsn <$> pd_rows p).
Definition commit (d : Decoder) (flags commit_lsn end_lsn timestamp : Z) : captured (Decoder * option ValidatedTransaction) :=
  let? p := ok_or "COMMIT without BEGIN"%string (dc_pending d) in
  if negb (flags =? 0) || negb (commit_lsn =? pd_final_lsn p) || (end_lsn <=? commit_lsn) || negb (timestamp =? pd_timestamp p)
     || (end_lsn <=? dc_previous_end d)
  then fail "inconsistent PostgreSQL COMMIT boundary" else
  let d' := committed end_lsn d in
  if bool_decide (length (pd_rows p) = 0%nat) then Ok (d', None) else
  let? validated := validate_change_event (transaction_of d p commit_lsn end_lsn) in
  Ok (d', Some validated).

(** ** Messages *)
(** The wire size is charged to the open transaction before the message is read. *)
Definition charge (d : Decoder) (bytes : Z) : captured Decoder :=
  match dc_pending d with
  | None => Ok d
  | Some p =>
      let total := pd_bytes p + bytes in
      if u64_max <? total then fail "transaction size overflow"
      else if dc_max_bytes d <? total then fail "transaction exceeds capture wire-size limit; checkpoint has not advanced"
      else Ok (with_pending (Some (mkPending (pd_xid p) (pd_final_lsn p) (pd_timestamp p) total (pd_rows p))) d)
  end.
Definition begin (d : Decoder) (final_lsn timestamp xid bytes : Z) : captured Decoder :=
  if is_some (dc_pending d) || (xid =? 0) || (final_lsn =? 0) || (final_lsn <=? dc_previous_end d)
  then fail "invalid/nested BEGIN or out-of-order transaction"
  else Ok (with_pending (Some (mkPending xid final_lsn timestamp bytes [])) d).
Definition relation (d : Decoder) (relation_id : Z) (namespace name : string) (replica_identity : byte)
    (columns : list RelationColumn) : captured Decoder :=
  let? t := ok_or "new publication relation"%string (dc_tables d !! relation_id) in
  if relation_matches t namespace name replica_identity columns then Ok (with_seen relation_id d)
  else fail "pgoutput relation disagrees with checked catalog; schema changed".
Definition insert_row (d : Decoder) (relation_id : Z) (tuple : TupleData) : captured Decoder :=
  let? t := table d relation_id in
  let? at_ := current_cursor d in
  let? after := image d t tuple false at_ in
  row d relation_id Insert None (Some after).
Definition update_row (d : Decoder) (relation_id : Z) (old_tuple : option TupleData) (new_tuple : TupleData) (key_type : option byte)
    : captured Decoder :=
  let? t := table d relation_id in
  let? at_ := current_cursor d in
  let? after := image d t new_tuple false at_ in
  let? before := old_image d t at_ key_type old_tuple after in
  row d relation_id Update (Some before) (Some after).
Definition delete_row (d : Decoder) (relation_id : Z) (old_tuple : TupleData) (key_type : byte) : captured Decoder :=
  let? t := table d relation_id in
  let? at_ := current_cursor d in
  let? key_only := delete_key_only t key_type in
  let? before := image d t old_tuple key_only at_ in
  row d relation_id Delete (Some before) None.
Definition push (d : Decoder) (message : Message) (bytes : Z) : captured (Decoder * option ValidatedTransaction) :=
  let? d := charge d bytes in
  let silent := λ r : captured Decoder, let? d := r in Ok (d, None) in
  match message with
  | MBegin final_lsn timestamp xid => silent (begin d final_lsn timestamp xid bytes)
  | MCommit flags commit_lsn end_lsn timestamp => commit d flags commit_lsn end_lsn timestamp
  | MRelation relation_id namespace name identity columns => silent (relation d relation_id namespace name identity columns)
  | MInsert relation_id tuple => silent (insert_row d relation_id tuple)
  | MUpdate relation_id old_tuple new_tuple key_type => silent (update_row d relation_id old_tuple new_tuple key_type)
  | MDelete relation_id old_tuple key_type => silent (delete_row d relation_id old_tuple key_type)
  | MTruncate => fail "TRUNCATE is not supported; capture stopped without acknowledging it"
  | MType type_id namespace name =>
      if negb (is_some (dc_type_names d !! type_id))
      then fail "pgoutput TYPE references an OID absent from the checked PostgreSQL type catalog"
      else if protocol_type_identity_matches TYPE_LEVELS (dc_type_catalog d) type_id namespace name [] then Ok (d, None)
      else fail "pgoutput TYPE identity differs from the checked catalog"
  | MOrigin => fail "replicated origins are not supported yet"
  | MOther => fail "unexpected protocol message for pgoutput v1"
  end.

(** ** The stream *)
(** A frame of the connection with the answers given while it is handled: the message
    the library parses from it, whether five seconds had passed since the last status
    update and whether an update is sent. *)
Record Frame := mkFrame {
  fr_data : list byte;
  fr_message : option Message;
  fr_reply_requested : option bool;
  fr_feedback_due : bool;
  fr_feedback_sent : bool
}.
(** What [get_copy_data_async] brings: a frame, or an error (a cancellation included). *)
Inductive Arrival := Copy (frame : Frame) | Broken.
Record Replication := mkReplication {
  rp_decoder : Decoder;
  rp_start : Z;
  rp_acknowledged : Z;
  rp_delivered : option SourceCursor;
  rp_failed : bool;
  rp_sent : list Z  (* the positions reported to the server, oldest first *)
}.
Definition opened (decoder : Decoder) (start : Z) : Replication := mkReplication decoder start 0 None false [].
Definition with_decoder (d : Decoder) (s : Replication) : Replication :=
  mkReplication d (rp_start s) (rp_acknowledged s) (rp_delivered s) (rp_failed s) (rp_sent s).
Definition with_delivered (at_ : SourceCursor) (s : Replication) : Replication :=
  mkReplication (rp_decoder s) (rp_start s) (rp_acknowledged s) (Some at_) (rp_failed s) (rp_sent s).
Definition poisoned (s : Replication) : Replication :=
  mkReplication (rp_decoder s) (rp_start s) (rp_acknowledged s) (rp_delivered s) true (rp_sent s).
Definition with_acknowledged (lsn : Z) (s : Replication) : Replication :=
  mkReplication (rp_decoder s) (rp_start s) lsn (rp_delivered s) (rp_failed s) (rp_sent s).
(** [feedback]: the acknowledged position is what is reported. *)
Definition feedback (s : Replication) (sent : bool) : Replication * captured () :=
  if sent then
    (mkReplication (rp_decoder s) (rp_start s) (rp_acknowledged s) (rp_delivered s) (rp_failed s) (rp_sent s ++ [rp_acknowledged s]), Ok ())
  else (s, fail "send_standby_status_update").
Definition feedback_when (due : bool) (s : Replication) (sent : bool) : Replication * captured () :=
  if due then feedback s sent else (s, Ok ()).
Definition MAX_FRAME : Z := 64 * 1024 * 1024.

(** A message of the WAL, after the status update that may be due. *)
Definition read_message (s : Replication) (f : Frame) (message : Message) : Replication * captured (option ValidatedTransaction) :=
  let '(s, reported) := feedback_when (fr_feedback_due f) s (fr_feedback_sent f) in
  match reported with
  | Err e => (s, Err e)
  | Ok _ =>
      match push (rp_decoder s) message (Z.of_nat (length (fr_data f))) with
      | Err e => (s, Err e)
      | Ok (d, Some tx) => (with_delivered (tx_commit_cursor (vt_transaction tx)) (with_decoder d s), Ok (Some tx))
      | Ok (d, None) => (with_decoder d s, Ok None)
      end
  end.
(** One turn of the loop: the state after it, and the transaction it delivers. *)
Definition read_frame (s : Replication) (f : Frame) : Replication * captured (option ValidatedTransaction) :=
  let size := Z.of_nat (length (fr_data f)) in
  match head (fr_data f) with
  | None => (s, fail "replication stream ended")
  | Some kind =>
      if MAX_FRAME <? size then (s, fail "replication message exceeds 64 MiB")
      else if bool_decide (kind = "k"%char) then
        match fr_reply_requested f with
        | None => (s, fail "keepalive")
        | Some requested =>
            let '(s, reported) := feedback_when (requested || fr_feedback_due f) s (fr_feedback_sent f) in
            (s, let? _ := reported in Ok None)
        end
      else if negb (bool_decide (kind = "w"%char)) || (size <? 26) then (s, fail "invalid XLogData frame")
      else match fr_message f with None => (s, fail "message") | Some message => read_message s f message end
  end.

Inductive Polled :=
| Waiting (s : Replication)
| Delivered (tx : ValidatedTransaction) (s : Replication) (rest : list Arrival)
| Failed (message : string) (s : Replication) (rest : list Arrival).
Fixpoint read_transaction (s : Replication) (arrivals : list Arrival) : Polled :=
  match arrivals with
  | [] => Waiting s
  | Broken :: rest => Failed "get_copy_data_async" (poisoned s) rest
  | Copy frame :: rest =>
      match read_frame s frame with
      | (s, Err message) => Failed message (poisoned s) rest
      | (s, Ok (Some tx)) => Delivered tx s rest
      | (s, Ok None) => read_transaction s rest
      end
  end.
Definition next_transaction (s : Replication) (arrivals : list Arrival) : Polled :=
  if rp_failed s then Failed "capture stopped after an earlier error/cancellation; reopen the existing slot" s arrivals
  else read_transaction s arrivals.

(** The confirmation of a delivered transaction that is durable. *)
Definition acknowledge (s : Replication) (transaction : ValidatedTransaction) (sent : bool) : Replication * captured () :=
  let tx := vt_transaction transaction in
  if rp_failed s || negb (bool_decide (tx_source tx = dc_source (rp_decoder s)))
     || negb (bool_decide (rp_delivered s = Some (tx_commit_cursor tx)))
  then (s, fail "can only acknowledge this stream's most recently delivered complete transaction")
  else
    match parse_lsn (cur_value (tx_commit_cursor tx)) with
    | None => (s, fail "invalid LSN")
    | Some lsn =>
        if lsn <? rp_acknowledged s then (s, fail "acknowledgement moved backwards")
        else feedback (with_acknowledged lsn s) sent
    end.
End decoder.

(** ** Opening the stream: the checks of [replication_for_version] *)
Record Config := mkConfig {
  cf_host : string;
  cf_database : string;
  cf_username : string;
  cf_password : string;
  cf_publication : string;
  cf_slot : string;
  cf_create_slot : bool;
  cf_start_lsn : option string;
  cf_expected_source_id : option string;
  cf_max_transaction_bytes : Z
}.
Definition slot_byte (c : byte) : bool := is_ascii_lower c || is_ascii_digit c || bool_decide (c = "_"%char).
Definition check_config (c : Config) (expected_major : Z) : captured () :=
  ensure (in_range 15 17 expected_major) "PostgreSQL SourceAdapter supports versions 15, 16, and 17"%string ;?
  ensure (negb (sempty (cf_slot c) || (63 <? slen (cf_slot c)) || negb (all_bytes slot_byte (cf_slot c))
                || sempty (cf_publication c) || (cf_max_transaction_bytes c =? 0)
                || existsb has_nul [cf_host c; cf_database c; cf_username c; cf_password c; cf_publication c]))
    "invalid replication configuration"%string ;?
  ensure (negb (cf_create_slot c && is_some (cf_start_lsn c))) "cannot specify historical LSN while creating a new slot"%string.

(** The row of [pg_replication_slots]. *)
Record Slot := mkSlot {
  sl_database : option string;
  sl_plugin : option string;
  sl_type : string;
  sl_active : bool;
  sl_temporary : bool;
  sl_wal_status : option string;
  sl_confirmed : option string
}.
Definition slot_usable (c : Config) (slot : Slot) : bool :=
  bool_decide (sl_database slot = Some (cf_database c)) && bool_decide (sl_plugin slot = Some "pgoutput"%string)
  && bool_decide (sl_type slot = "logical"%string) && negb (sl_active slot) && negb (sl_temporary slot)
  && bool_decide (sl_wal_status slot ∈ [Some "reserved"; Some "extended"]%string).
(** The confirmed position of the slot, 0 when it is to be created. *)
Definition confirmed_position `{WS : Walstream} (c : Config) (slot : option Slot) : captured Z :=
  ensure (negb (cf_create_slot c && is_some slot)) "slot already exists; omit --create-slot to resume"%string ;?
  ensure (cf_create_slot c || is_some slot) "slot is missing; refusing to recreate it during resume"%string ;?
  match slot with
  | None => Ok 0
  | Some slot =>
      ensure (slot_usable c slot) "slot is active, invalid, temporary, or bound to another database/plugin"%string ;?
      let? confirmed := ok_or "slot has no confirmed position"%string (sl_confirmed slot) in
      ok_or "invalid LSN"%string (parse_lsn confirmed)
  end.
(** Where the stream starts; [created] is the answer to CREATE_REPLICATION_SLOT. *)
Definition start_position `{WS : Walstream} (c : Config) (confirmed : Z) (created : captured (option string)) : captured Z :=
  let? start :=
    if cf_create_slot c then
      let? answer := created in
      let? point := ok_or "CREATE_REPLICATION_SLOT missing consistent point"%string answer in
      ok_or "invalid LSN"%string (parse_lsn point)
    else
      match cf_start_lsn c with
      | Some text =>
          let? requested := ok_or "invalid LSN"%string (parse_lsn text) in
          if requested <? confirmed
          then fail "requested LSN predates confirmed_flush_lsn; the slot can no longer guarantee replay from that position"
          else Ok requested
      | None => Ok confirmed
      end in
  if start =? 0 then fail "a nonzero starting LSN is required" else Ok start.
(** The identity a stream publishes. *)
Definition source_of `{B64 : Base64} (expected_major version : Z) (system timeline : string) (database_oid : Z) (database : string)
    : Source :=
  mkSource "postgresql" (show_nat expected_major +:+ "." +:+ show_int (Z.rem version 10000))
    ("postgresql:" +:+ system +:+ ":" +:+ timeline +:+ ":" +:+ show_int database_oid +:+ ":" +:+ b64_encode (sbytes database)).
Definition check_source (c : Config) (s : Source) : captured () :=
  ensure match cf_expected_source_id c with Some expected => bool_decide (expected = src_id s) | None => true end
    "source identity changed; refusing cursor reuse"%string.
(** What the server answers while the stream is opened: the settings row, the rows of
    its catalog, the slot, the identity of the replication connection, the
    consistent point of a slot that is created; and whether the statements that only have
    to succeed do. *)
Record Settings := mkSettings {
  st_version : Z;
  st_wal_level : string;
  st_encoding : string;
  st_version_text : string;
  st_build : string;
  st_lc_monetary : string;
  st_database_oid : Z
}.
Record Identified := mkIdentified {
  id_system : option string;
  id_timeline : option string;
  id_database : option string;
  id_server_version : Z
}.
Record Server := mkServer {
  sv_connected : captured ();
  sv_settings : captured Settings;
  sv_directory : Directory;
  sv_slot : captured (option Slot);
  sv_identified : captured Identified;
  sv_session : captured ();
  sv_created : captured (option string);
  sv_started : captured ();
  sv_closed : captured ()
}.
Definition check_settings (expected_major : Z) (st : Settings) : captured () :=
  ensure ((Z.quot (st_version st) 10000 =? expected_major) && bool_decide (st_wal_level st = "logical"%string)
          && bool_decide (st_encoding st = "UTF8"%string))
    "requires PostgreSQL 15, 16, or 17, wal_level=logical and UTF8 database encoding"%string.
Definition check_identified (c : Config) (st : Settings) (identified : Identified) : captured (string * string) :=
  let? system := ok_or "IDENTIFY_SYSTEM missing system id"%string (id_system identified) in
  let? timeline := ok_or "IDENTIFY_SYSTEM missing timeline"%string (id_timeline identified) in
  ensure (bool_decide (id_database identified = Some (cf_database c)) && (id_server_version identified =? st_version st))
    "SQL and replication connections identify different sources"%string ;?
  Ok (system, timeline).
(** [Decoder::new] *)
Definition decoder_new (source : Source) (server_build : ServerBuildIdentity) (c : Config) (st : Settings) (loaded : LoadedCatalog)
    : Decoder :=
  mkDecoder source server_build (st_lc_monetary st) (cf_database c) (lo_tables loaded) (lo_type_names loaded) (lo_type_catalog loaded)
    [] None 0 (cf_max_transaction_bytes c).
Definition replication_for_version `{B64 : Base64} `{SHA : Sha256} `{CJ : CatalogJson} `{MJ : MappingJson} `{WS : Walstream} (c : Config) (expected_major : Z) (server : Server)
    : captured Replication :=
  check_config c expected_major ;?
  sv_connected server ;?
  let? st := sv_settings server in
  check_settings expected_major st ;?
  let? loaded := load (sv_directory server) expected_major in
  let? slot := sv_slot server in
  let? confirmed := confirmed_position c slot in
  let? identified := sv_identified server in
  let? identity := check_identified c st identified in
  let source := source_of expected_major (st_version st) identity.1 identity.2 (st_database_oid st) (cf_database c) in
  check_source c source ;?
  sv_session server ;?
  let? start := start_position c confirmed (sv_created server) in
  sv_started server ;?
  sv_closed server ;?
  let server_build := mkBuild "postgresql" "community" (st_version_text st) (st_build st) in
  Ok (opened (decoder_new source server_build c st loaded) start).

(** [conn_value] *)
Definition conn_value (value : string) : string :=
  "'" +:+ of_bytes (concat ((λ c, if bool_decide (c ∈ ["\"; "'"]%char) then ["\"%char; c] else [c]) <$> sbytes value)) +:+ "'".
