(* ===== verification/PgCaptureSpec.v ===== *)
(** * Properties of the PostgreSQL capture

    What COMMIT publishes is exactly the rows of its transaction ([pg_published_exact]);
    transactions come out in source order with disjoint LSN intervals
    ([pg_transactions_ordered]); the server is only told positions of transactions the
    caller acknowledged, which were delivered before ([reported_only_acknowledged]). *)
From S2P Require Import Prelude Text Utf8 Codec Model Representation Validate LogicalTypes MyType PgCatalog PgType PgLoad PgDecode PgSource PgCapture.

Module Spec.
Section capture.
Context `{B64 : Base64} `{SHA : Sha256} `{CJ : CatalogJson} `{MJ : MappingJson} `{SJ : SerdeJson} `{EJ : EvidenceJson} `{WS : Walstream}.

(** ** Runs of the decoder *)
(** Messages with their wire sizes, in order, and the transactions they publish. *)
Fixpoint run (d : Decoder) (l : list (Message * Z)) : captured (Decoder * list ValidatedTransaction) :=
  match l with
  | [] => Ok (d, [])
  | a :: l =>
      let? r := push d a.1 a.2 in
      let? s := run r.1 l in Ok (s.1, option_list r.2 ++ s.2)
  end.
Definition boundary (m : Message) : bool := match m with MBegin _ _ _ | MCommit _ _ _ _ => true | _ => false end.
Definition wire_size (l : list (Message * Z)) : Z := foldr (λ a n, a.2 + n) 0 l.

(** The row a message stands for. *)
Definition change_of (d : Decoder) (p : Pending) (t : Table) (operation : Operation) (before after : option (list ColumnDatum)) : RowChange :=
  mkChange (Some (dc_database d)) operation (tb_schema t) (tb_name t) (cursor (pd_final_lsn p))
    (pd_timestamp p / 1000000 + 946684800) (schema_basis_of t) before after.
Definition row_of (d : Decoder) (p : Pending) (m : Message) : captured (option RowChange) :=
  let at_ := cursor (pd_final_lsn p) in
  match m with
  | MInsert relation_id tuple =>
      let? t := table d relation_id in
      let? after := image d t tuple false at_ in Ok (Some (change_of d p t Insert None (Some after)))
  | MUpdate relation_id old_tuple new_tuple key_type =>
      let? t := table d relation_id in
      let? after := image d t new_tuple false at_ in
      let? before := old_image d t at_ key_type old_tuple after in Ok (Some (change_of d p t Update (Some before) (Some after)))
  | MDelete relation_id old_tuple key_type =>
      let? t := table d relation_id in
      let? key_only := delete_key_only t key_type in
      let? before := image d t old_tuple key_only at_ in Ok (Some (change_of d p t Delete (Some before) None))
  | _ => Ok None
  end.
Definition contribution (d : Decoder) (m : Message) (bytes : Z) : list RowChange :=
  match charge d bytes with
  | Ok d => match dc_pending d with
            | Some p => match row_of d p m with Ok change => option_list change | Err _ => [] end
            | None => []
            end
  | Err _ => []
  end.
(** The rows of a sequence of messages, each decoded when it arrives. *)
Fixpoint contributions (d : Decoder) (l : list (Message * Z)) : list RowChange :=
  match l with
  | [] => []
  | a :: l => contribution d a.1 a.2 ++ match push d a.1 a.2 with Ok r => contributions r.1 l | Err _ => [] end
  end.

Lemma pg_run_snoc d l a d' outs :
  run d (l ++ [a]) = Ok (d', outs) ↔
  ∃ d1 o1 o, run d l = Ok (d1, o1) ∧ push d1 a.1 a.2 = Ok (d', o) ∧ outs = o1 ++ option_list o.
Proof.
  revert d outs. induction l as [|x l IH]; intros d outs; cbn.
  - rewrite bind_ok. split.
    + intros ([d1 o] & H & [= <- <-]). exists d, [], o. by rewrite app_nil_r.
    + intros (d1 & o1 & o & [= <- <-] & H & ->). exists (d', o). split; [done|]. cbn. by rewrite app_nil_r.
  - rewrite bind_ok. split.
    + intros ([d2 o2] & H & Hr). apply bind_ok in Hr as ([d3 o3] & Hr & [= <- <-]). cbn in *.
      apply IH in Hr as (d1 & o1 & o & Hr & Hp & ->). exists d1, (option_list o2 ++ o1), o. rewrite H. cbn. rewrite Hr.
      cbn. by rewrite (assoc_L (++)).
    + intros (d1 & o1 & o & H & Hp & ->). apply bind_ok in H as ([d2 o2] & H & Hr). apply bind_ok in Hr as ([d3 o3] & Hr & [= <- <-]).
      cbn in *. exists (d2, o2). split; [done|]. apply bind_ok. eexists (d', _). split.
      * apply IH. eexists _, _, _. split; [exact Hr|]. split; [exact Hp|reflexivity].
      * cbn. by rewrite (assoc_L (++)).
Qed.
Lemma contributions_extend d l a d' outs :
  run d l = Ok (d', outs) → contributions d (l ++ [a]) = contributions d l ++ contribution d' a.1 a.2.
Proof.
  revert d outs. induction l as [|x l IH]; intros d outs H; cbn in *.
  - injection H as <- <-. destruct (push d a.1 a.2); cbn; by rewrite app_nil_r.
  - apply bind_ok in H as ([d1 o] & H & Hr). apply bind_ok in Hr as ([d2 o2] & Hr & [= <- <-]). rewrite H. cbn in *.
    rewrite (IH _ _ Hr). by rewrite (assoc_L (++)).
Qed.
Lemma wire_size_snoc l a : wire_size (l ++ [a]) = wire_size l + a.2.
Proof. induction l as [|x l IH]; cbn; [lia|]. unfold wire_size in IH. rewrite IH. lia. Qed.

(** ** One message *)
(** What no message changes. *)
Definition opened_with (d : Decoder) :=
  (dc_source d, dc_server_build d, dc_lc_monetary d, dc_database d, dc_tables d, dc_type_names d, dc_type_catalog d, dc_max_bytes d).
Definition same_source (d d' : Decoder) : Prop := opened_with d' = opened_with d.

Lemma charge_open d p bytes d' :
  dc_pending d = Some p → charge d bytes = Ok d' →
  d' = with_pending (Some (mkPending (pd_xid p) (pd_final_lsn p) (pd_timestamp p) (pd_bytes p + bytes) (pd_rows p))) d
  ∧ pd_bytes p + bytes ≤ dc_max_bytes d.
Proof.
  intros Hp H. unfold charge in H. rewrite Hp in H. cbv zeta in H. case_match; [done|]. case_match eqn:E; [done|].
  injection H as <-. split; [done|lia].
Qed.
Lemma row_appends d p relation_id operation before after d' t :
  dc_pending d = Some p → dc_tables d !! relation_id = Some t → row d relation_id operation before after = Ok d' →
  d' = with_pending (Some (mkPending (pd_xid p) (pd_final_lsn p) (pd_timestamp p) (pd_bytes p)
         (pd_rows p ++ [change_of d p t operation before after]))) d
  ∧ (length (pd_rows p) < MAX_ROWS)%nat.
Proof.
  intros Hp Ht H. unfold row in H. rewrite Hp, Ht in H. cbn [ok_or mbind result_bind] in H.
  destruct (MAX_ROWS <=? length (pd_rows p))%nat eqn:E; [done|]. apply Nat.leb_gt in E. cbv zeta in H.
  case_match; [done|]. case_match; [done|]. injection H as <-. done.
Qed.
Lemma table_some d relation_id t : table d relation_id = Ok t → dc_tables d !! relation_id = Some t.
Proof. unfold table. case_match; [done|]. by rewrite ok_or_ok. Qed.

(** Inside a transaction a message appends the row it stands for and nothing else. *)
Lemma push_inside d p m bytes d' out :
  dc_pending d = Some p → boundary m = false → push d m bytes = Ok (d', out) →
  out = None ∧ same_source d d' ∧ dc_previous_end d' = dc_previous_end d
  ∧ pd_bytes p + bytes ≤ dc_max_bytes d
  ∧ dc_pending d' = Some (mkPending (pd_xid p) (pd_final_lsn p) (pd_timestamp p) (pd_bytes p + bytes)
                            (pd_rows p ++ contribution d m bytes))
  ∧ (length (pd_rows p) ≤ MAX_ROWS → length (pd_rows p ++ contribution d m bytes) ≤ MAX_ROWS)%nat.
Proof.
  intros Hp Hb H. unfold push in H. apply bind_ok in H as (d1 & Hc & H). unfold contribution. rewrite Hc.
  destruct (charge_open _ _ _ _ Hp Hc) as [Hd1 Hle]. cbv zeta in H.
  assert (dc_pending d1 = Some (mkPending (pd_xid p) (pd_final_lsn p) (pd_timestamp p) (pd_bytes p + bytes) (pd_rows p))) as Hp1
    by (by subst).
  assert (same_source d d1 ∧ dc_previous_end d1 = dc_previous_end d) as [Hs1 He1] by (by subst).
  clear Hd1 Hc. rewrite Hp1. set (p1 := mkPending _ _ _ _ _) in *.
  destruct m; try done; cbn [row_of option_list]; rewrite ?app_nil_r.
  - (* RELATION *)
    apply bind_ok in H as (d2 & H & [= <- <-]). unfold relation in H. apply bind_ok in H as (t & _ & H).
    case_match; [|done]. injection H as <-. split_and!; done.
  - (* INSERT *)
    apply bind_ok in H as (d2 & H & [= <- <-]). unfold insert_row in H. apply bind_ok in H as (t & Ht & H). rewrite Ht.
    unfold current_cursor in H. rewrite Hp1 in H. cbn [ok_or mbind result_bind] in *. apply bind_ok in H as (after & Ha & H).
    rewrite Ha. cbn. destruct (row_appends _ _ _ _ _ _ _ _ Hp1 (table_some _ _ _ Ht) H) as [-> Hl].
    split_and!; try done. intros _. rewrite length_app. cbn. unfold p1 in Hl. cbn in Hl. lia.
  - (* UPDATE *)
    apply bind_ok in H as (d2 & H & [= <- <-]). unfold update_row in H. apply bind_ok in H as (t & Ht & H). rewrite Ht.
    unfold current_cursor in H. rewrite Hp1 in H. cbn [ok_or mbind result_bind] in *. apply bind_ok in H as (after & Ha & H).
    rewrite Ha. cbn [mbind result_bind]. apply bind_ok in H as (before & Hbf & H). rewrite Hbf. cbn.
    destruct (row_appends _ _ _ _ _ _ _ _ Hp1 (table_some _ _ _ Ht) H) as [-> Hl].
    split_and!; try done. intros _. rewrite length_app. cbn. unfold p1 in Hl. cbn in Hl. lia.
  - (* DELETE *)
    apply bind_ok in H as (d2 & H & [= <- <-]). unfold delete_row in H. apply bind_ok in H as (t & Ht & H). rewrite Ht.
    unfold current_cursor in H. rewrite Hp1 in H. cbn [ok_or mbind result_bind] in *. apply bind_ok in H as (key_only & Hk & H).
    rewrite Hk. cbn [mbind result_bind]. apply bind_ok in H as (before & Hbf & H). rewrite Hbf. cbn.
    destruct (row_appends _ _ _ _ _ _ _ _ Hp1 (table_some _ _ _ Ht) H) as [-> Hl].
    split_and!; try done. intros _. rewrite length_app. cbn. unfold p1 in Hl. cbn in Hl. lia.
  - (* TYPE *)
    case_match; [done|]. case_match; [|done]. injection H as <- <-. split_and!; done.
Qed.

(** ** BEGIN and COMMIT *)
Lemma push_begin d final_lsn timestamp xid bytes d' out :
  dc_pending d = None → push d (MBegin final_lsn timestamp xid) bytes = Ok (d', out) →
  out = None ∧ d' = with_pending (Some (mkPending xid final_lsn timestamp bytes [])) d ∧ dc_previous_end d < final_lsn.
Proof.
  intros Hp H. unfold push, charge in H. rewrite Hp in H. cbn [mbind result_bind] in H. cbv zeta in H.
  apply bind_ok in H as (d1 & H & [= <- <-]). unfold begin in H. rewrite Hp in H. cbn [is_some is_none negb orb] in H.
  destruct (xid =? 0); [done|]. destruct (final_lsn =? 0); [done|]. destruct (final_lsn <=? dc_previous_end d) eqn:E; [done|].
  injection H as <-. split_and!; [done..|lia].
Qed.
Lemma begin_nested d p m bytes r :
  dc_pending d = Some p → (∃ a b c, m = MBegin a b c) → push d m bytes = Ok r → False.
Proof.
  intros Hp (a & b & c & ->) H. unfold push in H. apply bind_ok in H as (d1 & Hc & H).
  destruct (charge_open _ _ _ _ Hp Hc) as [-> _]. cbv zeta in H. apply bind_ok in H as (d2 & H & _). done.
Qed.
(** What COMMIT requires and publishes. *)
Lemma push_commit d p flags commit_lsn end_lsn timestamp bytes d' out :
  dc_pending d = Some p → push d (MCommit flags commit_lsn end_lsn timestamp) bytes = Ok (d', out) →
  flags = 0 ∧ commit_lsn = pd_final_lsn p ∧ timestamp = pd_timestamp p ∧ commit_lsn < end_lsn ∧ dc_previous_end d < end_lsn
  ∧ pd_bytes p + bytes ≤ dc_max_bytes d ∧ dc_pending d' = None ∧ dc_previous_end d' = end_lsn ∧ same_source d d'
  ∧ match out with
    | None => pd_rows p = []
    | Some vt => pd_rows p ≠ [] ∧ vt_transaction vt = transaction_of d p commit_lsn end_lsn
                 ∧ Validate.validate (vt_transaction vt) = Ok vt ∧ PgSource.validate vt = Ok ()
    end.
Proof.
  intros Hp H. unfold push in H. apply bind_ok in H as (d1 & Hc & H). destruct (charge_open _ _ _ _ Hp Hc) as [-> Hle].
  unfold commit in H. cbn [dc_pending with_pending ok_or mbind result_bind] in H.
  set (p1 := mkPending _ _ _ _ _) in H. destruct (_ || _) eqn:E; [done|]. rewrite !orb_false_iff, !negb_false_iff in E.
  destruct E as [[[[E1 E2] E3] E4] E5]. cbn in E1, E2, E3, E4, E5. cbv zeta in H.
  assert (flags = 0 ∧ commit_lsn = pd_final_lsn p ∧ timestamp = pd_timestamp p ∧ commit_lsn < end_lsn ∧ dc_previous_end d < end_lsn)
    as (-> & -> & -> & Hlt & He) by (split_and!; lia).
  case_bool_decide as Hrows.
  - injection H as <- <-. apply nil_length_inv in Hrows. by split_and!.
  - apply bind_ok in H as (vt & Hv & [= <- <-]). unfold validate_change_event in Hv.
    apply bind_ok in Hv as (v & Hv & H). apply bind_ok in H as ([] & Hs & [= <-]).
    destruct (Validate.validate (transaction_of (with_pending (Some p1) d) p1 (pd_final_lsn p) end_lsn)) as [v'|] eqn:E; [|done].
    injection Hv as <-.
    assert (vt_transaction v' = transaction_of (with_pending (Some p1) d) p1 (pd_final_lsn p) end_lsn) as Hvt.
    { unfold Validate.validate in E. repeat (apply bind_ok in E as ([] & _ & E)). by injection E as <-. }
    split_and!; try done. { by destruct (pd_rows p). } by rewrite Hvt.
Qed.
Lemma commit_alone d flags commit_lsn end_lsn timestamp bytes r :
  dc_pending d = None → push d (MCommit flags commit_lsn end_lsn timestamp) bytes = Ok r → False.
Proof. intros Hp H. unfold push, charge in H. rewrite Hp in H. cbn in H. unfold commit in H. by rewrite Hp in H. Qed.
(** Between transactions only relations and types pass. *)
Lemma push_idle d m bytes d' out :
  dc_pending d = None → boundary m = false → push d m bytes = Ok (d', out) →
  out = None ∧ dc_pending d' = None ∧ same_source d d' ∧ dc_previous_end d' = dc_previous_end d.
Proof.
  intros Hp Hb H. unfold push, charge in H. rewrite Hp in H. cbn [mbind result_bind] in H. cbv zeta in H.
  destruct m; try done.
  - apply bind_ok in H as (d2 & H & [= <- <-]). unfold relation in H. apply bind_ok in H as (t & _ & H).
    case_match; [|done]. by injection H as <-.
  - apply bind_ok in H as (d2 & H & _). unfold insert_row in H. apply bind_ok in H as (t & _ & H). unfold current_cursor in H.
    by rewrite Hp in H.
  - apply bind_ok in H as (d2 & H & _). unfold update_row in H. apply bind_ok in H as (t & _ & H). unfold current_cursor in H.
    by rewrite Hp in H.
  - apply bind_ok in H as (d2 & H & _). unfold delete_row in H. apply bind_ok in H as (t & _ & H). unfold current_cursor in H.
    by rewrite Hp in H.
  - case_match; [done|]. case_match; [|done]. by injection H as <- <-.
Qed.

(** ** The transaction under way *)
(** [pre] ends with a BEGIN, which arrived between transactions at the decoder [db], and
    the messages [mid] after it. *)
Definition pg_under_way (d0 : Decoder) (pre : list (Message * Z)) (outs : list ValidatedTransaction) (p : Pending)
    (db d1 : Decoder) (b0 : Z) (mid : list (Message * Z)) (d : Decoder) : Prop :=
  ∃ before,
    pre = before ++ (MBegin (pd_final_lsn p) (pd_timestamp p) (pd_xid p), b0) :: mid
    ∧ run d0 before = Ok (db, outs) ∧ dc_pending db = None
    ∧ push db (MBegin (pd_final_lsn p) (pd_timestamp p) (pd_xid p)) b0 = Ok (d1, None)
    ∧ Forall (λ a, boundary a.1 = false) mid ∧ run d1 mid = Ok (d, []).
Definition pg_explained (d0 : Decoder) (pre : list (Message * Z)) (outs : list ValidatedTransaction) (d : Decoder) : Prop :=
  same_source d0 d ∧
  match dc_pending d with
  | None => True
  | Some p => ∃ db d1 b0 mid,
      pg_under_way d0 pre outs p db d1 b0 mid d ∧ same_source d0 db ∧ dc_previous_end d = dc_previous_end db
      ∧ dc_previous_end db < pd_final_lsn p ∧ pd_rows p = contributions d1 mid ∧ pd_bytes p = b0 + wire_size mid
      ∧ (length (pd_rows p) ≤ MAX_ROWS)%nat
  end.

Lemma same_source_trans a b c : same_source a b → same_source b c → same_source a c.
Proof. unfold same_source. congruence. Qed.

Lemma run_explained d0 pre d outs : dc_pending d0 = None → run d0 pre = Ok (d, outs) → pg_explained d0 pre outs d.
Proof.
  intros H0. revert d outs. induction pre as [|a pre IH] using rev_ind; intros d outs H.
  { injection H as <- <-. unfold pg_explained. by rewrite H0. }
  apply pg_run_snoc in H as (d1 & o1 & o & Hr & Hp & ->). destruct (IH _ _ Hr) as [Hsrc He]. destruct a as [m bytes]. cbn in Hp.
  destruct (dc_pending d1) as [p|] eqn:Ep.
  - destruct (boundary m) eqn:Hb.
    + destruct m as [a b c|a b c e| | | | | | | |]; try done.
      * exfalso. eapply begin_nested; [exact Ep|by eexists _, _, _|exact Hp].
      * apply (push_commit _ _ _ _ _ _ _ _ _ Ep) in Hp as (_ & _ & _ & _ & _ & _ & Hn & _ & Hs & _).
        unfold pg_explained. rewrite Hn. split; [exact (same_source_trans _ _ _ Hsrc Hs)|done].
    + destruct (push_inside _ _ _ _ _ _ Ep Hb Hp) as (-> & Hs & Hpe & _ & Hp' & Hlen).
      destruct He as (db & db1 & b0 & mid & (before & -> & Hrb & Hidle & Hpush & Hmid & Hrm) & Hsb & Hend & Hlt & Hrows & Hbytes & Hmax).
      unfold pg_explained. rewrite Hp'. split; [exact (same_source_trans _ _ _ Hsrc Hs)|].
      exists db, db1, b0, (mid ++ [(m, bytes)]). split_and!; cbn; try done.
      * exists before. cbn. rewrite app_nil_r. split_and!; try done.
        -- by rewrite <- (assoc_L (++)).
        -- apply Forall_app. split; [done|]. by constructor.
        -- apply pg_run_snoc. exists d1, [], None. by rewrite Hrm.
      * congruence.
      * by rewrite (contributions_extend _ _ _ _ _ Hrm), Hrows.
      * rewrite wire_size_snoc, Hbytes. cbn. lia.
      * by apply Hlen.
  - destruct (boundary m) eqn:Hb.
    + destruct m as [a b c|a b c e| | | | | | | |]; try done.
      * destruct (push_begin _ _ _ _ _ _ _ Ep Hp) as (-> & -> & Hlt). unfold pg_explained. cbn. split; [done|].
        eexists d1, _, bytes, []. split_and!; cbn; try done; [|lia|unfold MAX_ROWS; lia].
        exists pre. cbn. rewrite app_nil_r. by split_and!.
      * exfalso. by eapply commit_alone.
    + destruct (push_idle _ _ _ _ _ Ep Hb Hp) as (-> & Hn & Hs & _). unfold pg_explained. rewrite Hn.
      split; [exact (same_source_trans _ _ _ Hsrc Hs)|done].
Qed.

(** What COMMIT publishes, with the state it was collected from. *)
Lemma commit_of_run d0 pre d outs p flags commit_lsn end_lsn timestamp bytes d' vt :
  pg_explained d0 pre outs d → dc_pending d = Some p →
  push d (MCommit flags commit_lsn end_lsn timestamp) bytes = Ok (d', Some vt) →
  tx_begin_cursor (vt_transaction vt) = cursor commit_lsn ∧ tx_commit_cursor (vt_transaction vt) = cursor end_lsn
  ∧ dc_previous_end d < commit_lsn < end_lsn ∧ dc_previous_end d' = end_lsn ∧ dc_pending d' = None ∧ same_source d0 d'.
Proof.
  intros [Hs He] Hp H. rewrite Hp in He. destruct He as (db & d1 & b0 & mid & _ & _ & Hend & Hlt & _).
  destruct (push_commit _ _ _ _ _ _ _ _ _ Hp H) as (_ & -> & _ & Hlt' & _ & _ & Hn & He' & Hs' & _ & Hvt & _).
  rewrite Hvt. split_and!; cbn; try done; [lia|exact (same_source_trans _ _ _ Hs Hs')].
Qed.

(** ** Source order *)
(** Disjoint ascending intervals above [low], the last ending at most at [high]. *)
Fixpoint pg_chain (low : Z) (spans : list (Z * Z)) (high : Z) : Prop :=
  match spans with
  | [] => low ≤ high
  | span :: spans => low < span.1 ∧ span.1 < span.2 ∧ pg_chain span.2 spans high
  end.
Definition spanned (span : Z * Z) (vt : ValidatedTransaction) : Prop :=
  tx_begin_cursor (vt_transaction vt) = cursor span.1 ∧ tx_commit_cursor (vt_transaction vt) = cursor span.2.
Lemma pg_chain_raise low spans high high' : pg_chain low spans high → high ≤ high' → pg_chain low spans high'.
Proof. revert low. induction spans as [|s spans IH]; intros low H Hle; cbn in *; [lia|]. destruct H as (?&?&?). eauto. Qed.
Lemma pg_chain_snoc low spans high a b : pg_chain low spans high → high < a → a < b → pg_chain low (spans ++ [(a, b)]) b.
Proof. revert low. induction spans as [|s spans IH]; intros low H Ha Hb; cbn in *; [lia|]. destruct H as (?&?&?). eauto. Qed.

(** A message that publishes nothing keeps the source and never lowers the end. *)
Lemma push_nothing d m bytes d' : push d m bytes = Ok (d', None) → same_source d d' ∧ dc_previous_end d ≤ dc_previous_end d'.
Proof.
  intros H. destruct (dc_pending d) as [p|] eqn:Ep, (boundary m) eqn:Hb.
  - destruct m as [a b c|a b c e| | | | | | | |]; try done.
    + exfalso. eapply begin_nested; [exact Ep|by eexists _, _, _|exact H].
    + destruct (push_commit _ _ _ _ _ _ _ _ _ Ep H) as (_ & _ & _ & _ & Hlt & _ & _ & He & Hs & _). split; [done|lia].
  - destruct (push_inside _ _ _ _ _ _ Ep Hb H) as (_ & Hs & -> & _). split; [done|lia].
  - destruct m as [a b c|a b c e| | | | | | | |]; try done.
    + destruct (push_begin _ _ _ _ _ _ _ Ep H) as (_ & -> & _). cbn. split; [done|lia].
    + exfalso. by eapply commit_alone.
  - destruct (push_idle _ _ _ _ _ Ep Hb H) as (_ & _ & Hs & ->). split; [done|lia].
Qed.
(** Only COMMIT publishes. *)
Lemma publishes_commit d m bytes d' vt :
  push d m bytes = Ok (d', Some vt) →
  ∃ p flags commit_lsn end_lsn timestamp, dc_pending d = Some p ∧ m = MCommit flags commit_lsn end_lsn timestamp.
Proof.
  intros H. destruct (dc_pending d) as [p|] eqn:Ep, (boundary m) eqn:Hb.
  - destruct m as [a b c|a b c e| | | | | | | |]; try done.
    + exfalso. eapply begin_nested; [exact Ep|by eexists _, _, _|exact H].
    + by eexists p, _, _, _, _.
  - by destruct (push_inside _ _ _ _ _ _ Ep Hb H) as (? & _).
  - destruct m as [a b c|a b c e| | | | | | | |]; try done.
    + by destruct (push_begin _ _ _ _ _ _ _ Ep H) as (? & _).
    + exfalso. by eapply commit_alone.
  - by destruct (push_idle _ _ _ _ _ Ep Hb H) as (? & _).
Qed.

Lemma run_spans d0 pre d outs :
  dc_pending d0 = None → run d0 pre = Ok (d, outs) →
  ∃ spans, Forall2 spanned spans outs ∧ pg_chain (dc_previous_end d0) spans (dc_previous_end d).
Proof.
  intros H0. revert d outs. induction pre as [|a pre IH] using rev_ind; intros d outs H.
  { injection H as <- <-. exists []. split; [constructor|]. cbn. lia. }
  apply pg_run_snoc in H as (d1 & o1 & o & Hr & Hp & ->). destruct (IH _ _ Hr) as (spans & Hf & Hc).
  destruct o as [vt|]; cbn [option_list].
  - destruct (publishes_commit _ _ _ _ _ Hp) as (p & flags & b & e & ts & Ep & Em). rewrite Em in Hp.
    destruct (commit_of_run _ _ _ _ _ _ _ _ _ _ _ _ (run_explained _ _ _ _ H0 Hr) Ep Hp) as (Hb & He & Hlt & Hend & _).
    exists (spans ++ [(b, e)]). split.
    + apply Forall2_app; [done|]. by repeat constructor.
    + rewrite Hend. eapply pg_chain_snoc; [exact Hc|lia..].
  - exists spans. rewrite app_nil_r. split; [done|]. destruct (push_nothing _ _ _ _ Hp) as [_ Hle]. by eapply pg_chain_raise.
Qed.

(** C27: what the PostgreSQL decoder publishes at COMMIT is exactly the transaction that
    BEGIN opened.  The messages since that BEGIN hold no other BEGIN or COMMIT; the
    transaction carries the source the decoder was opened with, the transaction number of
    BEGIN, the commit and end positions COMMIT repeats, and the rows of those messages, one
    for each INSERT, UPDATE and DELETE in their order, all placed at the end position.  It
    lies after everything committed before, stays within the row and wire-size limits, and
    passed both the event and the source contract. *)
Theorem pg_published_exact d0 pre d outs flags commit_lsn end_lsn timestamp bytes d' vt :
  dc_pending d0 = None → run d0 pre = Ok (d, outs) →
  push d (MCommit flags commit_lsn end_lsn timestamp) bytes = Ok (d', Some vt) →
  ∃ before xid b0 mid db d1,
    pre = before ++ (MBegin commit_lsn timestamp xid, b0) :: mid
    ∧ Forall (λ a, boundary a.1 = false) mid
    ∧ run d0 before = Ok (db, outs) ∧ push db (MBegin commit_lsn timestamp xid) b0 = Ok (d1, None)
    ∧ vt_transaction vt =
        mkTransaction (dc_source d0) ("pg:" +:+ show_nat xid +:+ ":" +:+ format_lsn end_lsn) (cursor commit_lsn) (cursor end_lsn)
          (row_at end_lsn <$> contributions d1 mid)
    ∧ (0 < length (contributions d1 mid) ≤ MAX_ROWS)%nat
    ∧ b0 + wire_size mid + bytes ≤ dc_max_bytes d0
    ∧ flags = 0 ∧ dc_previous_end db < commit_lsn < end_lsn
    ∧ Validate.validate (vt_transaction vt) = Ok vt ∧ PgSource.validate vt = Ok ()
    ∧ dc_pending d' = None ∧ dc_previous_end d' = end_lsn.
Proof.
  intros H0 Hr H. destruct (publishes_commit _ _ _ _ _ H) as (p & _ & _ & _ & _ & Ep & _).
  destruct (run_explained _ _ _ _ H0 Hr) as [Hs0 He]. injection Hs0 as Hsrc _ _ _ _ _ _ Hmax. rewrite Ep in He.
  destruct He as (db & d1 & b0 & mid & (before & Hpre & Hrb & _ & Hpush & Hmid & _) & _ & _ & Hlt & Hrows & Hbytes & Hlen).
  destruct (push_commit _ _ _ _ _ _ _ _ _ Ep H) as (-> & -> & -> & Hlt' & _ & Hle & Hn & Hend & _ & Hne & Hvt & Hv & Hs).
  exists before, (pd_xid p), b0, mid, db, d1. rewrite Hrows in Hne, Hlen.
  split_and!; try done; try lia.
  - rewrite Hvt. unfold transaction_of. by rewrite Hsrc, Hrows.
  - destruct (contributions d1 mid); [done|cbn; lia].
Qed.

(** ** The stream *)
(** The WAL messages among what the connection brought. *)
Definition wal_message (a : Arrival) : option (Message * Z) :=
  match a with
  | Copy f => if bool_decide (head (fr_data f) = Some "w"%char) then m ← fr_message f; Some (m, Z.of_nat (length (fr_data f))) else None
  | Broken => None
  end.
Definition wal (l : list Arrival) : list (Message * Z) := omap wal_message l.

Lemma wal_app a b : wal (a ++ b) = wal a ++ wal b.
Proof. apply omap_app. Qed.
Lemma pg_run_app d a d1 o1 b : run d a = Ok (d1, o1) → run d (a ++ b) = let? r := run d1 b in Ok (r.1, o1 ++ r.2).
Proof.
  revert d o1. induction a as [|x a IH]; intros d o1 H; cbn in *.
  - injection H as <- <-. destruct (run d b) as [[]|]; done.
  - apply bind_ok in H as ([d2 o2] & H & Hr). apply bind_ok in Hr as ([d3 o3] & Hr & [= <- <-]). rewrite H. cbn in *.
    rewrite (IH _ _ Hr). destruct (run _ b) as [[]|]; cbn; [|done]. by rewrite (assoc_L (++)).
Qed.

(** What handling arrivals leaves alone: the acknowledged position, which is all that is
    reported meanwhile. *)
Definition reports_only (s s' : Replication) : Prop :=
  rp_acknowledged s' = rp_acknowledged s ∧ ∃ n, rp_sent s' = rp_sent s ++ replicate n (rp_acknowledged s).
Lemma reports_only_refl s : reports_only s s.
Proof. split; [done|]. exists 0%nat. by rewrite app_nil_r. Qed.
Lemma reports_only_trans a b c : reports_only a b → reports_only b c → reports_only a c.
Proof.
  intros [H1 [n Hn]] [H2 [m Hm]]. split; [congruence|]. exists (n + m)%nat.
  by rewrite Hm, Hn, H1, replicate_add, (assoc_L (++)).
Qed.
Lemma feedback_when_reports due s sent s' r :
  feedback_when due s sent = (s', r) →
  reports_only s s' ∧ rp_failed s' = rp_failed s ∧ rp_decoder s' = rp_decoder s ∧ rp_delivered s' = rp_delivered s.
Proof.
  unfold feedback_when, feedback, reports_only. destruct due, sent; intros [= <- <-]; cbn; split_and!; try done.
  1: by exists 1%nat. all: exists 0%nat; by rewrite app_nil_r.
Qed.

(** One frame: an error leaves the decoder, anything else is the run of its message. *)
Lemma read_frame_run s f s' r :
  read_frame s f = (s', r) →
  reports_only s s' ∧ rp_failed s' = rp_failed s
  ∧ match r with
    | Ok o => run (rp_decoder s) (wal [Copy f]) = Ok (rp_decoder s', option_list o)
              ∧ rp_delivered s' = match o with Some tx => Some (tx_commit_cursor (vt_transaction tx)) | None => rp_delivered s end
    | Err _ => rp_decoder s' = rp_decoder s ∧ rp_delivered s' = rp_delivered s
    end.
Proof.
  unfold read_frame, wal. cbn [omap list_omap wal_message]. destruct (head (fr_data f)) as [kind|] eqn:Ek.
  2: { intros [= <- <-]. split; [apply reports_only_refl|done]. }
  case_match. { intros [= <- <-]. split; [apply reports_only_refl|done]. }
  destruct (decide (kind = "k"%char)) as [->|Hk].
  - rewrite bool_decide_eq_true_2 by done. rewrite bool_decide_eq_false_2 by done. case_match.
    2: { intros [= <- <-]. split; [apply reports_only_refl|done]. }
    destruct (feedback_when _ s _) as [s1 reported] eqn:Ef. intros [= <- <-].
    destruct (feedback_when_reports _ _ _ _ _ Ef) as (Hr & Hf & Hd & Hdl). split; [done|]. split; [done|].
    destruct reported; cbn; [by rewrite Hd|done].
  - rewrite (bool_decide_eq_false_2 (kind = "k"%char)) by done. destruct (negb _ || _) eqn:Ew.
    { intros [= <- <-]. split; [apply reports_only_refl|done]. }
    apply orb_false_iff in Ew as [Ew _]. apply negb_false_iff, bool_decide_eq_true in Ew as ->.
    rewrite (bool_decide_eq_true_2 (Some "w"%char = Some "w"%char)) by done.
    destruct (fr_message f) as [m|]. 2: { intros [= <- <-]. split; [apply reports_only_refl|done]. }
    unfold read_message. destruct (feedback_when _ s _) as [s1 reported] eqn:Ef.
    destruct (feedback_when_reports _ _ _ _ _ Ef) as (Hr & Hf & Hd & Hdl).
    destruct reported; [|intros [= <- <-]; done]. rewrite Hd. cbn.
    destruct (push (rp_decoder s) m _) as [[d [tx|]]|e]; intros [= <- <-]; cbn; done.
Qed.

(** The arrivals one call consumes are run through the decoder, up to the failing one. *)
Lemma read_transaction_run arrivals s :
  match read_transaction s arrivals with
  | Waiting s' =>
      run (rp_decoder s) (wal arrivals) = Ok (rp_decoder s', []) ∧ reports_only s s'
      ∧ rp_failed s' = rp_failed s ∧ rp_delivered s' = rp_delivered s
  | Delivered tx s' rest =>
      ∃ used, arrivals = used ++ rest ∧ run (rp_decoder s) (wal used) = Ok (rp_decoder s', [tx]) ∧ reports_only s s'
        ∧ rp_failed s' = rp_failed s ∧ rp_delivered s' = Some (tx_commit_cursor (vt_transaction tx))
  | Failed _ s' rest =>
      ∃ used l, arrivals = used ++ rest ∧ l `prefix_of` wal used ∧ run (rp_decoder s) l = Ok (rp_decoder s', []) ∧ reports_only s s'
        ∧ rp_failed s' = true ∧ rp_delivered s' = rp_delivered s
  end.
Proof.
  revert s. induction arrivals as [|[f|] arrivals IH]; intros s; cbn [read_transaction].
  - split; [done|]. split; [apply reports_only_refl|done].
  - destruct (read_frame s f) as [s1 r] eqn:Ef. destruct (read_frame_run _ _ _ _ Ef) as (Hr & Hf & Hx).
    destruct r as [[tx|]|e].
    + destruct Hx as [Hx Hd]. by exists [Copy f].
    + destruct Hx as [Hx Hd]. specialize (IH s1). pose proof (λ l, pg_run_app _ _ _ _ (wal l) Hx) as Happ.
      setoid_rewrite <- wal_app in Happ. cbn [app] in Happ.
      destruct (read_transaction s1 arrivals) as [s2|tx s2 rest|e s2 rest].
      * destruct IH as (H1 & H2 & H3 & H4). rewrite (Happ arrivals), H1. cbn.
        split_and!; [done|by eapply reports_only_trans|congruence..].
      * destruct IH as (used & -> & H1 & H2 & H3 & H4). exists (Copy f :: used). rewrite (Happ used), H1.
        split_and!; [done..|by eapply reports_only_trans|congruence|done].
      * destruct IH as (used & l & -> & Hl & H1 & H2 & H3 & H4). exists (Copy f :: used), (wal [Copy f] ++ l).
        rewrite (pg_run_app _ _ _ _ _ Hx), H1. split_and!; [done| |done|by eapply reports_only_trans|done|congruence].
        change (Copy f :: used) with ([Copy f] ++ used). rewrite wal_app. by apply prefix_app.
    + destruct Hx as [Hd Hdl]. exists [Copy f], []. cbn. rewrite Hd. split_and!; [done|by eexists|done|exact Hr|done|done].
  - exists [Broken], []. cbn. split_and!; [done|by eexists|done|exact (reports_only_refl s)|done..].
Qed.

(** ** A stream in use *)
(** What a caller and the connection can do from [opened]: calls of [next_transaction]
    over what arrives, and acknowledgements.  [got] is what arrived and was consumed,
    [out] what was delivered, [asked] what the caller acknowledged. *)
Inductive served (d0 : Decoder) (start : Z) : Replication → list Arrival → list ValidatedTransaction → list ValidatedTransaction → Prop :=
| served_opened : served d0 start (opened d0 start) [] [] []
| served_waiting s got out asked arrivals s' :
    served d0 start s got out asked → next_transaction s arrivals = Waiting s' →
    served d0 start s' (got ++ arrivals) out asked
| served_delivered s got out asked used tx s' rest :
    served d0 start s got out asked → next_transaction s (used ++ rest) = Delivered tx s' rest →
    served d0 start s' (got ++ used) (out ++ [tx]) asked
| served_failed s got out asked used message s' rest :
    served d0 start s got out asked → next_transaction s (used ++ rest) = Failed message s' rest →
    served d0 start s' (got ++ used) out asked
| served_acknowledged s got out asked tx sent s' r :
    served d0 start s got out asked → acknowledge s tx sent = (s', r) →
    served d0 start s' got out (asked ++ [tx]).

(** A failed stream only fails; acknowledging leaves everything but the position. *)
Lemma next_failed s arrivals : rp_failed s = true → ∃ e, next_transaction s arrivals = Failed e s arrivals.
Proof. intros H. unfold next_transaction. rewrite H. by eexists. Qed.
Lemma next_open s arrivals : rp_failed s = false → next_transaction s arrivals = read_transaction s arrivals.
Proof. intros H. unfold next_transaction. by rewrite H. Qed.
Lemma acknowledge_cases s tx sent s' r :
  acknowledge s tx sent = (s', r) →
  s' = s ∨
  ∃ lsn, rp_failed s = false ∧ tx_source (vt_transaction tx) = dc_source (rp_decoder s)
    ∧ rp_delivered s = Some (tx_commit_cursor (vt_transaction tx))
    ∧ parse_lsn (cur_value (tx_commit_cursor (vt_transaction tx))) = Some lsn ∧ rp_acknowledged s ≤ lsn
    ∧ rp_decoder s' = rp_decoder s ∧ rp_failed s' = false ∧ rp_delivered s' = rp_delivered s ∧ rp_acknowledged s' = lsn
    ∧ rp_sent s' = rp_sent s ++ if sent then [lsn] else [].
Proof.
  unfold acknowledge. cbv zeta. destruct (_ || _) eqn:E; [intros [= <- _]; by left|].
  rewrite !orb_false_iff, !negb_false_iff, !bool_decide_eq_true in E. destruct E as [[Hf Hs] Hd].
  destruct (parse_lsn _) as [lsn|] eqn:El; [|intros [= <- _]; by left].
  destruct (lsn <? rp_acknowledged s) eqn:E; [intros [= <- _]; by left|]. intros H. right. exists lsn.
  unfold feedback in H. destruct sent; injection H as <- _; cbn; rewrite ?app_nil_r; split_and!; try done; lia.
Qed.

(** The state of a stream in use, given what it was opened with. *)
Definition pg_accounted (d0 : Decoder) (s : Replication) (out asked : list ValidatedTransaction) (x : Z) : Prop :=
  x = 0 ∨ ∃ tx vt, tx ∈ asked ∧ vt ∈ out ∧ tx_source (vt_transaction tx) = dc_source d0
    ∧ tx_commit_cursor (vt_transaction tx) = tx_commit_cursor (vt_transaction vt)
    ∧ parse_lsn (cur_value (tx_commit_cursor (vt_transaction vt))) = Some x.
Definition pg_serving (d0 : Decoder) (s : Replication) (got : list Arrival) (out asked : list ValidatedTransaction) : Prop :=
  (∃ l, l `prefix_of` wal got ∧ (rp_failed s = false → l = wal got) ∧ run d0 l = Ok (rp_decoder s, out))
  ∧ dc_source (rp_decoder s) = dc_source d0
  ∧ (rp_delivered s = None ∨ ∃ vt, vt ∈ out ∧ rp_delivered s = Some (tx_commit_cursor (vt_transaction vt)))
  ∧ pg_accounted d0 s out asked (rp_acknowledged s)
  ∧ Forall (λ x, x ≤ rp_acknowledged s ∧ pg_accounted d0 s out asked x) (rp_sent s)
  ∧ StronglySorted Z.le (rp_sent s).

Lemma sorted_snoc (l : list Z) x : StronglySorted Z.le l → Forall (λ y, y ≤ x) l → StronglySorted Z.le (l ++ [x]).
Proof.
  induction 1 as [|y l Hl IH Hy]; cbn; [by repeat constructor|]. intros [Hx Hf]%Forall_cons. constructor; [by apply IH|].
  apply Forall_app. split; [done|]. by repeat constructor.
Qed.
Lemma sorted_replicate n (l : list Z) x : StronglySorted Z.le l → Forall (λ y, y ≤ x) l → StronglySorted Z.le (l ++ replicate n x).
Proof.
  revert l. induction n as [|n IH]; intros l Hl Hx; cbn; [by rewrite app_nil_r|].
  change (x :: replicate n x) with ([x] ++ replicate n x). rewrite (assoc_L (++)). apply IH; [by apply sorted_snoc|].
  apply Forall_app. split; [done|]. by repeat constructor.
Qed.
Lemma accounted_more d0 s s' out out' asked asked' x :
  (∀ v, v ∈ out → v ∈ out') → (∀ v, v ∈ asked → v ∈ asked') → pg_accounted d0 s out asked x → pg_accounted d0 s' out' asked' x.
Proof. intros Ho Ha [->|(tx & vt & H1 & H2 & H3)]; [by left|]. right. exists tx, vt. auto. Qed.
Lemma same_source_run d0 l d out : dc_pending d0 = None → run d0 l = Ok (d, out) → same_source d0 d.
Proof. intros H0 H. by destruct (run_explained _ _ _ _ H0 H) as [? _]. Qed.

(** Handling arrivals keeps it: only the acknowledged position is reported. *)
Lemma serving_read d0 s got out asked s' used l more :
  dc_pending d0 = None → pg_serving d0 s got out asked → rp_failed s = false →
  run (rp_decoder s) l = Ok (rp_decoder s', more) → l `prefix_of` wal used → (rp_failed s' = false → l = wal used) →
  reports_only s s' → (rp_delivered s' = rp_delivered s ∨ ∃ vt, vt ∈ more ∧ rp_delivered s' = Some (tx_commit_cursor (vt_transaction vt))) →
  pg_serving d0 s' (got ++ used) (out ++ more) asked.
Proof.
  intros H0 ((l0 & _ & Hl0 & Hr0) & Hsrc & Hdl & Hack & Hsent & Hsorted) Hf Hr Hpre Hall [Ha [n Hn]] Hd.
  rewrite (Hl0 Hf) in Hr0. pose proof (pg_run_app _ _ _ _ l Hr0) as Happ. rewrite Hr in Happ. cbn in Happ.
  assert (∀ v, v ∈ out → v ∈ out ++ more) as Hmore by (intros; apply elem_of_app; auto).
  unfold pg_serving. rewrite Ha, Hn. split_and!.
  - exists (wal got ++ l). rewrite wal_app. split_and!; [by apply prefix_app| |done]. intros E. by rewrite (Hall E).
  - pose proof (same_source_run _ _ _ _ H0 Happ) as Hs. by injection Hs.
  - destruct Hd as [->|(vt & Hv & ->)].
    + destruct Hdl as [?|(vt & ? & ?)]; [by left|]. right. exists vt. auto.
    + right. exists vt. split; [|done]. apply elem_of_app. by right.
  - by eapply accounted_more; [exact Hmore|auto|exact Hack].
  - apply Forall_app. split.
    + eapply Forall_impl; [exact Hsent|]. intros x [Hx Hacc]. split; [done|]. by eapply accounted_more; [exact Hmore|auto|exact Hacc].
    + apply Forall_replicate. split; [done|]. by eapply accounted_more; [exact Hmore|auto|exact Hack].
  - apply sorted_replicate; [done|]. eapply Forall_impl; [exact Hsent|]. by intros x [? _].
Qed.
Lemma serving_acknowledge d0 s got out asked tx sent s' r :
  pg_serving d0 s got out asked → acknowledge s tx sent = (s', r) → pg_serving d0 s' got out (asked ++ [tx]).
Proof.
  intros ((l & Hl & Hall & Hr) & Hsrc & Hdl & Hack & Hsent & Hsorted) H.
  assert (∀ v, v ∈ asked → v ∈ asked ++ [tx]) as Hmore by (intros; apply elem_of_app; auto).
  assert (Forall (λ x, x ≤ rp_acknowledged s ∧ pg_accounted d0 s' out (asked ++ [tx]) x) (rp_sent s)) as Hs'.
  { eapply Forall_impl; [exact Hsent|]. intros x [Hx Hacc]. split; [done|]. by eapply accounted_more; [|exact Hmore|exact Hacc]. }
  destruct (acknowledge_cases _ _ _ _ _ H) as [->|(lsn & Hf & Hs & Hd & Hp & Hle & Hdec & Hf' & Hd' & Ha & Hsn)].
  - split_and!; try done; [by exists l|]. by eapply accounted_more; [|exact Hmore|exact Hack].
  - assert (pg_accounted d0 s' out (asked ++ [tx]) lsn) as Hnew.
    { right. destruct Hdl as [Hdl|(vt & Hv & Hdl)]; [congruence|]. exists tx, vt.
      assert (tx_commit_cursor (vt_transaction tx) = tx_commit_cursor (vt_transaction vt)) as E by congruence.
      rewrite <- E. split_and!; try done; [|congruence]. apply elem_of_app. right. by apply list_elem_of_singleton. }
    unfold pg_serving. rewrite Hdec, Hd', Ha, Hsn. split_and!; try done.
    + exists l. split_and!; [done| |done]. intros _. by apply Hall.
    + apply Forall_app. split.
      * eapply Forall_impl; [exact Hs'|]. intros x [Hx Hacc]. split; [lia|done].
      * destruct sent; [|constructor]. constructor; [split; [lia|done]|constructor].
    + destruct sent; [|by rewrite app_nil_r]. apply sorted_snoc; [done|]. eapply Forall_impl; [exact Hsent|]. intros x [? _]. lia.
Qed.
Lemma served_serving d0 start s got out asked :
  dc_pending d0 = None → served d0 start s got out asked → pg_serving d0 s got out asked.
Proof.
  intros H0. induction 1 as [|s got out asked arrivals s' _ IH H|s got out asked used tx s' rest _ IH H
    |s got out asked used message s' rest _ IH H|s got out asked tx sent s' r _ IH H].
  - split_and!; cbn; try done; [|by left|by left|constructor]. exists []. by split_and!; [eexists| |].
  - destruct (rp_failed s) eqn:Ef. { destruct (next_failed s arrivals Ef) as [e Hx]. by rewrite Hx in H. }
    rewrite (next_open _ _ Ef) in H. pose proof (read_transaction_run arrivals s) as Hx. rewrite H in Hx.
    destruct Hx as (Hr & Hrep & _ & Hd). rewrite <- (app_nil_r out).
    by eapply serving_read; [done|exact IH|done|exact Hr|done|done|done|left].
  - destruct (rp_failed s) eqn:Ef. { destruct (next_failed s (used ++ rest) Ef) as [e Hx]. by rewrite Hx in H. }
    rewrite (next_open _ _ Ef) in H. pose proof (read_transaction_run (used ++ rest) s) as Hx. rewrite H in Hx.
    destruct Hx as (used' & ->%app_inv_tail & Hr & Hrep & _ & Hd).
    eapply serving_read; [done|exact IH|done|exact Hr|done|done|done|right]. exists tx. split; [|done]. by apply list_elem_of_singleton.
  - destruct (rp_failed s) eqn:Ef.
    + destruct (next_failed s (used ++ rest) Ef) as [e Hx]. rewrite Hx in H. injection H as _ <- E.
      destruct IH as ((l & Hl & Hall & Hr) & IH). split; [|done]. exists l. split_and!; [|congruence|done].
      rewrite wal_app. by apply prefix_app_r.
    + rewrite (next_open _ _ Ef) in H. pose proof (read_transaction_run (used ++ rest) s) as Hx. rewrite H in Hx.
      destruct Hx as (used' & l & ->%app_inv_tail & Hl & Hr & Hrep & Hf & Hd). rewrite <- (app_nil_r out).
      by eapply serving_read; [done|exact IH|done|exact Hr|done|congruence|done|left].
  - by eapply serving_acknowledge.
Qed.

(** C28: what the PostgreSQL stream delivers is what its decoder publishes over the WAL
    messages that arrived, all of them while no call has failed and a prefix of them
    afterwards, whatever the sequence of calls and acknowledgements; and the transactions
    follow the source: each begins after the one before ended, at positions that only grow,
    all above the position the decoder started from, so that none comes twice and none
    overlaps another. *)
Theorem pg_stream_exact d0 start s got out asked :
  dc_pending d0 = None → served d0 start s got out asked →
  ∃ l spans,
    l `prefix_of` wal got ∧ (rp_failed s = false → l = wal got) ∧ run d0 l = Ok (rp_decoder s, out)
    ∧ Forall2 spanned spans out ∧ pg_chain (dc_previous_end d0) spans (dc_previous_end (rp_decoder s)).
Proof.
  intros H0 H. destruct (served_serving _ _ _ _ _ _ H0 H) as [(l & Hl & Hall & Hr) _].
  destruct (run_spans _ _ _ _ H0 Hr) as (spans & Hf & Hc). by exists l, spans.
Qed.

(** C29: the PostgreSQL server is only told positions that were confirmed.  Over any use of a
    stream, every position reported to the server is zero or the commit position of a
    transaction the stream had delivered and the caller acknowledged; reports never go
    back and never pass the acknowledged position. *)
Theorem reported_only_acknowledged d0 start s got out asked :
  dc_pending d0 = None → served d0 start s got out asked →
  Forall (λ x, x ≤ rp_acknowledged s ∧ pg_accounted d0 s out asked x) (rp_sent s) ∧ StronglySorted Z.le (rp_sent s).
Proof. intros H0 H. destruct (served_serving _ _ _ _ _ _ H0 H) as (_ & _ & _ & _ & Hx & Hy). done. Qed.
End capture.
End Spec.

(** ** An instance: a transaction of three rows, delivered and acknowledged *)
Module Example17.
Import Spec.
#[local] Existing Instance Rfc4648.base64.
#[local] Existing Instance SumDigest.sha256.
#[local] Existing Instance PgType.Example16.json.
#[local] Instance mapping_json : MappingJson := {|
  evidence_json _ _ _ _ _ := []; source_evidence_json _ := []; definition_text d := td_name d; closure_text _ := ""%string
|}.
#[local] Instance serde_json : SerdeJson := {| serde_from_str _ := None |}.
#[local] Instance evidence_json : EvidenceJson := {|
  evidence_value _ := None; closure_from_str _ := None; definition_is _ _ := false
|}.
(** Hexadecimal digits, most significant first. *)
Definition hex_digit (n : Z) : byte := byte_of (if n <? 10 then 48 + n else 55 + n).
Fixpoint hex_digits (fuel : nat) (n : Z) : list byte :=
  match fuel with
  | O => []
  | S fuel => (if n <? 16 then [] else hex_digits fuel (n / 16)) ++ [hex_digit (n mod 16)]
  end.
#[local] Instance walstream : Walstream := {|
  format_lsn x := of_bytes (hex_digits 8 (x / 2 ^ 32)) +:+ "/" +:+ of_bytes (hex_digits 8 (x mod 2 ^ 32));
  parse_lsn text :=
    parts ← split_once "/" text;
    high ← parse_hex_u64 parts.1;
    low ← parse_hex_u64 parts.2;
    Some (high * 2 ^ 32 + low)
|}.

Definition column (name : string) (oid : Z) (native : string) (key : option Z) : Column :=
  mkCatalogColumn name oid (-1) native "pg_catalog" "" "" "" "" "" false false key.
Definition items : Table :=
  mkTable 16500 "app" "item" "d" (sha256_hex [])
    [column "id" 23 "integer" (Some 0); column "note" 25 "text" None].
Definition d0 : Decoder :=
  mkDecoder (source_of 15 150004 "7000000000000000001" "1" 16384 "shop") (mkBuild "postgresql" "community" "15.4" "x86_64") "C" "shop"
    {[16500 := items]} ∅ (mkCatalog [builtin 23 "pg_catalog" "int4"; builtin 25 "pg_catalog" "text"] []) [] None 0 1000.
Definition text (s : string) : ColumnData := mkData "t" (sbytes s).
Definition null : ColumnData := mkData "n" [].
Definition sized (m : Message) : Message * Z := (m, 50).
Definition pre : list (Message * Z) := sized <$>
  [MRelation 16500 "app" "item" "d" [mkRelationColumn "id" 23 (-1) true; mkRelationColumn "note" 25 (-1) false];
   MBegin 0x1000000A0 745000000000000 700;
   MInsert 16500 [text "1"; text "a"];
   MUpdate 16500 None [text "1"; null] None;
   MDelete 16500 [text "1"; null] "K"].
Definition commit17 : Message := MCommit 0 0x1000000A0 0x1000000D0 745000000000000.
Definition shown (vt : ValidatedTransaction) : string * list Operation :=
  (tx_id (vt_transaction vt), chg_operation <$> tx_changes (vt_transaction vt)).

Example pg_published_exact_witness :
  match run d0 pre with
  | Ok (d, outs) =>
      match push d commit17 50 with
      | Ok (_, Some vt) => outs = [] ∧ shown vt = ("pg:700:1/D0"%string, [Insert; Update; Delete]) ∧ PgSource.validate vt = Ok ()
      | _ => False
      end
  | Err _ => False
  end.
Proof.
  destruct (run d0 pre) as [[d outs]|e] eqn:Er; [|by vm_compute in Er].
  destruct (push d commit17 50) as [[d' [vt|]]|e] eqn:Ep.
  2, 3: exfalso; vm_compute in Er; injection Er as <- <-; by vm_compute in Ep.
  destruct (pg_published_exact d0 pre d outs _ _ _ _ _ d' vt eq_refl Er Ep) as (before & xid & b0 & mid & db & d1 & H).
  split; [by vm_compute in Er; injection Er as <- <-|]. split; [|apply H].
  vm_compute in Er. injection Er as <- <-. vm_compute in Ep. by injection Ep as <- <-.
Defined.

(** The same messages as frames of a stream, the acknowledgement, and a keepalive. *)
Definition xlog (m : Message) : Arrival := Copy (mkFrame (replicate 50 "w"%char) (Some m) None false false).
Definition keepalive : Arrival := Copy (mkFrame ["k"%char] None (Some true) false true).
Definition frames : list Arrival := xlog <$> ((fst <$> pre) ++ [commit17]).
Definition delivered_by (p : Polled) : list ValidatedTransaction := match p with Delivered tx _ _ => [tx] | _ => [] end.
Definition state_of (p : Polled) : Replication := match p with Delivered _ s _ | Waiting s | Failed _ s _ => s end.
Definition first_call : Polled := next_transaction (opened d0 0) (frames ++ []).
Definition acknowledged17 : Replication :=
  match first_call with Delivered tx s _ => (acknowledge s tx true).1 | _ => opened d0 0 end.
Definition last17 : Replication := state_of (next_transaction acknowledged17 [keepalive]).

Lemma served17 :
  served d0 0 last17 ((([] ++ frames) ++ [keepalive])) ([] ++ delivered_by first_call) ([] ++ delivered_by first_call).
Proof.
  assert (∃ tx s, first_call = Delivered tx s []) as (tx & s & E).
  { destruct first_call as [s|tx s rest|m s rest] eqn:E; vm_compute in E; [done| |done]. injection E as <- <- <-. by eexists _, _. }
  assert (next_transaction acknowledged17 [keepalive] = Waiting last17) as Hk by (by vm_compute).
  eapply served_waiting; [|exact Hk]. unfold acknowledged17, delivered_by. rewrite E.
  eapply (served_acknowledged _ _ s _ _ _ tx true).
  - exact (served_delivered _ _ _ _ _ _ frames tx s [] (served_opened _ _) E).
  - exact (surjective_pairing (acknowledge s tx true)).
Qed.
Example pg_stream_exact_witness :
  (shown <$> delivered_by first_call) = [("pg:700:1/D0"%string, [Insert; Update; Delete])] ∧ rp_failed last17 = false
  ∧ ∃ l spans, l = wal (frames ++ [keepalive]) ∧ run d0 l = Ok (rp_decoder last17, delivered_by first_call)
    ∧ Forall2 spanned spans (delivered_by first_call).
Proof.
  assert (rp_failed last17 = false) as Hf by (by vm_compute).
  destruct (pg_stream_exact d0 0 last17 _ _ _ eq_refl served17) as (l & spans & _ & Hall & Hr & Hs & _).
  split; [by vm_compute|]. split; [done|]. exists l, spans. split; [by apply Hall|]. by split.
Defined.
Example reported_only_acknowledged_witness :
  rp_sent last17 = [0x1000000D0; 0x1000000D0] ∧ pg_accounted d0 last17 (delivered_by first_call) (delivered_by first_call) 0x1000000D0.
Proof.
  assert (rp_sent last17 = [0x1000000D0; 0x1000000D0]) as Hs by (by vm_compute).
  destruct (reported_only_acknowledged d0 0 last17 _ _ _ eq_refl served17) as [Hf _].
  rewrite Hs in Hf. apply Forall_cons in Hf as [[_ Hx] _]. by split.
Defined.
End Example17.
