(* ===== verification/PgLoadSpec.v ===== *)
(** * Properties of the loaded PostgreSQL catalog and of the evidence of captured values

    A catalog that loads is checked ([load_checked]): its definitions carry their digests
    and every table of the publication has a primary key, a replica identity the decoder
    understands and columns with their definition, closure and digests.  From there to
    the other end: the text a stream captures for a column of such a catalog passes the
    representation check of the source contract ([captured_evidence_accepted]). *)
From S2P Require Import Prelude Text Utf8 Codec Model Representation Validate LogicalTypes MyType PgCatalog PgCatalogSpec PgType PgLoad PgDecode PgSource PgCapture PgCaptureSpec MyDecodeSpec.

Module Spec.
(** ** The loaded catalog *)
Section load.
Context `{SHA : Sha256} `{CJ : CatalogJson} `{MJ : MappingJson}.

Definition digested (d : SourceTypeDefinition) : Prop := td_definition_digest d = expected_definition_digest d.
Definition column_checked (version : string) (catalog : SourceTypeCatalog) (c : Column) : Prop :=
  0 ≤ cc_oid c ≤ u32_max ∧
  ∃ d cl m,
    find_oid (cat_types catalog) (cc_oid c) = Some d
    ∧ cc_type_schema c = td_schema d ∧ cc_type_name c = td_name d
    ∧ cc_type_definition_digest c = td_definition_digest d ∧ cc_type_definition_evidence c = definition_text d
    ∧ definition_closure catalog (cc_oid c) = Ok cl
    ∧ cc_type_definition_closure_evidence c = closure_text cl ∧ cc_type_definition_closure_digest c = closure_digest cl
    ∧ source_type_mapping_with_catalog_for_version version (cc_native_type c) catalog = Ok m
    ∧ cc_representation_only c = captures_source_representation catalog (cc_oid c) (sm_logical_type m)
    ∧ cc_representation_capture_allowed c = cc_representation_only c.
Definition table_checked (version : string) (catalog : SourceTypeCatalog) (t : Table) : Prop :=
  0 ≤ tb_oid t ≤ u32_max ∧ tb_identity t ∈ ["d"; "f"]%char ∧ tb_source_type_catalog_digest t = evidence_digest catalog
  ∧ Forall (column_checked version catalog) (tb_columns t) ∧ (∃ c, c ∈ tb_columns t ∧ is_Some (cc_key c)).

Lemma u32_of_ok z n : u32_of z = Ok n → n = z ∧ 0 ≤ n ≤ u32_max.
Proof. unfold u32_of. destruct (in_range 0 u32_max z) eqn:E; [|done]. intros [= <-]. unfold in_range in E. split; [done|lia]. Qed.
Lemma finalized_digested d : digested (finalized d).
Proof. done. Qed.
Lemma type_definition_digested row b d b' : type_definition row b = Ok (d, b') → digested d.
Proof.
  unfold type_definition. intros H. apply bind_ok in H as (oid & _ & H). apply bind_ok in H as (element & _ & H). cbv zeta in H.
  repeat match type of H with
  | (if ?c then _ else _) = _ => destruct c
  | (let? _ := _ in _) = _ => apply bind_ok in H as (? & _ & H)
  | match ?o with Some _ => _ | None => _ end = _ => destruct o
  | (let '(_, _) := ?p in _) = _ => destruct p
  end; try done; injection H as <- _; apply finalized_digested.
Qed.
Lemma type_definitions_digested rows b l : type_definitions rows b = Ok l → Forall digested l.
Proof.
  revert b l. induction rows as [|row rows IH]; intros b l H; cbn in H; [by injection H as <-|].
  apply bind_ok in H as ([d b'] & Hd & H). apply bind_ok in H as (rest & Hr & [= <-]).
  constructor; [by eapply type_definition_digested|by eapply IH].
Qed.
Lemma directory_digested dir catalog : source_type_catalog dir = Ok catalog → Forall digested (cat_types catalog).
Proof.
  unfold source_type_catalog. intros H.
  repeat match type of H with (let? _ := _ in _) = _ => apply bind_ok in H as (? & ? & H) end.
  injection H as <-. cbn. by eapply type_definitions_digested.
Qed.

Lemma load_column_checked version catalog row c : load_column version catalog row = Ok c → column_checked version catalog c.
Proof.
  unfold load_column. intros H. apply bind_ok in H as (oid & Ho & H). apply u32_of_ok in Ho as [-> Ho].
  apply bind_ok in H as (d & Hd & H). apply ok_or_ok in Hd. apply bind_ok in H as (m & Hm & H). cbv zeta in H.
  apply bind_ok in H as (cl & Hcl & H). apply bind_ok in H as ([] & _ & H). apply bind_ok in H as (key & _ & [= <-]).
  destruct (source_type_mapping_with_catalog_for_version _ _ _) as [m'|] eqn:Em; [|done]. injection Hm as <-.
  split; [done|]. by exists d, cl, m'.
Qed.
Lemma load_table_checked version catalog dir row t :
  load_table version catalog dir row = Ok t → tb_oid t = rr_oid row ∧ relation_supported row = true ∧ table_checked version catalog t.
Proof.
  unfold load_table. intros H. apply bind_ok in H as (oid & Ho & H). apply u32_of_ok in Ho as [-> Ho].
  apply bind_ok in H as ([] & Hs%ensure_ok & H). apply bind_ok in H as (rows & _ & H).
  apply bind_ok in H as (columns & Hc & H). apply bind_ok in H as ([] & He%ensure_ok & [= <-]). cbn.
  split; [done|]. split; [done|]. apply andb_true_iff in He as [_ He]. split_and!; cbn; try done; try lia.
  - unfold relation_supported in Hs. apply andb_true_iff in Hs as [_ Hs]. apply bool_decide_eq_true in Hs.
    apply elem_of_cons in Hs as [->|Hs]; [by left|]. apply list_elem_of_singleton in Hs as ->. by right; left.
  - clear -Hc. revert columns Hc. induction rows as [|r rows IH]; intros columns H; cbn in H; [by injection H as <-|].
    apply bind_ok in H as (c & Hx & H). apply bind_ok in H as (k & Hk & [= <-]).
    constructor; [by eapply load_column_checked|by apply IH].
  - apply existsb_exists in He as (c & Hin & Hk). exists c. split; [by apply list_elem_of_In|]. by destruct (cc_key c).
Qed.
Lemma load_tables_checked version catalog dir rows tables tables' :
  load_tables version catalog dir rows tables = Ok tables' →
  (∀ oid t, tables' !! oid = Some t →
     tables !! oid = Some t ∨ ∃ row, row ∈ rows ∧ tb_oid t = oid ∧ rr_oid row = oid ∧ relation_supported row = true ∧ table_checked version catalog t)
  ∧ (∀ oid, is_Some (tables !! oid) → is_Some (tables' !! oid)) ∧ ∀ row, row ∈ rows → is_Some (tables' !! rr_oid row).
Proof.
  revert tables. induction rows as [|row rows IH]; intros tables H; cbn in H.
  { injection H as <-. split_and!; [auto|done|]. by intros row ?%elem_of_nil. }
  apply bind_ok in H as (t & Ht & H). apply load_table_checked in Ht as (Ho & Hs & Hc). apply IH in H as (H1 & H2 & H3).
  split_and!.
  - intros oid t' Hl. destruct (H1 _ _ Hl) as [Hin|(r & Hin & Hr)].
    + apply lookup_insert_Some in Hin as [[<- <-]|[_ Hin]]; [|by left]. right. exists row. split; [by left|]. by rewrite Ho.
    + right. exists r. split; [by right|done].
  - intros oid Hin. apply H2. rewrite lookup_insert. case_decide; [done|done].
  - intros r [->|Hr]%elem_of_cons; [|by apply H3]. apply H2. rewrite <- Ho, lookup_insert_eq. done.
Qed.
Lemma load_tables_of dir version lo :
  load dir version = Ok lo →
  Forall digested (cat_types (lo_type_catalog lo))
  ∧ ∀ oid t, lo_tables lo !! oid = Some t → tb_oid t = oid ∧ table_checked (show_nat version) (lo_type_catalog lo) t.
Proof.
  unfold load. intros H. apply bind_ok in H as (p & _ & H). apply bind_ok in H as ([] & _ & H).
  apply bind_ok in H as (relations & _ & H). apply bind_ok in H as ([] & _ & H). apply bind_ok in H as (catalog & Hcat & H).
  apply bind_ok in H as (tables & Ht & [= <-]). cbn. split; [by eapply directory_digested|]. intros oid t Hl.
  apply load_tables_checked in Ht as (H1 & _). destruct (H1 _ _ Hl) as [Hx|(row & _ & <- & _ & _ & Hx)]; [|done].
  by rewrite lookup_empty in Hx.
Qed.

(** C31: a PostgreSQL catalog that loads is fit for capture.  The publication publishes
    every operation of at least one table; every published relation is loaded under its
    OID, and every table loaded comes from a permanent ordinary relation without row
    filter or row security, has a primary key and a replica identity of the two kinds the
    decoder understands; all its columns name a definition of the directory, with the
    closure of that definition and both digests, and a declaration that maps to a logical
    type, which together with the directory decides whether values are decoded or kept as
    text; and every definition carries its own digest. *)
Theorem load_checked dir version lo :
  load dir version = Ok lo →
  ∃ p relations,
    dr_publication dir = Ok (Some p) ∧ pub_insert p = true ∧ pub_update p = true ∧ pub_delete p = true ∧ pub_truncate p = true
    ∧ pub_via_root p = false
    ∧ dr_relations dir = Ok relations ∧ relations ≠ []
    ∧ (∀ row, row ∈ relations → is_Some (lo_tables lo !! rr_oid row))
    ∧ (∀ oid t, lo_tables lo !! oid = Some t →
         ∃ row, row ∈ relations ∧ tb_oid t = oid ∧ rr_oid row = oid ∧ relation_supported row = true
           ∧ table_checked (show_nat version) (lo_type_catalog lo) t)
    ∧ Forall digested (cat_types (lo_type_catalog lo)).
Proof.
  unfold load. intros H. apply bind_ok in H as ([p|] & Hp & H); [|done]. apply bind_ok in H as ([] & Hc & H).
  unfold check_publication in Hc. cbn [ok_or mbind result_bind] in Hc. apply bind_ok in Hc as ([] & Ha%ensure_ok & Hv%ensure_ok).
  rewrite !andb_true_iff in Ha. destruct Ha as [[[? ?] ?] ?]. apply negb_true_iff in Hv.
  apply bind_ok in H as (relations & Hr & H). apply bind_ok in H as ([] & Hne%ensure_ok & H).
  apply negb_true_iff, bool_decide_eq_false in Hne.
  apply bind_ok in H as (catalog & Hcat & H). apply bind_ok in H as (tables & Ht & [= <-]). cbn.
  apply load_tables_checked in Ht as (Hfrom & _ & Hall). exists p, relations.
  split_and!; try done; [|by eapply directory_digested]. intros oid t Hl.
  destruct (Hfrom _ _ Hl) as [Hx|Hx]; [by rewrite lookup_empty in Hx|exact Hx].
Qed.
End load.

(** ** The evidence of captured values *)
Section evidence.
Context `{B64 : Base64} `{SHA : Sha256} `{SL : !Sha256Laws SHA} `{CJ : CatalogJson} `{MJ : MappingJson} `{SJ : SerdeJson} `{EJ : EvidenceJson}
  `{WS : Walstream}.

(** What the server and the JSON library are relied on for. *)
(** A serialized definition is read back as an object with its fields. *)
Definition definition_read (d : SourceTypeDefinition) : Prop :=
  ∃ v, evidence_value (definition_text d) = Some v
    ∧ (w ← get "definition_digest" v; as_str w) = Some (td_definition_digest d) ∧ (w ← get "oid" v; as_u64 w) = Some (td_oid d)
    ∧ (w ← get "schema" v; as_str w) = Some (td_schema d) ∧ (w ← get "name" v; as_str w) = Some (td_name d)
    ∧ definition_is d v = true.
Definition serde_reads (catalog : SourceTypeCatalog) (t : Table) : Prop :=
  Forall definition_read (cat_types catalog)
  ∧ Forall (λ c, ∀ cl, definition_closure catalog (cc_oid c) = Ok cl → closure_from_str (closure_text cl) = Some cl) (tb_columns t).
(** Extensions that types come from are installed, with a version and a schema, under a
    lower-case name. *)
Definition extensions_fit (catalog : SourceTypeCatalog) : Prop :=
  Forall (λ name, to_lower name = name ∧ ∀ e, find_extension catalog name = Some e → extension_invalid e = false)
    (omap extension_of (cat_types catalog)).
Definition column_named (c : Column) : Prop :=
  0 < cc_oid c ∧ i32_min ≤ cc_modifier c ≤ i32_max ∧ sempty (cc_type_schema c) = false ∧ sempty (cc_type_name c) = false.

Lemma list_to_map_find (l : list (string * string)) k :
  (list_to_map l : gmap string string) !! k = snd <$> List.find (λ p, bool_decide (p.1 = k)) l.
Proof.
  induction l as [|[k' v] l IH]; [done|]. cbn [list_to_map foldr List.find fst snd].
  rewrite lookup_insert. case_decide as E; [by rewrite bool_decide_eq_true_2|by rewrite bool_decide_eq_false_2, IH].
Qed.
Lemma metadata_fields d t meta :
  let m := representation_metadata d t meta in
  m !! "relation_oid"%string = Some (show_nat (tb_oid t)) ∧ m !! "relation_schema"%string = Some (tb_schema t)
  ∧ m !! "relation_name"%string = Some (tb_name t) ∧ m !! "column_name"%string = Some (cc_name meta)
  ∧ m !! "column_oid"%string = Some (show_nat (cc_oid meta)) ∧ m !! "type_modifier"%string = Some (show_int (cc_modifier meta))
  ∧ m !! "native_type"%string = Some (cc_native_type meta) ∧ m !! "type_schema"%string = Some (cc_type_schema meta)
  ∧ m !! "type_name"%string = Some (cc_type_name meta) ∧ m !! "type_definition"%string = Some (cc_type_definition_evidence meta)
  ∧ m !! "type_definition_digest"%string = Some (sha256_prefixed (cc_type_definition_digest meta))
  ∧ m !! "type_definition_closure"%string = Some (cc_type_definition_closure_evidence meta)
  ∧ m !! "type_definition_closure_digest"%string = Some (sha256_prefixed (cc_type_definition_closure_digest meta))
  ∧ m !! "source_catalog_digest"%string = Some (tb_source_type_catalog_digest t)
  ∧ m !! "environment.lc_monetary"%string = Some (dc_lc_monetary d)
  ∧ m !! "text_output_profile"%string = Some "pgoutput-v1/text/UTF8"%string ∧ m !! "session.search_path"%string = Some "pg_catalog"%string.
Proof. cbv zeta. unfold representation_metadata. rewrite !list_to_map_find. by split_and!. Qed.

(** The evidence of a checked column agrees with itself. *)
Lemma evidence_checked d t version meta at_ catalog :
  column_checked version catalog meta → Forall digested (cat_types catalog) → extensions_fit catalog → Forall definition_read (cat_types catalog) →
  (∀ cl, definition_closure catalog (cc_oid meta) = Ok cl → closure_from_str (closure_text cl) = Some cl) →
  checked_definition (representation_context d t meta at_) (Some (cc_oid meta)) = true.
Proof.
  intros (_ & def & cl & m & Hd & Hs & Hn & Hdg & Hde & Hcl & Hce & Hcd & _) Hdigests Hext Hread Hcread.
  unfold checked_definition, representation_context. cbn [ctx_type_metadata ctx_source_type_definition_digest].
  destruct (metadata_fields d t meta) as (_ & _ & _ & _ & _ & _ & _ & -> & -> & -> & _ & -> & -> & _).
  pose proof (PgCatalogSpec.Spec.find_oid_some _ _ _ Hd) as [Hin Ho]. rewrite Forall_forall in Hread.
  destruct (Hread _ Hin) as (v & Hv & H1 & H2 & H3 & H4 & H5). cbn [mbind option_bind]. rewrite Hde, Hv. cbn [mbind option_bind].
  rewrite H1, Hdg, bool_decide_eq_true_2 by done. rewrite H2, H3, H4, Ho, Hs, Hn, !bool_decide_eq_true_2 by done. cbn [andb].
  rewrite Hce, (Hcread _ Hcl), Hcd, bool_decide_eq_true_2 by done. cbn [andb].
  pose proof (PgCatalogSpec.Spec.closure_sound _ _ _ Hcl) as [[Hex _] _].
  assert (find_oid (cl_types cl) (cc_oid meta) = Some def) as ->.
  { pose proof (PgCatalogSpec.Spec.closure_sound _ _ _ Hcl) as [Hexact _]. rewrite (PgCatalogSpec.Spec.exact_find _ _ _ _ Hexact) by apply rtc_refl. done. }
  rewrite H5. by apply (PgCatalogSpec.Spec.closure_validates catalog).
Qed.

(** What is relied on for a decoder opened against the server. *)
Definition server_fits (version : string) (d : Decoder) : Prop :=
  major_of (src_version (dc_source d)) = version ∧ bld_product (dc_server_build d) = "postgresql"%string
  ∧ starts (version +:+ ".") (bld_version (dc_server_build d)) = true ∧ sempty (dc_lc_monetary d) = false.

(** A text value of a checked column passes the representation check of its row. *)
Lemma representation_accepted d t version meta e change col catalog :
  server_fits version d → table_checked version catalog t → meta ∈ tb_columns t → column_named meta →
  Forall digested (cat_types catalog) → extensions_fit catalog → serde_reads catalog t →
  env_context e = representation_context d t meta (chg_source_cursor change) → env_encoding e = "UTF-8"%string →
  chg_schema change = tb_schema t → chg_table change = tb_name t → col_name col = cc_name meta → col_native_type col = cc_native_type meta →
  validate_representation change col e (show_nat (tb_oid t)) (Some (tb_source_type_catalog_digest t)) version = Ok ().
Proof.
  intros (Hv & Hb & Hbv & Hm) (_ & _ & Hdig & Hcols & _) Hin (Ho & Hmod & Hs & Hn) Hdigests Hext [Hread Hcread] Hc He Hsch Htab Hcn Hnt.
  rewrite Forall_forall in Hcols. pose proof (Hcols _ Hin) as Hcol. rewrite Forall_forall in Hcread.
  unfold validate_representation. cbv zeta. rewrite Hc. cbn [ctx_type_metadata representation_context].
  pose proof (metadata_fields d t meta) as (-> & -> & -> & -> & -> & -> & -> & -> & -> & _ & -> & _ & _ & -> & -> & -> & ->).
  cbn [mbind option_bind]. pose proof (proj1 Hcol) as Hr.
  unfold parse_u32, parse_i32. rewrite (parse_unsigned_show u32_max) by lia. rewrite (parse_signed_show i32_min i32_max) by done.
  cbn [mbind option_bind]. rewrite (evidence_checked d t version meta (chg_source_cursor change) catalog Hcol Hdigests Hext Hread (Hcread _ Hin)).
  cbn [ctx_connector con_kind con_version ctx_server_build ctx_protocol ctx_format ctx_source_cursor ctx_source_type_definition_digest
    ctx_source_type_identity representation_context].
  rewrite Hv, Hb, Hbv, Hm, He, Hsch, Htab, Hcn, Hnt, Hs, Hn, Hdig. unfold hex_digest, evidence_digest. rewrite sha256_len, sha256_digits.
  rewrite (proj2 (Z.ltb_lt 0 (cc_oid meta)) Ho), !bool_decide_eq_true_2 by done. done.
Qed.

Lemma image_columns_from d t key_only at_ ordinal metas tuple columns c e :
  image_columns d t key_only at_ ordinal metas tuple = Ok columns → c ∈ columns → col_datum c = EnvelopeDatum e →
  ∃ meta data, meta ∈ metas ∧ col_name c = cc_name meta ∧ col_native_type c = cc_native_type meta
    ∧ e = envelope_new (representation_context d t meta at_) "UTF-8" (cd_bytes data).
Proof.
  revert ordinal tuple columns. induction metas as [|meta metas IH]; intros ordinal tuple columns H Hc He; cbn in H.
  { injection H as <-. by apply elem_of_nil in Hc. }
  destruct tuple as [|data tuple]. { injection H as <-. by apply elem_of_nil in Hc. }
  apply bind_ok in H as (datum & Hd & H). apply bind_ok in H as (rest & Hr & [= <-]).
  apply elem_of_cons in Hc as [->|Hc].
  - exists meta, data. split_and!; [by left|done|done|]. cbn in He. subst. unfold column_value in Hd. cbv zeta in Hd.
    repeat case_match; try done; try congruence. apply bind_ok in Hd as (? & _ & [=]).
  - destruct (IH _ _ _ Hr Hc He) as (m & x & Hin & Hx). exists m, x. split; [by right|done].
Qed.

(** The decoder of an opened stream. *)
Lemma opened_decoder c major server s :
  replication_for_version c major server = Ok s →
  0 ≤ major ∧ dc_pending (rp_decoder s) = None
  ∧ ∃ lo st, load (sv_directory server) major = Ok lo ∧ sv_settings server = Ok st
      ∧ dc_tables (rp_decoder s) = lo_tables lo ∧ dc_type_catalog (rp_decoder s) = lo_type_catalog lo
      ∧ dc_lc_monetary (rp_decoder s) = st_lc_monetary st
      ∧ dc_server_build (rp_decoder s) = mkBuild "postgresql" "community" (st_version_text st) (st_build st)
      ∧ major_of (src_version (dc_source (rp_decoder s))) = show_nat major.
Proof.
  unfold replication_for_version. intros H. apply bind_ok in H as ([] & Hc & H).
  unfold check_config in Hc. apply bind_ok in Hc as ([] & Hm%ensure_ok & _).
  repeat match type of H with (let? _ := _ in _) = _ => apply bind_ok in H as (? & ? & H); cbv zeta in H end.
  injection H as <-. assert (0 ≤ major) as Hmaj by (unfold in_range in Hm; lia). split_and!; [done|done|].
  eexists _, _. split_and!; try done. cbn. unfold major_of. change ("." +:+ ?x) with (String "." x).
  rewrite split_app; [done|]. by apply show_nat_no_byte.
Qed.

(** C30: the text a PostgreSQL stream captures for a column without a codec passes the
    representation check of the source contract.  For a decoder opened against a server
    whose catalog loaded, at any point of its run, every text value of a row image, placed
    at the end of its transaction as COMMIT does, names its connector, server, relation,
    column and type, and carries a definition and a closure that agree with their digests
    and with each other; so no transaction is refused for the evidence the capture itself
    attached.  This relies on the JSON library to read back what it wrote, on the server
    to name its types and to announce a version of the major that was checked, and on
    extensions that are installed and named in lower case. *)
Theorem captured_evidence_accepted c major server s pre d outs oid t tuple key_only at_ columns col e end_lsn change :
  replication_for_version c major server = Ok s → PgCaptureSpec.Spec.run (rp_decoder s) pre = Ok (d, outs) →
  server_fits (show_nat major) (rp_decoder s) → extensions_fit (dc_type_catalog (rp_decoder s)) →
  dc_tables d !! oid = Some t → Forall column_named (tb_columns t) → serde_reads (dc_type_catalog (rp_decoder s)) t →
  image d t tuple key_only at_ = Ok columns → col ∈ columns → col_datum (at_cursor (cursor end_lsn) col) = EnvelopeDatum e →
  chg_schema change = tb_schema t → chg_table change = tb_name t → chg_source_cursor change = cursor end_lsn →
  validate_representation change (at_cursor (cursor end_lsn) col) e (show_nat (tb_oid t)) (Some (tb_source_type_catalog_digest t))
    (show_nat major) = Ok ().
Proof.
  intros Hopen Hrun Hfits Hext Ht Hnamed Hserde Himg Hcol He Hsch Htab Hcur.
  destruct (opened_decoder _ _ _ _ Hopen) as (_ & Hidle & lo & st & Hload & _ & Htables & Hcat & _).
  pose proof (PgCaptureSpec.Spec.same_source_run _ _ _ _ Hidle Hrun) as Hsame. injection Hsame as Hsrc Hbuild Hlc _ Htab' _ _ _.
  assert (server_fits (show_nat major) d) as Hfits' by (unfold server_fits; by rewrite Hsrc, Hbuild, Hlc).
  rewrite Htab', Htables in Ht. rewrite Hcat in *. destruct (load_tables_of _ _ _ Hload) as [Hdigests Hchecked].
  destruct (Hchecked _ _ Ht) as [_ Hck].
  unfold image in Himg. destruct (negb _); [done|]. unfold at_cursor in He |- *.
  destruct (col_datum col) as [| | | |env] eqn:Ec; cbn in He; try congruence. injection He as <-.
  destruct (image_columns_from _ _ _ _ _ _ _ _ _ _ Himg Hcol Ec) as (meta & data & Hin & Hcn & Hnt & ->).
  rewrite Forall_forall in Hnamed.
  eapply (representation_accepted d t); [exact Hfits'|exact Hck|exact Hin|by apply Hnamed|exact Hdigests|exact Hext|exact Hserde| |done..].
  by rewrite Hcur.
Qed.
End evidence.
End Spec.

(** ** An instance: a table with a money column *)
Module Example18.
#[local] Existing Instance Rfc4648.base64.
#[local] Existing Instance SumDigest.sha256.
#[local] Existing Instance PgType.Example16.json.
#[local] Existing Instance PgCaptureSpec.Example17.serde_json.
#[local] Existing Instance PgCaptureSpec.Example17.walstream.
#[local] Instance sha256_laws : Sha256Laws SumDigest.sha256.
Proof.
  assert (∀ z, length (sbytes (SumDigest.hex64 z)) = 64%nat ∧ Forall (λ c, is_ascii_digit c = true) (sbytes (SumDigest.hex64 z))) as H.
  { intros z. apply (MyDecodeSpec.Spec.padded_digits 64 (z mod 10 ^ 8)); [lia|].
    pose proof (Z.mod_pos_bound z (10 ^ 8)). change (10 ^ Z.of_nat 64) with (10 ^ 64). split; [lia|].
    transitivity (10 ^ 8); [lia|]. apply Z.pow_lt_mono_r; lia. }
  constructor; intros l; cbn; destruct (H (foldr (λ c a, bval c + a) 0 l)) as [Hl Hd].
  - unfold slen. rewrite <- (of_sbytes (SumDigest.hex64 _)). unfold of_bytes.
    enough (∀ k, String.length (String.string_of_list_ascii k) = length k) as -> by lia.
    clear. induction k; cbn; auto.
  - unfold all_bytes. apply forallb_forall. intros c Hc. rewrite Forall_forall in Hd. unfold is_ascii_hexdigit.
    by rewrite Hd by (by apply list_elem_of_In).
Qed.
Definition types : list SourceTypeDefinition := [builtin 23 "pg_catalog" "int4"; builtin 790 "pg_catalog" "money"].
Definition find_text (text : string) : option SourceTypeDefinition := oid ← parse_u32 text; find_oid types oid.
Definition fields_of (d : SourceTypeDefinition) : SerdeValue :=
  SObject [("oid", SNumber (show_nat (td_oid d))); ("schema", SString (td_schema d)); ("name", SString (td_name d));
           ("definition_digest", SString (td_definition_digest d))]%string.
#[local] Instance mapping_json : MappingJson := {|
  evidence_json _ _ _ _ _ := []; source_evidence_json _ := []; definition_text d := show_nat (td_oid d);
  closure_text cl := match cl_types cl with d :: _ => show_nat (td_oid d) | [] => ""%string end
|}.
#[local] Instance evidence_json : EvidenceJson := {|
  evidence_value text := fields_of <$> find_text text;
  closure_from_str text :=
    d ← find_text text; match definition_closure (mkCatalog types []) (td_oid d) with Ok cl => Some cl | Err _ => None end;
  definition_is d v := bool_decide ((w ← get "oid" v; as_u64 w) = Some (td_oid d))
|}.

Definition type_row (oid : Z) (name : string) : TypeRow := mkTypeRow oid "pg_catalog" name "b" 0 0 0 "," false false None None None None.
Definition directory : Directory :=
  mkDirectory (Ok (Some (mkPublication true true true true false)))
    (Ok [mkRelationRow 16500 "app" "sale" ["id"; "amount"]%string None "r" "d" false "p"])
    (λ _, Ok [mkColumnRow "id" 23 (-1) "integer" "" (Some 0); mkColumnRow "amount" 790 (-1) "money" "" None])
    (Ok [type_row 23 "int4"; type_row 790 "money"]) (Ok []) (Ok []) (Ok []) (Ok []).
Definition config : Config := mkConfig "db" "shop" "sync" "secret" "sales" "sync_slot" false None None 1000000.
Definition server : Server :=
  mkServer (Ok ()) (Ok (mkSettings 150004 "logical" "UTF8" "15.4" "PostgreSQL 15.4" "C" 16384)) directory
    (Ok (Some (mkSlot (Some "shop") (Some "pgoutput") "logical" false false (Some "reserved") (Some "1/A0"))%string))
    (Ok (mkIdentified (Some "7000000000000000001") (Some "1") (Some "shop") 150004))%string (Ok ()) (Ok None) (Ok ()) (Ok ()).
Definition text (s : string) : ColumnData := mkData "t" (sbytes s).
Definition change : RowChange := mkChange (Some "shop"%string) Insert "app" "sale" (cursor 0x1000000D0) 0 "" None None.

(** The stream opened, the table, the columns of a row and the text value among them. *)
Definition stream18 : Replication :=
  match replication_for_version config 15 server with
  | Ok s => s
  | Err _ => opened (mkDecoder (mkSource "" "" "") (mkBuild "" "" "" "") "" "" ∅ ∅ empty_catalog [] None 0 0) 0
  end.
Definition table18 : Table :=
  default (mkTable 0 "" "" NUL "" []) (dc_tables (rp_decoder stream18) !! 16500).
Definition row18 : list ColumnDatum :=
  match image (rp_decoder stream18) table18 [text "7"; text "$1.50"] false (cursor 0x1000000A0) with Ok l => l | Err _ => [] end.
Definition amount18 : ColumnDatum := default (mkColumn 0 "" "" None false None DNull) (row18 !! 1%nat).
Definition envelope18 : SourceRepresentationEnvelope :=
  match col_datum (at_cursor (cursor 0x1000000D0) amount18) with
  | EnvelopeDatum e => e
  | _ => envelope_new (representation_context (rp_decoder stream18) table18 (default (mkCatalogColumn "" 0 0 "" "" "" "" "" "" "" false false None)
           (head (tb_columns table18))) (cursor 0)) "" []
  end.
Lemma stream18_opened : replication_for_version config 15 server = Ok stream18.
Proof. vm_compute. reflexivity. Qed.
Lemma table18_loaded : dc_tables (rp_decoder stream18) !! 16500 = Some table18.
Proof. vm_compute. reflexivity. Qed.
Lemma row18_decoded : image (rp_decoder stream18) table18 [text "7"; text "$1.50"] false (cursor 0x1000000A0) = Ok row18.
Proof. vm_compute. reflexivity. Qed.
Lemma envelope18_captured : col_datum (at_cursor (cursor 0x1000000D0) amount18) = EnvelopeDatum envelope18.
Proof. vm_compute. reflexivity. Qed.
Lemma amount18_in : amount18 ∈ row18.
Proof. apply (list_elem_of_lookup_2 _ 1%nat). vm_compute. reflexivity. Qed.
Lemma server18_fits : Spec.server_fits (show_nat 15) (rp_decoder stream18).
Proof. unfold Spec.server_fits. split_and!; vm_compute; reflexivity. Qed.
Lemma extensions18_fit : Spec.extensions_fit (dc_type_catalog (rp_decoder stream18)).
Proof.
  unfold Spec.extensions_fit. assert (omap extension_of (cat_types (dc_type_catalog (rp_decoder stream18))) = []) as -> by (vm_compute; reflexivity).
  constructor.
Qed.
Definition named (c : Column) : bool :=
  (0 <? cc_oid c) && in_range i32_min i32_max (cc_modifier c) && negb (sempty (cc_type_schema c)) && negb (sempty (cc_type_name c)).
Lemma named_columns l : forallb named l = true → Forall Spec.column_named l.
Proof.
  intros H. rewrite forallb_forall in H. apply Forall_forall. intros c Hc%list_elem_of_In%H. unfold named in Hc.
  rewrite !andb_true_iff, !negb_true_iff in Hc. destruct Hc as [[[H1 H2] H3] H4].
  apply in_range_spec in H2. unfold Spec.column_named. split_and!; [lia..|done|done].
Qed.
Lemma columns18_named : Forall Spec.column_named (tb_columns table18).
Proof. apply named_columns. vm_compute. reflexivity. Qed.
Lemma definitions18_read : dc_type_catalog (rp_decoder stream18) = mkCatalog types [] ∧ Forall Spec.definition_read types.
Proof.
  split; [vm_compute; reflexivity|]. repeat constructor; eexists; (split; [vm_compute; reflexivity|]); split_and!; vm_compute; reflexivity.
Qed.
Lemma columns18_oids : cc_oid <$> tb_columns table18 = [23; 790].
Proof. vm_compute. reflexivity. Qed.
Lemma closures18_read :
  Forall (λ oid, ∀ cl, definition_closure (mkCatalog types []) oid = Ok cl → closure_from_str (closure_text cl) = Some cl) [23; 790].
Proof. repeat constructor; intros cl H; vm_compute in H; injection H as <-; vm_compute; reflexivity. Qed.

Definition loaded18 : LoadedCatalog := match load directory 15 with Ok lo => lo | Err _ => mkLoaded ∅ ∅ empty_catalog end.
Lemma directory18_loads : load directory 15 = Ok loaded18.
Proof. vm_compute. reflexivity. Qed.
Example load_checked_witness :
  cc_representation_only <$> tb_columns table18 = [false; true]
  ∧ ∃ relations, dr_relations directory = Ok relations ∧ (∀ row, row ∈ relations → is_Some (lo_tables loaded18 !! rr_oid row))
    ∧ Forall Spec.digested (cat_types (lo_type_catalog loaded18)).
Proof.
  destruct (Spec.load_checked directory 15 loaded18 directory18_loads) as (p & relations & _ & _ & _ & _ & _ & _ & Hr & _ & Hall & _ & Hd).
  split; [vm_compute; reflexivity|]. exists relations. split; [exact Hr|]. split; [exact Hall|exact Hd].
Defined.
Example captured_evidence_accepted_witness :
  cd_bytes (text "$1.50") = sbytes "$1.50" ∧
  validate_representation change (at_cursor (cursor 0x1000000D0) amount18) envelope18 (show_nat (tb_oid table18))
    (Some (tb_source_type_catalog_digest table18)) (show_nat 15) = Ok ().
Proof.
  split; [reflexivity|].
  assert (Spec.serde_reads (dc_type_catalog (rp_decoder stream18)) table18) as Hserde.
  { destruct definitions18_read as [-> Hread]. split; [exact Hread|].
    pose proof closures18_read as H. rewrite <- columns18_oids in H. by apply Forall_fmap in H. }
  assert (PgCaptureSpec.Spec.run (rp_decoder stream18) [] = Ok (rp_decoder stream18, [])) as Hrun by reflexivity.
  assert ("app"%string = tb_schema table18) as Hsch by (vm_compute; reflexivity).
  assert ("sale"%string = tb_name table18) as Htab by (vm_compute; reflexivity).
  exact (Spec.captured_evidence_accepted config 15 server stream18 [] (rp_decoder stream18) [] 16500 table18 [text "7"; text "$1.50"] false
    (cursor 0x1000000A0) row18 amount18 envelope18 0x1000000D0 change stream18_opened Hrun server18_fits extensions18_fit table18_loaded
    columns18_named Hserde row18_decoded amount18_in envelope18_captured Hsch Htab eq_refl).
Defined.
End Example18.
