(* ===== verification/MyTarget.v ===== *)
(** * Executing planned SQL on a MySQL target ([crates/mysql_8_0/src/sql.rs])

    The execution of a planned transaction and of a snapshot batch inside one
    database transaction: the table checks, the locator probe before a statement,
    the warnings and affected rows after it, the carrier read-back.  The server
    behind the driver is the interface [MyServer].  The crates mysql_5_7 and
    mysql_8_4 hold the same code. *)
From S2P Require Import Prelude Text Codec Model Representation Validate Snapshot Outcome Session ControlRow Contract MyRender MySql.

(** ** The server behind the driver *)

(** The typed queries of the driver, and [exec_drop] with [warnings()] and
    [affected_rows()]. *)
Class MyServer (D : Type) := {
  (** [query_first::<String>], [exec_first::<String>] *)
  my_first_text : string → list MyValue → D → result MysqlError (option string);
  (** the same at [u8] and [u64] *)
  my_first_number : string → list MyValue → D → result MysqlError (option Z);
  (** [exec::<Value>]: the first column of every row *)
  my_values : string → list MyValue → D → result MysqlError (list MyValue);
  my_execute : string → list MyValue → D → result MysqlError (D * Z * Z)
}.

(** [.map_err(io::Error::other)] on a driver error. *)
Definition mysql_io {A} (m : result MysqlError A) : io A := map_err (λ e, other_cause (Mysql e)) m.

Definition MY_ENGINE_QUERY : string :=
  "SELECT ENGINE FROM information_schema.TABLES WHERE TABLE_SCHEMA=? AND TABLE_NAME=?".
Definition MY_TRIGGER_QUERY : string :=
  "SELECT COUNT(*) FROM information_schema.TRIGGERS WHERE EVENT_OBJECT_SCHEMA=? AND EVENT_OBJECT_TABLE=?".
Definition MY_FOREIGN_KEY_QUERY : string :=
  "SELECT COUNT(*) FROM information_schema.KEY_COLUMN_USAGE WHERE (TABLE_SCHEMA=? AND TABLE_NAME=? AND REFERENCED_TABLE_NAME IS NOT NULL) OR (REFERENCED_TABLE_SCHEMA=? AND REFERENCED_TABLE_NAME=?)".

Section execution.
Context {D : Type} `{Server : MyServer D} `{B64 : Base64, SHA : Sha256}.
(** [serde_json::from_slice] at the two carrier types. *)
Context (json_value : list byte → option LogicalValue)
        (json_envelope : list byte → option SourceRepresentationEnvelope).

Definition text_value (s : string) : MyValue := MyBytes (sbytes s).
Definition is_innodb (engine : option string) : bool := bool_decide (engine = Some "InnoDB"%string).

(** ** Tables *)
Definition check_table (d : D) (table : string * string) : io D :=
  let '(schema, name) := table in
  if eq_ignore_case schema "CDC" then refuse else
  let? locked := mysql_io (my_execute ("SELECT * FROM " +:+ qualified_table schema name +:+ " LIMIT 0") [] d) in
  let d := locked.1.1 in
  let? engine := mysql_io (my_first_text MY_ENGINE_QUERY [text_value schema; text_value name] d) in
  if negb (is_innodb engine) then refuse else
  let? triggers := mysql_io (my_first_number MY_TRIGGER_QUERY [text_value schema; text_value name] d) in
  if negb (default 0 triggers =? 0) then refuse else Ok d.

Fixpoint check_tables (d : D) (tables : list (string * string)) : io D :=
  match tables with
  | [] => Ok d
  | t :: tables' => let? d' := check_table d t in check_tables d' tables'
  end.

(** ** Statements *)
Definition readback_matches (expected : ReadbackExpected) (actual : MyValue) : io () :=
  match expected, actual with
  | RbSqlNull, MyNull => Ok ()
  | RbLogicalValue expected, MyBytes bytes =>
      match json_value bytes with
      | Some recovered => if bool_decide (recovered = expected) then Ok () else refuse
      | None => refuse
      end
  | RbEnvelope expected, MyBytes actual =>
      match json_envelope actual with
      | Some recovered =>
          if is_ok (envelope_validate recovered) && bool_decide (actual = expected) then Ok () else refuse
      | None => refuse
      end
  | _, _ => refuse
  end.

Definition verify_readback (d : D) (check : ReadbackCheck) : io () :=
  let? rows := mysql_io (my_values (mq_sql (rc_query check)) (mq_params (rc_query check)) d) in
  match rows with
  | [actual] => readback_matches (rc_expected check) actual
  | _ => refuse
  end.

Definition check_probe (d : D) (probe : option MyQuery) : io () :=
  match probe with
  | None => Ok ()
  | Some q =>
      let? rows := mysql_io (my_values (mq_sql q) (mq_params q) d) in
      if Z.of_nat (length rows) =? 1 then Ok ()
      else Err (other "row locator matched another number of rows; transaction rolled back")
  end.

Definition affected_ok (operation : Operation) (affected : Z) : bool :=
  match operation with
  | Insert | Delete => affected =? 1
  | Update => affected <=? 1
  end.

Definition execute_statement (d : D) (statement : MyStatement) : io D :=
  check_probe d (ms_probe statement) ;?
  (let? r := mysql_io (my_execute (ms_sql statement) (ms_params statement) d) in
   let '(d, warnings, affected) := r in
   if negb (warnings =? 0) then Err (other "target reported SQL warnings; transaction rolled back") else
   if negb (affected_ok (ms_operation statement) affected)
   then Err (other "unexpected affected row count; transaction rolled back") else
   each (verify_readback d) (ms_verification statement) ;?
   Ok d).

Fixpoint execute_all (d : D) (statements : list MyStatement) : io D :=
  match statements with
  | [] => Ok d
  | s :: statements' => let? d' := execute_statement d s in execute_all d' statements'
  end.

Definition execute_statements (plan : MyTransaction) (d : D) : io D :=
  let? d := check_tables d (mt_tables plan) in
  execute_all d (mt_statements plan).

(** ** Snapshots *)
Fixpoint execute_inserts (d : D) (l : list (string * list MyValue)) : io D :=
  match l with
  | [] => Ok d
  | (sql, params) :: l' =>
      let? r := mysql_io (my_execute sql params d) in
      let '(d, warnings, affected) := r in
      if negb (warnings =? 0) || negb (affected =? 1)
      then Err (other "snapshot INSERT warnings or unexpected affected rows; rolling back")
      else execute_inserts d l'
  end.
(** [plan.statements.iter().zip(&plan.parameters)] *)
Definition execute_snapshot (plan : MySnapshotSql) (d : D) : io D :=
  execute_inserts d (zip (mss_statements plan) (mss_parameters plan)).

Definition check_empty_target (lock : bool) (d : D) (table : SnapshotTable) : io () :=
  if eq_ignore_case (st_schema table) "CDC" then refuse else
  let names := [text_value (st_schema table); text_value (st_table table)] in
  let? present :=
    mysql_io (my_first_number ("SELECT 1 FROM " +:+ qualified_table (st_schema table) (st_table table)
                               +:+ " LIMIT 1" +:+ (if lock then " FOR UPDATE" else "")) [] d) in
  if is_some present then Err (other "target table must be empty") else
  let? engine := mysql_io (my_first_text MY_ENGINE_QUERY names d) in
  if negb (is_innodb engine) then refuse else
  let? triggers := mysql_io (my_first_number MY_TRIGGER_QUERY names d) in
  let? foreign_keys := mysql_io (my_first_number MY_FOREIGN_KEY_QUERY (names ++ names) d) in
  if negb (default 0 triggers =? 0) || negb (default 0 foreign_keys =? 0) then refuse else Ok ().

Definition snapshot_targets (tables : list SnapshotTable) (lock : bool) (d : D) : io () :=
  if bool_decide (tables = []) then refuse else each (check_empty_target lock d) tables.

(** ** What a successful execution implies *)

(** Each statement located its row, changed the rows its operation allows
    without a warning, and its carriers read back as sent. *)
Inductive my_ran : D → list MyStatement → D → Prop :=
| my_ran_nil d : my_ran d [] d
| my_ran_cons d s affected d' l d'' :
    my_execute (ms_sql s) (ms_params s) d = Ok (d', 0, affected) →
    affected_ok (ms_operation s) affected = true →
    (∀ q, ms_probe s = Some q → ∃ v, my_values (mq_sql q) (mq_params q) d = Ok [v]) →
    Forall (λ c, ∃ v, my_values (mq_sql (rc_query c)) (mq_params (rc_query c)) d' = Ok [v]
                      ∧ readback_matches (rc_expected c) v = Ok ()) (ms_verification s) →
    my_ran d' l d'' →
    my_ran d (s :: l) d''.

Lemma mysql_io_ok {A} (m : result MysqlError A) a : mysql_io m = Ok a ↔ m = Ok a.
Proof. apply map_err_ok. Qed.

Lemma check_probe_ok d probe :
  check_probe d probe = Ok () ↔ ∀ q, probe = Some q → ∃ v, my_values (mq_sql q) (mq_params q) d = Ok [v].
Proof.
  unfold check_probe. destruct probe as [q|]; [|naive_solver].
  rewrite bind_ok. setoid_rewrite mysql_io_ok. split.
  - intros (rows & Hr & Hl) q' [= <-]. case_match eqn:E; [|done]. apply Z.eqb_eq in E.
    destruct rows as [|v [|? ?]]; cbn in E; [lia|eauto|lia].
  - intros H. destruct (H q eq_refl) as [v Hv]. eauto.
Qed.

Lemma verify_readback_ok d c :
  verify_readback d c = Ok ()
  ↔ ∃ v, my_values (mq_sql (rc_query c)) (mq_params (rc_query c)) d = Ok [v]
         ∧ readback_matches (rc_expected c) v = Ok ().
Proof.
  unfold verify_readback. rewrite bind_ok. setoid_rewrite mysql_io_ok. split.
  - intros (rows & Hr & H). destruct rows as [|v [|? ?]]; [done|eauto|done].
  - intros (v & Hv & H). eauto.
Qed.

Lemma my_execute_all_ok d l d' : execute_all d l = Ok d' ↔ my_ran d l d'.
Proof.
  revert d. induction l as [|s l IH]; intros d; cbn.
  { split; [intros [= <-]; constructor|by inversion 1]. }
  rewrite bind_ok. unfold execute_statement. setoid_rewrite seq_ok. setoid_rewrite check_probe_ok.
  setoid_rewrite bind_ok. setoid_rewrite mysql_io_ok. split.
  - intros (d1 & (Hp & [[d2 warnings] affected] & He & H) & Hl).
    destruct (warnings =? 0) eqn:Ew; cbn in H; [|done]. apply Z.eqb_eq in Ew as ->.
    destruct (affected_ok _ affected) eqn:Ea; cbn in H; [|done].
    apply seq_ok in H as [Hr [= <-]]. rewrite each_ok in Hr. setoid_rewrite verify_readback_ok in Hr.
    apply IH in Hl. by econstructor.
  - inversion 1 as [|d0 s0 affected d1 l0 d2 He Ha Hp Hr Hl]; subst. apply IH in Hl.
    exists d1. split; [|done]. split; [done|]. eexists (_, _, _). split; [done|]. cbn. rewrite Ha. cbn.
    rewrite seq_ok, each_ok. setoid_rewrite verify_readback_ok. done.
Qed.

Lemma my_check_tables_names tables d d' :
  check_tables d tables = Ok d' → Forall (λ t, eq_ignore_case t.1 "CDC" = false) tables.
Proof.
  revert d. induction tables as [|[s t] tables IH]; intros d; cbn; [by constructor|].
  intros (d1 & H & H')%bind_ok. constructor; [|by eapply IH]. cbn.
  unfold check_table in H. by destruct (eq_ignore_case s "CDC").
Qed.

(** Executing a MySQL plan succeeds exactly when its tables pass their checks
    and every statement, in the plan's order, was located by its probe, changed
    the rows its operation allows without a warning and reads its carriers back
    unchanged; no table of the plan lies in the schema of the checkpoint. *)
Theorem my_execute_statements_exact (plan : MyTransaction) (d d' : D) :
  (execute_statements plan d = Ok d'
   ↔ ∃ d0, check_tables d (mt_tables plan) = Ok d0 ∧ my_ran d0 (mt_statements plan) d')
  ∧ (execute_statements plan d = Ok d' → Forall (λ t, eq_ignore_case t.1 "CDC" = false) (mt_tables plan)).
Proof.
  unfold execute_statements. rewrite bind_ok. setoid_rewrite my_execute_all_ok. split; [done|].
  intros (d0 & Hc & _). by eapply my_check_tables_names.
Qed.
End execution.
