(* ===== verification/MyCheckpoint.v ===== *)
(** * The MySQL checkpoint writer ([crates/mysql_8_0/src/checkpoint.rs])

    One row of [CDC.log_info] per task, written in the same database transaction
    as the business rows, as in Checkpoint.v; here the server itself computes with
    GTID sets, the locks are MySQL's named locks, every failed COMMIT leaves its
    outcome open, and the engine of the control table is checked with every
    transaction.  The crates mysql_5_7 and mysql_8_4 hold the same code with
    another [TARGET_VERSION].  The theorems are in MyCheckpointSpec.v. *)
From S2P Require Import Prelude Text Codec Model Representation Validate Snapshot Outcome.
From S2P Require Import Position Session ControlRow MyRender RowSql MySql MyTarget.

(** ** The driver and the server *)

(** [error.to_string()] of the driver. *)
Class MysqlText := { mysql_error_text : MysqlError → string }.

(** A lost connection is a connectivity error; every COMMIT error is unknown. *)
#[export] Program Instance mysql_driver `{MysqlText} : Driver := {|
  DriverError := MysqlError;
  call_error e := other_cause (Mysql e);
  commit_error := Outcome.MySql.unknown_commit mysql_error_text;
  connection_lost _ := mkMysqlError true None
|}.
Next Obligation. done. Qed.

(** [SELECT GTID_SUBTRACT(?, '')] and [SELECT GTID_SUBSET(?, ?)]: functions of
    the server, [None] for SQL NULL. *)
Class MyGtid := {
  gtid_subtract : string → result MysqlError (option string);
  gtid_subset : string → string → result MysqlError (option Z)
}.

(** What the server's catalog says about [CDC.log_info]. *)
Class MyCatalog (D : Type) := {
  control_exists : Db D → bool;
  control_column : Db D → string → bool;
  control_engine : Db D → option string;
  control_keys : Db D → list string
}.

Definition my_out_of_range : IoError := other_cause (Mysql (mkMysqlError false (Some 1690))).
Definition my_duplicate_key : IoError := other_cause (Mysql (mkMysqlError false (Some 1062))).
(** [revision=revision+1] of a [BIGINT UNSIGNED] column. *)
Definition next_revision (row : ReplicationCheckpoint) : io Z :=
  if cp_revision row + 1 <=? u64_max then Ok (cp_revision row + 1) else Err my_out_of_range.
(** [u64 +=], which wraps in a release build. *)
Definition wrapping_add_u64 (a b : Z) : Z := (a + b) mod 2 ^ 64.

(** [value.trim_matches(',')] *)
Fixpoint trim_commas (l : list byte) : list byte :=
  match l with
  | c :: l' => if bool_decide (c = ","%char) then trim_commas l' else l
  | [] => []
  end.
Definition trim_matches_commas (s : string) : string :=
  of_bytes (rev (trim_commas (rev (trim_commas (sbytes s))))).

Section writer.
Context {D : Type} `{Server : MyServer D, Gtids : MyGtid, Catalog : MyCatalog D, Text : MysqlText}.
Context `{B64 : Base64, SHA : Sha256}.
Context (json_value : list byte → option LogicalValue)
        (json_envelope : list byte → option SourceRepresentationEnvelope)
        (serde_from_str : string → option SerdeValue)
        (snapshot_sql : ValidatedSnapshotBatch → io MySnapshotSql)
        (target_version : string).

Notation M := (M D).

(** The columns are unsigned: every stored row reads back. *)
Definition load (tx : Db D) (task_id : string) : M (option ReplicationCheckpoint) := load_row Ok tx task_id.

Definition canonical_gtids (value : string) : io string :=
  let? r := mysql_io (gtid_subtract value) in ok_or (other "invalid GTID set") r.
Definition gtid_included (gtid set : string) : io bool :=
  let? r := mysql_io (gtid_subset gtid set) in
  let? z := ok_or (other "GTID check returned no value") r in Ok (negb (z =? 0)).

Definition check_engine (tx : Db D) (message : string) : M () :=
  let? engine := call (Ok (control_engine tx)) in
  if is_innodb engine then mret () else fail (other message).

(** ** Opening *)
Definition connect (server_version : string) : M () :=
  let? _ := call (Ok ()) in  (* Conn::new *)
  let? _ := call (if starts_with target_version server_version then Ok () else refuse) in
  let? _ := call (Ok ()) in  (* SET SESSION time_zone *)
  call (Ok ()).              (* SET SESSION sql_mode *)

(** The task's lock; the code takes its name as SHA2('CDC.log_info:' + task). *)
Definition task_lock (task_id : string) : string := "CDC.log_info:" +:+ task_id.
Definition SCHEMA_LOCK : string := "CDC.log_info.schema".
Definition ADDED_COLUMNS : list string := ["phase"; "snapshot_rows"; "snapshot_gtids"]%string.

(** Add the columns that are missing. *)
Fixpoint add_columns (columns : list string) : M () :=
  match columns with
  | [] => mret ()
  | column :: columns' =>
      let? db := get_db in
      let? present := call (Ok (control_column db column)) in
      let? _ := (if (present : bool) then mret () else call (Ok ())) in
      add_columns columns'
  end.

Definition release_lock (name : string) : M () :=
  let? _ := call (Ok ()) in
  let? db := get_db in set_db (unlock name db).

(** The migration under the schema lock. *)
Definition migrate : M () :=
  let? db := get_db in
  let? exists_ := call (Ok (control_exists db)) in
  let? _ := (if (exists_ : bool) then mret () else call (Ok ())) in  (* DDL *)
  let? _ := add_columns ADDED_COLUMNS in
  let? _ := call (Ok ()) in  (* MODIFY COLUMN source_uuid *)
  let? _ := call (Ok ()) in  (* MODIFY COLUMN mode *)
  release_lock SCHEMA_LOCK.

(** An error drops the connection, and with it the schema lock. *)
Definition ensure_schema : M () :=
  let? _ := call (Ok ()) in  (* CREATE DATABASE IF NOT EXISTS CDC *)
  let? owned := try_lock SCHEMA_LOCK in
  if negb owned then fail (other "CDC schema migration is busy") else
  let? _ := dropping_on_error SCHEMA_LOCK migrate in
  let? db := get_db in
  let? _ := check_engine db "CDC.log_info must use InnoDB" in
  let? keys := call (Ok (control_keys db)) in
  if bool_decide (keys = ["task_id"%string]) then mret ()
  else fail (other "CDC.log_info requires PRIMARY KEY(task_id)").

Definition load_conn (task_id : string) : M (option ReplicationCheckpoint) :=
  let? db := get_db in load db task_id.

Definition open (server_version task_id source_uuid binding : string) : M CheckpointWriter :=
  let? _ := lift (validate_identity task_id source_uuid binding) in
  let? _ := connect server_version in
  let? db := get_db in
  let? sink_uuid := call (ok_or (other "missing sink UUID") (db_sink_uuid db)) in
  if bool_decide (sink_uuid = source_uuid)
  then fail (other "source and sink must be different MySQL instances") else
  let? owned := try_lock (task_lock task_id) in
  if negb owned then fail (other "task is already owned by another writer") else
  dropping_on_error (task_lock task_id) (
    let? _ := ensure_schema in
    let? cp := load_conn task_id in
    let? _ := lift (match cp with
                    | Some cp => check_binding cp source_uuid sink_uuid binding
                    | None => Ok ()
                    end) in
    mret (mkWriter task_id source_uuid sink_uuid binding cp None None)).

(** ** Filtered transactions *)
Definition observe (w : CheckpointWriter) (transaction : ChangeTransaction) : M CheckpointWriter :=
  if negb (lempty (tx_changes transaction))
     || negb (bool_decide (src_id (tx_source transaction) = w_source_uuid w))
  then fail (other "observe requires an empty projection from this source") else
  let? fp := lift (Position.MySql.file_position (tx_commit_cursor transaction)) in
  let? _ := lift (in_source_order w fp.1 fp.2) in
  let? gtids :=
    (if bool_decide ((cp_mode <$> w_checkpoint w) = Some "gtid"%string) then
       let combined := default ""%string (w_observed_gtids w) +:+ "," +:+ tx_id transaction in
       let? set := call (canonical_gtids (trim_matches_commas combined)) in mret (Some set)
     else mret (w_observed_gtids w)) in
  mret (mkWriter (w_task_id w) (w_source_uuid w) (w_sink_uuid w) (w_binding w) (w_checkpoint w)
          gtids (Some fp)).

(** ** The starting boundary *)
Definition initialize (w : CheckpointWriter) (mode file : string) (position : Z)
    (gtid_set : option string) : M (ReplicationCheckpoint * CheckpointWriter) :=
  match w_checkpoint w with
  | Some cp => mret (cp, w)
  | None =>
      let? _ := lift (validate_checkpoint_position mode file position) in
      if mode_disagrees mode gtid_set
      then fail (other "checkpoint mode and GTID set disagree") else
      let? gtid_set :=
        (match gtid_set with
         | Some g => let? c := call (canonical_gtids g) in mret (Some c)
         | None => mret None
         end) in
      let? tx := begin in
      let? tx := insert_row my_duplicate_key tx
        (mkCheckpoint (w_task_id w) (w_source_uuid w) (w_sink_uuid w) (w_binding w) mode file
           position gtid_set None 0 0 0 "incremental" 0 None) in
      let? row := load tx (w_task_id w) in
      let? cp := lift (ok_or (other "checkpoint insert failed") row) in
      let? _ := commit tx in
      mret (cp, set_checkpoint w cp)
  end.

(** ** The initial snapshot *)

(** On the connection itself, outside a transaction. *)
Definition check_snapshot_targets (tables : list SnapshotTable) : M () :=
  let? db := get_db in call (snapshot_targets tables false (db_data db)).

Definition prepare_snapshot (w : CheckpointWriter) (boundary : SnapshotBoundary) :
    M (ReplicationCheckpoint * CheckpointWriter) :=
  if negb (bool_decide (src_id (sb_source boundary) = w_source_uuid w))
  then fail (other "snapshot source identity mismatch") else
  let? b := lift (decode_snapshot_boundary serde_from_str (sb_cursor boundary)) in
  let '(mode, file, position, executed_gtids) := b in
  let? _ := lift (validate_position file position) in
  if negb (bool_decide (mode ∈ ["gtid"; "binlog"]%string))
  then fail (other "invalid snapshot mode") else
  if match w_checkpoint w with Some cp => negb (is_snapshot_phase cp) | None => false end
  then fail (other "incremental checkpoint cannot be replaced by a snapshot") else
  let? executed := call (canonical_gtids executed_gtids) in
  let gtids := if bool_decide (mode = "gtid"%string) then Some executed else None in
  let? tx := begin in
  let? actual := load tx (w_task_id w) in
  if negb (bool_decide (actual = w_checkpoint w))
  then fail (other "snapshot checkpoint changed outside its owner") else
  let? tx :=
    (if is_some actual then
       update_row tx (w_task_id w) (λ row,
         let? revision := next_revision row in
         Ok (mkCheckpoint (cp_task_id row) (cp_source_uuid row) (cp_sink_uuid row) (cp_binding row)
               mode file position gtids (cp_last_transaction_id row) revision
               (cp_applied_transactions row) (cp_applied_rows row) (cp_phase row)
               (cp_snapshot_rows row) (Some executed)))
     else
       insert_row my_duplicate_key tx
         (mkCheckpoint (w_task_id w) (w_source_uuid w) (w_sink_uuid w) (w_binding w)
            mode file position gtids None 0 0 0 "snapshot" 0 (Some executed))) in
  let? row := load tx (w_task_id w) in
  let? cp := lift (ok_or (other "snapshot checkpoint missing") row) in
  let? _ := commit tx in
  mret (cp, set_checkpoint w cp).

(** One batch: rendered, then executed in the open transaction. *)
Definition copy_batch (validated : ValidatedSnapshotBatch) (data : D) : M D :=
  let? plan := lift (snapshot_sql validated) in call (execute_snapshot plan data).

Definition copy_snapshot (w : CheckpointWriter) (tables : list SnapshotTable)
    (batches : list (io SnapshotBatch)) (progress : SnapshotBatch → Z → io ()) :
    M (ReplicationCheckpoint * CheckpointWriter) :=
  let? expected := lift (ok_or (other "snapshot was not prepared") (w_checkpoint w)) in
  if negb (is_snapshot_phase expected) then fail (other "snapshot phase required") else
  let? tx := begin in
  let? row := load tx (w_task_id w) in
  if negb (bool_decide (row = Some expected)) then fail (other "snapshot checkpoint changed") else
  let? _ := check_engine tx "CDC.log_info must use InnoDB" in
  let? _ := call (snapshot_targets tables true (db_data tx)) in
  let? r := copy_batches copy_batch w tables progress batches 0 0 (db_data tx) in
  let '(table_index, row_count, data) := r in
  if negb (bool_decide (table_index = length tables))
  then fail (other "snapshot stream ended before all tables completed") else
  let tx := with_data tx data in
  let? tx := update_row tx (w_task_id w) (λ row,
    let? revision := next_revision row in
    Ok (mkCheckpoint (cp_task_id row) (cp_source_uuid row) (cp_sink_uuid row) (cp_binding row)
          (cp_mode row) (cp_file row) (cp_position row) (cp_gtid_set row)
          (cp_last_transaction_id row) revision (cp_applied_transactions row)
          (cp_applied_rows row) "incremental" row_count (cp_snapshot_gtids row))) in
  let? row := load tx (w_task_id w) in
  let? cp := lift (ok_or (other "snapshot checkpoint disappeared") row) in
  let? _ := commit tx in
  mret (cp, set_checkpoint w cp).

(** ** Applying a transaction *)

(** A single transaction identifier: one interval of one number. *)
Definition check_single (transaction_id : string) : io () :=
  let? parts := ok_or (other "missing transaction GTID") (rsplit_once ":" transaction_id) in
  if contains_byte "," transaction_id
     || negb (match parse_u64 parts.2 with Some n => 0 <? n | None => false end)
  then Err (other "invalid single transaction GTID") else Ok ().

Definition already_applied (cp : ReplicationCheckpoint) (transaction_id : string) (order : comparison) : M bool :=
  if bool_decide (cp_mode cp = "gtid"%string) then
    let? gtid := call (canonical_gtids transaction_id) in
    let? _ := lift (check_single transaction_id) in
    let? included := call (gtid_included gtid (default ""%string (cp_gtid_set cp))) in
    if negb included && negb (bool_decide (order = Gt))
    then fail (other "GTID and binlog history disagree") else mret included
  else mret (negb (bool_decide (order = Gt))).

Definition combined_gtids (cp : ReplicationCheckpoint) (observed : option string) (transaction_id : string) : string :=
  trim_matches_commas
    (join "," (nonempty_parts [default ""%string (cp_gtid_set cp); default ""%string observed; transaction_id])).
Definition next_gtid_set (cp : ReplicationCheckpoint) (observed : option string) (transaction_id : string) :
    M (option string) :=
  if bool_decide (cp_mode cp = "gtid"%string) then
    let? set := call (canonical_gtids (combined_gtids cp observed transaction_id)) in mret (Some set)
  else mret (cp_gtid_set cp).

Definition apply_inner (w : CheckpointWriter) (source_uuid transaction_id : string)
    (cursor : SourceCursor) (plan : option MyTransaction) : M (CheckpointApplyResult * CheckpointWriter) :=
  if identity_mismatch w source_uuid transaction_id then fail (other "transaction source identity mismatch") else
  if match w_checkpoint w with
     | Some cp => negb (bool_decide (cp_phase cp = "incremental"%string))
     | None => false
     end
  then fail (other "snapshot is not committed yet") else
  let? fp := lift (Position.MySql.file_position cursor) in
  let '(file, position) := fp in
  let? expected := lift (ok_or (other "initialize checkpoint before apply") (w_checkpoint w)) in
  let? tx := begin in
  let? row := load tx (w_task_id w) in
  let? cp := lift (ok_or (other "CDC.log_info checkpoint is missing; refusing a new baseline") row) in
  let? _ := check_engine tx "CDC.log_info is no longer InnoDB" in
  let? _ := lift (check_binding cp (w_source_uuid w) (w_sink_uuid w) (w_binding w)) in
  if negb (bool_decide (cp = expected))
  then fail (other "checkpoint changed outside this writer") else
  let? order := lift (compare_checkpoint_position (Some (cp_mode cp)) file position
                        (cp_file cp) (cp_position cp)) in
  let? already := already_applied cp transaction_id order in
  if (already : bool) then
    let? _ := rollback tx in mret (mkApplyResult cp 0 true, w)
  else
  let? _ := lift (not_behind_observed w cp file position) in
  let? data :=
    (match plan with
     | Some plan => call (execute_statements json_value json_envelope plan (db_data tx))
     | None => mret (db_data tx)
     end) in
  let rows := match plan with Some plan => Z.of_nat (length (mt_statements plan)) | None => 0 end in
  let tx := with_data tx data in
  let? gtid_set := next_gtid_set cp (w_observed_gtids w) transaction_id in
  let? _ := lift (ok_or (other "checkpoint revision overflow") (checked_add_u64 (cp_revision cp) 1)) in
  let cp := advanced wrapping_add_u64 cp file position gtid_set transaction_id rows in
  let? tx := update_row tx (w_task_id w) (store_progress cp) in
  let? _ := commit tx in
  mret (mkApplyResult cp rows false, clear_observed (set_checkpoint w cp)).

Definition apply (w : CheckpointWriter) (plan : MyTransaction) : M (CheckpointApplyResult * CheckpointWriter) :=
  apply_inner w (mt_source_uuid plan) (mt_source_transaction_id plan) (mt_commit_cursor plan) (Some plan).

Definition advance (w : CheckpointWriter) (transaction : ChangeTransaction) :
    M (CheckpointApplyResult * CheckpointWriter) :=
  if negb (lempty (tx_changes transaction))
  then fail (other "advance requires an empty route projection") else
  apply_inner w (src_id (tx_source transaction)) (tx_id transaction) (tx_commit_cursor transaction) None.

(** ** After a lost COMMIT *)
Definition resolve_commit_unknown (w : CheckpointWriter) (transaction : ChangeTransaction) : M CommitResolution :=
  if negb (bool_decide (src_id (tx_source transaction) = w_source_uuid w)) || sempty (tx_id transaction)
  then fail (other "commit resolution source identity mismatch") else
  let? fp := lift (Position.MySql.file_position (tx_commit_cursor transaction)) in
  let? tx := begin in
  let? row := load tx (w_task_id w) in
  let? cp := lift (ok_or (other "CDC.log_info checkpoint is missing") row) in
  let? _ := lift (check_binding cp (w_source_uuid w) (w_sink_uuid w) (w_binding w)) in
  if bool_decide (cp_last_transaction_id cp = Some (tx_id transaction)) then
    let? _ := rollback tx in mret Applied
  else
  let? order := lift (compare_checkpoint_position (Some (cp_mode cp)) fp.1 fp.2
                        (cp_file cp) (cp_position cp)) in
  let? applied_by_gtid :=
    (if bool_decide (cp_mode cp = "gtid"%string) then
       let? gtid := call (canonical_gtids (tx_id transaction)) in
       call (gtid_included gtid (default ""%string (cp_gtid_set cp)))
     else mret false) in
  let result :=
    if applied_by_gtid || bool_decide (order = Lt) then Applied
    else if bool_decide (order = Gt) then NotApplied else Unprovable in
  let? _ := rollback tx in
  mret result.
End writer.
