(* ===== verification/MyServers.v ===== *)
(** * A MySQL server, as far as the writer relies on it

    What the documentation of MySQL says about the GTID functions the writer calls,
    and an executable server that satisfies it: GTID sets by the texts of Gtid.v,
    business data as the list of executed statements.  The witnesses of the MySQL
    theorems run on this server. *)
From S2P Require Import Prelude Text Codec Model Representation Canonical Validate Snapshot Outcome.
From S2P Require Import Gtid Position Session ControlRow Contract MyRender MySql MyTarget MyCheckpoint.

(** ** GTID sets of the server *)

(** What MySQL documents about its GTID functions, for the set [gtid_member]
    that a text denotes: [GTID_SUBTRACT(s, '')] denotes the set of [s];
    [GTID_SUBSET] of two of its results decides inclusion; and a list with commas
    denotes the union of its parts. *)
Class MyGtidLaws (G : MyGtid) := {
  gtid_element : Type;
  gtid_member : string → gtid_element → Prop;
  law_subtract s t : gtid_subtract s = Ok (Some t) → ∀ x, gtid_member t x ↔ gtid_member s x;
  law_subset s a s' b :
    gtid_subtract s = Ok (Some a) → gtid_subtract s' = Ok (Some b) →
    ∃ z, gtid_subset a b = Ok (Some z) ∧ (z ≠ 0 ↔ ∀ x, gtid_member a x → gtid_member b x);
  law_join parts x :
    gtid_member (trim_matches_commas (join "," (nonempty_parts parts))) x
    ↔ ∃ part, part ∈ parts ∧ gtid_member part x
}.

(** ** GTID sets as texts *)
Module TextGtid.
Import Gtid.Spec.

Definition parts (s : string) : list string := nonempty_parts (split "," s).

Lemma parts_comma a b : parts (a +:+ String "," b) = parts a ++ parts b.
Proof. unfold parts. by rewrite split_join_two, nonempty_parts_app. Qed.

Lemma parts_commas_before k l : parts (of_bytes (repeat ","%char k ++ l)) = parts (of_bytes l).
Proof. induction k as [|k IH]; [done|]. rewrite <- IH. apply (parts_comma ""). Qed.

Lemma parts_commas_after k l : parts (of_bytes (l ++ repeat ","%char k)) = parts (of_bytes l).
Proof.
  destruct k as [|k]; [by rewrite app_nil_r|].
  rewrite of_bytes_app. change (of_bytes (repeat _ (S k))) with (String "," (of_bytes (repeat ","%char k))).
  rewrite parts_comma. pose proof (parts_commas_before k []) as H. rewrite app_nil_r in H. rewrite H.
  by rewrite app_nil_r.
Qed.

Lemma trim_commas_split l : ∃ k, l = repeat ","%char k ++ trim_commas l.
Proof.
  induction l as [|c l [k Hk]]; [by exists 0%nat|]. cbn. case_bool_decide; subst.
  - exists (S k). cbn. by f_equal.
  - by exists 0%nat.
Qed.

(** Trimming commas keeps the parts. *)
Lemma parts_trim s : parts (trim_matches_commas s) = parts s.
Proof.
  unfold trim_matches_commas. rewrite <- (of_sbytes s) at 2.
  destruct (trim_commas_split (sbytes s)) as [k Hk]. rewrite Hk at 2. rewrite parts_commas_before.
  generalize (trim_commas (sbytes s)). intros l.
  destruct (trim_commas_split (rev l)) as [j Hj].
  assert (l = rev (trim_commas (rev l)) ++ repeat ","%char j) as Hl.
  { rewrite <- (rev_involutive l) at 1. rewrite Hj at 1. by rewrite rev_app_distr, rev_repeat. }
  rewrite Hl at 2. by rewrite parts_commas_after.
Qed.

Lemma parts_join l : parts (join "," (nonempty_parts l)) = mjoin (parts <$> l).
Proof.
  induction l as [|s l IH]; [done|]. change (mjoin (parts <$> s :: l)) with (parts s ++ mjoin (parts <$> l)). rewrite <- IH.
  unfold nonempty_parts at 1. rewrite filter_cons. case_decide as Hs.
  - fold (nonempty_parts l). destruct (nonempty_parts l) as [|s' l'] eqn:E.
    + cbn. by rewrite app_nil_r.
    + change (join "," (s :: s' :: l')) with (s +:+ String "," (join "," (s' :: l'))). apply parts_comma.
  - fold (nonempty_parts l). by destruct s.
Qed.

Lemma member_parts s key n :
  text_member s key n ↔ ∃ group rs, group ∈ parts s ∧ parse_group group = Ok (key, rs) ∧ covers rs n.
Proof. done. Qed.

(** 1772 is ER_MALFORMED_GTID_SET_SPECIFICATION. *)
Definition malformed {A} : result MysqlError A := Err (mkMysqlError false (Some 1772)).
#[export] Instance gtids : MyGtid := {|
  gtid_subtract s := match Gtid.canonical_gtids s with Ok c => Ok (Some c) | Err _ => malformed end;
  gtid_subset a b :=
    match merge_gtids (Some b) a, Gtid.canonical_gtids b with
    | Ok union, Ok set => Ok (Some (if bool_decide (union = set) then 1 else 0))
    | _, _ => malformed
    end
|}.

Lemma subtract_ok s c : gtid_subtract s = Ok (Some c) ↔ Gtid.canonical_gtids s = Ok c.
Proof. cbn. destruct (Gtid.canonical_gtids s); naive_solver. Qed.

Lemma canonical_wf s c : Gtid.canonical_gtids s = Ok c → well_formed_text c.
Proof. by intros [? _]%canonical_text. Qed.

Lemma canonical_total s : well_formed_text s → ∃ c, Gtid.canonical_gtids s = Ok c.
Proof. intros [m Hm]%parse_gtids_succeeds. exists (render_gtids m). apply canonical_ok. eauto. Qed.

(** Inclusion, by comparing the union with the larger set. *)
Lemma subset_decides a b :
  well_formed_text a → well_formed_text b →
  ∃ z, gtid_subset a b = Ok (Some z) ∧ (z ≠ 0 ↔ ∀ key n, text_member a key n → text_member b key n).
Proof.
  intros Ha Hb. cbn [gtid_subset gtids]. pose proof (merge_gtids_spec (Some b) a) as Hu.
  destruct (merge_gtids (Some b) a) as [u|e] eqn:Eu; [|exfalso; apply Hu; by split].
  destruct (canonical_total b Hb) as [c Hc]. rewrite Hc. eexists. split; [done|].
  pose proof (canonical_gtids_complete _ _ _ _ Eu Hc) as Heq.
  apply canonical_text in Eu as [_ Hm]. 
  assert (u = c ↔ ∀ key n, text_member a key n → text_member b key n) as <-.
  { rewrite Heq. setoid_rewrite <- Hm. setoid_rewrite Hu. cbn. naive_solver. }
  case_bool_decide; split; [done|lia|lia|done].
Qed.

#[export] Program Instance laws : MyGtidLaws gtids := {|
  gtid_element := GtidKey * Z;
  gtid_member s x := text_member s x.1 x.2
|}.
Next Obligation. intros s t [_ H]%subtract_ok%canonical_text [key n]. apply H. Qed.
Next Obligation.
  intros s a s' b Ha%subtract_ok%canonical_wf Hb%subtract_ok%canonical_wf.
  destruct (subset_decides a b Ha Hb) as (z & Hz & Hiff). exists z. split; [done|]. rewrite Hiff.
  split; [intros H [key n]; apply H|intros H key n; apply (H (key, n))].
Qed.
Next Obligation.
  intros l [key n]. cbn. rewrite member_parts, parts_trim, parts_join.
  setoid_rewrite member_parts. setoid_rewrite list_elem_of_join. setoid_rewrite list_elem_of_fmap. naive_solver.
Qed.
End TextGtid.

(** ** A server of executed statements *)
Module MyListServer.
(** The statements executed so far. *)
Definition db : Type := list (string * list MyValue).
Definition is_select (sql : string) : bool := Outcome.Postgres.starts_with "SELECT" sql.
#[export] Instance server : MyServer db := {|
  my_first_text sql _ _ := Ok (if bool_decide (sql = MY_ENGINE_QUERY) then Some "InnoDB"%string else None);
  my_first_number sql _ _ :=
    Ok (if bool_decide (sql = MY_TRIGGER_QUERY) || bool_decide (sql = MY_FOREIGN_KEY_QUERY) then Some 0 else None);
  my_values _ _ _ := Ok [MyInt 1];
  my_execute sql ps d := if is_select sql then Ok (d, 0, 0) else Ok (d ++ [(sql, ps)], 0, 1)
|}.
#[export] Instance catalog : MyCatalog db := {|
  control_exists _ := true;
  control_column _ _ := true;
  control_engine _ := Some "InnoDB"%string;
  control_keys _ := ["task_id"%string]
|}.
#[export] Instance text : MysqlText := {| mysql_error_text _ := "mysql error"%string |}.

Definition insert_statement (id : Z) : MyStatement :=
  mkMyStatement "INSERT INTO t VALUES (?)" [MyInt id] None Insert [].
Definition update_statement (id : Z) : MyStatement :=
  mkMyStatement "UPDATE t SET v=v WHERE id=?" [MyInt id] (Some (mkMyQuery "probe" [MyInt id])) Update [].
Definition example_plan (id : string) (cursor : SourceCursor) : MyTransaction :=
  mkMyTransaction id "src" None cursor [("app", "t")]%string [insert_statement 1; update_statement 1].
End MyListServer.

(** ** A task on that server *)
Module MyExample.
#[local] Existing Instance Rfc4648.base64.
Import TextGtid MyListServer.

Definition no_value (_ : list byte) : option LogicalValue := None.
Definition no_envelope (_ : list byte) : option SourceRepresentationEnvelope := None.
Definition no_copy (_ : ValidatedSnapshotBatch) : io MySnapshotSql := Err (other "none").

Definition binding64 : string := of_bytes (repeat "b"%char 64).
Definition row0 : ReplicationCheckpoint :=
  mkCheckpoint "task" "src" "sink" binding64 "gtid" "bin.000007" 154 (Some (uuid_a +:+ ":1-5"))
    (Some (uuid_a +:+ ":5")) 3 2 9 "incremental" 0 None.
(** A writer that observed the filtered transactions up to number 7. *)
Definition writer0 : CheckpointWriter :=
  mkWriter "task" "src" "sink" binding64 (Some row0) (Some (uuid_a +:+ ":7")) None.
Definition base0 : Db db := mkDb {[ "task" := row0 ]} (Some "sink") {[ task_lock "task" ]} [].
Definition cursor1 : SourceCursor := Capture.cursor "bin.000007" 400.
Definition gtid1 : string := uuid_a +:+ ":6".
Definition plan1 : MyTransaction := MyListServer.example_plan gtid1 cursor1.
Definition tx1 : ChangeTransaction := mkTransaction (mkSource "mysql" "8.0.36" "src") gtid1 cursor1 cursor1 [].
Definition rows1 : db :=
  [("INSERT INTO t VALUES (?)", [MyInt 1]); ("UPDATE t SET v=v WHERE id=?", [MyInt 1])]%string.
Definition row1 : ReplicationCheckpoint :=
  mkCheckpoint "task" "src" "sink" binding64 "gtid" "bin.000007" 400 (Some (uuid_a +:+ ":1-7"))
    (Some gtid1) 4 3 11 "incremental" 0 None.
Definition base1 : Db db := with_data (with_log_info base0 (<["task" := row1]> (db_log_info base0))) rows1.
Definition writer1 : CheckpointWriter := mkWriter "task" "src" "sink" binding64 (Some row1) None None.
End MyExample.
