(* ===== verification/MyCheckpointSpec.v ===== *)
(** * What the MySQL checkpoint writer promises

    The writer of MyCheckpoint.v implements the contract of Contract.v: one
    application, resolution or copy under any faults has only the outcomes of the
    contract, and every operation is one of its steps.  What the server's GTID
    functions mean is needed only for recognising a transaction by its
    identifier, and is stated as [MyGtidLaws]. *)
From S2P Require Import Prelude Text Codec Model Representation Validate Snapshot Outcome.
From S2P Require Import Gtid Position Session ControlRow Contract MyRender RowSql MySql MyTarget MyCheckpoint MyServers.

Ltac wp_unfold ::= lazymatch goal with
  | |- wp (load _ _) _ _ => unfold load
  | |- wp (check_engine _ _) _ _ => unfold check_engine
  end.

Lemma my_load_ok (m : gmap string ReplicationCheckpoint) (task : string) o :
  match m !! task with
  | Some row => let? cp := Ok row in Ok (Some cp)
  | None => Ok None
  end = (Ok o : io _) → m !! task = o.
Proof. destruct (m !! task); by intros [= <-]. Qed.

(** ** The dialect *)
Section dialect.
Context {D : Type} `{Server : MyServer D, Gtids : MyGtid, Catalog : MyCatalog D, Text : MysqlText}.
Context `{B64 : Base64, SHA : Sha256}.
Context (json_value : list byte → option LogicalValue)
        (json_envelope : list byte → option SourceRepresentationEnvelope)
        (snapshot_sql : ValidatedSnapshotBatch → io MySnapshotSql).

(** The answers the writer's calls give when the connection holds. *)
Definition included_answer (cp : ReplicationCheckpoint) (id : string) (order : comparison) : io bool :=
  if bool_decide (cp_mode cp = "gtid"%string) then
    let? gtid := canonical_gtids id in
    let? _ := check_single id in
    let? included := gtid_included gtid (default ""%string (cp_gtid_set cp)) in
    if negb included && negb (bool_decide (order = Gt))
    then Err (other "GTID and binlog history disagree") else Ok included
  else Ok (negb (bool_decide (order = Gt))).
Definition next_set_answer (cp : ReplicationCheckpoint) (observed : option string) (id : string) : io (option string) :=
  if bool_decide (cp_mode cp = "gtid"%string) then
    let? set := canonical_gtids (combined_gtids cp observed id) in Ok (Some set)
  else Ok (cp_gtid_set cp).

Definition my_dialect : Dialect D MyTransaction := {|
  dl_file_position := Position.MySql.file_position;
  dl_row_ok _ := True;
  dl_already_applied := included_answer;
  dl_next_gtid_set := next_set_answer;
  dl_add := wrapping_add_u64;
  dl_execute := execute_statements json_value json_envelope;
  dl_statements p := Z.of_nat (length (mt_statements p));
  dl_snapshot_targets tables d := snapshot_targets tables true d ;? Ok d;
  dl_copy_batch v d := let? plan := snapshot_sql v in execute_snapshot plan d
|}.

Lemma included_answer_gt cp id order : included_answer cp id order = Ok false → order = Gt.
Proof.
  unfold included_answer. case_bool_decide as Hm; [|by destruct order].
  intros (gtid & _ & Hx)%bind_ok. apply bind_ok in Hx as (? & _ & Hx). apply bind_ok in Hx as (b & _ & Hx).
  destruct b, order; cbn in Hx; done.
Qed.

#[export] Instance my_dialect_laws : DialectLaws my_dialect.
Proof.
  split; cbn.
  - intros cursor file position. apply my_file_position_range.
  - intros mode cursor file position file0 position0 o. apply my_comparable_valid.
  - apply included_answer_gt.
  - intros cp observed id gtids. unfold next_set_answer. case_bool_decide as Hm; [|by intros [= <-]].
    intros (g & _ & [= <-])%bind_ok. by rewrite Hm.
  - done.
  - intros plan. lia.
Qed.

Lemma my_canonical_ok s t : canonical_gtids s = Ok t ↔ gtid_subtract s = Ok (Some t).
Proof.
  unfold canonical_gtids. rewrite bind_ok. setoid_rewrite mysql_io_ok. setoid_rewrite ok_or_ok. naive_solver.
Qed.

Lemma included_ok a b z : gtid_subset a b = Ok (Some z) → gtid_included a b = Ok (negb (z =? 0)).
Proof. intros H. unfold gtid_included. by rewrite H. Qed.

(** The set after an application, as the server denotes it. *)
Lemma next_set_members `{!MyGtidLaws Gtids} cp observed id g x :
  cp_mode cp = "gtid"%string → next_set_answer cp observed id = Ok (Some g) →
  gtid_member g x ↔ gtid_member (default ""%string (cp_gtid_set cp)) x
                    ∨ gtid_member (default ""%string observed) x ∨ gtid_member id x.
Proof.
  intros Hm. unfold next_set_answer. rewrite Hm, bool_decide_eq_true_2 by done.
  intros (set & Hc%my_canonical_ok & [= <-])%bind_ok. rewrite (law_subtract _ _ Hc). unfold combined_gtids.
  rewrite law_join. setoid_rewrite elem_of_cons. setoid_rewrite elem_of_cons. setoid_rewrite list_elem_of_singleton.
  naive_solver.
Qed.

#[export] Instance my_dialect_history `{!MyGtidLaws Gtids} : DialectHistory my_dialect.
Proof.
  intros cp file position observed gtids id rows Ha Hn. cbn in *.
  pose proof Hn as Hn'. unfold included_answer in *. unfold next_set_answer in Hn.
  cbn [cp_mode advanced cp_gtid_set]. destruct (decide (cp_mode cp = "gtid"%string)) as [Hm|Hm].
  2:{ by rewrite bool_decide_eq_false_2. }
  rewrite bool_decide_eq_true_2 in Ha, Hn |- * by done.
  apply bind_ok in Ha as (gtid & Hgtid & Ha). apply bind_ok in Ha as ([] & Hs & _).
  apply bind_ok in Hn as (set & Hset & [= <-]). rewrite Hgtid, Hs. cbn [mbind result_bind].
  apply my_canonical_ok in Hgtid, Hset. destruct (law_subset _ _ _ _ Hgtid Hset) as (z & Hz & Hsub).
  change (default ""%string (Some set)) with set. rewrite (included_ok _ _ _ Hz). cbn [mbind result_bind].
  assert (z ≠ 0) as Hne.
  { apply Hsub. intros x Hx. rewrite (law_subtract _ _ Hgtid) in Hx.
    rewrite (next_set_members _ _ _ _ _ Hm Hn'). auto. }
  by apply Z.eqb_neq in Hne as ->.
Qed.
End dialect.

(** The operations of the dialect by their names. *)
Ltac my_names :=
  cbn [dl_file_position dl_row_ok dl_already_applied dl_next_gtid_set dl_add dl_execute dl_statements
       dl_snapshot_targets dl_copy_batch my_dialect] in *.

Section spec.
Context {D : Type} `{Server : MyServer D, Gtids : MyGtid, Catalog : MyCatalog D, Text : MysqlText}.
Context `{B64 : Base64, SHA : Sha256}.
Context (json_value : list byte → option LogicalValue)
        (json_envelope : list byte → option SourceRepresentationEnvelope)
        (snapshot_sql : ValidatedSnapshotBatch → io MySnapshotSql).
Notation apply_inner := (apply_inner json_value json_envelope).
#[local] Hint Extern 0 (Dialect D _) =>
  exact (my_dialect json_value json_envelope snapshot_sql) : typeclass_instances.
Notation plan_rows := (Contract.plan_rows (DL := my_dialect json_value json_envelope snapshot_sql)).

(** The contract's effect of a transaction, and its outcomes, on MySQL. *)
Definition my_effect (w : CheckpointWriter) (id : string) (cursor : SourceCursor) (plan : option MyTransaction)
    (db db' : Db D) : Prop := takes_effect w id cursor plan db db'.
Definition my_outcome (w : CheckpointWriter) (id : string) (cursor : SourceCursor) (plan : option MyTransaction)
    (db : Db D) (r : io (CheckpointApplyResult * CheckpointWriter)) (s' : Env D) : Prop :=
  apply_post w id cursor plan db r s'.

(** ** The calls of the writer *)

Lemma check_engine_answers (db : Db D) message s : answers (check_engine db message) (Ok ()) s.
Proof. unfold answers, check_engine. wp_step; [|done]. wp_step; wp_step; (split; [done|]); by intros []. Qed.

Lemma already_answers cp id order (s : Env D) : answers (already_applied cp id order) (included_answer cp id order) s.
Proof.
  unfold answers, already_applied, included_answer. case_bool_decide; [|wp_step; split; [done|by intros x [= <-]]].
  wp_step; [|done..]. wp_step; [|done]. destruct a0. wp_step; [|done..].
  cbn [mbind result_bind]. rewrite E1. cbn [mbind result_bind].
  wp_step; wp_step; (split; [done|]); [done|by intros x [= <-]].
Qed.

Lemma next_set_answers cp observed id (s : Env D) : answers (next_gtid_set cp observed id) (next_set_answer cp observed id) s.
Proof.
  unfold answers, next_gtid_set, next_set_answer. case_bool_decide; [|wp_step; split; [done|by intros x [= <-]]].
  wp_step; [|done..]. wp_step. split; [done|]. by intros x [= <-].
Qed.

(** ** Applying *)
Lemma my_apply_inner_wp w source id cursor plan s :
  wp (apply_inner w source id cursor plan) (apply_post w id cursor plan (env_db s)) s.
Proof.
  unfold MyCheckpoint.apply_inner.
  wp_step; [wp_step; by left|]. wp_step; [wp_step; by left|].
  wp_step; [|by left]. destruct a as [file position].
  wp_step; [|by left]. apply ok_or_ok in E2.
  wp_step; [|by left]. wp_step; [|by left..]. apply my_load_ok in E3 as E4.
  wp_step; [|by left]. apply ok_or_ok in E5 as ->. rename a1 into cp.
  eapply wp_answers; [apply check_engine_answers| |by left]. intros [] fs1 _. cbn [env_db].
  wp_step; [|by left]. wp_step; [wp_step; by left|].
  match goal with Hx : negb (bool_decide (cp = a)) = false |- _ =>
    apply bool_decide_negb in Hx as <- end.
  rewrite E2 in E0. destruct a0.
  wp_step; [|by left]. rename a into order. rename E6 into Eorder.
  eapply wp_answers; [apply already_answers| |by left]. intros already fs2 Ealready. cbn [env_db].
  destruct already.
  { wp_step; [|by left..]. wp_step. cbn [apply_post ar_already_applied]. split_and!; try done.
    by exists cp, file, position, order. }
  pose proof (included_answer_gt _ _ _ Ealready) as ->.
  wp_step; [|by left].
  eapply (plan_wp (DL := my_dialect json_value json_envelope snapshot_sql)); [|by left].
  intros data fs' Hdata. cbn [env_db].
  eapply wp_answers; [apply next_set_answers| |by left]. intros gtids fs3 Hg. cbn [env_db].
  wp_step; [|by left].
  apply wp_bind. unfold update_row, with_data. cbn [db_log_info]. rewrite E4.
  cbn [mbind result_bind store_progress].
  change (mkCheckpoint _ _ _ _ _ _ _ _ _ _ _ _ _ _ _)
    with (advanced wrapping_add_u64 cp file position gtids id (plan_rows plan)).
  assert (takes_effect w id cursor plan (env_db s)
            (with_data (with_log_info (env_db s)
              (<[w_task_id w := advanced wrapping_add_u64 cp file position gtids id (plan_rows plan)]>
                 (db_log_info (env_db s)))) data)) as Heff.
  { exists cp, file, position, data, gtids. split_and!; try done.
    - revert E. unfold identity_mismatch. rewrite !orb_false_iff.
      rewrite (bool_decide_eq_true_2 (w_source_uuid w = w_source_uuid w)) by done. tauto.
    - by apply bool_decide_negb in E0. }
  wp_step; [|by left]. wp_step; [|by left|by right].
  wp_step. cbn [ar_already_applied apply_post]. split_and!; [exact Heff|done| |done].
  cbn. by rewrite lookup_insert_eq.
Qed.

(** ** Lost COMMITs *)
Lemma my_resolve_wp w tx (s : Env D) :
  wp (resolve_commit_unknown w tx) (resolve_post w (tx_id tx) (tx_commit_cursor tx) (env_db s)) s.
Proof.
  unfold resolve_commit_unknown, resolve_post. wp_step; [by wp_step|].
  wp_step; [|done]. rename a into fp. wp_step; [|done].
  wp_step; [|done..]. apply my_load_ok in E1. wp_step; [|done]. apply ok_or_ok in E2. subst a.
  rename a0 into cp. wp_step; [|done]. wp_step.
  { wp_step; [|done]. wp_step. split_and!; [done|by intros _ x [= <-]|].
    intros (cp' & f & p & Hrow & Hl & _). exfalso. rewrite E2 in Hrow. injection Hrow as <-.
    by apply bool_decide_eq_true in E3. }
  apply bool_decide_eq_false in E3. wp_step; [|done]. rename a0 into order.
  apply wp_bind. eapply (wp_mono _ (λ r s', env_db s' = env_db s
    ∧ ∀ by_gtid, r = Ok by_gtid → included_answer cp (tx_id tx) Gt = Ok false → by_gtid = false)).
  { unfold included_answer. destruct (bool_decide (cp_mode cp = "gtid"%string)).
    2:{ wp_step. split; [done|]. by intros b [= <-]. }
    wp_step; [|done..]. cbn [mbind result_bind]. wp_step; (split; [done|]); intros g; [|done..].
    intros [= <-] (? & _ & Hx)%bind_ok. cbn in Hx. by destruct a1. }
  intros [by_gtid|e] s1 [Hs Hg]; [|by rewrite Hs]. specialize (Hg by_gtid eq_refl).
  destruct s1 as [db fs1]. cbn in Hs. subst db.
  wp_step; [|done]. wp_step. split_and!; [done| |].
  - intros (cp' & f & p & Hrow & Hl & _). rewrite E2 in Hrow. injection Hrow as <-. done.
  - intros (cp' & f & p & Hrow & _ & Hf & Hc & Ha) x [= <-].
    rewrite E2 in Hrow. injection Hrow as <-. my_names. rewrite Hf in E0. injection E0 as <-.
    cbn [fst snd] in *. rewrite Hc in E4. injection E4 as <-. by rewrite (Hg Ha).
Qed.

(** ** Runs without faults *)

Lemma run_already cp id order (db : Db D) :
  already_applied cp id order (mkEnv db []) = (included_answer cp id order, mkEnv db []).
Proof.
  unfold already_applied, included_answer. case_bool_decide; [|done].
  destruct (canonical_gtids id) as [g|e] eqn:Eg; rewrite ?run_call; [|done].
  destruct (check_single id) as [[]|e]; rewrite ?run_lift; [|done]. cbn [mbind result_bind].
  destruct (gtid_included g _) as [b|e] eqn:Eb; [|done]. rewrite run_call. cbn [mbind result_bind].
  by destruct (negb b && _).
Qed.

Lemma run_next_set cp observed id (db : Db D) :
  next_gtid_set cp observed id (mkEnv db []) = (next_set_answer cp observed id, mkEnv db []).
Proof.
  unfold next_gtid_set, next_set_answer. case_bool_decide; [|done].
  by destruct (canonical_gtids _).
Qed.

Lemma run_answer {A B} (m : M D A) (a : A) (f : A → M D B) (db : Db D) :
  m (mkEnv db []) = (Ok a, mkEnv db []) → (m ≫= f) (mkEnv db []) = f a (mkEnv db []).
Proof. intros H. change ((m ≫= f) ?s) with (match m s with (Ok a, s') => f a s' | (Err e, s') => (Err e, s') end). by rewrite H. Qed.

Lemma run_engine {B} message (f : () → M D B) (db : Db D) :
  is_innodb (control_engine db) = true → (check_engine db message ≫= f) (mkEnv db []) = f () (mkEnv db []).
Proof. intros H. apply run_answer. unfold check_engine. by rewrite run_call, H. Qed.

Lemma my_load_found (db : Db D) task cp :
  db_log_info db !! task = Some cp → load db task = call (Ok (Some cp)).
Proof. intros Hrow. unfold load, load_row. by rewrite Hrow. Qed.

(** A transaction of the row is reported as applied when the connection holds. *)
Lemma my_replay_returns w id cursor (plan : option MyTransaction) (db : Db D) cp :
  recorded w id cursor db → is_innodb (control_engine db) = true →
  db_log_info db !! w_task_id w = Some cp → w_checkpoint w = Some cp →
  apply_inner w (w_source_uuid w) id cursor plan (mkEnv db [])
  = (Ok (mkApplyResult cp 0 true, w), mkEnv db []).
Proof.
  intros (cp' & f & p & Hrow & Hid & Hp & Hr & Hb & Hf & Hc & Ha & _) He Hrow' Hw.
  rewrite Hrow in Hrow'. injection Hrow' as ->.
  my_names. unfold MyCheckpoint.apply_inner. rewrite Hid, Hw, Hp, bool_decide_eq_true_2 by done. cbn [negb].
  rewrite Hf, !run_lift. cbn [ok_or]. rewrite run_lift, run_begin.
  rewrite (my_load_found _ _ _ Hrow), run_call. cbn [ok_or]. rewrite run_lift, run_engine, Hb, run_lift by done.
  rewrite bool_decide_eq_true_2 by done. cbn [negb]. rewrite Hc, run_lift.
  rewrite (run_answer _ true); [|by rewrite run_already, Ha]. cbn. by rewrite run_rollback.
Qed.

(** MySQL: a call to [apply] or [advance] is atomic under every sequence of
    connection faults: it ends with the database it started from, or with the
    business statements executed and the row advanced together.  Success of a
    new transaction means the latter; an error other than an unknown COMMIT
    means the former; "already applied" changes nothing. *)
Theorem my_apply_atomic (w : CheckpointWriter) (source id : string) (cursor : SourceCursor)
    (plan : option MyTransaction) (s : Env D) :
  let '(r, s') := apply_inner w source id cursor plan s in
  my_outcome w id cursor plan (env_db s) r s'.
Proof.
  pose proof (my_apply_inner_wp w source id cursor plan s) as H. unfold wp in H.
  by destruct (apply_inner w source id cursor plan s).
Qed.

(** Nothing but a fault stops a transaction that is due: when it can take
    effect on an InnoDB control table, the observed position is not ahead and the
    revision has room, a connection without faults gets the new checkpoint and
    leaves exactly the database of the effect. *)
Theorem my_apply_completes (w : CheckpointWriter) (id : string) (cursor : SourceCursor)
    (plan : option MyTransaction) (db db' : Db D) :
  my_effect w id cursor plan db db' → is_innodb (control_engine db) = true →
  w_observed_position w = None →
  (∀ cp, db_log_info db !! w_task_id w = Some cp → 0 ≤ cp_revision cp < u64_max) →
  ∃ cp, apply_inner w (w_source_uuid w) id cursor plan (mkEnv db [])
        = (Ok (mkApplyResult cp (plan_rows plan) false, clear_observed (set_checkpoint w cp)),
           mkEnv db' [])
    ∧ db_log_info db' !! w_task_id w = Some cp.
Proof.
  intros (cp & f & p & data & gtids & Hw & Hrow & Hid & Hp & _ & Hb & Hf & Hc & Ha & Hd & Hg & ->) He Ho Hv.
  apply Hv in Hrow as Hrev.
  exists (advanced wrapping_add_u64 cp f p gtids id (plan_rows plan)). cbn. rewrite lookup_insert_eq. split; [|done].
  my_names. unfold MyCheckpoint.apply_inner. rewrite Hid, Hw, Hp, bool_decide_eq_true_2 by done. cbn [negb].
  rewrite Hf, !run_lift. cbn [ok_or]. rewrite run_lift, run_begin.
  rewrite (my_load_found _ _ _ Hrow), run_call. cbn [ok_or]. rewrite run_lift, run_engine, Hb, run_lift by done.
  rewrite bool_decide_eq_true_2 by done. cbn [negb]. rewrite Hc, run_lift.
  rewrite (run_answer _ false); [|by rewrite run_already, Ha]. cbv beta iota.
  rewrite (not_behind_none _ _ _ _ Ho), run_lift.
  rewrite (run_plan_effect (DL := my_dialect json_value json_envelope snapshot_sql) plan db data _ Hd).
  rewrite (run_answer _ gtids); [|by rewrite run_next_set, Hg].
  unfold checked_add_u64. destruct (cp_revision cp + 1 <=? u64_max) eqn:E; bool_simpl; [|lia].
  cbn [ok_or]. rewrite run_lift.
  unfold update_row. cbn [db_log_info with_data]. rewrite Hrow. cbn [mbind result_bind store_progress].
  rewrite run_call, run_commit. done.
Qed.

Context `{!MyGtidLaws Gtids}.

(** C14: MySQL: a lost COMMIT acknowledgement is resolved and never replayed.  Once a
    transaction took effect no writer of the task executes its statements again,
    and a writer that has loaded the row reports it as already applied; and
    whatever happened to an [apply] of a transaction later than the row, a fresh
    writer answers [Applied] only if it took effect, [NotApplied] only if it did
    not, never [Unprovable], and changes nothing. *)
Theorem my_replay_and_resolution (w w' : CheckpointWriter) (source : string) (tx : ChangeTransaction)
    (plan plan' : option MyTransaction) (s : Env D) (faults : list Fault) :
  pending w (tx_id tx) (tx_commit_cursor tx) (env_db s) → same_task w w' →
  let db := env_db s in
  let db' := env_db (apply_inner w source (tx_id tx) (tx_commit_cursor tx) plan s).2 in
  (let '(x, s'') := resolve_commit_unknown w' tx (mkEnv db' faults) in
   env_db s'' = db'
   ∧ (x = Ok Applied → my_effect w (tx_id tx) (tx_commit_cursor tx) plan db db')
   ∧ (x = Ok NotApplied → db' = db)
   ∧ x ≠ Ok Unprovable)
  ∧ (my_effect w (tx_id tx) (tx_commit_cursor tx) plan db db' →
     (let '(r, s') := apply_inner w' (w_source_uuid w') (tx_id tx) (tx_commit_cursor tx) plan' (mkEnv db' faults) in
      env_db s' = db' ∧ ∀ res w'', r = Ok (res, w'') → ar_already_applied res = true)
     ∧ (w_checkpoint w' = db_log_info db' !! w_task_id w' → is_innodb (control_engine db') = true →
        ∃ cp, apply_inner w' (w_source_uuid w') (tx_id tx) (tx_commit_cursor tx) plan' (mkEnv db' [])
              = (Ok (mkApplyResult cp 0 true, w'), mkEnv db' []))).
Proof.
  intros Hp Hs db db'. split.
  - pose proof (my_apply_inner_wp w source (tx_id tx) (tx_commit_cursor tx) plan s) as Ha. unfold wp in Ha.
    pose proof (my_resolve_wp w' tx (mkEnv db' faults)) as Hr. unfold wp in Hr.
    destruct (resolve_commit_unknown w' tx (mkEnv db' faults)) as [x s''].
    exact (resolution_agrees _ _ _ _ _ _ _ _ _ _ Hp Hs Ha Hr).
  - intros He. apply effect_recorded in He. apply (recorded_same _ _ _ _ _ Hs) in He. split.
    + pose proof (my_apply_inner_wp w' (w_source_uuid w') (tx_id tx) (tx_commit_cursor tx) plan' (mkEnv db' faults)) as H.
      unfold wp in H. apply recorded_settled in He.
      destruct (apply_inner w' _ _ _ plan' _) as [r s']. by apply (settled_no_replay _ _ _ _ _ _ _ He H).
    + intros Hw Hi. pose proof He as (cp & _ & _ & Hrow & _). exists cp.
      apply my_replay_returns; [done..|congruence].
Qed.
End spec.

(** ** A concrete task *)
Module MyExample1.
#[local] Existing Instance Rfc4648.base64.
#[local] Existing Instance SumDigest.sha256.
Export TextGtid MyListServer MyExample.

Definition dialect1 : Dialect MyListServer.db MyTransaction := my_dialect no_value no_envelope no_copy.

Lemma my_effect1 : takes_effect (DL := dialect1) writer0 gtid1 cursor1 (Some plan1) base0 base1.
Proof.
  exists row0, "bin.000007"%string, 400, rows1, (Some (uuid_a +:+ ":1-7")).
  split_and!; try (vm_compute; reflexivity).
Defined.

Lemma my_pending0 : pending (DL := dialect1) writer0 gtid1 cursor1 base0.
Proof.
  exists row0, "bin.000007"%string, 400. split_and!; try (vm_compute; reflexivity).
  vm_compute. congruence.
Defined.

Lemma my_same_task01 : same_task writer0 writer1.
Proof. by split_and!. Defined.

Lemma my_apply_completes_witness :
  ∃ cp, apply_inner no_value no_envelope writer0 (w_source_uuid writer0) gtid1 cursor1 (Some plan1) (mkEnv base0 [])
        = (Ok (mkApplyResult cp (Contract.plan_rows (DL := dialect1) (Some plan1)) false,
               clear_observed (set_checkpoint writer0 cp)), mkEnv base1 [])
    ∧ db_log_info base1 !! w_task_id writer0 = Some cp.
Proof.
  apply (my_apply_completes no_value no_envelope no_copy writer0 gtid1 cursor1 (Some plan1) base0 base1 my_effect1);
    [reflexivity..|].
  intros cp Hcp. vm_compute in Hcp. injection Hcp as <-. vm_compute. repeat split; discriminate.
Defined.

Lemma my_replay_and_resolution_witness :
  let s := mkEnv base0 [NoFault; NoFault; NoFault; NoFault; NoFault; NoFault; NoFault; NoFault;
                        CommitLost true "reset"] in
  let base' := env_db (apply_inner no_value no_envelope writer0 "src" gtid1 cursor1 (Some plan1) s).2 in
  (let '(x, s'') := resolve_commit_unknown writer1 tx1 (mkEnv base' []) in
   env_db s'' = base'
   ∧ (x = Ok Applied → takes_effect (DL := dialect1) writer0 gtid1 cursor1 (Some plan1) base0 base')
   ∧ (x = Ok NotApplied → base' = base0)
   ∧ x ≠ Ok Unprovable)
  ∧ (takes_effect (DL := dialect1) writer0 gtid1 cursor1 (Some plan1) base0 base' →
     (let '(r, s') := apply_inner no_value no_envelope writer1 (w_source_uuid writer1) gtid1 cursor1 None (mkEnv base' []) in
      env_db s' = base' ∧ ∀ res w'', r = Ok (res, w'') → ar_already_applied res = true)
     ∧ (w_checkpoint writer1 = db_log_info base' !! w_task_id writer1 → is_innodb (control_engine base') = true →
        ∃ cp, apply_inner no_value no_envelope writer1 (w_source_uuid writer1) gtid1 cursor1 None (mkEnv base' [])
              = (Ok (mkApplyResult cp 0 true, writer1), mkEnv base' []))).
Proof.
  exact (my_replay_and_resolution no_value no_envelope no_copy writer0 writer1 "src" tx1 (Some plan1) None
    (mkEnv base0 [NoFault; NoFault; NoFault; NoFault; NoFault; NoFault; NoFault; NoFault; CommitLost true "reset"])
    [] my_pending0 my_same_task01).
Defined.

(** The run of the witness did commit before its acknowledgement was lost. *)
Example lost_but_applied :
  let s := mkEnv base0 (repeat NoFault 8 ++ [CommitLost true "reset"]) in
  db_data (env_db (apply_inner no_value no_envelope writer0 "src" gtid1 cursor1 (Some plan1) s).2) = rows1.
Proof. vm_compute. reflexivity. Qed.
End MyExample1.
