(* ===== verification/MySnapshotSpec.v ===== *)
(** * The MySQL writer over a task's life

    Opening, the starting boundary and the initial snapshot of the MySQL writer are
    steps of the contract of Contract.v too, so a task's row has the same history
    on MySQL as on PostgreSQL. *)
From S2P Require Import Prelude Text Codec Model Representation Validate Snapshot Outcome.
From S2P Require Import Gtid Position Session ControlRow Contract MyRender RowSql MySql MyTarget MyCheckpoint MyServers MyCheckpointSpec.

(** A computation that may only take and give back locks. *)
Definition keeps_content `{DR : Driver} {D A : Type} (m : M D A) : Prop :=
  ∀ s, wp m (λ _ s', same_content (env_db s) (env_db s')) s.

Section sessions.
Context `{DR : Driver} {D : Type}.

Lemma keeps_ret {A} (a : A) : keeps_content (mret a : M D A).
Proof. intros s. by apply wp_ret. Qed.
Lemma keeps_fail {A} e : keeps_content (fail e : M D A).
Proof. intros s. by apply wp_fail. Qed.
Lemma keeps_lift {A} (m : io A) : keeps_content (lift m : M D A).
Proof. intros s. by apply wp_lift. Qed.
Lemma keeps_call {A} (m : io A) : keeps_content (call m : M D A).
Proof. intros s. by apply wp_call. Qed.
Lemma keeps_bind {A B} (m : M D A) (f : A → M D B) :
  keeps_content m → (∀ a, keeps_content (f a)) → keeps_content (m ≫= f).
Proof.
  intros Hm Hf s. apply wp_bind. eapply wp_mono; [apply Hm|]. intros [a|e] s1 H1; [|done].
  eapply wp_mono; [apply Hf|]. intros r s2 H2. by transitivity (env_db s1).
Qed.
(** Reading the database to compute a call on it. *)
Lemma keeps_with_db {A} (f : Db D → M D A) : (∀ db, keeps_content (f db)) → keeps_content (get_db ≫= f).
Proof. intros H s. apply wp_bind, wp_get_db, H. Qed.
Lemma keeps_if {A} (b : bool) (m n : M D A) : keeps_content m → keeps_content n → keeps_content (if b then m else n).
Proof. by destruct b. Qed.
Lemma keeps_try_lock name : keeps_content (try_lock name : M D bool).
Proof. intros s. eapply wp_mono; [apply try_lock_wp|]. by intros r s' (? & _). Qed.
Lemma keeps_unlock name : keeps_content (let? db := get_db in set_db (unlock name db) : M D ()).
Proof. intros s. by apply wp_bind, wp_get_db, wp_set_db. Qed.
Lemma keeps_dropping {A} name (m : M D A) : keeps_content m → keeps_content (dropping_on_error name m).
Proof. intros H s. apply wp_dropping. eapply wp_mono; [apply H|]. by intros [a|e] s' Hs. Qed.

(** What a computation answers, whatever it did before. *)
Definition yields {A} (P : A → Prop) (m : M D A) : Prop := ∀ s a, (m s).1 = Ok a → P a.
Lemma yields_ret {A} (P : A → Prop) a : P a → yields P (mret a : M D A).
Proof. by intros H s b [= <-]. Qed.
Lemma yields_fail {A} (P : A → Prop) e : yields P (fail e : M D A).
Proof. by intros s a. Qed.
Lemma yields_bind {A B} (P : B → Prop) (m : M D A) (f : A → M D B) : (∀ a, yields P (f a)) → yields P (m ≫= f).
Proof.
  intros H s b. change ((m ≫= f) s) with (match m s with (Ok a, s') => f a s' | (Err e, s') => (Err e, s') end).
  destruct (m s) as [[a|e] s']; [apply H|done].
Qed.
Lemma yields_if {A} (P : A → Prop) (b : bool) (m n : M D A) : yields P m → yields P n → yields P (if b then m else n).
Proof. by destruct b. Qed.
Lemma yields_dropping {A} (P : A → Prop) name (m : M D A) : yields P m → yields P (dropping_on_error name m).
Proof.
  intros H s a. unfold dropping_on_error. specialize (H s). destruct (m s) as [[x|e] s']; cbn; [|done].
  apply H.
Qed.
End sessions.

Create HintDb keeps.
#[export] Hint Resolve keeps_ret keeps_fail keeps_lift keeps_call keeps_try_lock keeps_unlock keeps_dropping : keeps.
(** Structural: binds and conditionals down to single calls. *)
Ltac keeps :=
  repeat first
    [ solve [auto with keeps]
    | apply keeps_unlock
    | apply keeps_dropping
    | apply keeps_with_db; intros ?
    | apply keeps_bind; [|intros ?]
    | apply keeps_if ].

Section writer.
Context {D : Type} `{Server : MyServer D, Gtids : MyGtid, Catalog : MyCatalog D, Text : MysqlText}.
Context `{B64 : Base64, SHA : Sha256}.
Context (json_value : list byte → option LogicalValue)
        (json_envelope : list byte → option SourceRepresentationEnvelope)
        (serde_from_str : string → option SerdeValue)
        (snapshot_sql : ValidatedSnapshotBatch → io MySnapshotSql)
        (target_version : string).
#[local] Hint Extern 0 (Dialect D _) =>
  exact (my_dialect json_value json_envelope snapshot_sql) : typeclass_instances.

(** ** Opening *)
Lemma keeps_add_columns columns : keeps_content (add_columns columns : M D ()).
Proof. induction columns as [|c l IH]; cbn; keeps. Qed.
Lemma keeps_load task : keeps_content (load_conn task : M D _).
Proof. unfold load_conn, load, load_row. keeps. Qed.
#[local] Hint Resolve keeps_add_columns keeps_load : keeps.

Lemma keeps_ensure_schema : keeps_content (ensure_schema : M D ()).
Proof. unfold ensure_schema, migrate, release_lock, check_engine. keeps. Qed.
#[local] Hint Resolve keeps_ensure_schema : keeps.

Lemma keeps_open v task source binding : keeps_content (open target_version v task source binding : M D _).
Proof. unfold open, connect. keeps. Qed.

Lemma open_yields v task source binding :
  yields (λ w, w_task_id w = task) (open target_version v task source binding : M D _).
Proof.
  unfold open.
  repeat first [by apply yields_ret | apply yields_fail | apply yields_dropping | apply yields_bind; intros ? | apply yields_if].
Qed.

(** ** The copy *)
Lemma my_copy_batch_wp v d (s : Env D) :
  wp (copy_batch snapshot_sql v d)
     (λ r s', env_db s' = env_db s ∧ ∀ d', r = Ok d' → dl_copy_batch v d = Ok d') s.
Proof.
  unfold copy_batch. wp_step; [|done]. wp_step; (split; [done|]); intros d'; [|done..]. intros [= <-].
  my_names. by rewrite E.
Qed.

Lemma my_copy_snapshot_wp w tables items progress (s : Env D) :
  wp (copy_snapshot snapshot_sql w tables items progress) (copy_post w tables items (env_db s)) s.
Proof.
  unfold MyCheckpoint.copy_snapshot, copy_post.
  wp_step; [|by left]. apply ok_or_ok in E. rename a into expected.
  wp_step; [wp_step; by left|]. apply bool_decide_negb in E0.
  wp_step; [|by left]. wp_step; [|by left..]. apply my_load_ok in E1.
  wp_step; [wp_step; by left|]. apply bool_decide_negb in E2 as ->. rename E1 into Hrow0.
  eapply wp_answers; [apply check_engine_answers| |by left]. intros [] fs1 _. cbn [env_db].
  wp_step; [|by left..]. rename E1 into Htargets.
  apply wp_bind. eapply wp_mono; [apply copy_batches_wp, my_copy_batch_wp|]. cbn [env_db].
  intros [[[i n] d]|e] [db fs'] [Hdb Hr]; cbn [env_db] in Hdb; subst db; [|by left].
  destruct (Hr _ _ _ eq_refl) as (l & Hl & Hc). clear Hr.
  wp_step; [wp_step; by left|]. apply bool_decide_negb in E1. subst i.
  assert (Hrow : db_log_info (with_data (env_db s) d) !! w_task_id w = Some expected) by done.
  apply wp_bind. unfold update_row. rewrite Hrow. unfold next_revision.
  destruct (cp_revision expected + 1 <=? u64_max); cbn [mbind result_bind]; [|wp_step; by left].
  change (mkCheckpoint _ _ _ _ _ _ _ _ _ _ _ _ _ _ _) with (snapshot_done expected n).
  wp_step; [|by left].
  wp_step; [|by left..]. apply my_load_ok in E1. cbn in E1. rewrite lookup_insert_eq in E1. subst a0.
  wp_step; [|by left]. apply ok_or_ok in E1 as [= <-].
  assert (snapshot_effect w tables items (env_db s)
    (with_log_info (with_data (env_db s) d)
       (<[w_task_id w := snapshot_done expected n]> (db_log_info (with_data (env_db s) d))))) as Heff.
  { exists expected, (db_data (env_db s)), l, n, d. split_and!; try done.
    my_names. rewrite Htargets. by destruct a. }
  wp_step; [|by left|by right]. wp_step. split_and!; [done| |done].
  cbn. by rewrite lookup_insert_eq.
Qed.

(** ** Creating and marking the row *)

(** An answer of the server to an optional text. *)
Lemma optional_gtids_answers (o : option string) (s : Env D) :
  answers (match o with
           | Some g => let? c := call (canonical_gtids g) in mret (Some c)
           | None => mret None
           end)
    (match o with Some g => let? c := canonical_gtids g in Ok (Some c) | None => Ok None end) s.
Proof.
  unfold answers. destruct o as [g|]; [|by wp_step; split; [done|intros x [= <-]]].
  wp_step; [|done..]. wp_step. split; [done|]. by intros x [= <-].
Qed.

Lemma my_initialize_wp w mode file position gtid_set (s : Env D) :
  wp (initialize w mode file position gtid_set)
     (λ r s', env_db s' = env_db s
        ∨ db_log_info (env_db s) !! w_task_id w = None
          ∧ ∃ cp, cp_phase cp = "incremental"%string ∧ cp_revision cp = 0
            ∧ env_db s' = with_log_info (env_db s) (<[w_task_id w := cp]> (db_log_info (env_db s)))) s.
Proof.
  unfold initialize. destruct (w_checkpoint w); [wp_step; by left|].
  wp_step; [|by left]. wp_step; [wp_step; by left|].
  eapply wp_answers; [apply optional_gtids_answers| |by left]. intros gtids fs0 _.
  wp_step; [|by left]. cbn [env_db].
  apply wp_bind. unfold insert_row. cbn [cp_task_id].
  destruct (db_log_info (env_db s) !! w_task_id w) eqn:Hrow; [wp_step; by left|].
  wp_step; [|by left]. wp_step; [|by left..]. wp_step; [|by left].
  wp_step; [|by left|]; [wp_step|]; right; (split; [done|]); eexists;
    refine (conj _ (conj _ eq_refl)); done.
Qed.

Lemma my_prepare_snapshot_wp w boundary (s : Env D) :
  wp (prepare_snapshot serde_from_str w boundary)
     (λ r s', env_db s' = env_db s
        ∨ (∀ cp, db_log_info (env_db s) !! w_task_id w = Some cp → cp_phase cp = "snapshot"%string)
          ∧ ∃ cp, cp_phase cp = "snapshot"%string
            ∧ env_db s' = with_log_info (env_db s) (<[w_task_id w := cp]> (db_log_info (env_db s)))) s.
Proof.
  unfold MyCheckpoint.prepare_snapshot.
  wp_step; [wp_step; by left|]. wp_step; [|by left].
  destruct a as [[[mode file] position] executed_gtids].
  wp_step; [|by left]. wp_step; [wp_step; by left|]. wp_step; [wp_step; by left|].
  wp_step; [|by left..]. rename a0 into executed.
  wp_step; [|by left]. wp_step; [|by left..]. apply my_load_ok in E5.
  wp_step; [wp_step; by left|]. apply bool_decide_negb in E6. subst a0.
  assert (∀ cp, db_log_info (env_db s) !! w_task_id w = Some cp → cp_phase cp = "snapshot"%string) as Hsnap.
  { intros cp Hcp. rewrite Hcp in E6. rewrite <- E6 in E3. by apply bool_decide_negb in E3. }
  apply wp_bind. eapply (wp_mono _ (λ r s', env_db s' = env_db s
      ∧ ∀ tx, r = Ok tx → ∃ cp, cp_phase cp = "snapshot"%string
          ∧ tx = with_log_info (env_db s) (<[w_task_id w := cp]> (db_log_info (env_db s))))).
  { wp_step; destruct (w_checkpoint w) as [cp|] eqn:Hw; rewrite E6 in E5; try discriminate.
    - unfold update_row. rewrite E6. unfold next_revision.
      destruct (cp_revision cp + 1 <=? u64_max); cbn [mbind result_bind];
        (wp_step; (split; [reflexivity|]); intros tx; [|done]); [|done].
      intros [= <-]. eexists. refine (conj _ eq_refl). cbn. by apply Hsnap.
    - unfold insert_row. cbn [cp_task_id]. rewrite E6.
      wp_step; (split; [reflexivity|]); intros tx; [|done].
      intros [= <-]. eexists. by refine (conj _ eq_refl). }
  intros [tx|e] [db fs'] [Hdb Htx]; cbn [env_db] in Hdb; subst db; [|by left].
  destruct (Htx _ eq_refl) as (cp & Hcp & ->).
  wp_step; [|by left..]. wp_step; [|by left].
  wp_step; [|by left|]; [wp_step|]; right; eauto.
Qed.
(** ** Histories *)

(** Any operation, by any writer, with any arguments and under any faults. *)
Inductive my_step : Db D → Db D → Prop :=
| my_step_open v task source binding db fs :
    my_step db (env_db (open target_version v task source binding (mkEnv db fs)).2)
| my_step_drop name db fs : my_step db (env_db (drop_writer name (mkEnv db fs)))
| my_step_initialize w mode file position gtids db fs :
    my_step db (env_db (initialize w mode file position gtids (mkEnv db fs)).2)
| my_step_prepare w boundary db fs :
    my_step db (env_db (prepare_snapshot serde_from_str w boundary (mkEnv db fs)).2)
| my_step_copy w tables items progress db fs :
    my_step db (env_db (copy_snapshot snapshot_sql w tables items progress (mkEnv db fs)).2)
| my_step_apply w source id cursor plan db fs :
    my_step db (env_db (apply_inner json_value json_envelope w source id cursor plan (mkEnv db fs)).2)
| my_step_resolve w tx db fs : my_step db (env_db (resolve_commit_unknown w tx (mkEnv db fs)).2).

(** Every operation is a step of the contract. *)
Lemma my_step_row (db db' : Db D) : my_step db db' → row_step db db'.
Proof.
  intros [v task source binding db0 fs|name db0 fs|w mode file position gtids db0 fs
    |w boundary db0 fs|w tables items progress db0 fs|w source id cursor plan db0 fs|w tx db0 fs].
  - apply row_kept. apply (keeps_open v task source).
  - by apply row_kept.
  - destruct (my_initialize_wp w mode file position gtids (mkEnv db0 fs)) as [->|(Hn & cp & Hp & Hr & ->)];
      [by apply row_kept|by eapply row_created].
  - destruct (my_prepare_snapshot_wp w boundary (mkEnv db0 fs)) as [->|(Hs & cp & Hp & ->)];
      [by apply row_kept|by eapply row_marked].
  - exact (copy_post_step _ _ _ _ _ _ (my_copy_snapshot_wp w tables items progress (mkEnv db0 fs))).
  - exact (apply_post_step _ _ _ _ _ _ _
      (my_apply_inner_wp json_value json_envelope snapshot_sql w source id cursor plan (mkEnv db0 fs))).
  - apply row_step_same.
    apply (my_resolve_wp json_value json_envelope snapshot_sql w tx (mkEnv db0 fs)).
Qed.

(** C15: MySQL: the life of a task's checkpoint.  A snapshot copy under any faults
    ends with the database unchanged or with every table copied and the phase
    switched in the same commit; and whatever sequence of operations runs, by
    however many writers and under whatever faults, once the row is incremental it
    is never removed, never turned back into a snapshot, and its position and
    revision never move back. *)
Theorem my_checkpoint_life (task : string) (cp : ReplicationCheckpoint) (db db' : Db D)
    (w : CheckpointWriter) (tables : list SnapshotTable) (items : list (io SnapshotBatch))
    (progress : SnapshotBatch → Z → io ()) (s : Env D) :
  (let '(r, s') := copy_snapshot snapshot_sql w tables items progress s in
   copy_post w tables items (env_db s) r s')
  ∧ (db_log_info db !! task = Some cp → live cp → rtc my_step db db' →
     ∃ cp', db_log_info db' !! task = Some cp' ∧ live cp' ∧ at_or_after cp cp').
Proof.
  split.
  - pose proof (my_copy_snapshot_wp w tables items progress s) as H. unfold wp in H.
    by destruct (copy_snapshot snapshot_sql w tables items progress s).
  - intros Hrow Hlive Hsteps. eapply row_history; [done|done|].
    eapply rtc_subrel; [|exact Hsteps]. apply my_step_row.
Qed.
End writer.

(** ** Witness *)
Section witness.
#[local] Existing Instance Rfc4648.base64.
#[local] Existing Instance SumDigest.sha256.
Import MyExample1.

Definition no_text (_ : string) : option SerdeValue := None.

Lemma my_checkpoint_life_witness :
  (let '(r, s') := copy_snapshot no_copy writer0 [] [] (λ _ _, Ok ()) (mkEnv base0 []) in
   copy_post (DL := dialect1) writer0 [] [] base0 r s')
  ∧ (db_log_info base0 !! "task"%string = Some row0 → live row0 →
     rtc (my_step no_value no_envelope no_text no_copy "8.0") base0 base1 →
     ∃ cp', db_log_info base1 !! "task"%string = Some cp' ∧ live cp' ∧ at_or_after row0 cp').
Proof.
  exact (my_checkpoint_life no_value no_envelope no_text no_copy "8.0" "task" row0 base0 base1
    writer0 [] [] (λ _ _, Ok ()) (mkEnv base0 [])).
Defined.

(** The applied transaction of the example is such a history. *)
Example my_history1 : rtc (my_step no_value no_envelope no_text no_copy "8.0") base0 base1.
Proof.
  apply rtc_once.
  exact (my_step_apply no_value no_envelope no_text no_copy "8.0" writer0 "src" gtid1 cursor1 (Some plan1) base0 []).
Qed.
End witness.
