(* ===== verification/Worker.v ===== *)
(** * The apply loop of a replication task
    ([crates/web_ui/src/task_worker.rs])

    [Sink] is the trait the worker uses, [apply_with_recovery_using] the loop that
    applies one source transaction: it retries transient failures a bounded
    number of times on a fresh connection and resolves a lost COMMIT from the
    authoritative checkpoint.  [SinkLaws] states what the loop needs of a sink;
    the theorems are proved against it, and PgSink.v discharges it for the
    PostgreSQL checkpoint writer. *)
From S2P Require Import Prelude Text Codec Model Outcome.

(** ** The mirror of a checkpoint kept by the web process *)
Record Checkpoint := mkMirror {
  mi_source_uuid : string;
  mi_sink_uuid : string;
  mi_mode : string;
  mi_file : string;
  mi_position : Z;
  mi_gtid_set : option string;
  mi_applied_transactions : Z;
  mi_applied_rows : Z;
  mi_phase : string;
  mi_snapshot_rows : Z
}.

(** ** The projection of a transaction on the mapped tables *)
Record TableMapping := mkMapping {
  mp_source_schema : string;
  mp_source_table : string;
  mp_sink_schema : string;
  mp_sink_table : string;
  mp_columns : list string
}.

Definition find_mapping (mappings : list TableMapping) (change : RowChange) : option TableMapping :=
  List.find (λ m, bool_decide (mp_source_schema m = chg_schema change)
                  && bool_decide (mp_source_table m = chg_table change)) mappings.

Definition project_row (mapping : TableMapping) (row : list ColumnDatum) : list ColumnDatum :=
  match mp_columns mapping with
  | [] => row
  | columns => filter (λ c, col_name c ∈ columns) row
  end.

Definition project_change (mappings : list TableMapping) (change : RowChange) : option RowChange :=
  mapping ← find_mapping mappings change;
  Some (mkChange (chg_database change) (chg_operation change) (chg_schema change) (chg_table change)
          (chg_source_cursor change) (chg_source_timestamp change) (chg_schema_basis change)
          (project_row mapping <$> chg_before change) (project_row mapping <$> chg_after change)).

Definition project (tx : ChangeTransaction) (mappings : list TableMapping) : ChangeTransaction :=
  mkTransaction (tx_source tx) (tx_id tx) (tx_begin_cursor tx) (tx_commit_cursor tx)
    (omap (project_change mappings) (tx_changes tx)).

(** ** The sink trait *)
Definition ApplyResult : Type := Checkpoint * string * Z * bool.

(** [S] is everything a sink acts on; [drop] is the effect of dropping it. *)
Class Sink (S W Plan : Type) := {
  sink_apply : ChangeTransaction → list Plan → W → S → io ApplyResult * W * S;
  sink_classify_apply_error : W → IoError → TargetApplyErrorKind;
  sink_resolve_commit_unknown : ChangeTransaction → W → S → io CommitResolution * S;
  sink_checkpoint : W → option Checkpoint;
  sink_drop : W → S → S
}.

Definition MAX_APPLY_RETRIES : nat := 3.
(** [50 * (1 << retries)] milliseconds before the given retry. *)
Definition backoff_ms (retries : Z) : Z := 50 * Z.shiftl 1 retries.

Definition interrupted : IoError := mkIoError KInterrupted (Message "task stopped").

(** [stop.load(...)]: the next value the flag will show; once exhausted, false. *)
Definition read_stop (stops : list bool) : bool * list bool :=
  match stops with [] => (false, []) | b :: stops' => (b, stops') end.

Record LoopState (S W : Type) := mkLoop {
  ls_writer : option W;
  ls_sink : S;
  ls_stops : list bool
}.
Arguments mkLoop {S W}. Arguments ls_writer {S W}. Arguments ls_sink {S W}.
Arguments ls_stops {S W}.

Section worker.
Context {S W Plan : Type} `{!Sink S W Plan}.
Context (reopen : S → io W * S) (tx : ChangeTransaction) (plans : list Plan).

Notation State := (LoopState S W).

(** The branch of a COMMIT whose acknowledgement is lost. *)
Definition recover_commit (error : IoError) (st : S) (stops : list bool) : io ApplyResult * State :=
  match reopen st with
  | (Err _, st) => (Err error, mkLoop None st stops)
  | (Ok recovered, st) =>
      match sink_resolve_commit_unknown tx recovered st with
      | (Err _, st) => (Err error, mkLoop None (sink_drop recovered st) stops)
      | (Ok Applied, st) =>
          match sink_checkpoint recovered with
          | Some checkpoint =>
              (Ok (checkpoint, ""%string, 0, true), mkLoop (Some recovered) st stops)
          | None => (Err error, mkLoop None (sink_drop recovered st) stops)
          end
      | (Ok Unprovable, st) => (Err error, mkLoop None (sink_drop recovered st) stops)
      | (Ok NotApplied, st) =>
          let '(r, recovered, st) := sink_apply tx plans recovered st in
          (r, mkLoop (Some recovered) st stops)
      end
  end.

(** The loop; [n] is [MAX_APPLY_RETRIES - retries]. *)
Fixpoint apply_loop (n : nat) (s : State) : io ApplyResult * State :=
  let '(stopped, stops) := read_stop (ls_stops s) in
  if stopped then (Err interrupted, mkLoop (ls_writer s) (ls_sink s) stops) else
  match ls_writer s with
  | None => (Err (other "Sink writer is unavailable"), mkLoop None (ls_sink s) stops)
  | Some active =>
      match sink_apply tx plans active (ls_sink s) with
      | (Ok result, active, st) => (Ok result, mkLoop (Some active) st stops)
      | (Err error, active, st) =>
          let kind := sink_classify_apply_error active error in
          if bool_decide (kind = CommitUnknown) then
            recover_commit error (sink_drop active st) stops
          else
            match is_retryable kind, n with
            | true, Datatypes.S n' =>
                let st := sink_drop active st in
                let '(stopped, stops) := read_stop stops in
                if stopped then (Err interrupted, mkLoop None st stops) else
                match reopen st with
                | (Ok writer, st) => apply_loop n' (mkLoop (Some writer) st stops)
                | (Err e, st) => (Err e, mkLoop None st stops)
                end
            | _, _ => (Err error, mkLoop (Some active) st stops)
            end
      end
  end.

Definition apply_with_recovery_using (s : State) : io ApplyResult * State :=
  apply_loop MAX_APPLY_RETRIES s.
End worker.

(** ** What the worker needs of a sink

    [before] holds of the states in which the transaction has not taken effect,
    [after] of those in which it has; [mine] holds of the writers of the task. *)
Class SinkLaws {S W Plan} `{!Sink S W Plan} (reopen : S → io W * S) (tx : ChangeTransaction)
    (plans : list Plan) (before after : S → Prop) (mine : W → Prop) := {
  law_apply_before w st r w' st' :
    mine w → before st → sink_apply tx plans w st = (r, w', st') →
    mine w' ∧ match r with
              | Ok _ => after st'
              | Err e => before st' ∨ after st' ∧ sink_classify_apply_error w' e = CommitUnknown
              end;
  law_apply_after w st r w' st' :
    mine w → after st → sink_apply tx plans w st = (r, w', st') → mine w' ∧ after st';
  law_resolve_before w st r st' :
    mine w → before st → sink_resolve_commit_unknown tx w st = (r, st') →
    before st' ∧ ∀ x, r = Ok x → x = NotApplied;
  law_resolve_after w st r st' :
    mine w → after st → sink_resolve_commit_unknown tx w st = (r, st') →
    after st' ∧ ∀ x, r = Ok x → x = Applied;
  law_reopen_before st r st' :
    before st → reopen st = (r, st') → before st' ∧ ∀ w, r = Ok w → mine w;
  law_reopen_after st r st' :
    after st → reopen st = (r, st') → after st' ∧ ∀ w, r = Ok w → mine w;
  law_drop_before w st : before st → before (sink_drop w st);
  law_drop_after w st : after st → after (sink_drop w st)
}.

Section exactly_once.
Context {S W Plan : Type} `{!Sink S W Plan}.
Context (reopen : S → io W * S) (tx : ChangeTransaction) (plans : list Plan).
Context (before after : S → Prop) (mine : W → Prop).
Context `{!SinkLaws reopen tx plans before after mine}.

Definition safe (r : io ApplyResult) (s : LoopState S W) : Prop :=
  (∀ x, r = Ok x → after (ls_sink s)) ∧ (before (ls_sink s) ∨ after (ls_sink s))
  ∧ (∀ w, ls_writer s = Some w → mine w).

Lemma recover_safe error st stops :
  before st ∨ after st →
  let '(r, s) := recover_commit reopen tx plans error st stops in safe r s.
Proof.
  unfold recover_commit. intros Hst.
  destruct (reopen st) as [r1 st1] eqn:Er.
  assert ((before st1 ∨ after st1) ∧ ∀ w, r1 = Ok w → mine w) as [Hst1 Hmine].
  { destruct Hst as [H|H].
    - destruct (law_reopen_before st r1 st1 H Er). auto.
    - destruct (law_reopen_after st r1 st1 H Er). auto. }
  destruct r1 as [w|e]; [|by split_and!]. specialize (Hmine w eq_refl).
  destruct (sink_resolve_commit_unknown tx w st1) as [r2 st2] eqn:Es.
  destruct Hst1 as [H|H].
  - destruct (law_resolve_before w st1 r2 st2 Hmine H Es) as [H2 Hx].
    assert (before (sink_drop w st2)) as Hd by by apply law_drop_before.
    destruct r2 as [x|e]; [|by split_and!; auto]. rewrite (Hx x eq_refl).
    destruct (sink_apply tx plans w st2) as [[r3 w3] st3] eqn:Ea.
    destruct (law_apply_before w st2 r3 w3 st3 Hmine H2 Ea) as [Hw3 Hr3].
    split_and!; cbn; [by intros x' ->| |by intros ? [= <-]].
    destruct r3; [by right|]. destruct Hr3 as [?|[? _]]; auto.
  - destruct (law_resolve_after w st1 r2 st2 Hmine H Es) as [H2 Hx].
    assert (after (sink_drop w st2)) as Hd by by apply law_drop_after.
    destruct r2 as [x|e]; [|by split_and!; auto]. rewrite (Hx x eq_refl).
    destruct (sink_checkpoint w); split_and!; cbn; auto; [|done].
    by intros ? [= <-].
Qed.

Lemma apply_loop_safe n w st stops :
  mine w → before st ∨ after st →
  let '(r, s) := apply_loop reopen tx plans n (mkLoop (Some w) st stops) in safe r s.
Proof.
  revert w st stops. induction n as [|n IH]; intros w st stops Hw Hst; cbn [apply_loop ls_stops ls_writer ls_sink];
    destruct (read_stop stops) as [[] stops1]; try (by split_and!; cbn; auto; intros ? [= <-]);
    destruct (sink_apply tx plans w st) as [[r w1] st1] eqn:Ea.
  all: assert (mine w1 ∧ (∀ x, r = Ok x → after st1) ∧ (before st1 ∨ after st1)) as (Hw1 & Hok & Hst1)
    by (destruct Hst as [H|H];
        [destruct (law_apply_before w st r w1 st1 Hw H Ea) as [? Hr]; destruct r; naive_solver
        |destruct (law_apply_after w st r w1 st1 Hw H Ea); naive_solver]).
  all: destruct r as [x|e]; [by split_and!; cbn; auto; intros ? [= <-]|].
  all: assert (before (sink_drop w1 st1) ∨ after (sink_drop w1 st1)) as Hd
    by (destruct Hst1; [left; by apply law_drop_before|right; by apply law_drop_after]).
  all: case_bool_decide; [by apply recover_safe|].
  - destruct (is_retryable _); by split_and!; cbn; auto; intros ? [= <-].
  - destruct (is_retryable _); [|by split_and!; cbn; auto; intros ? [= <-]].
    destruct (read_stop stops1) as [[] stops2]; [by split_and!|].
    destruct (reopen (sink_drop w1 st1)) as [r2 st2] eqn:Er.
    assert ((before st2 ∨ after st2) ∧ ∀ w, r2 = Ok w → mine w) as [Hst2 Hmine].
    { destruct Hd as [Hd|Hd].
      - destruct (law_reopen_before _ r2 st2 Hd Er). auto.
      - destruct (law_reopen_after _ r2 st2 Hd Er). auto. }
    destruct r2 as [w2|e2]; [|by split_and!].
    apply IH; [by apply Hmine|done].
Qed.

(** C1: One source transaction is applied exactly once or reported as failed:
    against any sink that obeys the laws, whatever errors, lost
    acknowledgements and stop requests occur, the loop ends with the
    transaction applied once or not at all, and success means applied. *)
Theorem apply_exactly_once (w : W) (st : S) (stops : list bool) :
  mine w → before st →
  let '(r, s) := apply_with_recovery_using reopen tx plans (mkLoop (Some w) st stops) in
  (∀ x, r = Ok x → after (ls_sink s)) ∧ (before (ls_sink s) ∨ after (ls_sink s)).
Proof.
  intros Hw Hst. pose proof (apply_loop_safe MAX_APPLY_RETRIES w st stops Hw (or_introl Hst)) as H.
  unfold apply_with_recovery_using. destruct (apply_loop _ _ _ _ _) as [r s].
  unfold safe in H. tauto.
Qed.
End exactly_once.

(** ** The number of attempts *)
Section attempts.
Context {S W Plan : Type} `{!Sink S W Plan}.
Context (reopen : S → io W * S) (tx : ChangeTransaction) (plans : list Plan).

(** The sink with a counter of the calls to [apply]. *)
#[local] Instance counting : Sink (S * Z) W Plan := {
  sink_apply tx plans w st :=
    let '(r, w, s) := sink_apply tx plans w st.1 in (r, w, (s, st.2 + 1));
  sink_classify_apply_error := sink_classify_apply_error;
  sink_resolve_commit_unknown tx w st :=
    let '(r, s) := sink_resolve_commit_unknown tx w st.1 in (r, (s, st.2));
  sink_checkpoint := sink_checkpoint;
  sink_drop w st := (sink_drop w st.1, st.2)
}.
Definition counting_reopen (st : S * Z) : io W * (S * Z) :=
  let '(r, s) := reopen st.1 in (r, (s, st.2)).

(** The state of a counting run without its counter. *)
Definition uncount (s : LoopState (S * Z) W) : LoopState S W :=
  mkLoop (ls_writer s) (ls_sink s).1 (ls_stops s).

Lemma recover_count error st stops :
  let '(r, s) := recover_commit counting_reopen tx plans error st stops in
  recover_commit reopen tx plans error st.1 stops = (r, uncount s)
  ∧ st.2 ≤ (ls_sink s).2 ≤ st.2 + 1.
Proof.
  destruct st as [st k]. unfold recover_commit, counting_reopen. cbn [fst snd].
  destruct (reopen st) as [[w|e] st1]; [|cbn; split; [done|lia]]. cbn.
  destruct (sink_resolve_commit_unknown tx w st1) as [[[]|e] st2]; cbn; try (split; [done|lia]).
  - destruct (sink_checkpoint w); cbn; split; (done || lia).
  - destruct (sink_apply tx plans w st2) as [[r w'] st3]. cbn. split; [done|lia].
Qed.

Lemma loop_count n w st stops :
  let '(r, s) := apply_loop counting_reopen tx plans n (mkLoop (Some w) st stops) in
  apply_loop reopen tx plans n (mkLoop (Some w) st.1 stops) = (r, uncount s)
  ∧ st.2 ≤ (ls_sink s).2 ≤ st.2 + Z.of_nat n + 2.
Proof.
  revert w st stops. induction n as [|n IH]; intros w [st k] stops;
    cbn [apply_loop ls_stops ls_writer ls_sink]; destruct (read_stop stops) as [[] stops1];
    try (cbn; split; [done|lia]); cbn [sink_apply counting fst snd];
    destruct (sink_apply tx plans w st) as [[[x|e] w1] st1]; try (cbn; split; [done|lia]);
    cbn [sink_classify_apply_error sink_drop counting fst snd]; case_bool_decide.
  - pose proof (recover_count e (sink_drop w1 st1, k + 1) stops1) as H1.
    destruct (recover_commit _ _ _ _ _ _) as [r s]. destruct s as [? [? c] ?]. cbn in *. destruct H1. split; [done|lia].
  - destruct (is_retryable _); cbn; split; (done || lia).
  - pose proof (recover_count e (sink_drop w1 st1, k + 1) stops1) as H1.
    destruct (recover_commit _ _ _ _ _ _) as [r s]. destruct s as [? [? c] ?]. cbn in *. destruct H1. split; [done|lia].
  - destruct (is_retryable _); [|cbn; split; [done|lia]].
    destruct (read_stop stops1) as [[] stops2]; [cbn; split; [done|lia]|].
    unfold counting_reopen at 1. cbn [fst snd].
    destruct (reopen (sink_drop w1 st1)) as [[w2|e2] st2]; [|cbn; split; [done|lia]].
    specialize (IH w2 (st2, k + 1) stops2).
    destruct (apply_loop _ _ _ _ _) as [r s]. destruct s as [? [? c] ?]. cbn in *. destruct IH. split; [done|lia].
Qed.

(** Retries are bounded: a run of the recovery loop calls [apply] at most
    five times, the first attempt, three retries and one replay after a proven
    negative resolution; counting the calls does not change the run. *)
Theorem attempts_bounded (w : W) (st : S) (stops : list bool) :
  let '(r, s) := apply_with_recovery_using counting_reopen tx plans (mkLoop (Some w) (st, 0) stops) in
  apply_with_recovery_using reopen tx plans (mkLoop (Some w) st stops) = (r, uncount s)
  ∧ 0 ≤ (ls_sink s).2 ≤ 5.
Proof.
  pose proof (loop_count MAX_APPLY_RETRIES w (st, 0) stops) as H. unfold apply_with_recovery_using.
  destruct (apply_loop counting_reopen _ _ _ _) as [r s]. cbn [fst snd] in H.
  destruct H as [H1 H2]. split; [done|]. change (Z.of_nat MAX_APPLY_RETRIES) with 3 in H2. lia.
Qed.
End attempts.

(** ** What the projection keeps *)
Definition names (change : RowChange) (m : TableMapping) : Prop :=
  mp_source_schema m = chg_schema change ∧ mp_source_table m = chg_table change.
#[export] Instance names_dec change m : Decision (names change m) := ltac:(unfold names; apply _).

Lemma find_mapping_spec mappings change m :
  find_mapping mappings change = Some m → m ∈ mappings ∧ names change m.
Proof.
  unfold find_mapping. intros [Hin Hb]%List.find_some. rewrite andb_true_iff, !bool_decide_eq_true in Hb.
  split; [by apply list_elem_of_In|done].
Qed.

Lemma find_mapping_exists mappings change :
  is_Some (find_mapping mappings change) ↔ Exists (names change) mappings.
Proof.
  rewrite Exists_exists. split.
  - intros [m Hm]. exists m. by apply find_mapping_spec.
  - intros (m & Hin & Hn). destruct (find_mapping mappings change) eqn:E; [by eexists|].
    unfold find_mapping in E. apply list_elem_of_In, (List.find_none _ _ E) in Hin as Hb.
    destruct Hn. rewrite !bool_decide_eq_true_2 in Hb by done. done.
Qed.

Section projection.
Context (mappings : list TableMapping).

Lemma find_mapping_same c c' :
  chg_schema c' = chg_schema c → chg_table c' = chg_table c →
  find_mapping mappings c' = find_mapping mappings c.
Proof. intros H1 H2. unfold find_mapping. by rewrite H1, H2. Qed.

(** The columns a mapping lets through. *)
Definition selected (m : TableMapping) (col : ColumnDatum) : Prop :=
  mp_columns m = [] ∨ col_name col ∈ mp_columns m.

Lemma project_row_spec m row col : col ∈ project_row m row ↔ col ∈ row ∧ selected m col.
Proof.
  unfold project_row, selected. destruct (mp_columns m) as [|x l].
  - naive_solver.
  - rewrite list_elem_of_filter. naive_solver.
Qed.

Lemma project_row_idem m row : project_row m (project_row m row) = project_row m row.
Proof.
  unfold project_row. destruct (mp_columns m) as [|x l]; [done|].
  induction row as [|c row IH]; [done|]. rewrite !filter_cons. case_decide; [|done].
  rewrite filter_cons_True by done. by rewrite IH.
Qed.

Lemma project_change_spec c c' :
  project_change mappings c = Some c' ↔
  ∃ m, find_mapping mappings c = Some m
    ∧ c' = mkChange (chg_database c) (chg_operation c) (chg_schema c) (chg_table c)
             (chg_source_cursor c) (chg_source_timestamp c) (chg_schema_basis c)
             (project_row m <$> chg_before c) (project_row m <$> chg_after c).
Proof. unfold project_change. destruct (find_mapping mappings c); naive_solver. Qed.

Lemma project_change_idem c c' :
  project_change mappings c = Some c' → project_change mappings c' = Some c'.
Proof.
  rewrite !project_change_spec. intros (m & Hm & ->). exists m.
  split; [by rewrite (find_mapping_same c)|]. cbn.
  f_equal; [destruct (chg_before c)|destruct (chg_after c)]; cbn; by rewrite ?project_row_idem.
Qed.

Lemma omap_idem (l : list RowChange) :
  omap (project_change mappings) (omap (project_change mappings) l) = omap (project_change mappings) l.
Proof.
  induction l as [|c l IH]; [done|]. cbn. destruct (project_change mappings c) as [c'|] eqn:E; [|done].
  cbn. by rewrite (project_change_idem _ _ E), IH.
Qed.

Lemma omap_order {B} (f : RowChange → B) (l : list RowChange) :
  (∀ c c', project_change mappings c = Some c' → f c' = f c) →
  f <$> omap (project_change mappings) l = f <$> filter (λ c, is_Some (find_mapping mappings c)) l.
Proof.
  intros Hf. induction l as [|c l IH]; [done|]. rewrite filter_cons. cbn.
  destruct (project_change mappings c) as [c'|] eqn:E.
  - pose proof E as (m & Hm & _)%project_change_spec.
    rewrite decide_True by (by rewrite Hm). cbn. by rewrite IH, (Hf _ _ E).
  - rewrite decide_False; [done|]. intros [m Hm].
    unfold project_change in E. by rewrite Hm in E.
Qed.
End projection.

(** The projection of a transaction passes on exactly the mapped changes, in
    source order and with identity and position unchanged: a change is delivered
    iff a mapping names its table, only its mapped columns are, each with its
    value; projecting again changes nothing. *)
Theorem project_selects (tx : ChangeTransaction) (mappings : list TableMapping) :
  let tx' := project tx mappings in
  (tx_source tx', tx_id tx', tx_begin_cursor tx', tx_commit_cursor tx')
  = (tx_source tx, tx_id tx, tx_begin_cursor tx, tx_commit_cursor tx)
  ∧ (λ c, (chg_operation c, chg_schema c, chg_table c)) <$> tx_changes tx'
    = (λ c, (chg_operation c, chg_schema c, chg_table c)) <$>
        filter (λ c, Exists (names c) mappings) (tx_changes tx)
  ∧ (∀ c', c' ∈ tx_changes tx' → ∃ c m, c ∈ tx_changes tx ∧ m ∈ mappings ∧ names c m
      ∧ ∀ col, (col ∈ default [] (chg_before c') ↔
                  col ∈ default [] (chg_before c) ∧ selected m col)
             ∧ (col ∈ default [] (chg_after c') ↔
                  col ∈ default [] (chg_after c) ∧ selected m col))
  ∧ project tx' mappings = tx'.
Proof.
  cbn. split; [done|]. split_and!.
  - rewrite omap_order; [|by intros c c' (m & _ & ->)%project_change_spec].
    f_equal. apply list_filter_iff. intros c. apply find_mapping_exists.
  - intros c' (c & Hin & (m & Hm & ->)%project_change_spec)%list_elem_of_omap.
    destruct (find_mapping_spec _ _ _ Hm). exists c, m. split_and!; [done..|]. intros col. cbn. split.
    + destruct (chg_before c); cbn; [apply project_row_spec|set_solver].
    + destruct (chg_after c); cbn; [apply project_row_spec|set_solver].
  - unfold project. cbn. f_equal. apply omap_idem.
Qed.
