(* ===== verification/AdapterSink.v ===== *)
(** * Checkpoint writers as sinks of the worker
    ([sink_adapter!], [crates/web_ui/src/task_worker.rs])

    The macro implements the worker's [Sink] trait for any adapter crate: a
    checkpoint writer with its planner.  Here the crate is the interface
    [Adapter]; [AdapterLaws] is what the contract of the checkpoint writers gives
    it, and from it follows [SinkLaws]: a transaction handed to the recovery loop
    reaches the database once, or the loop fails and the database is unchanged or
    holds it once. *)
From S2P Require Import Prelude Text Codec Model Representation Validate Snapshot Outcome Position.
From S2P Require Import Session ControlRow Contract Worker Plan.

(** [From<&ReplicationCheckpoint> for Checkpoint]. *)
Definition mirror (cp : ReplicationCheckpoint) : Worker.Checkpoint :=
  mkMirror (cp_source_uuid cp) (cp_sink_uuid cp) (cp_mode cp) (cp_file cp) (cp_position cp)
    (cp_gtid_set cp) (cp_applied_transactions cp) (cp_applied_rows cp) (cp_phase cp)
    (cp_snapshot_rows cp).

(** What the macro uses of an adapter crate. *)
Class Adapter `{DR : Driver} (D Plan : Type) := {
  ad_apply : CheckpointWriter → Plan → M D (CheckpointApplyResult * CheckpointWriter);
  ad_advance : CheckpointWriter → ChangeTransaction → M D (CheckpointApplyResult * CheckpointWriter);
  ad_resolve : CheckpointWriter → ChangeTransaction → M D CommitResolution;
  ad_classify : IoError → TargetApplyErrorKind;
  ad_script : Plan → string;
  (** the source, the transaction and the commit position a plan is for *)
  ad_identity : Plan → string * string * SourceCursor
}.

Class AdapterLaws `(AD : Adapter D Plan) `{DL : !Dialect D Plan} := {
  law_apply w plan source id cursor s :
    ad_identity plan = (source, id, cursor) →
    wp (ad_apply w plan) (apply_post w id cursor (Some plan) (env_db s)) s;
  law_advance w tx s :
    tx_changes tx = [] →
    wp (ad_advance w tx) (apply_post w (tx_id tx) (tx_commit_cursor tx) None (env_db s)) s;
  law_resolve w tx s :
    wp (ad_resolve w tx) (resolve_post w (tx_id tx) (tx_commit_cursor tx) (env_db s)) s;
  law_classify e : commit_outcome_unknown e = true → ad_classify e = CommitUnknown
}.

(** ** The sink *)
Section sink.
Context `{AD : Adapter D Plan} `{B64 : Base64, SHA : Sha256}.
(** [serde_json::to_vec] of a plan's digest input, and the planner of the crate. *)
Context (input_json : PlanDigestInput → list byte)
        (planner : ValidatedTransaction → list ColumnConversionPlan → io Plan).

Definition adapter_apply (tx : ChangeTransaction) (plans : list ColumnConversionPlan) (w : CheckpointWriter) :
    M D (ApplyResult * CheckpointWriter) :=
  if lempty (tx_changes tx) then
    let? r := ad_advance w tx in
    let '(result, w) := r in
    mret (mirror (ar_checkpoint result), ""%string, 0, ar_already_applied result, w)
  else
  if lempty plans || existsb (λ plan, negb (verify_digest input_json plan)) plans
  then fail capability_failure else
  let? validated := lift (map_err (λ _, other "invalid transaction") (validate tx)) in
  let? plan := lift (planner validated plans) in
  let? r := ad_apply w plan in
  let '(result, w) := r in
  mret (mirror (ar_checkpoint result), ad_script plan, ar_statements_executed result,
        ar_already_applied result, w).

(** A failed call leaves the writer as it was; dropping the sink closes its
    connection and with it releases the advisory lock. *)
#[export] Instance adapter_sink : Sink (Env D) CheckpointWriter ColumnConversionPlan := {
  sink_apply tx plans w st :=
    match adapter_apply tx plans w st with
    | (Ok (result, w'), st') => (Ok result, w', st')
    | (Err e, st') => (Err e, w, st')
    end;
  sink_classify_apply_error _ e := ad_classify e;
  sink_resolve_commit_unknown tx w st := ad_resolve w tx st;
  sink_checkpoint w := mirror <$> w_checkpoint w;
  sink_drop w st := drop_writer (w_task_id w) st
}.
End sink.

(** ** The writer keeps its promises to the worker *)
Section laws.
Context `{DL : Dialect D Plan} `{!DialectLaws DL} `{DR : Driver} {AD : Adapter D Plan} `{!AdapterLaws AD}.
Context `{B64 : Base64, SHA : Sha256}.
Context (input_json : PlanDigestInput → list byte)
        (planner : ValidatedTransaction → list ColumnConversionPlan → io Plan).
Context (reopen : Env D → io CheckpointWriter * Env D).
Context (task : string) (tx : ChangeTransaction) (plans : list ColumnConversionPlan).

(** A plan carries the identity and the position of its transaction. *)
Definition plan_matches (t : ChangeTransaction) (p : Plan) : Prop :=
  ad_identity p = (src_id (tx_source t), tx_id t, tx_commit_cursor t).
Definition planner_keeps_position : Prop :=
  ∀ v p, planner v plans = Ok p → plan_matches (vt_transaction v) p.
(** Reopening changes no content and gives a writer of the task. *)
Definition reopen_safe : Prop :=
  ∀ st r st', reopen st = (r, st') →
    same_content (env_db st) (env_db st') ∧ ∀ w, r = Ok w → w_task_id w = task.

Notation sink_apply := (sink_apply (Sink := adapter_sink input_json planner)).
Notation id := (tx_id tx).
Notation cursor := (tx_commit_cursor tx).

(** What is executed for the transaction: nothing but the checkpoint row when
    the route left it no changes, otherwise what the planner made of the
    validated transaction and of plans with intact digests. *)
Definition planned_by (plan : option Plan) : Prop :=
  match plan with
  | None => tx_changes tx = []
  | Some p => Forall (λ plan, verify_digest input_json plan = true) plans
              ∧ ∃ v, validate tx = Ok v ∧ planner v plans = Ok p
  end.

(** The database that the task found, up to locks; and that database with the
    transaction applied once. *)
Definition untouched (db0 : Db D) (st : Env D) : Prop := same_content db0 (env_db st).
Definition applied_once (db0 : Db D) (st : Env D) : Prop :=
  ∃ w plan db db', w_task_id w = task ∧ same_content db0 db
    ∧ planned_by plan ∧ takes_effect w id cursor plan db db' ∧ same_content db' (env_db st).

Lemma applied_settled db0 w st :
  w_task_id w = task → applied_once db0 st → settled w id cursor (env_db st).
Proof.
  intros Ht (w' & plan & db & db' & Ht' & _ & _ & He & Hc).
  eapply (settled_content w'); [congruence|done|]. by eapply effect_settled.
Qed.

Lemma validate_same t v : validate t = Ok v → vt_transaction v = t.
Proof. unfold validate. rewrite !seq_ok. by intros (_ & _ & _ & _ & _ & _ & [= <-]). Qed.

(** What one application does: nothing, if it fails or the row includes the
    transaction already; or its effect. *)
Definition adapter_post (w : CheckpointWriter) (st : Env D) (r : io (ApplyResult * CheckpointWriter))
    (st' : Env D) : Prop :=
  (∀ x w', r = Ok (x, w') → w_task_id w' = w_task_id w)
  ∧ ((env_db st' = env_db st ∧ ∀ x, r = Ok x → included w id cursor (env_db st))
     ∨ (∃ plan, planned_by plan ∧ takes_effect w id cursor plan (env_db st) (env_db st'))
       ∧ ∀ e, r = Err e → commit_outcome_unknown e = true).

Lemma apply_post_adapter w plan st r st' (f : CheckpointApplyResult → ApplyResult) :
  planned_by plan → apply_post w id cursor plan (env_db st) r st' →
  adapter_post w st match r with Ok (res, w') => Ok (f res, w') | Err e => Err e end st'.
Proof.
  intros Hby Hp. unfold apply_post in Hp. destruct r as [[res w']|e].
  - destruct (ar_already_applied res).
    + destruct Hp as (Hs & -> & _ & Hi & _). split; [by intros x w' [= _ <-]|]. by left.
    + destruct Hp as (He & _ & _ & ->). split; [by intros x w' [= _ <-]|]. right.
      split; [by exists plan|done].
  - split; [done|]. destruct Hp as [Hs|[He Hu]]; [by left|].
    right. split; [by exists plan|]. by intros e' [= <-].
Qed.

Lemma digests_checked :
  lempty plans || existsb (λ plan, negb (verify_digest input_json plan)) plans = false →
  Forall (λ plan, verify_digest input_json plan = true) plans.
Proof.
  rewrite orb_false_iff. intros [_ H]. apply Forall_forall. intros plan Hin.
  destruct (verify_digest input_json plan) eqn:E; [done|]. exfalso.
  apply not_true_iff_false in H. apply H, existsb_exists. exists plan.
  rewrite E. by rewrite <- list_elem_of_In.
Qed.

Lemma adapter_apply_wp w st :
  planner_keeps_position → wp (adapter_apply input_json planner tx plans w) (adapter_post w st) st.
Proof.
  intros Hplan. assert (∀ e, adapter_post w st (Err e) st) as Hfail by (intros e; split; [done|by left]).
  unfold adapter_apply. case_match eqn:Hempty.
  { assert (tx_changes tx = []) as Hnil by (revert Hempty; cbn; by destruct (tx_changes tx)).
    apply wp_bind. eapply wp_mono; [by apply law_advance|]. intros r st' Hr.
    apply (apply_post_adapter _ None _ _ _
      (λ res, (mirror (ar_checkpoint res), ""%string, 0, ar_already_applied res)) Hnil) in Hr.
    by destruct r as [[res w']|e]. }
  case_match eqn:Hdig; [apply Hfail|].
  wp_step; [|apply Hfail]. apply map_err_ok in E as Hval. apply validate_same in Hval as Hv.
  wp_step; [|apply Hfail]. pose proof (Hplan _ _ E0) as Hid. unfold plan_matches in Hid. rewrite Hv in Hid.
  assert (planned_by (Some a0)) as Hby by (split; [by apply digests_checked|by eauto]).
  apply wp_bind. eapply wp_mono; [by eapply law_apply|]. intros r st' Hr.
  apply (apply_post_adapter _ _ _ _ _ (λ res, (mirror (ar_checkpoint res), ad_script a0, ar_statements_executed res,
    ar_already_applied res)) Hby) in Hr.
  by destruct r as [[res w']|e].
Qed.

(** The task's transaction is due in the database the loop starts from. *)
Context (db0 : Db D) (w0 : CheckpointWriter).
Definition due : Prop := w_task_id w0 = task ∧ pending w0 id cursor db0.

Lemma due_pending w st : due → w_task_id w = task → untouched db0 st → pending w id cursor (env_db st).
Proof. intros [Ht Hp] Hw Hc. eapply (pending_content w0); [congruence|done|done]. Qed.

Lemma applied_once_content st st' :
  same_content (env_db st) (env_db st') → applied_once db0 st → applied_once db0 st'.
Proof.
  intros Hc (w & plan & db & db' & ? & ? & ? & ? & ?). exists w, plan, db, db'. split_and!; try done.
  by etrans.
Qed.

Lemma adapter_sink_laws :
  due → planner_keeps_position → reopen_safe →
  SinkLaws (Sink0 := adapter_sink input_json planner)
    reopen tx plans (untouched db0) (applied_once db0) (λ w, w_task_id w = task).
Proof.
  intros Hdue Hplan Hopen. split.
  - intros w st r w' st' Hw Hst. cbn [Worker.sink_apply adapter_sink]. intros H.
    pose proof (adapter_apply_wp w st Hplan) as Hp. unfold wp in Hp.
    destruct (adapter_apply _ _ _ _ _ _) as [[[x w1]|e] st1]; cbn [fst snd] in Hp; injection H as <- <- <-;
      destruct Hp as [Hmine [[Hs Hi]|[(plan & Hby & He) Hu]]].
    + exfalso. eapply pending_not_included; [by eapply due_pending|by eapply Hi].
    + split; [rewrite (Hmine _ _ eq_refl); done|]. by exists w, plan, (env_db st), (env_db st1).
    + split; [done|]. left. unfold untouched. by rewrite Hs.
    + split; [done|]. right. split; [by exists w, plan, (env_db st), (env_db st1)|].
      apply law_classify, Hu, eq_refl.
  - intros w st r w' st' Hw Hst. cbn [Worker.sink_apply adapter_sink]. intros H.
    pose proof (adapter_apply_wp w st Hplan) as Hp. unfold wp in Hp.
    pose proof (applied_settled _ _ _ Hw Hst) as Hset.
    destruct (adapter_apply _ _ _ _ _ _) as [[[x w1]|e] st1]; cbn [fst snd] in Hp; injection H as <- <- <-;
      destruct Hp as [Hmine [[Hs Hi]|[(plan & Hby & He) Hu]]];
      try (exfalso; by eapply settled_no_effect); (split; [|eapply applied_once_content; [|done]; by rewrite Hs]).
    + by rewrite (Hmine _ _ eq_refl).
    + done.
  - intros w st r st' Hw Hst H. cbn in H. pose proof (law_resolve w tx st) as Hr.
    unfold wp in Hr. rewrite H in Hr. cbn [fst snd] in Hr. destruct Hr as (Hs & _ & Hno).
    split; [unfold untouched; by rewrite Hs|]. apply Hno. by eapply due_pending.
  - intros w st r st' Hw Hst H. cbn in H. pose proof (law_resolve w tx st) as Hr.
    unfold wp in Hr. rewrite H in Hr. cbn [fst snd] in Hr. destruct Hr as (Hs & Hyes & _).
    split; [eapply applied_once_content; [|done]; by rewrite Hs|]. apply Hyes. by eapply applied_settled.
  - intros st r st' Hst [Hc Hm]%Hopen. split; [unfold untouched in *; by etrans|done].
  - intros st r st' Hst [Hc Hm]%Hopen. split; [by eapply applied_once_content|done].
  - intros w st Hst. exact Hst.
  - intros w st Hst. by eapply applied_once_content.
Qed.

(** A source transaction reaches the target exactly once or the task reports a
    failure, for any planner that keeps the position of what it plans: start the
    recovery loop with a writer of the task and a transaction later than its
    checkpoint row; whatever connection faults, lost COMMIT acknowledgements,
    reopened sessions and stop requests follow, the database ends with the
    content it had, or with the planned statements executed once and the row
    advanced with them; and the loop reports success only in the second case. *)
Lemma recovery_safe (w : CheckpointWriter) (st : Env D) (stops : list bool) :
  due → planner_keeps_position → reopen_safe → w_task_id w = task → same_content db0 (env_db st) →
  let '(r, s) := apply_with_recovery_using (Sink0 := adapter_sink input_json planner) reopen tx plans
                   (mkLoop (Some w) st stops) in
  (∀ x, r = Ok x → applied_once db0 (ls_sink s))
  ∧ (same_content db0 (env_db (ls_sink s)) ∨ applied_once db0 (ls_sink s)).
Proof.
  intros Hdue Hplan Hopen Hw Hst. pose proof (adapter_sink_laws Hdue Hplan Hopen) as Hlaws.
  pose proof (apply_loop_safe (SinkLaws0 := Hlaws) reopen tx plans _ _ _ MAX_APPLY_RETRIES w st stops Hw (or_introl Hst)) as H.
  unfold apply_with_recovery_using. destruct (apply_loop _ _ _ _ _) as [r s].
  unfold safe, untouched in H. tauto.
Qed.
End laws.
