(* ===== verification/PgSink.v ===== *)
(** * The PostgreSQL checkpoint writer as a sink of the worker
    ([VersionedPostgresqlSink], [crates/web_ui/src/task_worker.rs])

    The adapter of AdapterSink.v for the writer of Checkpoint.v, how the worker
    opens it, and a run of the recovery loop with a lost acknowledgement. *)
From S2P Require Import Prelude Text Codec Model Representation Validate Snapshot Outcome.
From S2P Require Import Gtid Position Target Session ControlRow Contract Checkpoint CheckpointSpec SnapshotSpec.
From S2P Require Import Worker AdapterSink Plan.

(** ** The diagnostic script ([crates/postgresql_15/src/sql.rs]) *)
Definition NL : string := String "010" "".
Definition sanitize_comment (value : string) : string :=
  of_bytes ((λ c : byte, if bool_decide (c ∈ ["013"; "010"]%char) then " "%char else c) <$> sbytes value).

Definition script (p : SqlTransaction) : string :=
  ("-- cdc transaction=" +:+ sanitize_comment (sq_source_transaction_id p) +:+ " target=postgresql-"
   +:+ sq_target_version p +:+ NL +:+ "BEGIN;" +:+ NL)
  +:+ foldr (λ st rest, ps_diagnostic_sql st +:+ NL +:+ rest) ("COMMIT;" +:+ NL) (sq_statements p).

(** ** The sink *)
Section sink.
Context {D : Type} `{Server : PgServer D} `{B64 : Base64, SHA : Sha256}.
Context (json_logical_value : string → option LogicalValue)
        (json_envelope : list byte → option SourceRepresentationEnvelope)
        (snapshot_sql : ValidatedSnapshotBatch → io SnapshotSql).

Definition pg_adapter : Adapter D SqlTransaction := {|
  ad_apply := Checkpoint.apply json_logical_value json_envelope;
  ad_advance := Checkpoint.advance json_logical_value json_envelope;
  ad_resolve := resolve_commit_unknown;
  ad_classify := Outcome.Postgres.classify_apply_error;
  ad_script := script;
  ad_identity p := (sq_source_uuid p, sq_source_transaction_id p, sq_commit_cursor p)
|}.

Lemma pg_adapter_laws :
  AdapterLaws pg_adapter (DL := pg_dialect json_logical_value json_envelope snapshot_sql).
Proof.
  split.
  - intros w plan source id cursor s [= <- <- <-]. apply apply_inner_wp.
  - intros w tx s Hnil. cbn [ad_advance pg_adapter]. unfold advance. rewrite Hnil.
    apply (apply_inner_wp json_logical_value json_envelope snapshot_sql).
  - intros w tx s. apply resolve_wp.
  - intros e He. cbn. unfold Outcome.Postgres.classify_apply_error. by rewrite He.
Qed.

Context (input_json : PlanDigestInput → list byte)
        (planner : ValidatedTransaction → list ColumnConversionPlan → io SqlTransaction).
(** The sink, its planner being that of the target version ([planner:
    PostgresqlPlanner], a function pointer). *)
Definition pg_sink : Sink (Env D) CheckpointWriter ColumnConversionPlan :=
  adapter_sink (AD := pg_adapter) input_json planner.

(** [open_versioned_postgresql_sink]: what the server reports as its version,
    and the identity drawn for a new sink, depend on the session. *)
Context (server_version fresh_uuid : Env D → string).
Definition open_sink (task source binding target : string) : Env D → io CheckpointWriter * Env D :=
  λ st, open_for_version (server_version st) (fresh_uuid st) task source binding target st.

Lemma open_sink_safe (task source binding target : string) : reopen_safe (open_sink task source binding target) task.
Proof.
  intros st r st' H. pose proof (open_wp (server_version st) (fresh_uuid st) task source binding target st) as Hw.
  unfold wp in Hw. unfold open_sink in H. rewrite H in Hw. cbn [fst snd] in Hw.
  destruct Hw as [Hc Hr]. split; [exact Hc|]. intros w ->. exact (proj1 Hr).
Qed.

Definition apply_with_recovery (task source binding target : string) (tx : ChangeTransaction)
    (plans : list ColumnConversionPlan) : LoopState (Env D) CheckpointWriter → io ApplyResult * LoopState (Env D) CheckpointWriter :=
  apply_with_recovery_using (Sink0 := pg_sink) (open_sink task source binding target) tx plans.
End sink.

(** ** A concrete run: the acknowledgement of the COMMIT is lost *)
Module Example2.
#[local] Existing Instance Rfc4648.base64.
#[local] Existing Instance SumDigest.sha256.
#[local] Existing Instance ListServer.server.
Import Example1.

Definition change2 : RowChange :=
  mkChange None Insert "public" "t" cur1 1700000000000 "basis"
    None (Some [mkColumn 0 "id" "int" (Some 0) false None (Value (VInteger true 32 "1"))]).
Definition tx2 : ChangeTransaction :=
  mkTransaction (mkSource "mysql" "8.0.36" "src") id1 cur1 cur1 [change2].

(** A plan with its digest; the planner renders the example statements. *)
Definition json2 (_ : PlanDigestInput) : list byte := [].
Definition plan2 : ColumnConversionPlan :=
  Example4.plan_of [] [] NotRequired (sha256_hex (Sha256 := SumDigest.sha256) []).
Definition planner2 (v : ValidatedTransaction) (_ : list ColumnConversionPlan) : io SqlTransaction :=
  let t := vt_transaction v in
  Ok (mkSqlTransaction (src_id (tx_source t)) (tx_id t) (tx_commit_cursor t) "15"
        [("public", "t")]%string [ListServer.insert_row 1]).
Definition version2 (_ : Env ListServer.db) : string := "15.4"%string.
Definition uuid2 (_ : Env ListServer.db) : string := "sink"%string.
Definition st2 : Env ListServer.db :=
  mkEnv db0 [NoFault; NoFault; NoFault; NoFault; CommitLost true "reset"].

Definition adapter2 : Adapter ListServer.db SqlTransaction := pg_adapter no_logical_value no_envelope.
Lemma due2 : due (DL := dialect0) "task" tx2 db0 w0.
Proof. split; [done|exact pending0]. Defined.
Lemma planner2_keeps : planner_keeps_position (AD := adapter2) planner2 [plan2].
Proof. by intros v p [= <-]. Defined.
End Example2.

Section witnesses.
#[local] Existing Instance Rfc4648.base64.
#[local] Existing Instance SumDigest.sha256.
#[local] Existing Instance ListServer.server.
Import Example1 Example2.

Lemma apply_exactly_once_witness :
  let '(r, s) := apply_with_recovery_using
                   (Sink0 := pg_sink no_logical_value no_envelope json2 planner2)
                   (open_sink version2 uuid2 "task" "src" binding64 "15") tx2 [plan2]
                   (mkLoop (Some w0) st2 []) in
  (∀ x, r = Ok x → applied_once (DL := dialect0) json2 planner2 "task" tx2 [plan2] db0 (ls_sink s))
  ∧ (untouched db0 (ls_sink s) ∨ applied_once (DL := dialect0) json2 planner2 "task" tx2 [plan2] db0 (ls_sink s)).
Proof.
  pose (laws := adapter_sink_laws (DL := dialect0) (AD := adapter2)
                  (AdapterLaws0 := pg_adapter_laws no_logical_value no_envelope no_snapshot_sql)
                  json2 planner2 (open_sink version2 uuid2 "task" "src" binding64 "15")
                  "task" tx2 [plan2] db0 w0 due2 planner2_keeps
                  (open_sink_safe version2 uuid2 "task" "src" binding64 "15")).
  apply (apply_exactly_once _ _ _ _ _ _ (SinkLaws0 := laws)); [reflexivity|split; reflexivity].
Defined.
End witnesses.
