(* ===== verification/Pipeline.v ===== *)
(** * From a source transaction to the rows of the target

    The sink of PgSink.v with the planner of PgSql.v: the planner keeps the
    identity and the position of what it plans, so the promises of the recovery
    loop hold for it, and what the loop executes is the statement of each
    converted change. *)
From S2P Require Import Prelude Text Codec Model Representation Validate Snapshot Outcome Plan JsonText Convert.
From S2P Require Import RowSql Target PgRender PgSql PgSqlSpec Session ControlRow Contract Checkpoint CheckpointSpec SnapshotSpec.
From S2P Require Import Worker AdapterSink PgSink.

Section pipeline.
Context {D : Type} `{Server : PgServer D} `{B64 : Base64, SHA : Sha256, JP : JsonPrinter, PS : PlanSerde, PT : PgText}.
Context (json_logical_value : string → option LogicalValue)
        (json_envelope : list byte → option SourceRepresentationEnvelope).
Context (snapshot_sql : ValidatedSnapshotBatch → io SnapshotSql).
Context (input_json : PlanDigestInput → list byte) (target_version : string).
Context (server_version fresh_uuid : Env D → string).
Context (task source binding target : string) (tx : ChangeTransaction) (plans : list ColumnConversionPlan).
Context (db0 : Db D) (w0 : CheckpointWriter).

#[local] Hint Extern 0 (Dialect D _) =>
  exact (pg_dialect json_logical_value json_envelope snapshot_sql) : typeclass_instances.
Notation adapter := (pg_adapter json_logical_value json_envelope).

(** [sql_with_plans] of the target version. *)
Definition pg_planner : ValidatedTransaction → list ColumnConversionPlan → io SqlTransaction :=
  sql_with_plans_for_version input_json target_version.

Lemma pg_planner_keeps_position : planner_keeps_position (AD := adapter) pg_planner plans.
Proof.
  intros v p H. destruct (PgSqlSpec.Spec.planned_transaction _ _ _ _ _ H) as (_ & _ & (H1 & H2 & H3 & _) & _).
  unfold plan_matches. cbn. congruence.
Qed.

(** The business data before and after the transaction [tx]: untouched when the
    route left it no changes; otherwise its tables were checked and locked, and
    the planned statement of each converted change ran, in order. *)
Definition changes_ran (d d' : D) : Prop :=
  tx_changes tx = [] ∧ d' = d
  ∨ ∃ t' tables sts d0,
      Convert.Spec.transaction_converted plans tx t' ∧ Validate.Spec.transaction_ok t'
      ∧ covered plans tx
      ∧ (∀ table, table ∈ tables
           ↔ ∃ change, change ∈ tx_changes tx ∧ table = (chg_schema change, chg_table change))
      ∧ check_tables d tables = Ok d0
      ∧ Forall2 (PgSqlSpec.Spec.planned_change plans) (tx_changes t') sts
      ∧ ran json_logical_value json_envelope d0 sts d'.

(** The database the task found, with the changes of [tx] executed and the row
    of the task moved to [tx]; locks aside. *)
Definition executed_once (st : Env D) : Prop :=
  ∃ w db db', w_task_id w = task ∧ same_content db0 db
    ∧ changes_ran (db_data db) (db_data db')
    ∧ recorded w (tx_id tx) (tx_commit_cursor tx) db'
    ∧ (∀ other, other ≠ task → db_log_info db' !! other = db_log_info db !! other)
    ∧ same_content db' (env_db st).

Lemma plan_ran plan d d' :
  planned_by input_json pg_planner tx plans plan →
  plan_effect plan d = Ok d' → changes_ran d d'.
Proof.
  destruct plan as [p|]; cbn [planned_by plan_effect dl_execute pg_dialect]; [|intros H [= <-]; by left].
  intros (_ & v & Hv & Hp) (d0 & Hc & Hr)%bind_ok. right.
  pose proof (validate_same _ _ Hv) as <-.
  destruct (PgSqlSpec.Spec.planned_transaction _ _ _ _ _ Hp)
    as (_ & Hcov & _ & Htab & _ & _ & _ & t' & Ht & Hok & Hst).
  exists t', (sq_tables p), (sq_statements p), d0. split_and!; try done. by apply execute_all_ok.
Qed.

Lemma applied_executed st :
  applied_once input_json pg_planner task tx plans db0 st → executed_once st.
Proof.
  intros (w & plan & db & db' & Ht & Hs & Hby & He & Hs'). exists w, db, db'.
  pose proof (effect_recorded _ _ _ _ _ _ He) as Hrec.
  destruct He as (cp & file & position & data & gtids & _ & _ & _ & _ & _ & _ & _ & _ & _ & Hp & _ & ->).
  split_and!; try done; [by eapply plan_ran|].
  intros other Hne. cbn. rewrite lookup_insert_ne; [done|congruence].
Qed.

End pipeline.

(** ** A run with a lost acknowledgement *)
Module Example13.
#[local] Existing Instance Rfc4648.base64.
#[local] Existing Instance SumDigest.sha256.
#[local] Existing Instance JsonText.Example10.plain_printer.
#[local] Existing Instance ListServer.server.
Import Example1 Example2 PgSqlSpec.Example12.

End Example13.
