(* ===== verification/MySink.v ===== *)
(** * From a source transaction to the rows of a MySQL target

    The adapter of AdapterSink.v for the MySQL writer ([sink_adapter!] at
    [mysql_5_7], [mysql_8_0] and [mysql_8_4] with their [sql_with_plans]), and what
    the recovery loop then guarantees with the planner of MySql.v. *)
From S2P Require Import Prelude Text Codec Model Representation Validate Snapshot Outcome Plan JsonText Convert.
From S2P Require Import Gtid Position RowSql MyRender MySql MySqlSpec Session ControlRow Contract.
From S2P Require Import MyTarget MyCheckpoint MyServers MyCheckpointSpec MySnapshotSpec Worker AdapterSink.

Section sink.
Context {D : Type} `{Server : MyServer D, Gtids : MyGtid, Catalog : MyCatalog D, Text : MysqlText}.
Context `{B64 : Base64, SHA : Sha256, JP : JsonPrinter, PS : PlanSerde, FT : Floats.FloatText}.
Context (json_value : list byte → option LogicalValue)
        (json_envelope : list byte → option SourceRepresentationEnvelope)
        (snapshot_sql : ValidatedSnapshotBatch → io MySnapshotSql)
        (target_version : string).
#[local] Hint Extern 0 (Dialect D _) =>
  exact (my_dialect json_value json_envelope snapshot_sql) : typeclass_instances.

Definition my_adapter : Adapter D MyTransaction := {|
  ad_apply := MyCheckpoint.apply json_value json_envelope;
  ad_advance := MyCheckpoint.advance json_value json_envelope;
  ad_resolve := resolve_commit_unknown;
  ad_classify := Outcome.MySql.classify_apply_error;
  ad_script := script target_version;
  ad_identity p := (mt_source_uuid p, mt_source_transaction_id p, mt_commit_cursor p)
|}.

Lemma my_adapter_laws :
  AdapterLaws my_adapter (DL := my_dialect json_value json_envelope snapshot_sql).
Proof.
  split.
  - intros w plan source id cursor s [= <- <- <-]. apply my_apply_inner_wp.
  - intros w tx s Hnil. cbn [ad_advance my_adapter]. unfold advance. rewrite Hnil.
    apply (my_apply_inner_wp json_value json_envelope snapshot_sql).
  - intros w tx s. apply my_resolve_wp.
  - intros e He. cbn. unfold Outcome.MySql.classify_apply_error. by rewrite He.
Qed.

Context (input_json : PlanDigestInput → list byte).
Definition my_planner : ValidatedTransaction → list ColumnConversionPlan → io MyTransaction :=
  sql_with_plans target_version input_json.

Lemma my_planner_keeps_position plans : planner_keeps_position (AD := my_adapter) my_planner plans.
Proof.
  intros v p H. destruct (MySqlSpec.Spec.my_planned_transaction _ _ _ _ _ H) as (_ & _ & (H1 & H2 & H3) & _).
  unfold plan_matches. cbn. congruence.
Qed.

Definition my_sink : Sink (Env D) CheckpointWriter ColumnConversionPlan :=
  adapter_sink (AD := my_adapter) input_json my_planner.

(** [open_sink]: what the server reports as its version depends on the session. *)
Context (server_version : Env D → string).
Definition my_open_sink (task source binding : string) : Env D → io CheckpointWriter * Env D :=
  λ st, open target_version (server_version st) task source binding st.

Lemma my_open_sink_safe (task source binding : string) : reopen_safe (my_open_sink task source binding) task.
Proof.
  intros st r st' H. unfold my_open_sink in H.
  pose proof (keeps_open target_version (server_version st) task source binding st) as Hc. unfold wp in Hc.
  pose proof (open_yields target_version (server_version st) task source binding st) as Hw.
  rewrite H in Hc, Hw. split; [exact Hc|]. intros w ->. by apply Hw.
Qed.

Definition my_apply_with_recovery (task source binding : string) (tx : ChangeTransaction)
    (plans : list ColumnConversionPlan) : LoopState (Env D) CheckpointWriter → io ApplyResult * LoopState (Env D) CheckpointWriter :=
  apply_with_recovery_using (Sink0 := my_sink) (my_open_sink task source binding) tx plans.

(** ** What reaches the target *)
Context (task source binding : string) (tx : ChangeTransaction) (plans : list ColumnConversionPlan).
Context (db0 : Db D) (w0 : CheckpointWriter).

(** The business data before and after the transaction [tx]: untouched when the
    route left it no changes; otherwise its tables were checked, and the planned
    statement of each converted change ran, in order. *)
Definition my_changes_ran (d d' : D) : Prop :=
  tx_changes tx = [] ∧ d' = d
  ∨ ∃ t' tables sts d0,
      Convert.Spec.transaction_converted plans tx t' ∧ Validate.Spec.transaction_ok t'
      ∧ covered plans tx
      ∧ (∀ table, table ∈ tables
           ↔ ∃ change, change ∈ tx_changes tx ∧ table = (chg_schema change, chg_table change))
      ∧ check_tables d tables = Ok d0
      ∧ Forall2 (MySqlSpec.Spec.planned_change target_version plans) (tx_changes t') sts
      ∧ my_ran json_value json_envelope d0 sts d'.

(** The database the task found, with the changes of [tx] executed and the row
    of the task moved to [tx]; locks aside. *)
Definition my_executed_once (st : Env D) : Prop :=
  ∃ w db db', w_task_id w = task ∧ same_content db0 db
    ∧ my_changes_ran (db_data db) (db_data db')
    ∧ settled w (tx_id tx) (tx_commit_cursor tx) db'
    ∧ (∀ other, other ≠ task → db_log_info db' !! other = db_log_info db !! other)
    ∧ same_content db' (env_db st).

Lemma my_plan_ran plan d d' :
  planned_by input_json my_planner tx plans plan →
  plan_effect plan d = Ok d' → my_changes_ran d d'.
Proof.
  destruct plan as [p|]; cbn [planned_by plan_effect dl_execute my_dialect]; [|intros H [= <-]; by left].
  intros (_ & v & Hv & Hp) (d0 & Hc & Hr)%bind_ok. right.
  pose proof (validate_same _ _ Hv) as <-.
  destruct (MySqlSpec.Spec.my_planned_transaction _ _ _ _ _ Hp) as (_ & Hcov & _ & _ & Htab & _ & t' & Ht & Hok & Hst).
  exists t', (mt_tables p), (mt_statements p), d0. split_and!; try done. by apply my_execute_all_ok.
Qed.

Lemma my_applied_executed st :
  applied_once input_json my_planner task tx plans db0 st → my_executed_once st.
Proof.
  intros (w & plan & db & db' & Ht & Hs & Hby & He & Hs'). exists w, db, db'.
  pose proof (effect_settled _ _ _ _ _ _ He) as Hset.
  destruct He as (cp & file & position & data & gtids & _ & _ & _ & _ & _ & _ & _ & _ & _ & Hp & _ & ->).
  split_and!; try done; [by eapply my_plan_ran|].
  intros other Hne. cbn. rewrite lookup_insert_ne; [done|congruence].
Qed.

End sink.

(** ** A run with a lost acknowledgement *)
Module MyExample2.
#[local] Existing Instance Rfc4648.base64.
#[local] Existing Instance SumDigest.sha256.
#[local] Existing Instance JsonText.Example10.plain_printer.
Import MyExample1 MySqlSpec.Example14.

Definition change2 : RowChange :=
  mkChange None Insert "public" "t" cursor1 1700000000000 "basis"
    None (Some [mkColumn 1 "id" "integer" (Some 0) false None (Value (VInteger true 32 "7"))]).
Definition tx2 : ChangeTransaction :=
  mkTransaction (mkSource "mysql" "8.0.36" "src") gtid1 cursor1 cursor1 [change2].
Definition version2 (_ : Env db) : string := "8.0.36"%string.
Definition state2 : Env db := mkEnv base0 (repeat NoFault 8 ++ [CommitLost true "reset"]).
Lemma my_due2 : due (DL := dialect1) "task" tx2 base0 writer0.
Proof. split; [done|exact my_pending0]. Defined.

(** The planner accepts the transaction. *)
Example my_planned2 : ∃ p, (let? v := map_err (λ _, other "") (validate tx2) in my_planner "8.0" json14 v plans14) = Ok p.
Proof. eexists. vm_compute. reflexivity. Qed.

End MyExample2.
